(* ===== verification/_CoqProject ===== *)
-Q . S2P
Prelude.v
Net.v
ByteOrder.v
Srtp.v
RtpCore.v
Utf8.v
Text.v
Addr.v
StunParse.v
StunWrite.v
Meta.v
Demux.v
Jitter.v
Media.v
Stream.v
Group.v
Clients.v
Store.v
Runtime.v
Sample.v
Threads.v
Rely.v
ClientActor.v
RtcActor.v
Udp.v
Sdp.v
Http.v
DtlsTask.v
Crypto.v
Startup.v
Server.v
Interleaved.v
Concurrent.v
System.v
Ordering.v
Network.v
Parallel.v
