(* ===== verification/Prelude.v ===== *)
(** * R-Streamer: a verification development

    R-Streamer (src/src/) is a WebRTC media server in Rust. A streamer and its
    viewers negotiate a session over HTTP and then send STUN, DTLS and RTP over one
    UDP socket; the server terminates DTLS and SRTP for each of them and forwards
    the streamer's packets to the viewers of its group.

    ** The program

    The program is a set of actors (crate [actix]) with mailboxes:

    - [UdpRecv] (server/udp.rs) receives datagrams, classifies them
      ([WebRtcRequest::from]), keeps the table of sessions, and routes requests;
    - [UdpSend] (server/udp.rs) answers STUN requests and sends datagrams;
    - [JitterControlActor] (rtp/jitter.rs) delays RTP packets per address;
    - [ClientActor] (client/actor.rs) creates and deletes clients, runs their DTLS
      handshakes, groups viewers with streamers, and stores media descriptions;
    - [RtcActor] (client/rtc_actor.rs), one per core, decrypts, renumbers and
      forwards RTP and RTCP packets.

    [ClientActor] and [RtcActor] share the client table, whose clients are
    reference counted objects behind locks; the other actors exchange messages.

    ** The files

    - [Prelude]: outcomes of a computation (return, panic, no return), Rust's
      [Result] and [From], machine integers in the two overflow profiles, slices, clocks, the
      tactics and the hint database of the development.
    - [Net], [ByteOrder], [Utf8], [Text], [Addr]: socket addresses, [NetworkEndian], the
      UTF-8 validation of [str::from_utf8], [str::replace] and decimal digits, and
      [parse::<SocketAddr>].
    - [Srtp] (rtp/srtp.rs): [SrtpTransport] over the parameters [SrtpLib].
    - [RtpCore] (rtp/core.rs and the two header writers of client/rtc_actor.rs).
    - [StunParse], [StunWrite] (stun/mod.rs): the parser and the writer, against a
      wire format of requests and responses.
    - [Meta] (server/meta.rs): the generated user name and password.
    - [Demux] (server/udp.rs:57-73 and 337-359, dtls/): classification of datagrams.
    - [Jitter] (rtp/jitter.rs): the actor as a machine over its mailbox.
    - [Media] (sdp/media.rs): payload types, codec names and frequencies.
    - [Stream] (client/stream.rs, [push_dtls]): the packet stream under OpenSSL.
    - [Group], [Clients] (client/group.rs, client/clients.rs): groups, clients, the
      locks they are behind, and [Platform], the class of everything the client side
      calls outside the repository.
    - [Store]: the shared heap of clients, the monad of the handlers (a program is a
      tree of operations), its [run] on a world, the total-correctness rules ([runs])
      and the invariant [world_ok].
    - [Runtime] (client/rtc_actor.rs:101-156): numbering and jitter statistics.
    - [Sample]: a concrete platform and a small world, for runs of the model.
    - [Threads]: handlers as threads of a pool, one operation per step; termination of
      every schedule and freedom from deadlock for a lock order.
    - [Rely]: an assertion language for threads that share a world: what is known only
      grows, an invariant holds between any two operations; adequacy.
    - [ClientActor] (client/actor.rs): the handlers of the client actor.
    - [RtcActor] (client/rtc_actor.rs): the forwarding handler.
    - [Udp] (server/udp.rs, client/sessions.rs): the UDP actors.
    - [Sdp] (sdp/mod.rs): registration of sessions and the answer to an offer.
    - [Http] (main.rs:73-88): the endpoint that takes the offers.
    - [DtlsTask] (dtls/connector.rs, client/dtls.rs, client/actor.rs:72-125): the
      DTLS sessions as interleaved tasks.
    - [Crypto] (server/crypto.rs, server/udp.rs:313-317): the TLS set-up.
    - [Startup] (main.rs): addresses from the environment, start-up, the index page.
    - [Server] (server/udp.rs:313-335): the actors and the DTLS tasks composed into one
      transition system whose steps are whole handlers, and its invariant.
    - [Interleaved]: the protocol the handlers follow on the shared store, proved of
      every handler operation by operation.
    - [Concurrent]: the composition of [Server] with its threads: the event loop, and the
      workers of the RTC actor (client/rtc_actor.rs:24-36).
    - [System]: everything together: the HTTP endpoint, the socket, the jitter actor, the
      tasks of RTP packets (server/udp.rs:150-181), the mailbox of the workers.
    - [Ordering]: the order of packets in [System].
    - [Network] (server/udp.rs:232-311, 382-390): [System] with the sending actor: its
      mailbox, the datagrams being sent, what has left the server.
    - [Parallel] (client/rtc_actor.rs:178-226): the receivers of a packet served by several
      threads at once, against the sequential [forward] of [RtcActor].

    ** How code is translated

    A Rust function becomes a function into [outcome]: [Done], [Panicked] (index,
    slice, [copy_from_slice], duration and checked integer arithmetic) or [Stuck]
    (waiting for a lock the thread holds itself, or fuel exhausted). Integers are
    [Z] in range; [usize] positions in a buffer are [nat]. The [dev] profile checks
    overflow and the [release] profile wraps: [arith] takes the profile. Hash maps
    are [gmap]; where the code iterates over one, the model uses the order of
    [map_to_list], or takes the order as an argument where the result could depend
    on it. Clock readings, random draws, the thread pool's schedule and the DTLS
    peer are arguments. Handlers of the two client-side actors are programs of the
    monad [M]: taking and releasing locks, reading and writing the heap of clients (a
    pointer may be shared by the table and several receiver maps), the client table
    and the groups, reading the clock, sending a message. [run] executes a program
    without interruption, where waiting for a lock is waiting for oneself; [Threads]
    executes several, one operation at a time in any order, and the lemma
    [handlers_alone] says that the two agree on a thread that is alone. How a lock decides between waiting
    readers and writers is the parameter [admits] of [RwLockOps].

    Crates, OpenSSL, libsrtp and the runtime are not in the repository. They are the
    type classes [ByteOrder], [SrtpLib], [StunCrypto], [BiMapOps], [SdpMediaOps],
    [SdpLib], [SdpDisplay], [Mpsc], [ReadBufOps], [RwLockOps], [DtlsLib] and
    [OpensslLib]; what their documentation
    promises is stated in classes of laws ([NetworkEndian], [SrtpLaws],
    [StunCryptoLaws], ...) and each has a concrete instance.

    Two loops have fuel. The attribute loop of the STUN parser gets one more than the
    header's length field, and every iteration advances the offset by at least four
    towards it ([attributes_loop_total]); [str::replace] gets the length of the text,
    and every round consumes a byte of it ([replace_cons]).

    ** What is shown

    - Parsing: the STUN parser never panics or loops, accepts only what was in the
      datagram, and reads encoded requests back; it does so exactly when at least
      twenty bytes of attributes follow the user name ([stun_parse_encoded]). The
      writer fills the response completely, and its address attribute decodes to
      the remote address. Classification is by content, and panics on the empty
      datagram only. Rewriting an RTP header decodes back.
    - Signalling: the exchange on every path, the answer attribute type by attribute
      type; an answered client's STUN requests are accepted; a refused offer leaves
      nothing behind; the generated names survive the STUN user name.
    - Jitter buffer: it returns and refines a FIFO queue per address, hands over at
      least 50 ms apart, and a packet after the delay releases the queue.
    - Numbering: faithful on ordered streams, repeated numbers at a wrap-around and
      for late packets, and a jitter delay that underflows on a quiet stream.
    - Client actor: over any messages no handler panics and [world_ok] holds, the
      functional effect of joins, deletions, datagrams and media descriptions
      ([group_joins]: a streamer becomes its own receiver); the takeover of a group by
      another sender waits for itself, and so does a streamer that comes after a viewer
      ([early_viewer_blocks_sender]).
    - Forwarding: the handler refines a specification on the sender's client
      without store and locks ([rtp_step]), and on the receivers, on every outcome: an
      accepted packet goes to the live receivers up to the first that cannot encrypt,
      and to those the pool still serves, to all of them when each can ([rtp_forwarded]);
      every error is explained, with all it leaves behind ([rtp_errors]); RTCP feedback
      goes to the client's sender ([rtcp_feedback]); in every case packets go to live
      receivers or to the client's own sender only; a receiver that is not ready can
      starve the others.
    - Sessions: STUN is answered for registered sessions only; sessions expire a
      minute after their registration in spite of traffic.
    - DTLS: a client connects at most once, failed handshakes delete the client,
      and two handshakes can destroy a session. The tasks of [Concurrent] are those the
      client actor has started: a client's SRTP context is that of the one handshake a
      task of its address has made ([sessions_connect_once]).
    - Concurrency: with the operations of all handlers interleaved, no handler panics,
      every schedule ends, and when no thread can go on all are finished, the takeover
      of a group excepted ([handlers_finish]), which freezes the whole server
      ([takeover_freezes_server]); data under a held lock is changed by its holder only
      ([locks_protect]); the store stays well typed ([store_well_typed]); and a worker
      that no other handler disturbs ends in exactly the state of the specification,
      whatever becomes of the packet ([packet_delivered]).
    - The system: every request the sending actor gets, and so every datagram that
      leaves the server, answers a STUN request of an address that offers and STUN
      requests let into a group, or is a record that the outgoing DTLS stream of the
      client of its destination brought (the history [ts_records]), or is a packet received
      from an address of a common group, accepted with the keys of that address's
      handshake and encrypted again with those of its destination's
      ([datagrams_justified]); the sending actor loses and repeats nothing
      ([sends_accounted]); every RTP packet is accounted for ([packets_accounted]);
      batches are handled in order ([batches_in_order]), while the workers can lose the
      order between batches ([workers_repeat_number]).
    - Parallelism: the closures of rayon for the receivers of a packet end, without panic
      or deadlock, and can do exactly what [forward] does under some schedule
      ([parallel_forwarding]), so that what is shown of [forward] holds of them.
    - Start-up: the addresses, the generated identity, and the certificate, key and
      SRTP profile of the acceptor fit together ([startup], [crypto_identity]).

    ** Bounds and approximations

    [Network], [System] and [Concurrent] allow more schedules than the program has:
    mailboxes are taken in any order, the jitter actor gets any commands beside the
    packets, the timer may fire at any time, and a DTLS task takes its next step even
    while the client actor still has the deletion it asked for in its mailbox.
    Properties of all reachable states hold of the program a fortiori; the runs that
    show a defect ([workers_repeat_number], [takeover_freezes_server_witness]) take
    mailboxes in order.

    ** What is not modelled

    Steps of the receiving actor and of a DTLS task are atomic: they share data with
    the event loop only, except the SRTP contexts, whose publication is a thread of its
    own. In [Concurrent] and above a worker serves the receivers of a packet one after the
    other, in any order; that the closures running in parallel do the same is shown for a
    worker alone ([Parallel]), beside which the other handlers stand still. The capacity
    of mailboxes (1024) is left out: [send] waits for room and [do_send] ignores it, so
    that no message is lost to it; it only delays, and any delay is already a schedule.
    Log lines, and [Display] of [ErrorParse] and [ClientError], which are only logged; the
    socket, the timers and the routing of actix-web. [calculate_payload]'s use for
    receivers is modelled where it is written, although no packet reaches it.

    Plan: the closures of [Parallel] among the other handlers of [Concurrent]; the order of
    messages between two actors. *)

From stdpp Require Export base list gmap numbers strings.
From Stdlib Require Export ZArith Lia.

(** ** Outcomes of a Rust computation

    [Done] is a normal return, [Panicked] an unwinding panic (index or slice
    out of range, failed [copy_from_slice], arithmetic overflow where it is
    checked), [Stuck] a computation that does not return: a thread waiting
    for a lock it holds itself, or a loop whose fuel was too small. *)
Inductive outcome (A : Type) : Type :=
| Done (a : A)
| Panicked
| Stuck.
Arguments Done {_} _.
Arguments Panicked {_}.
Arguments Stuck {_}.

#[export] Instance outcome_ret : MRet outcome := @Done.
#[export] Instance outcome_bind : MBind outcome := λ A B f m,
  match m with
  | Done a => f a
  | Panicked => Panicked
  | Stuck => Stuck
  end.
#[export] Instance outcome_fmap : FMap outcome := λ A B f m,
  match m with
  | Done a => Done (f a)
  | Panicked => Panicked
  | Stuck => Stuck
  end.

#[export] Instance outcome_eq_dec `{EqDecision A} : EqDecision (outcome A).
Proof. solve_decision. Defined.

(** The computation returns. *)
Definition is_done {A} (o : outcome A) : bool :=
  match o with Done _ => true | _ => false end.

(** Rust's [Result<A, E>]. *)
Inductive result (A E : Type) : Type :=
| Ok (a : A)
| Err (e : E).
Arguments Ok {_ _} _.
Arguments Err {_ _} _.

#[export] Instance result_eq_dec `{EqDecision A, EqDecision E} :
  EqDecision (result A E).
Proof. solve_decision. Defined.

(** The [?] operator in a function that returns a [Result]. *)
(** [From]: the conversion of an error that [?] and [into] insert. *)
Class From (A B : Type) := from : A → B.
#[global] Arguments from {_ _ _} _ /.

Definition try_bind {A B E} (m : outcome (result A E))
    (k : A → outcome (result B E)) : outcome (result B E) :=
  match m with
  | Done (Ok a) => k a
  | Done (Err e) => Done (Err e)
  | Panicked => Panicked
  | Stuck => Stuck
  end.

(** The [?] operator in a function that returns an [Option]. *)
Definition opt_bind {A B} (o : option A) (k : A → outcome (option B)) :
    outcome (option B) :=
  match o with Some a => k a | None => Done None end.

Declare Scope rust_scope.
Delimit Scope rust_scope with rust.
Notation "x '←?' m ; k" := (try_bind m (λ x, k))
  (at level 20, m at level 100, k at level 200) : rust_scope.
Notation "x '←!' o ; k" := (opt_bind o (λ x, k))
  (at level 20, o at level 100, k at level 200) : rust_scope.
Open Scope rust_scope.

(** ** Machine integers

    A [uN] is a [Z] in range. Overflow of [+], [-], [*] panics when overflow
    checks are compiled in (the [dev] profile) and wraps in the [release]
    profile, which [Cargo.toml] leaves at its default. *)
Inductive profile := Debug | Release.

Definition is_u8 (z : Z) : Prop := (0 ≤ z < 256)%Z.
Definition is_u16 (z : Z) : Prop := (0 ≤ z < 65536)%Z.
Definition is_u32 (z : Z) : Prop := (0 ≤ z < 4294967296)%Z.
Abbreviation bytes_ok := (Forall is_u8).

#[export] Instance is_u8_dec z : Decision (is_u8 z).
Proof. unfold is_u8. apply _. Defined.
#[export] Instance is_u16_dec z : Decision (is_u16 z).
Proof. unfold is_u16. apply _. Defined.
#[export] Instance is_u32_dec z : Decision (is_u32 z).
Proof. unfold is_u32. apply _. Defined.

(** The value of a [w]-bit operation whose exact result is [z]. *)
Definition arith (prof : profile) (w z : Z) : outcome Z :=
  if decide (0 ≤ z < 2 ^ w)%Z then Done z
  else match prof with
       | Debug => Panicked
       | Release => Done (z mod 2 ^ w)%Z
       end.

Arguments arith : simpl never.

Definition saturating_sub (a b : Z) : Z := Z.max 0 (a - b).

(** [usize] subtraction of positions and lengths; in the code modelled here
    it never leaves the range of a buffer, so [usize] is [nat] and only the
    subtraction can fail. *)
Definition usub (a b : nat) : outcome nat :=
  if decide (b ≤ a) then Done (a - b) else Panicked.

(** ** Slices *)
Section slices.
Context {A : Type}.

(** [b[i]] *)
Definition index (b : list A) (i : nat) : outcome A :=
  match b !! i with Some x => Done x | None => Panicked end.

(** [&b[i..j]] *)
Definition slice (b : list A) (i j : nat) : outcome (list A) :=
  if decide (i ≤ j ∧ j ≤ length b) then Done (take (j - i) (drop i b))
  else Panicked.

(** [f(&mut b[i..j])], giving the new contents of [b] *)
Definition with_slice (b : list A) (i j : nat)
    (f : list A → outcome (list A)) : outcome (list A) :=
  s ← slice b i j; s' ← f s; Done (take i b ++ s' ++ drop j b).

(** [b[i] = x] *)
Definition store (b : list A) (i : nat) (x : A) : outcome (list A) :=
  if decide (i < length b) then Done (<[i := x]> b) else Panicked.

(** [dst.copy_from_slice(src)] *)
Definition copy_from_slice (src dst : list A) : outcome (list A) :=
  if decide (length dst = length src) then Done src else Panicked.

(** [b.split_at_mut(n)] *)
Definition split_at_mut (b : list A) (n : nat) : outcome (list A * list A) :=
  if decide (n ≤ length b) then Done (take n b, drop n b) else Panicked.

Lemma index_Done b i x : b !! i = Some x → index b i = Done x.
Proof. unfold index. by intros ->. Qed.

Lemma index_is_Done b i : i < length b → ∃ x, b !! i = Some x ∧ index b i = Done x.
Proof.
  intros [x Hx]%lookup_lt_is_Some. exists x. eauto using index_Done.
Qed.

Lemma slice_Done b i j :
  i ≤ j → j ≤ length b → slice b i j = Done (take (j - i) (drop i b)).
Proof. intros. unfold slice. by rewrite decide_True. Qed.

Lemma slice_app_mid (l m r : list A) i j :
  i = length l → j = length l + length m →
  slice (l ++ m ++ r) i j = Done m.
Proof.
  intros -> ->. rewrite slice_Done by (rewrite ?length_app; lia).
  rewrite drop_app_length. replace (_ + _ - _) with (length m) by lia.
  by rewrite take_app_length.
Qed.

Lemma slice_app_end (l m : list A) i :
  i = length l → slice (l ++ m) i (length (l ++ m)) = Done m.
Proof.
  intros ->. rewrite <-(app_nil_r m) at 1.
  apply slice_app_mid; [done|]. by rewrite length_app.
Qed.

Lemma slice_inv b i j s :
  slice b i j = Done s → i ≤ j ∧ j ≤ length b ∧ s = take (j - i) (drop i b).
Proof. unfold slice. case_decide; naive_solver. Qed.

Lemma slice_self b i j s : slice b i j = Done s → slice b i (i + length s) = Done s.
Proof.
  intros Hs. pose proof (slice_inv _ _ _ _ Hs) as (? & ? & E).
  assert (length s = j - i) by (rewrite E, length_take, length_drop; lia).
  by replace (i + length s) with j by lia.
Qed.

Lemma slice_app_r b c i j s : slice b i j = Done s → slice (b ++ c) i j = Done s.
Proof.
  intros (? & ? & ->)%slice_inv. rewrite slice_Done by (rewrite ?length_app; lia).
  f_equal. rewrite drop_app_le by lia.
  rewrite take_app_le by (rewrite length_drop; lia). done.
Qed.

Lemma with_slice_mid (l m r m' : list A) i j f :
  i = length l → j = length l + length m → f m = Done m' →
  with_slice (l ++ m ++ r) i j f = Done (l ++ m' ++ r).
Proof.
  intros -> -> Hf. unfold with_slice. rewrite (slice_app_mid l m r) by done.
  simpl. rewrite Hf. simpl. rewrite take_app_length.
  by rewrite drop_app_add, drop_app_length.
Qed.

Lemma store_mid (l r : list A) x y i :
  i = length l → store (l ++ x :: r) i y = Done (l ++ y :: r).
Proof.
  intros ->. unfold store. rewrite decide_True by (rewrite length_app; simpl; lia).
  by rewrite insert_app_r_alt, Nat.sub_diag by lia.
Qed.

Lemma split_at_mut_app (l r : list A) n :
  n = length l → split_at_mut (l ++ r) n = Done (l, r).
Proof.
  intros ->. unfold split_at_mut. rewrite decide_True by (rewrite length_app; lia).
  by rewrite take_app_length, drop_app_length.
Qed.

Lemma copy_from_slice_Done src dst :
  length dst = length src → copy_from_slice src dst = Done src.
Proof. intros. unfold copy_from_slice. by rewrite decide_True. Qed.

Lemma list_split_at (n : nat) (l : list A) :
  n ≤ length l → ∃ l1 l2, l = l1 ++ l2 ∧ length l1 = n.
Proof.
  intros. exists (take n l), (drop n l). rewrite take_drop, length_take. split; [done|lia].
Qed.
End slices.

Arguments slice : simpl never.
Arguments with_slice : simpl never.
Arguments store : simpl never.
Arguments copy_from_slice : simpl never.
Arguments split_at_mut : simpl never.

(** [iter().position(|&c| c == x)] *)
Fixpoint position (x : Z) (l : list Z) : option nat :=
  match l with
  | [] => None
  | y :: l' => if decide (y = x) then Some 0 else S <$> position x l'
  end.

(** A [SmolStr], [String] or [&str] is the list of its UTF-8 bytes; [str] is a
    string literal of the source. *)
Abbreviation SmolStr := (list Z) (only parsing).
Definition str (s : string) : list Z :=
  (λ c, Z.of_N (Ascii.N_of_ascii c)) <$> String.list_ascii_of_string s.
Arguments str s%_string.

(** ** Time

    A [Duration] is its number of nanoseconds; an [Instant] or a [SystemTime]
    is the number of nanoseconds since an arbitrary origin. A handler that
    reads a clock takes the readings as arguments. *)
Abbreviation Duration := Z (only parsing).
Abbreviation Instant := Z (only parsing).

Definition dur_max : Z := ((2 ^ 64 - 1) * 10 ^ 9 + 999999999)%Z.
Definition from_millis (n : Z) : Z := (n * 10 ^ 6)%Z.
Definition from_secs (n : Z) : Z := (n * 10 ^ 9)%Z.
Definition as_millis (d : Z) : Z := (d / 10 ^ 6)%Z.

(** [Duration] addition and subtraction panic on overflow in every profile. *)
Definition dur_add (a b : Z) : outcome Z :=
  if decide (a + b ≤ dur_max)%Z then Done (a + b)%Z else Panicked.
Definition dur_sub (a b : Z) : outcome Z :=
  if decide (b ≤ a)%Z then Done (a - b)%Z else Panicked.

(** [Instant::elapsed] read at [now]. *)
Definition elapsed (t now : Z) : Z := saturating_sub now t.

(** ** Automation *)
Create HintDb rstreamer.

Lemma outcome_bind_Done {A B} (m : outcome A) (f : A → outcome B) b :
  m ≫= f = Done b ↔ ∃ a, m = Done a ∧ f a = Done b.
Proof. destruct m; naive_solver. Qed.

Lemma try_bind_Done {A B E} (m : outcome (result A E)) (f : A → outcome (result B E)) r :
  try_bind m f = Done r ↔
  (∃ a, m = Done (Ok a) ∧ f a = Done r) ∨ (∃ e, m = Done (Err e) ∧ r = Err e).
Proof. destruct m as [[]| |]; naive_solver. Qed.

(** Takes a successful monadic run in the context apart, one step at a time. *)
Ltac outcome_step :=
  match goal with
  | H : mbind _ _ = Done _ |- _ =>
      apply outcome_bind_Done in H; destruct H as (? & ? & H)
  | H : Done _ = Done _ |- _ => injection H as H
  | H : Panicked = Done _ |- _ => discriminate H
  | H : Stuck = Done _ |- _ => discriminate H
  | H : slice _ _ _ = Done _ |- _ => apply slice_inv in H
  | H : _ ∧ _ |- _ => destruct H
  end.
Ltac outcome_inv := repeat (outcome_step; simplify_eq/=).

(** Reduces a bind whose first computation has returned, and nothing else. *)
Ltac bind_step := cbn [mbind outcome_bind try_bind opt_bind].

(** Unfolds the range predicates before [lia]. *)
Ltac range_lia := unfold is_u8, is_u16, is_u32 in *; lia.

Lemma is_u8_u16 z : is_u8 z → is_u16 z.
Proof. range_lia. Qed.
Lemma is_u16_u32 z : is_u16 z → is_u32 z.
Proof. range_lia. Qed.
#[export] Hint Resolve is_u8_u16 is_u16_u32 : rstreamer.

Lemma bytes_ok_lookup bs i b : bytes_ok bs → bs !! i = Some b → is_u8 b.
Proof. intros Hbs Hi. exact (Forall_lookup_1 _ _ _ _ Hbs Hi). Qed.
#[export] Hint Resolve bytes_ok_lookup Forall_take Forall_drop : rstreamer.

Lemma slice_bytes_ok bs i j s : bytes_ok bs → slice bs i j = Done s → bytes_ok s.
Proof. intros ? (_ & _ & ->)%slice_inv. auto with rstreamer. Qed.
#[export] Hint Resolve slice_bytes_ok : rstreamer.

Lemma arith_in_range prof w z : (0 ≤ z < 2 ^ w)%Z → arith prof w z = Done z.
Proof. intros. unfold arith. by rewrite decide_True. Qed.

Lemma arith_release w z : arith Release w z = Done (z mod 2 ^ w)%Z.
Proof.
  unfold arith. case_decide; [|done]. by rewrite Z.mod_small.
Qed.

Lemma arith_debug_inv w z r : arith Debug w z = Done r → r = z ∧ (0 ≤ z < 2 ^ w)%Z.
Proof. unfold arith. case_decide; naive_solver. Qed.

Lemma arith_range prof w z r : (0 ≤ w)%Z → arith prof w z = Done r → (0 ≤ r < 2 ^ w)%Z.
Proof.
  intros Hw. unfold arith. case_decide; [naive_solver|].
  destruct prof; [done|]. intros [= <-]. apply Z.mod_pos_bound. lia.
Qed.

Lemma position_lookup x l n : position x l = Some n → l !! n = Some x.
Proof.
  revert n; induction l as [|y l IH]; intros n; simpl; [done|].
  case_decide; [naive_solver|]. destruct (position x l); naive_solver.
Qed.

Lemma position_app x l r : x ∉ l → position x (l ++ x :: r) = Some (length l).
Proof.
  induction l as [|y l IH]; simpl; intros Hx.
  - by rewrite decide_True.
  - rewrite decide_False by set_solver. rewrite IH by set_solver. done.
Qed.

Lemma position_lt x l n : position x l = Some n → n < length l.
Proof. intros H%position_lookup. by apply lookup_lt_Some in H. Qed.

Lemma lxor_bound n a b :
  (0 ≤ n → 0 ≤ a < 2 ^ n → 0 ≤ b < 2 ^ n → 0 ≤ Z.lxor a b < 2 ^ n)%Z.
Proof.
  intros Hn Ha Hb. split; [apply Z.lxor_nonneg; lia|].
  destruct (decide (Z.lxor a b = 0)%Z) as [->|Hz]; [lia|].
  assert (0 ≤ Z.lxor a b)%Z by (apply Z.lxor_nonneg; lia).
  apply Z.log2_lt_pow2; [lia|].
  pose proof (Z.log2_lxor a b ltac:(lia) ltac:(lia)).
  destruct (decide (n = 0)%Z) as [->|].
  { assert (a = 0 ∧ b = 0)%Z as [-> ->] by lia. done. }
  assert (∀ c, 0 ≤ c < 2 ^ n → Z.log2 c < n)%Z as Hlog.
  { intros c Hc. destruct (decide (c = 0)%Z) as [->|]; [simpl; lia|].
    apply Z.log2_lt_pow2; lia. }
  pose proof (Hlog a Ha). pose proof (Hlog b Hb). lia.
Qed.

Lemma lxor_u32 a b : is_u32 a → is_u32 b → is_u32 (Z.lxor a b).
Proof. apply (lxor_bound 32). lia. Qed.
Lemma lxor_u8 a b : is_u8 a → is_u8 b → is_u8 (Z.lxor a b).
Proof. apply (lxor_bound 8). lia. Qed.
#[export] Hint Resolve lxor_u32 lxor_u8 : rstreamer.

Lemma lxor_cancel_r a b : Z.lxor (Z.lxor a b) b = a.
Proof. by rewrite Z.lxor_assoc, Z.lxor_nilpotent, Z.lxor_0_r. Qed.
