(* ===== verification/Net.v ===== *)
(** * Socket addresses

    [std::net::SocketAddr], the key of every table of the server. An octet
    array [[u8; N]] is the list of its bytes; [addr_ok] is what the Rust type
    guarantees. Two IPv6 addresses that differ only in [flowinfo] or
    [scope_id] are different keys, as in the standard library. *)

From S2P Require Import Prelude.
Local Open Scope Z_scope.

Inductive SocketAddr :=
| V4 (octets : list Z) (port : Z)
| V6 (octets : list Z) (port flowinfo scope_id : Z).

Definition addr_port (a : SocketAddr) : Z :=
  match a with V4 _ p => p | V6 _ p _ _ => p end.

Definition addr_octets (a : SocketAddr) : list Z :=
  match a with V4 o _ => o | V6 o _ _ _ => o end.

Definition is_ipv4 (a : SocketAddr) : bool :=
  match a with V4 _ _ => true | V6 _ _ _ _ => false end.

(** The ranges of the fields. *)
Definition addr_ok (a : SocketAddr) : Prop :=
  match a with
  | V4 o p => length o = 4%nat ∧ bytes_ok o ∧ is_u16 p
  | V6 o p f s => length o = 16%nat ∧ bytes_ok o ∧ is_u16 p ∧ is_u32 f ∧ is_u32 s
  end.

#[export] Instance addr_eq_dec : EqDecision SocketAddr.
Proof. solve_decision. Defined.

#[export] Program Instance addr_countable : Countable SocketAddr :=
  inj_countable
    (λ a, match a with
          | V4 o p => inl (o, p)
          | V6 o p f s => inr (o, p, f, s)
          end)
    (λ s, Some match s with
               | inl (o, p) => V4 o p
               | inr (o, p, f, s) => V6 o p f s
               end) _.
Next Obligation. by intros []. Qed.

#[export] Instance addr_ok_dec a : Decision (addr_ok a).
Proof. destruct a; simpl; apply _. Defined.

Lemma addr_ok_port a : addr_ok a → is_u16 (addr_port a).
Proof. destruct a; simpl; tauto. Qed.

Lemma addr_ok_octets a : addr_ok a → bytes_ok (addr_octets a).
Proof. destruct a; simpl; tauto. Qed.
#[export] Hint Resolve addr_ok_port addr_ok_octets : rstreamer.
