(* ===== verification/ByteOrder.v ===== *)
(** * The [byteorder] crate

    The server reads and writes big-endian integers through
    [byteorder::NetworkEndian]. The crate is not part of the repository: the
    four functions the code uses are a parameter of every definition that
    calls them ([ByteOrder]), and the documented behaviour the code relies on
    is the class [NetworkEndian]: big-endian order, and a panic when the slice
    is too short. [be_order] shows the laws are satisfiable and makes the
    definitions executable. *)

From S2P Require Import Prelude.
Local Open Scope Z_scope.

(** A writer takes the slice it is given and returns its new contents. *)
Class ByteOrder := {
  read_u16 : list Z → outcome Z;
  read_u32 : list Z → outcome Z;
  write_u16 : list Z → Z → outcome (list Z);
  write_u32 : list Z → Z → outcome (list Z);
}.

(** The big-endian value of two and of four bytes, and the converse. *)
Definition be16 (a b : Z) : Z := a * 256 + b.
Definition be32 (a b c d : Z) : Z := ((a * 256 + b) * 256 + c) * 256 + d.
Definition be16_bytes (n : Z) : list Z := [n / 256 mod 256; n mod 256].
Definition be32_bytes (n : Z) : list Z :=
  [n / 16777216 mod 256; n / 65536 mod 256; n / 256 mod 256; n mod 256].

Class NetworkEndian (bo : ByteOrder) : Prop := {
  read_u16_be a b r :
    is_u8 a → is_u8 b → read_u16 (a :: b :: r) = Done (be16 a b);
  read_u16_short s : (length s < 2)%nat → read_u16 s = Panicked;
  read_u32_be a b c d r :
    is_u8 a → is_u8 b → is_u8 c → is_u8 d →
    read_u32 (a :: b :: c :: d :: r) = Done (be32 a b c d);
  read_u32_short s : (length s < 4)%nat → read_u32 s = Panicked;
  write_u16_be a b r n :
    is_u16 n → write_u16 (a :: b :: r) n = Done (be16_bytes n ++ r);
  write_u16_short s n : (length s < 2)%nat → write_u16 s n = Panicked;
  write_u32_be a b c d r n :
    is_u32 n → write_u32 (a :: b :: c :: d :: r) n = Done (be32_bytes n ++ r);
  write_u32_short s n : (length s < 4)%nat → write_u32 s n = Panicked;
}.

Definition be_order : ByteOrder := {|
  read_u16 s := match s with a :: b :: _ => Done (be16 a b) | _ => Panicked end;
  read_u32 s :=
    match s with a :: b :: c :: d :: _ => Done (be32 a b c d) | _ => Panicked end;
  write_u16 s n :=
    match s with _ :: _ :: r => Done (be16_bytes n ++ r) | _ => Panicked end;
  write_u32 s n :=
    match s with
    | _ :: _ :: _ :: _ :: r => Done (be32_bytes n ++ r)
    | _ => Panicked
    end;
|}.

#[export] Instance be_order_laws : NetworkEndian be_order.
Proof.
  split; intros; simpl; try done;
    repeat match goal with
           | |- context [match ?s with _ => _ end] => destruct s; simpl in *; try lia; try done
           end.
Qed.

Lemma be16_u16 a b : is_u8 a → is_u8 b → is_u16 (be16 a b).
Proof. unfold be16. range_lia. Qed.
Lemma be32_u32 a b c d :
  is_u8 a → is_u8 b → is_u8 c → is_u8 d → is_u32 (be32 a b c d).
Proof. unfold be32. range_lia. Qed.
Lemma be16_bytes_ok n : bytes_ok (be16_bytes n).
Proof. unfold be16_bytes. repeat constructor; apply Z.mod_pos_bound; lia. Qed.
Lemma be32_bytes_ok n : bytes_ok (be32_bytes n).
Proof. unfold be32_bytes. repeat constructor; apply Z.mod_pos_bound; lia. Qed.
#[export] Hint Resolve be16_u16 be32_u32 be16_bytes_ok be32_bytes_ok : rstreamer.

(** The two codecs are inverse to each other on their ranges. *)
Lemma be16_of_bytes n : is_u16 n → be16 (n / 256 mod 256) (n mod 256) = n.
Proof.
  unfold is_u16, be16. intros. rewrite (Z.mod_small (n / 256)).
  - pose proof (Z.div_mod n 256). lia.
  - split; [apply Z.div_pos; lia|apply Z.div_lt_upper_bound; lia].
Qed.

Lemma be32_of_bytes n :
  is_u32 n →
  be32 (n / 16777216 mod 256) (n / 65536 mod 256) (n / 256 mod 256) (n mod 256) = n.
Proof. unfold is_u32, be32. intros. Z.div_mod_to_equations. lia. Qed.

Lemma be16_bytes_be16 a b : is_u8 a → is_u8 b → be16_bytes (be16 a b) = [a; b].
Proof.
  unfold is_u8, be16_bytes, be16. intros.
  repeat f_equal; Z.div_mod_to_equations; lia.
Qed.

(** The total forms the components use: any slice that is long enough. *)
Section derived.
Context {bo : ByteOrder} {BE : NetworkEndian bo}.

Lemma read_u16_total s :
  bytes_ok s → (2 ≤ length s)%nat → ∃ n, read_u16 s = Done n ∧ is_u16 n.
Proof.
  intros Hs Hl. destruct s as [|a [|b r]]; simpl in *; try lia.
  decompose_Forall_hyps. rewrite read_u16_be by done. eauto with rstreamer.
Qed.

Lemma read_u32_total s :
  bytes_ok s → (4 ≤ length s)%nat → ∃ n, read_u32 s = Done n ∧ is_u32 n.
Proof.
  intros Hs Hl. destruct s as [|a [|b [|c [|d r]]]]; simpl in *; try lia.
  decompose_Forall_hyps. rewrite read_u32_be by done. eauto with rstreamer.
Qed.

Lemma write_u16_exact s n :
  length s = 2%nat → is_u16 n → write_u16 s n = Done (be16_bytes n).
Proof.
  intros. destruct s as [|a [|b [|]]]; simplify_eq/=.
  by rewrite write_u16_be, app_nil_r.
Qed.

Lemma write_u32_exact s n :
  length s = 4%nat → is_u32 n → write_u32 s n = Done (be32_bytes n).
Proof.
  intros. destruct s as [|a [|b [|c [|d [|]]]]]; simplify_eq/=.
  by rewrite write_u32_be, app_nil_r.
Qed.

Lemma read_u16_written n r : is_u16 n → read_u16 (be16_bytes n ++ r) = Done n.
Proof.
  intros. unfold be16_bytes. simpl. pose proof (be16_bytes_ok n) as Hb.
  unfold be16_bytes in Hb. decompose_Forall_hyps.
  rewrite read_u16_be, be16_of_bytes by done. done.
Qed.

Lemma read_u16_exact n : is_u16 n → read_u16 (be16_bytes n) = Done n.
Proof. intros. rewrite <-(app_nil_r (be16_bytes n)). by apply read_u16_written. Qed.

Lemma read_u32_written n r : is_u32 n → read_u32 (be32_bytes n ++ r) = Done n.
Proof.
  intros. unfold be32_bytes. simpl. pose proof (be32_bytes_ok n) as Hb.
  unfold be32_bytes in Hb. decompose_Forall_hyps.
  rewrite read_u32_be, be32_of_bytes by done. done.
Qed.
End derived.
