(* ===== verification/Srtp.v ===== *)
(** * SRTP transports (src/src/rtp/srtp.rs)

    [SrtpTransport] pairs the inbound and the outbound SRTP context of a
    client. OpenSSL and the [srtp] crate are not part of the repository: what
    the code calls of them is the class [SrtpLib], a parameter of the model. *)

From S2P Require Import Prelude Net.
Local Open Scope Z_scope.

(** The error types of the libraries, opaque to the server. *)
Class Foreign := {
  ErrorStack : Type;
  SslError : Type;
  ErrorSrtp : Type;
  MailboxError : Type;
}.

(** Uninformative errors, for concrete runs. *)
Definition no_foreign : Foreign :=
  {| ErrorStack := unit; SslError := unit; ErrorSrtp := unit; MailboxError := unit |}.

Inductive ErrorParse {F : Foreign} :=
| Openssl (e : ErrorStack)
| SrtpError (e : ErrorSrtp)
| UnsupportedProfile (name : SmolStr)
| UnsupportedFormat
| ClientNotReady (addr : SocketAddr)
| CodecNotSet (addr : SocketAddr)
| ActorDead (e : MailboxError).
Arguments ErrorParse _ : clear implicits.
Arguments ErrorParse {F}.

(** [From<ErrorStack>] and [From<ErrorSrtp>] *)
#[export] Instance error_parse_from_stack {F : Foreign} : From ErrorStack ErrorParse := Openssl.
#[export] Instance error_parse_from_srtp {F : Foreign} : From ErrorSrtp ErrorParse := SrtpError.

(** [ErrorParse::should_ignored] *)
Definition should_ignored {F : Foreign} (e : ErrorParse) : bool :=
  match e with UnsupportedFormat => true | _ => false end.

(** The constructors of the crate's enumerations that the code names. *)
Inductive CryptoPolicy := AesCm128HmacSha1Bit80.
Inductive SsrcType := AnyInbound | AnyOutbound.

(** The calls into OpenSSL and libsrtp. [master_len] and
    [extract_keying_material] are the policy's key length and the split of the
    exported material into the client's and the server's master key. A context
    is stateful (rollover counter, replay list): every packet operation returns
    its next state, the packet buffer and whether it succeeded. *)
Class SrtpLib (F : Foreign) := {
  Ssl : Type;
  Srtp : Type;
  MasterKey : Type;
  selected_srtp_profile : Ssl → option SmolStr;
  export_keying_material : Ssl → nat → SmolStr → result (list Z) ErrorStack;
  master_len : CryptoPolicy → nat;
  extract_keying_material : CryptoPolicy → list Z → MasterKey * MasterKey;
  srtp_new :
    SsrcType → CryptoPolicy → CryptoPolicy → MasterKey → result Srtp ErrorSrtp;
  srtp_protect : Srtp → list Z → Srtp * list Z * option ErrorSrtp;
  srtp_protect_rtcp : Srtp → list Z → Srtp * list Z * option ErrorSrtp;
  srtp_unprotect : Srtp → list Z → Srtp * list Z * option ErrorSrtp;
  srtp_unprotect_rtcp : Srtp → list Z → Srtp * list Z * option ErrorSrtp;
}.

(** libsrtp authenticates and leaves in clear the fixed RTP header: a packet it
    accepts starts with the same twelve bytes. *)
Class SrtpLaws (F : Foreign) (L : SrtpLib F) : Prop := {
  unprotect_header c b c' b' :
    (12 ≤ length b)%nat → srtp_unprotect c b = (c', b', None) → take 12 b' = take 12 b;
}.

Section srtp.
Context {F : Foreign} {L : SrtpLib F}.

Record SrtpTransport := {
  srtp_client : Srtp;
  srtp_server : Srtp;
}.

Definition srtp_profile_name : SmolStr := str "SRTP_AES128_CM_SHA1_80".

(** [SrtpTransport::new] *)
Definition transport_new (ssl : Ssl) : result SrtpTransport ErrorParse :=
  match selected_srtp_profile ssl with
  | None => Err (UnsupportedProfile (str "empty"))
  | Some name =>
      if decide (name = srtp_profile_name) then
        let rtp_policy := AesCm128HmacSha1Bit80 in
        let rtcp_policy := AesCm128HmacSha1Bit80 in
        match export_keying_material ssl (master_len rtp_policy * 2)
                (str "EXTRACTOR-dtls_srtp") with
        | Err e => Err (from e)
        | Ok dtls_buf =>
            let '(client_key, server_key) :=
              extract_keying_material rtp_policy dtls_buf in
            match srtp_new AnyInbound rtp_policy rtcp_policy client_key with
            | Err e => Err (from e)
            | Ok srtp_incoming =>
                match srtp_new AnyOutbound rtp_policy rtcp_policy server_key with
                | Err e => Err (from e)
                | Ok srtp_outcoming =>
                    Ok {| srtp_client := srtp_incoming;
                          srtp_server := srtp_outcoming |}
                end
            end
        end
      else Err (UnsupportedProfile name)
  end.

(** [buf.map_err(|e| e.into())] of the four packet operations *)
Definition srtp_result (e : option ErrorSrtp) : result unit ErrorParse :=
  match e with None => Ok tt | Some e => Err (from e) end.

(** Outgoing packets go through the context keyed with the server's key,
    incoming ones through the client's. *)
Definition protect (t : SrtpTransport) (buf : list Z) :
    SrtpTransport * list Z * result unit ErrorParse :=
  let '(s, buf', e) := srtp_protect (srtp_server t) buf in
  ({| srtp_client := srtp_client t; srtp_server := s |}, buf', srtp_result e).

Definition protect_rtcp (t : SrtpTransport) (buf : list Z) :
    SrtpTransport * list Z * result unit ErrorParse :=
  let '(s, buf', e) := srtp_protect_rtcp (srtp_server t) buf in
  ({| srtp_client := srtp_client t; srtp_server := s |}, buf', srtp_result e).

Definition unprotect (t : SrtpTransport) (buf : list Z) :
    SrtpTransport * list Z * result unit ErrorParse :=
  let '(c, buf', e) := srtp_unprotect (srtp_client t) buf in
  ({| srtp_client := c; srtp_server := srtp_server t |}, buf', srtp_result e).

Definition unprotect_rtcp (t : SrtpTransport) (buf : list Z) :
    SrtpTransport * list Z * result unit ErrorParse :=
  let '(c, buf', e) := srtp_unprotect_rtcp (srtp_client t) buf in
  ({| srtp_client := c; srtp_server := srtp_server t |}, buf', srtp_result e).

(** The two kinds of packets. *)
Definition seal (rtcp : bool) (t : SrtpTransport) (b : list Z) :
    SrtpTransport * list Z * result unit ErrorParse :=
  if rtcp then protect_rtcp t b else protect t b.

Definition unseal (rtcp : bool) (t : SrtpTransport) (b : list Z) :
    SrtpTransport * list Z * result unit ErrorParse :=
  if rtcp then unprotect_rtcp t b else unprotect t b.

(** The transport after some packets, in both directions. *)
Definition transport_step (t t' : SrtpTransport) : Prop :=
  ∃ rtcp b b' r, seal rtcp t b = (t', b', r) ∨ unseal rtcp t b = (t', b', r).

Definition descends : SrtpTransport → SrtpTransport → Prop := rtc transport_step.

(** The transport made the datagram [d] of the packet [b]; it accepted the datagram [d]
    and read the packet [b]. *)
Definition sealed (rtcp : bool) (t : SrtpTransport) (b d : list Z) : Prop :=
  ∃ t1 t2, descends t t1 ∧ seal rtcp t1 b = (t2, d, Ok tt).

Definition opened (rtcp : bool) (t : SrtpTransport) (d b : list Z) : Prop :=
  ∃ t1 t2, descends t t1 ∧ unseal rtcp t1 d = (t2, b, Ok tt).

Lemma seal_descends rtcp t b t' d r : seal rtcp t b = (t', d, r) → descends t t'.
Proof. intros Hs. apply rtc_once. exists rtcp, b, d, r. by left. Qed.

Lemma unseal_descends rtcp t b t' d r : unseal rtcp t b = (t', d, r) → descends t t'.
Proof. intros Hs. apply rtc_once. exists rtcp, b, d, r. by right. Qed.
End srtp.

Lemma unprotect_length {F : Foreign} {L : SrtpLib F} {SL : SrtpLaws F L} c b c' b' :
  (12 ≤ length b)%nat → srtp_unprotect c b = (c', b', None) → (12 ≤ length b')%nat.
Proof.
  intros Hb Hu. pose proof (unprotect_header _ _ _ _ Hb Hu) as Ht.
  apply (f_equal length) in Ht. rewrite !length_take in Ht. lia.
Qed.
