(* ===== verification/RtpCore.v ===== *)
(** * RTP and RTCP headers (src/src/rtp/core.rs)

    Recognition and decoding of the fixed RTP header, and the two functions of
    the RTC actor that write header fields back
    (src/src/client/rtc_actor.rs). *)

From S2P Require Import Prelude Net Srtp ByteOrder.
Local Open Scope Z_scope.

Record RtpHeader := {
  marker : bool;
  payload : Z;
  sequence : Z;
  timestamp : Z;
}.

#[export] Instance RtpHeader_eq_dec : EqDecision RtpHeader.
Proof. solve_decision. Defined.

(** [RtpHeader::is_rtp_header] *)
Definition is_rtp_header (buf : list Z) : outcome bool :=
  if decide (length buf ≤ 12)%nat then Done false
  else
    b0 ← index buf 0;
    let version := Z.shiftr b0 6 in
    if decide (version ≠ 2) then Done false else Done true.

(** [is_rtcp] *)
Definition is_rtcp (buf : list Z) : outcome bool :=
  h ← is_rtp_header buf;
  if negb h then Done false
  else
    b1 ← index buf 1;
    if decide (b1 < 200) then Done false
    else
      b1' ← index buf 1;
      if decide (b1' > 206) then Done false else Done true.

(** [calculate_payload]: [marker as u8] shifted into the top bit; the shift
    of a [u8] by 7 keeps only the low eight bits. *)
Definition calculate_payload (marker : bool) (payload : Z) : Z :=
  Z.lor payload (Z.shiftl (if marker then 1 else 0) 7 mod 256).

Section rtp.
Context {F : Foreign} {bo : ByteOrder}.

(** [RtpHeader::from_buf] *)
Definition from_buf (buf : list Z) : outcome (result RtpHeader ErrorParse) :=
  h ← is_rtp_header buf;
  if negb h then Done (Err UnsupportedFormat)
  else
    s ← slice buf 2 4; sequence ← read_u16 s;
    s ← slice buf 4 8; timestamp ← read_u32 s;
    b1 ← index buf 1;
    b1' ← index buf 1;
    Done (Ok {| marker := bool_decide (Z.shiftr b1 7 = 1);
                payload := Z.land b1' 127;
                sequence := sequence;
                timestamp := timestamp |}).

(** [replace_sequence_n_timestamp] *)
Definition replace_sequence_n_timestamp (buf : list Z) (sequence timestamp : Z) :
    outcome (list Z) :=
  buf ← with_slice buf 2 4 (λ s, write_u16 s sequence);
  with_slice buf 4 8 (λ s, write_u32 s timestamp).
End rtp.

(** ** Recognition *)

Lemma shiftr6_is_2 b : is_u8 b → Z.shiftr b 6 = 2 ↔ 128 ≤ b ≤ 191.
Proof.
  unfold is_u8. intros. rewrite Z.shiftr_div_pow2 by lia. change (2 ^ 6) with 64.
  Z.div_mod_to_equations. lia.
Qed.

(** A buffer is an RTP header when it has more than 12 bytes and version 2. *)
Definition rtp_shape (buf : list Z) : bool :=
  match buf with
  | b0 :: _ => bool_decide (12 < length buf)%nat && bool_decide (128 ≤ b0 ≤ 191)
  | [] => false
  end.

Lemma is_rtp_header_shape buf : bytes_ok buf → is_rtp_header buf = Done (rtp_shape buf).
Proof.
  intros Hb. unfold is_rtp_header, rtp_shape. case_decide as Hl.
  - destruct buf; [done|]. by rewrite (bool_decide_eq_false_2 (12 < _)%nat) by lia.
  - destruct buf as [|b0 r]; [simpl in *; lia|]. decompose_Forall_hyps.
    rewrite bool_decide_eq_true_2 by lia. simpl.
    case_decide as Hv; rewrite shiftr6_is_2 in Hv by done; symmetry; f_equal;
      [apply bool_decide_eq_false_2|apply bool_decide_eq_true_2]; tauto.
Qed.

Lemma rtp_shape_length buf : rtp_shape buf = true → (12 < length buf)%nat.
Proof.
  destruct buf; [done|]. intros [H _]%andb_prop.
  by apply bool_decide_eq_true in H.
Qed.

(** An RTP header whose second byte is an RTCP packet type. *)
Definition rtcp_shape (buf : list Z) : bool :=
  rtp_shape buf &&
  match buf !! 1%nat with Some b1 => bool_decide (200 ≤ b1 ≤ 206) | None => false end.

Lemma is_rtcp_shape buf : bytes_ok buf → is_rtcp buf = Done (rtcp_shape buf).
Proof.
  intros Hb. unfold is_rtcp, rtcp_shape. rewrite is_rtp_header_shape by done. simpl.
  destruct (rtp_shape buf) eqn:Hs; [|done]. apply rtp_shape_length in Hs. simpl.
  destruct (index_is_Done buf 1) as (b1 & Hb1 & ->); [lia|]. rewrite Hb1. simpl.
  case_decide; [|case_decide]; symmetry; f_equal;
    [apply bool_decide_eq_false_2|apply bool_decide_eq_false_2|
     apply bool_decide_eq_true_2]; lia.
Qed.

(** ** Payload byte *)

Lemma payload_byte_split b :
  is_u8 b → b = Z.land b 127 + 128 * (if bool_decide (Z.shiftr b 7 = 1) then 1 else 0).
Proof.
  unfold is_u8. intros. change 127 with (Z.ones 7). rewrite Z.land_ones by lia.
  rewrite Z.shiftr_div_pow2 by lia. change (2 ^ 7) with 128.
  case_bool_decide; Z.div_mod_to_equations; lia.
Qed.

Lemma calculate_payload_sum m p :
  0 ≤ p < 128 → calculate_payload m p = p + 128 * (if m then 1 else 0).
Proof.
  intros Hp. unfold calculate_payload. destruct m; simpl.
  - change (Z.shiftl 1 7 mod 256) with (2 ^ 7).
    pose proof (Z.add_lor_land p (2 ^ 7)) as Hsum.
    assert (Z.land p (2 ^ 7) = 0); [|lia].
    apply Z.bits_inj'. intros i Hi. rewrite Z.land_spec, Z.bits_0.
    rewrite Z.pow2_bits_eqb by lia. destruct (Z.eqb_spec 7 i) as [<-|]; [|by rewrite andb_false_r].
    rewrite andb_true_r. apply Z.bits_above_log2; [lia|].
    destruct (decide (p = 0)) as [->|]; [done|]. apply Z.log2_lt_pow2; lia.
  - rewrite Z.lor_0_r. lia.
Qed.

(** ** Decoding and rewriting *)

Section rtp_facts.
Context {F : Foreign} {bo : ByteOrder} {BE : NetworkEndian bo}.

(** The header fields, read off the first eight bytes. *)
Definition header_of (b1 b2 b3 b4 b5 b6 b7 : Z) : RtpHeader :=
  {| marker := bool_decide (Z.shiftr b1 7 = 1);
     payload := Z.land b1 127;
     sequence := be16 b2 b3;
     timestamp := be32 b4 b5 b6 b7 |}.

Lemma rtp_shape_prefix buf :
  rtp_shape buf = true →
  ∃ b0 b1 b2 b3 b4 b5 b6 b7 r,
    buf = b0 :: b1 :: b2 :: b3 :: b4 :: b5 :: b6 :: b7 :: r ∧ (4 < length r)%nat.
Proof.
  intros Hl%rtp_shape_length.
  do 8 (destruct buf as [|? buf]; [simpl in *; lia|]).
  simpl in Hl. eexists _, _, _, _, _, _, _, _, _. split; [done|lia].
Qed.

Lemma from_buf_prefix b0 b1 b2 b3 b4 b5 b6 b7 r :
  let buf := b0 :: b1 :: b2 :: b3 :: b4 :: b5 :: b6 :: b7 :: r in
  bytes_ok buf → rtp_shape buf = true →
  from_buf buf = Done (Ok (header_of b1 b2 b3 b4 b5 b6 b7)).
Proof.
  intros buf Hb Hs. unfold from_buf. rewrite is_rtp_header_shape, Hs by done. simpl.
  subst buf. decompose_Forall_hyps.
  rewrite read_u16_be by done. simpl. rewrite read_u32_be by done. done.
Qed.

Lemma replace_prefix b0 b1 b2 b3 b4 b5 b6 b7 r s t :
  is_u16 s → is_u32 t →
  replace_sequence_n_timestamp
    (b0 :: b1 :: b2 :: b3 :: b4 :: b5 :: b6 :: b7 :: r) s t =
  Done ([b0; b1] ++ be16_bytes s ++ be32_bytes t ++ r).
Proof.
  intros. unfold replace_sequence_n_timestamp.
  rewrite (with_slice_mid [b0; b1] [b2; b3] (b4 :: b5 :: b6 :: b7 :: r) (be16_bytes s))
    by (simpl; auto using write_u16_exact).
  simpl mbind.
  rewrite (with_slice_mid ([b0; b1] ++ be16_bytes s) [b4; b5; b6; b7] r (be32_bytes t))
    by (simpl; auto using write_u32_exact).
  done.
Qed.

(** [from_buf] never panics, and classifies exactly as [is_rtp_header]. *)
Lemma replace_Done buf s t :
  (8 ≤ length buf)%nat → is_u16 s → is_u32 t →
  ∃ buf', replace_sequence_n_timestamp buf s t = Done buf'.
Proof.
  intros Hl Hs Ht. do 8 (destruct buf as [|? buf]; [simpl in *; lia|]).
  eexists. by apply replace_prefix.
Qed.

Lemma from_buf_total buf :
  bytes_ok buf →
  ∃ r, from_buf buf = Done r ∧
       (r = Err UnsupportedFormat ↔ rtp_shape buf = false).
Proof.
  intros Hb. destruct (rtp_shape buf) eqn:Hs.
  - destruct (rtp_shape_prefix buf Hs) as (?&?&?&?&?&?&?&?&?&->&_).
    rewrite from_buf_prefix by done. eexists; split; naive_solver.
  - unfold from_buf. rewrite is_rtp_header_shape, Hs by done.
    simpl. eexists; split; naive_solver.
Qed.

Lemma from_buf_Ok buf h :
  bytes_ok buf → from_buf buf = Done (Ok h) →
  rtp_shape buf = true ∧ 0 ≤ payload h < 128 ∧ is_u16 (sequence h) ∧ is_u32 (timestamp h).
Proof.
  intros Hb Hf. destruct (rtp_shape buf) eqn:Hs.
  - split; [done|].
    destruct (rtp_shape_prefix buf Hs) as (?&?&?&?&?&?&?&?&?&->&_).
    rewrite from_buf_prefix in Hf by done. clear Hs. simplify_eq.
    decompose_Forall_hyps. split; [|by auto with rstreamer].
    change 127 with (Z.ones 7). rewrite Z.land_ones by lia.
    apply Z.mod_pos_bound. lia.
  - destruct (from_buf_total buf Hb) as (r & Hr & [_ Hiff]). rewrite Hr in Hf.
    rewrite Hs in Hiff. specialize (Hiff eq_refl). by simplify_eq.
Qed.
End rtp_facts.

(** ** Properties *)

Section rtp_properties.
Context {F : Foreign} {bo : ByteOrder} {BE : NetworkEndian bo}.

(** Rewriting the sequence number and timestamp of a valid RTP packet
    never panics; decoding the result gives the new numbers with the same
    marker and payload type, and no byte outside positions 2 to 7 changes. *)
Lemma rtp_rewrite_roundtrip buf h s t :
  bytes_ok buf → from_buf buf = Done (Ok h) → is_u16 s → is_u32 t →
  ∃ buf',
    replace_sequence_n_timestamp buf s t = Done buf' ∧
    from_buf buf' = Done (Ok {| marker := marker h; payload := payload h;
                                sequence := s; timestamp := t |}) ∧
    length buf' = length buf ∧
    (∀ i, (i < 2 ∨ 8 ≤ i)%nat → buf' !! i = buf !! i) ∧
    is_rtcp buf' = is_rtcp buf.
Proof.
  intros Hb Hf Hs Ht. destruct (from_buf_Ok _ _ Hb Hf) as [Hsh _].
  destruct (rtp_shape_prefix buf Hsh) as (b0&b1&b2&b3&b4&b5&b6&b7&r&->&_).
  rewrite from_buf_prefix in Hf by done. injection Hf as <-.
  eexists. rewrite replace_prefix by done. split; [done|].
  pose proof (be16_bytes_ok s). pose proof (be32_bytes_ok t).
  assert (bytes_ok ([b0; b1] ++ be16_bytes s ++ be32_bytes t ++ r)) as Hb'.
  { rewrite !Forall_app. split_and!; [|done|done|]; decompose_Forall_hyps; auto. }
  split_and!.
  - simpl in Hb' |- *. rewrite from_buf_prefix by done.
    unfold header_of. by rewrite be16_of_bytes, be32_of_bytes by done.
  - done.
  - intros i Hi. do 8 (destruct i as [|i]; [done || lia|]). done.
  - by rewrite !is_rtcp_shape by done.
Qed.

(** The marker and payload type decoded from a packet determine its
    second byte: [calculate_payload] puts them back together. *)
Lemma payload_byte_roundtrip buf h :
  bytes_ok buf → from_buf buf = Done (Ok h) →
  buf !! 1%nat = Some (calculate_payload (marker h) (payload h)).
Proof.
  intros Hb Hf. destruct (from_buf_Ok _ _ Hb Hf) as (Hsh & Hp & _).
  destruct (rtp_shape_prefix buf Hsh) as (b0&b1&b2&b3&b4&b5&b6&b7&r&->&_).
  rewrite from_buf_prefix in Hf by done. injection Hf as <-.
  rewrite calculate_payload_sum by done. simpl. f_equal. apply payload_byte_split.
  by decompose_Forall_hyps.
Qed.
End rtp_properties.

(** A concrete packet: version 2, marker set, payload type 96. *)
Definition sample_rtp : list Z := [128; 224; 0; 7; 0; 0; 1; 44; 9; 9; 9; 9; 1; 2].
#[local] Existing Instance no_foreign.

Lemma payload_byte_roundtrip_witness :
  sample_rtp !! 1%nat = Some (calculate_payload true 96).
Proof.
  apply (payload_byte_roundtrip (bo := be_order) sample_rtp
           {| marker := true; payload := 96; sequence := 7; timestamp := 300 |}).
  - by apply (bool_decide_unpack _).
  - vm_compute. reflexivity.
Defined.
