(* ===== verification/Utf8.v ===== *)
(** * UTF-8 validation

    [std::str::from_utf8], which the STUN parser applies to both user names:
    the well-formed byte sequences of the Unicode standard, as the standard
    library checks them. [utf8_valid_encodes] relates the byte-level check to
    the encoding of sequences of scalar values. *)

From S2P Require Import Prelude.
Local Open Scope Z_scope.

Definition in_range (lo hi b : Z) : bool := bool_decide (lo ≤ b ≤ hi).
Definition cont (b : Z) : bool := in_range 128 191 b.

Fixpoint utf8_valid (bs : list Z) : bool :=
  match bs with
  | [] => true
  | b0 :: r =>
      if in_range 0 127 b0 then utf8_valid r
      else if in_range 194 223 b0 then
        match r with b1 :: r => cont b1 && utf8_valid r | _ => false end
      else if in_range 224 239 b0 then
        match r with
        | b1 :: b2 :: r =>
            in_range (if decide (b0 = 224) then 160 else 128)
                     (if decide (b0 = 237) then 159 else 191) b1 &&
            cont b2 && utf8_valid r
        | _ => false
        end
      else if in_range 240 244 b0 then
        match r with
        | b1 :: b2 :: b3 :: r =>
            in_range (if decide (b0 = 240) then 144 else 128)
                     (if decide (b0 = 244) then 143 else 191) b1 &&
            cont b2 && cont b3 && utf8_valid r
        | _ => false
        end
      else false
  end.

(** [str::from_utf8(bytes).ok()] *)
Definition from_utf8 (bs : list Z) : option SmolStr :=
  if utf8_valid bs then Some bs else None.

(** ** The encoding *)

Definition is_scalar (c : Z) : Prop := 0 ≤ c < 55296 ∨ 57344 ≤ c < 1114112.

Definition utf8_encode (c : Z) : list Z :=
  if decide (c < 128) then [c]
  else if decide (c < 2048) then [192 + c / 64; 128 + c mod 64]
  else if decide (c < 65536) then
    [224 + c / 4096; 128 + c / 64 mod 64; 128 + c mod 64]
  else [240 + c / 262144; 128 + c / 4096 mod 64; 128 + c / 64 mod 64; 128 + c mod 64].

Lemma in_range_true lo hi b : lo ≤ b ≤ hi → in_range lo hi b = true.
Proof. apply bool_decide_eq_true_2. Qed.
Lemma in_range_false lo hi b : b < lo ∨ hi < b → in_range lo hi b = false.
Proof. intros. apply bool_decide_eq_false_2. lia. Qed.

Ltac utf8_ranges :=
  repeat first
    [ rewrite in_range_true by (repeat case_decide; Z.div_mod_to_equations; lia)
    | rewrite in_range_false by (repeat case_decide; Z.div_mod_to_equations; lia) ].

Lemma utf8_encode_valid c r :
  is_scalar c → utf8_valid (utf8_encode c ++ r) = utf8_valid r.
Proof.
  unfold is_scalar, utf8_encode. intros Hc.
  repeat case_decide; simpl; unfold cont; utf8_ranges; done.
Qed.

Lemma utf8_valid_inv bs :
  utf8_valid bs = true → bs ≠ [] →
  ∃ c r, is_scalar c ∧ bs = utf8_encode c ++ r ∧ utf8_valid r = true.
Proof.
  destruct bs as [|b0 bs]; [done|]. simpl. unfold cont, in_range.
  intros H _. case_bool_decide; [|case_bool_decide; [|case_bool_decide; [|case_bool_decide]]].
  - exists b0, bs. unfold is_scalar, utf8_encode. rewrite decide_True by lia. split_and!; auto; lia.
  - destruct bs as [|b1 bs]; [done|]. case_bool_decide; [|done].
    exists ((b0 - 192) * 64 + (b1 - 128)), bs. unfold is_scalar, utf8_encode.
    rewrite decide_False, decide_True by lia. split_and!; [lia| |done].
    simpl. repeat f_equal; Z.div_mod_to_equations; lia.
  - destruct bs as [|b1 [|b2 bs]]; [done|done|]. repeat case_bool_decide; try done.
    exists ((b0 - 224) * 4096 + (b1 - 128) * 64 + (b2 - 128)), bs.
    unfold is_scalar, utf8_encode.
    repeat match goal with H : context [decide ?P] |- _ => destruct (decide P) end;
    (do 2 (rewrite decide_False by lia)); rewrite decide_True by lia;
    (split_and!; [lia| |done]); simpl; repeat f_equal; Z.div_mod_to_equations; lia.
  - destruct bs as [|b1 [|b2 [|b3 bs]]]; [done|done|done|]. repeat case_bool_decide; try done.
    exists ((b0 - 240) * 262144 + (b1 - 128) * 4096 + (b2 - 128) * 64 + (b3 - 128)), bs.
    unfold is_scalar, utf8_encode.
    repeat match goal with H : context [decide ?P] |- _ => destruct (decide P) end;
    (do 3 (rewrite decide_False by lia));
    (split_and!; [lia| |done]); simpl; repeat f_equal; Z.div_mod_to_equations; lia.
  - done.
Qed.

Lemma utf8_encode_nonempty c : (0 < length (utf8_encode c))%nat.
Proof. unfold utf8_encode. repeat case_decide; simpl; lia. Qed.

(** A byte string is accepted exactly when it encodes scalar values. *)
Lemma utf8_valid_encodes bs :
  utf8_valid bs = true ↔ ∃ cs, Forall is_scalar cs ∧ bs = concat (utf8_encode <$> cs).
Proof.
  split.
  - induction bs as [bs IH] using (induction_ltof1 _ length). intros Hv.
    destruct (decide (bs = [])) as [->|Hne]; [by exists []|].
    destruct (utf8_valid_inv bs Hv Hne) as (c & r & Hc & -> & Hr).
    destruct (IH r) as (cs & Hcs & ->); [|done|].
    + unfold ltof. rewrite length_app. pose proof (utf8_encode_nonempty c). lia.
    + exists (c :: cs). split; [by constructor|done].
  - intros (cs & Hcs & ->). induction Hcs as [|c cs Hc _ IH]; [done|].
    simpl. by rewrite utf8_encode_valid.
Qed.

Lemma from_utf8_Some bs s : from_utf8 bs = Some s → s = bs.
Proof. unfold from_utf8. destruct (utf8_valid bs); naive_solver. Qed.
