(* ===== verification/Text.v ===== *)
(** * Text

    What the signalling side uses of the standard library's strings: [str::replace]
    with a non-empty pattern, and the decimal digits of an unsigned integer. *)

From S2P Require Import Prelude.
From stdpp Require Import pretty.
Local Open Scope Z_scope.

(** [s.strip_prefix(pat)] *)
Fixpoint strip_prefix (pat s : list Z) : option (list Z) :=
  match pat, s with
  | [], _ => Some s
  | p :: pat, c :: s => if decide (p = c) then strip_prefix pat s else None
  | _ :: _, [] => None
  end.

(** [s.replace(pat, to)]: every occurrence, from the left, without overlap. Every
    round consumes a byte, so the length of [s] is fuel enough ([replace_cons]). *)
Fixpoint replace_loop (fuel : nat) (pat to s : list Z) : list Z :=
  match fuel, s with
  | S fuel, c :: s' =>
      match strip_prefix pat s with
      | Some r => to ++ replace_loop fuel pat to r
      | None => c :: replace_loop fuel pat to s'
      end
  | _, _ => []
  end.
Definition replace (pat to s : list Z) : list Z := replace_loop (length s) pat to s.

(** [n.to_string()] of an unsigned integer *)
Definition to_string (n : Z) : SmolStr := str (pretty (Z.to_N n)).

(** ** Replacement *)

Lemma strip_prefix_Some pat s r : strip_prefix pat s = Some r ↔ s = pat ++ r.
Proof.
  revert s. induction pat as [|p pat IH]; intros s; simpl; [naive_solver|].
  destruct s as [|c s]; [naive_solver|]. case_decide; [|naive_solver].
  rewrite IH. naive_solver.
Qed.

Lemma replace_fuel pat to s n m :
  pat ≠ [] → (length s ≤ n)%nat → (length s ≤ m)%nat →
  replace_loop n pat to s = replace_loop m pat to s.
Proof.
  intros Hpat. revert s m. induction n as [|n IH]; intros s m Hn Hm.
  { destruct s; [by destruct m|simpl in *; lia]. }
  destruct s as [|c s]; [by destruct m|]. destruct m as [|m]; [simpl in *; lia|].
  cbn [replace_loop]. destruct (strip_prefix pat (c :: s)) as [r|] eqn:Hr.
  - apply strip_prefix_Some in Hr. f_equal.
    assert (length r ≤ length s)%nat.
    { destruct pat as [|p pat]; [done|]. apply (f_equal length) in Hr.
      rewrite length_app in Hr. simpl in *. lia. }
    apply IH; simpl in *; lia.
  - f_equal. apply IH; simpl in *; lia.
Qed.

Lemma replace_cons pat to c s :
  pat ≠ [] →
  replace pat to (c :: s) =
  match strip_prefix pat (c :: s) with
  | Some r => to ++ replace pat to r
  | None => c :: replace pat to s
  end.
Proof.
  intros Hpat. unfold replace. cbn [length replace_loop].
  destruct (strip_prefix pat (c :: s)) as [r|] eqn:Hr; [|done]. f_equal.
  apply strip_prefix_Some in Hr. apply replace_fuel; [done| |done].
  destruct pat as [|p pat]; [done|]. apply (f_equal length) in Hr.
  rewrite length_app in Hr. simpl in *. lia.
Qed.

Lemma replace_at_prefix pat to s :
  pat ≠ [] → replace pat to (pat ++ s) = to ++ replace pat to s.
Proof.
  intros Hpat. destruct pat as [|p pat]; [done|]. simpl. rewrite replace_cons by done.
  assert (strip_prefix (p :: pat) (p :: pat ++ s) = Some s) as ->; [|done].
  by apply strip_prefix_Some.
Qed.

(** A text in which some byte of the pattern does not occur is left as it is. *)
Lemma replace_absent pat to s b : b ∈ pat → b ∉ s → replace pat to s = s.
Proof.
  intros Hb. assert (pat ≠ []) as Hpat by (intros ->; by apply elem_of_nil in Hb).
  induction s as [|c s IH]; intros Hs; [done|]. rewrite replace_cons by done.
  destruct (strip_prefix pat (c :: s)) as [r|] eqn:Hr.
  - apply strip_prefix_Some in Hr. rewrite Hr in Hs. set_solver.
  - f_equal. apply IH. set_solver.
Qed.

(** ** Decimal digits *)

Lemma str_app s t : str (s +:+ t) = str s ++ str t.
Proof. induction s as [|c s IH]; [done|]. exact (f_equal (cons _) IH). Qed.

Lemma str_inj s t : str s = str t → s = t.
Proof.
  revert t. induction s as [|c s IH]; intros [|d t]; try done.
  intros H. injection H as Hc Ht. f_equal; [|by apply IH].
  apply N2Z.inj in Hc. by rewrite <- (Ascii.ascii_N_embedding c), Hc, Ascii.ascii_N_embedding.
Qed.

Definition is_digit (b : Z) : Prop := 48 ≤ b ≤ 57.

Lemma to_string_inj n m : 0 ≤ n → 0 ≤ m → to_string n = to_string m → n = m.
Proof. intros Hn Hm H%str_inj%(inj pretty). lia. Qed.

Lemma to_string_digits n : Forall is_digit (to_string n).
Proof.
  assert (∀ x, (x < 10)%N → is_digit (Z.of_N (Ascii.N_of_ascii (pretty_N_char x)))) as Hchar.
  { intros x Hx. assert (x ∈ [0;1;2;3;4;5;6;7;8;9]%N) as Hin
      by (rewrite !elem_of_cons, elem_of_nil; lia).
    assert (Forall (λ x, is_digit (Z.of_N (Ascii.N_of_ascii (pretty_N_char x))))
              [0;1;2;3;4;5;6;7;8;9]%N) as Hall
      by (repeat constructor; vm_compute; congruence).
    rewrite Forall_forall in Hall. by apply Hall. }
  assert (∀ x s, Forall is_digit (str s) → Forall is_digit (str (pretty_N_go x s))) as Hgo.
  { intros x. induction (N.lt_wf_0 x) as [x _ IH]. intros s Hs.
    destruct (decide (x = 0%N)) as [->|]; [by rewrite pretty_N_go_0|].
    rewrite pretty_N_go_step by lia. apply IH; [apply N.div_lt; lia|].
    constructor; [|done]. apply Hchar. by apply N.mod_lt. }
  unfold to_string, pretty, pretty_N. case_decide; [|apply Hgo; constructor].
  repeat constructor; vm_compute; congruence.
Qed.
