(* ===== verification/Addr.v ===== *)
(** * Socket addresses as text

    [str::parse::<SocketAddr>] of the standard library, which [main] applies to its
    environment variables (src/src/main.rs:31-39). A parser takes a prefix of the bytes
    or fails without taking any. *)

From S2P Require Import Prelude Net.
Local Open Scope Z_scope.

Definition Parser (A : Type) : Type := list Z → option (A * list Z).

Definition read_given_char (c : Z) (s : list Z) : option (list Z) :=
  match s with
  | c' :: s => if decide (c' = c) then Some s else None
  | [] => None
  end.

(** [char::to_digit] *)
Definition to_digit (radix c : Z) : option Z :=
  let d := if decide (48 ≤ c ≤ 57) then Some (c - 48)
           else if decide (97 ≤ c ≤ 102) then Some (c - 87)
           else if decide (65 ≤ c ≤ 70) then Some (c - 55)
           else None in
  match d with Some d => if decide (d < radix) then Some d else None | None => None end.

(** The loop of [read_number], with checked arithmetic of a type up to [top]. *)
Fixpoint read_digits (radix top : Z) (max_digits : option nat) (acc : Z) (count : nat)
    (s : list Z) : option (Z * nat * list Z) :=
  match s with
  | [] => Some (acc, count, [])
  | c :: s' =>
      match to_digit radix c with
      | None => Some (acc, count, s)
      | Some d =>
          if decide (top < acc * radix + d) then None
          else if match max_digits with Some n => bool_decide (n < 1 + count)%nat | None => false end
          then None
          else read_digits radix top max_digits (acc * radix + d) (1 + count) s'
      end
  end.

Definition read_number (radix top : Z) (max_digits : option nat) (allow_zero_prefix : bool) :
    Parser Z := λ s,
  match read_digits radix top max_digits 0 0 s with
  | None => None
  | Some (n, count, s') =>
      if decide (count = 0%nat) then None
      else if negb allow_zero_prefix && bool_decide (head s = Some 48) && bool_decide (1 < count)%nat
      then None
      else Some (n, s')
  end.

Definition read_separator {A} (sep : Z) (first : bool) (p : Parser A) : Parser A := λ s,
  if first then p s else read_given_char sep s ≫= p.

Definition read_octet : Parser Z := read_number 10 255 (Some 3%nat) false.

Definition read_ipv4_addr : Parser (list Z) := λ s,
  '(a, s) ← read_separator 46 true read_octet s;
  '(b, s) ← read_separator 46 false read_octet s;
  '(c, s) ← read_separator 46 false read_octet s;
  '(d, s) ← read_separator 46 false read_octet s;
  Some ([a; b; c; d], s).

(** [read_groups]: up to [more] groups, the last two of which may be an IPv4 address. *)
Fixpoint read_groups (more : nat) (first : bool) (s : list Z) : list Z * bool * list Z :=
  match more with
  | O => ([], false, s)
  | S more =>
      match (if decide (0 < more)%nat then read_separator 58 first read_ipv4_addr s else None) with
      | Some ([a; b; c; d], s) => ([a * 256 + b; c * 256 + d], true, s)
      | _ =>
          match read_separator 58 first (read_number 16 65535 (Some 4%nat) true) s with
          | None => ([], false, s)
          | Some (g, s) =>
              let '(gs, ipv4, s) := read_groups more false s in (g :: gs, ipv4, s)
          end
      end
  end.

Definition read_ipv6_addr : Parser (list Z) := λ s,
  let '(head, head_ipv4, s) := read_groups 8 true s in
  if decide (length head = 8%nat) then Some (head, s)
  else if head_ipv4 : bool then None
  else
    s ← read_given_char 58 s;
    s ← read_given_char 58 s;
    let '(tail, _, s) := read_groups (7 - length head) true s in
    Some (head ++ replicate (8 - length head - length tail) 0 ++ tail, s).

Definition read_port : Parser Z := λ s,
  read_given_char 58 s ≫= read_number 10 65535 None true.

Definition read_scope_id : Parser Z := λ s,
  read_given_char 37 s ≫= read_number 10 4294967295 None true.

Definition group_octets (gs : list Z) : list Z := gs ≫= λ g, [g / 256; g mod 256].

Definition read_socket_addr_v4 : Parser SocketAddr := λ s,
  '(ip, s) ← read_ipv4_addr s; '(port, s) ← read_port s; Some (V4 ip port, s).

Definition read_socket_addr_v6 : Parser SocketAddr := λ s,
  s ← read_given_char 91 s;
  '(ip, s) ← read_ipv6_addr s;
  let '(scope_id, s) := default (0, s) (read_scope_id s) in
  s ← read_given_char 93 s;
  '(port, s) ← read_port s;
  Some (V6 (group_octets ip) port 0 scope_id, s).

Definition read_socket_addr : Parser SocketAddr := λ s,
  match read_socket_addr_v4 s with Some r => Some r | None => read_socket_addr_v6 s end.

(** The whole text must be taken. *)
Definition parse_socket_addr (s : list Z) : option SocketAddr :=
  match read_socket_addr s with Some (a, []) => Some a | _ => None end.

Example parse_default :
  parse_socket_addr (str "127.0.0.1:3336") = Some (V4 [127; 0; 0; 1] 3336).
Proof. reflexivity. Qed.

Example parse_loopback :
  parse_socket_addr (str "[::1]:80") = Some (V6 (replicate 15 0 ++ [1]) 80 0 0).
Proof. reflexivity. Qed.

Example parse_mapped :
  parse_socket_addr (str "[::ffff:10.0.0.1%3]:65535") =
  Some (V6 (replicate 10 0 ++ [255; 255; 10; 0; 0; 1]) 65535 0 3).
Proof. reflexivity. Qed.

Example parse_refuses :
  Forall (λ s, parse_socket_addr (str s) = None)
    ["localhost:3336"; "127.0.0.1"; "127.0.0.01:80"; "127.0.0.256:80"; "1.2.3.4:65536"; "::1:80"]%string.
Proof. repeat constructor. Qed.

(** ** Printing *)

Definition digit_char (d : Z) : Z := if decide (d < 10) then 48 + d else 87 + d.

Fixpoint digits_loop (fuel : nat) (radix n : Z) : list Z :=
  match fuel with
  | O => []
  | S fuel =>
      if decide (n < radix) then [digit_char n]
      else digits_loop fuel radix (n / radix) ++ [digit_char (n mod radix)]
  end.

(** Ten digits are enough for 32 bits. *)
Definition digits (radix n : Z) : list Z := digits_loop 10 radix n.

Fixpoint groups (o : list Z) : list Z :=
  match o with a :: b :: o => a * 256 + b :: groups o | _ => [] end.

Definition joined_by (sep : Z) (l : list (list Z)) : list Z :=
  match l with [] => [] | x :: l => x ++ (l ≫= λ y, sep :: y) end.

(** Addresses as text, IPv6 addresses without [::]. *)
Definition show_addr (a : SocketAddr) : list Z :=
  match a with
  | V4 o port => joined_by 46 (digits 10 <$> o) ++ [58] ++ digits 10 port
  | V6 o port _ scope_id =>
      [91] ++ joined_by 58 (digits 16 <$> groups o) ++
      (if decide (scope_id = 0) then [] else [37] ++ digits 10 scope_id) ++
      [93; 58] ++ digits 10 port
  end.

(** [is_hex]: what [digits] prints. *)
Definition is_hex (c : Z) : Prop := 48 ≤ c ≤ 57 ∨ 97 ≤ c ≤ 102.

Lemma digit_char_hex d : 0 ≤ d < 16 → is_hex (digit_char d).
Proof. intros Hd. unfold digit_char, is_hex. case_decide; lia. Qed.

Lemma to_digit_char radix d : 0 ≤ d < radix → radix ≤ 16 → to_digit radix (digit_char d) = Some d.
Proof.
  intros Hd Hr. unfold digit_char.
  destruct (decide (d < 10)); unfold to_digit; repeat case_decide; simplify_eq; try lia; f_equal; lia.
Qed.

Section digits.
Context (radix : Z) (Hradix : 2 ≤ radix ≤ 16).

(** A quotient has one digit less. *)
Lemma quotient_bound n (k : nat) : 0 ≤ n < radix ^ Z.of_nat (S k) → 0 ≤ n / radix < radix ^ Z.of_nat k.
Proof.
  rewrite Nat2Z.inj_succ, Z.pow_succ_r by lia. intros Hn.
  split; [apply Z.div_pos; lia|apply Z.div_lt_upper_bound; lia].
Qed.

Lemma digits_loop_hex fuel n : 0 ≤ n → Forall is_hex (digits_loop fuel radix n).
Proof.
  revert n. induction fuel as [|fuel IH]; intros n Hn; simpl; [done|]. case_decide.
  - apply Forall_singleton, digit_char_hex. lia.
  - apply Forall_app. split; [apply IH, Z.div_pos; lia|]. apply Forall_singleton, digit_char_hex.
    pose proof (Z.mod_pos_bound n radix). lia.
Qed.

Lemma digits_loop_length fuel (k : nat) n :
  0 ≤ n < radix ^ Z.of_nat (S k) → (length (digits_loop fuel radix n) ≤ S k)%nat.
Proof.
  revert k n. induction fuel as [|fuel IH]; intros k n Hn; simpl; [lia|].
  case_decide; simpl; [lia|]. rewrite length_app. simpl. destruct k as [|k]; [lia|].
  pose proof (IH k (n / radix) (quotient_bound _ _ Hn)). lia.
Qed.

(** The first digit is a zero for zero only. *)
Lemma digits_loop_head fuel n :
  0 ≤ n < radix ^ Z.of_nat fuel → (1 < length (digits_loop fuel radix n))%nat →
  head (digits_loop fuel radix n) ≠ Some 48.
Proof.
  assert (∀ fuel n, 0 < n < radix ^ Z.of_nat fuel →
    ∃ c l, digits_loop fuel radix n = c :: l ∧ c ≠ 48) as Hpos.
  { clear fuel n. induction fuel as [|fuel IH]; intros n Hn; simpl; [simpl in Hn; lia|]. case_decide.
    - eexists _, _. split; [done|]. unfold digit_char. case_decide; lia.
    - destruct (IH (n / radix)) as (c & l & -> & Hc).
      { split; [apply Z.div_str_pos; lia|]. apply quotient_bound. lia. }
      by eexists _, _. }
  intros Hn Hlen. destruct (decide (n = 0)) as [->|Hne].
  - destruct fuel; simpl in Hlen; [lia|]. rewrite decide_True in Hlen by lia. simpl in Hlen. lia.
  - destruct (Hpos fuel n) as (c & l & -> & Hc); [lia|]. naive_solver.
Qed.

Lemma read_digits_show fuel top maxd n rest :
  0 ≤ n < radix ^ Z.of_nat fuel → n ≤ top →
  (∀ k, maxd = Some k → length (digits_loop fuel radix n) ≤ k)%nat →
  read_digits radix top maxd 0 0 (digits_loop fuel radix n ++ rest) =
  read_digits radix top maxd n (length (digits_loop fuel radix n)) rest.
Proof.
  assert (∀ d acc count rest, 0 ≤ d < radix → acc * radix + d ≤ top →
    (∀ k, maxd = Some k → 1 + count ≤ k)%nat →
    read_digits radix top maxd acc count (digit_char d :: rest) =
    read_digits radix top maxd (acc * radix + d) (1 + count) rest) as Hstep.
  { intros d acc count r Hd Hacc Hmax. cbn [read_digits]. rewrite to_digit_char by lia.
    rewrite decide_False by lia. destruct maxd as [k|]; [|done].
    rewrite bool_decide_eq_false_2; [done|]. specialize (Hmax k eq_refl). lia. }
  revert n rest. induction fuel as [|fuel IH]; intros n rest Hn Htop Hmax; cbn [digits_loop] in *.
  { simpl in Hn. by replace n with 0 by lia. }
  case_decide as Hlt.
  - cbn [app length]. rewrite Hstep; [done|lia|lia|exact Hmax].
  - rewrite length_app in Hmax |- *. cbn [length] in *. rewrite <- app_assoc. cbn [app].
    pose proof (Z.div_mod n radix). pose proof (Z.mod_pos_bound n radix).
    rewrite IH; [|by apply quotient_bound| |intros k Hk; specialize (Hmax k Hk); lia].
    2:{ transitivity n; [|lia]. apply Z.div_le_upper_bound; nia. }
    rewrite Hstep; [|lia|lia|intros k Hk; specialize (Hmax k Hk); lia].
    f_equal; lia.
Qed.
End digits.

(** Nothing that goes on a number follows. *)
Definition ends_number (radix : Z) (rest : list Z) : Prop :=
  match rest with [] => True | c :: _ => to_digit radix c = None end.

Lemma read_number_show radix top maxd zero n rest :
  2 ≤ radix ≤ 16 → 0 ≤ n < radix ^ 10 → n ≤ top →
  (∀ k, maxd = Some k → length (digits radix n) ≤ k)%nat → ends_number radix rest →
  read_number radix top maxd zero (digits radix n ++ rest) = Some (n, rest).
Proof.
  intros Hr Hn Htop Hmax Hrest. unfold read_number, digits.
  rewrite (read_digits_show radix Hr 10) by done.
  set (count := length (digits_loop 10 radix n)).
  assert (read_digits radix top maxd n count rest = Some (n, count, rest)) as ->.
  { destruct rest as [|c rest]; [done|]. simpl in *. by rewrite Hrest. }
  assert (count ≠ 0%nat) as Hcount.
  { unfold count. cbn [digits_loop]. case_decide; [done|]. rewrite length_app. simpl. lia. }
  rewrite decide_False by done. pose proof (digits_loop_head radix Hr 10 n) as Hhead.
  destruct (decide (1 < count)%nat) as [Hgt|Hle].
  - rewrite (bool_decide_eq_false_2 (head _ = _)), andb_false_r; [done|].
    specialize (Hhead Hn Hgt). by destruct (digits_loop 10 radix n).
  - by rewrite (bool_decide_eq_false_2 (1 < count)%nat), andb_false_r by done.
Qed.

Lemma digits_length radix n (k : nat) :
  2 ≤ radix ≤ 16 → 0 ≤ n < radix ^ Z.of_nat (S k) → (length (digits radix n) ≤ S k)%nat.
Proof. intros Hr. by apply digits_loop_length. Qed.

(** ** Round trip *)

Lemma read_octet_show n rest :
  is_u8 n → ends_number 10 rest → read_octet (digits 10 n ++ rest) = Some (n, rest).
Proof.
  intros Hn Hrest. apply read_number_show; [lia|unfold is_u8 in Hn; lia|unfold is_u8 in Hn; lia| |done].
  intros k [= <-]. apply digits_length; [lia|]. unfold is_u8 in Hn. simpl. lia.
Qed.

Lemma read_port_show n rest :
  is_u16 n → ends_number 10 rest → read_port (58 :: digits 10 n ++ rest) = Some (n, rest).
Proof.
  intros Hn Hrest. unfold read_port. simpl. unfold is_u16 in Hn.
  by apply read_number_show; [lia|lia|lia| |].
Qed.

Lemma read_digits_suffix radix top maxd s acc count r :
  read_digits radix top maxd acc count s = Some r → r.2 ⊆ s.
Proof.
  revert acc count. induction s as [|c s IH]; intros acc count; simpl; [by intros [= <-]|].
  destruct (to_digit radix c); [|by intros [= <-]]. case_decide; [done|].
  destruct (match maxd with Some _ => _ | None => _ end); [done|]. intros Hs%IH. set_solver.
Qed.

Lemma read_number_suffix radix top maxd zero s n s' :
  read_number radix top maxd zero s = Some (n, s') → s' ⊆ s.
Proof.
  unfold read_number. destruct (read_digits _ _ _ _ _ s) as [[[m count] t]|] eqn:Hs; [|done].
  case_decide; [done|]. destruct (_ && _ && _); [done|]. intros [= _ <-].
  by apply read_digits_suffix in Hs.
Qed.

(** A text without a dot is not read as an IPv4 address. *)
Lemma read_ipv4_dot s : 46 ∉ s → read_ipv4_addr s = None.
Proof.
  intros Hdot. unfold read_ipv4_addr, read_separator.
  destruct (read_octet s) as [[a s1]|] eqn:Hs; [|done]. cbn [mbind option_bind].
  apply read_number_suffix in Hs. destruct s1 as [|c s1]; [done|]. simpl. rewrite decide_False; [done|]. set_solver.
Qed.

Definition groups_text (first : bool) (gs : list Z) : list Z :=
  if first then joined_by 58 (digits 16 <$> gs) else (digits 16 <$> gs) ≫= λ y, 58 :: y.

Lemma groups_text_cons first g gs :
  groups_text first (g :: gs) =
  (if first then [] else [58]) ++ digits 16 g ++ groups_text false gs.
Proof. by destruct first. Qed.

Lemma digits_dot radix n : 2 ≤ radix ≤ 16 → 0 ≤ n → 46 ∉ digits radix n.
Proof.
  intros Hr Hn Hin. pose proof (digits_loop_hex radix Hr 10 n Hn) as Hhex.
  rewrite Forall_forall in Hhex. destruct (Hhex 46 Hin); lia.
Qed.

Lemma groups_text_dot first gs : Forall is_u16 gs → 46 ∉ groups_text first gs.
Proof.
  intros Hgs. revert first. induction Hgs as [|g gs Hg _ IH]; intros first.
  { destruct first; apply not_elem_of_nil. }
  rewrite groups_text_cons, !elem_of_app. specialize (IH false). unfold is_u16 in Hg.
  pose proof (digits_dot 16 g). destruct first; set_solver by lia.
Qed.

Lemma read_groups_show first gs rest :
  Forall is_u16 gs → 46 ∉ rest → ends_number 16 rest →
  read_groups (length gs) first (groups_text first gs ++ rest) = (gs, false, rest).
Proof.
  intros Hgs Hdot Hrest. revert first. induction Hgs as [|g gs Hg Hgs IH]; intros first.
  { by destruct first. }
  assert (46 ∉ groups_text first (g :: gs) ++ rest) as Hno.
  { rewrite elem_of_app. intros [Hin|Hin]; [|done].
    by apply (groups_text_dot first (g :: gs)) in Hin; [|constructor]. }
  assert (read_separator 58 first read_ipv4_addr (groups_text first (g :: gs) ++ rest) = None) as Hv4.
  { rewrite groups_text_cons in Hno |- *. unfold read_separator. destruct first; [by apply read_ipv4_dot|].
    simpl in *. apply read_ipv4_dot. set_solver. }
  assert (ends_number 16 (groups_text false gs ++ rest)) as Hend by by destruct gs.
  assert (read_separator 58 first (read_number 16 65535 (Some 4%nat) true)
            (groups_text first (g :: gs) ++ rest) = Some (g, groups_text false gs ++ rest)) as Hg16.
  { unfold is_u16 in Hg. rewrite groups_text_cons, <- !app_assoc. unfold read_separator.
    destruct first; simpl; (apply read_number_show; [lia|lia|lia| |done]);
      intros k [= <-]; apply digits_length; simpl; lia. }
  cbn [length read_groups]. rewrite Hv4, Hg16, IH. by case_decide.
Qed.

Lemma group_octets_groups o (n : nat) :
  length o = (2 * n)%nat → bytes_ok o → group_octets (groups o) = o ∧ Forall is_u16 (groups o) ∧
    length (groups o) = n.
Proof.
  revert o. induction n as [|n IH]; intros o Hlen Hb; [by apply nil_length_inv in Hlen as ->|].
  destruct o as [|a [|b o]]; [simpl in Hlen; lia..|]. simpl in Hlen.
  apply Forall_cons in Hb as [Ha Hb]. apply Forall_cons in Hb as [Hb Ho].
  destruct (IH o) as (E & Hu & Hl); [lia|done|]. unfold is_u8 in *. simpl.
  assert ((a * 256 + b) / 256 = a ∧ (a * 256 + b) mod 256 = b) as [-> ->].
  { split; [|rewrite Z.add_comm, Z.mod_add, Z.mod_small; lia].
    rewrite Z.div_add_l, Z.div_small; lia. }
  split; [by rewrite E|]. split; [constructor; [unfold is_u16; lia|done]|by rewrite Hl].
Qed.

Definition without_flowinfo (a : SocketAddr) : SocketAddr :=
  match a with V4 o p => V4 o p | V6 o p _ s => V6 o p 0 s end.

Lemma parse_show_v4 o port :
  addr_ok (V4 o port) → parse_socket_addr (show_addr (V4 o port)) = Some (V4 o port).
Proof.
  intros (Hlen & Hb & Hport). destruct o as [|a [|b [|c [|d [|? ?]]]]]; try done.
  apply Forall_cons in Hb as [Ha Hb]. apply Forall_cons in Hb as [Hb' Hb].
  apply Forall_cons in Hb as [Hc Hb]. apply Forall_cons in Hb as [Hd _].
  assert (show_addr (V4 [a; b; c; d] port) = digits 10 a ++ 46 :: digits 10 b ++
    46 :: digits 10 c ++ 46 :: digits 10 d ++ 58 :: digits 10 port ++ []) as ->.
  { unfold show_addr. simpl joined_by. rewrite !app_nil_r.
    repeat (rewrite <- app_assoc; cbn [app]). done. }
  unfold parse_socket_addr, read_socket_addr, read_socket_addr_v4, read_ipv4_addr, read_separator.
  do 4 (rewrite read_octet_show by done; cbn [mbind option_bind read_given_char];
        rewrite ?decide_True by done; cbn [mbind option_bind]).
  by rewrite read_port_show.
Qed.

Lemma read_given_char_eq c s : read_given_char c (c :: s) = Some s.
Proof. simpl. by rewrite decide_True. Qed.

Lemma bind_Some_eq {A B} (x : A) (f : A → option B) : Some x ≫= f = f x.
Proof. reflexivity. Qed.

Lemma read_v4_bracket s : read_socket_addr_v4 (91 :: s) = None.
Proof. reflexivity. Qed.

(** What follows the groups of an IPv6 address. *)
Lemma show_v6_rest o port flow scope :
  addr_ok (V6 o port flow scope) →
  ∃ rest, show_addr (V6 o port flow scope) = 91 :: groups_text true (groups o) ++ rest ∧
    (46 ∉ rest) ∧ ends_number 16 rest ∧
    default (0, rest) (read_scope_id rest) = (scope, 93 :: 58 :: digits 10 port).
Proof.
  intros (_ & _ & Hport & _ & Hscope). eexists. split; [reflexivity|].
  unfold is_u16, is_u32 in *. pose proof (digits_dot 10 port). pose proof (digits_dot 10 scope).
  case_decide as Hz; [subst|]; (split; [set_solver by lia|]); (split; [done|]); [done|].
  unfold read_scope_id. rewrite <- app_assoc. cbn [app read_given_char].
  rewrite decide_True by done. cbn [mbind option_bind].
  by rewrite read_number_show by (done || lia).
Qed.

Lemma parse_show_v6 o port flow scope :
  addr_ok (V6 o port flow scope) →
  parse_socket_addr (show_addr (V6 o port flow scope)) = Some (V6 o port 0 scope).
Proof.
  intros Ha. destruct (show_v6_rest _ _ _ _ Ha) as (rest & -> & Hdot & Hend & Hrest).
  destruct Ha as (Hlen & Hb & Hport & _ & _).
  destruct (group_octets_groups o 8 Hlen Hb) as (Ho & Hgs & Hl).
  pose proof (read_groups_show true (groups o) rest Hgs Hdot Hend) as Hread. rewrite Hl in Hread.
  assert (read_ipv6_addr (groups_text true (groups o) ++ rest) = Some (groups o, rest)) as Hip.
  { unfold read_ipv6_addr. by rewrite Hread, decide_True. }
  unfold parse_socket_addr, read_socket_addr. rewrite read_v4_bracket.
  unfold read_socket_addr_v6. rewrite read_given_char_eq, bind_Some_eq, Hip, bind_Some_eq, Hrest.
  rewrite read_given_char_eq, bind_Some_eq, Ho, <- (app_nil_r (digits 10 port)).
  by rewrite read_port_show, bind_Some_eq.
Qed.

(** An address printed and parsed is the same address, up to the flow label. *)
Lemma parse_show a : addr_ok a → parse_socket_addr (show_addr a) = Some (without_flowinfo a).
Proof. destruct a; [apply parse_show_v4|apply parse_show_v6]. Qed.
