(* ===== verification/StunParse.v ===== *)
(** * STUN binding requests (src/src/stun/mod.rs, parser)

    [parse_stun_binding_request] is applied to every datagram that is not RTP.
    The attribute loop is a fixpoint with fuel; [attributes_loop_total] shows
    that the fuel the parser passes is enough for every input. *)

From S2P Require Import Prelude Net Srtp ByteOrder Utf8.
Local Open Scope Z_scope.

Record StunBindingRequest := {
  transaction_id : list Z;
  remote_user : SmolStr;
  server_user : SmolStr;
}.

#[export] Instance StunBindingRequest_eq_dec : EqDecision StunBindingRequest.
Proof. solve_decision. Defined.

Definition STUN_TRANSACTION_ID_LEN : nat := 12.
Definition STUN_MAX_IDENTIFIER_LEN : nat := 128.
Definition STUN_HEADER_LEN : nat := 20.
Definition STUN_ALIGNMENT : Z := 4.
Definition STUN_COOKIE : list Z := [33; 18; 164; 66].
Definition STUN_CRC_XOR : Z := 1398035790.

Inductive StunType := BindingRequest | SuccessResponse.
Definition stun_type_code (t : StunType) : Z :=
  match t with BindingRequest => 1 | SuccessResponse => 257 end.

Inductive StunAttributeType := User | MessageIntegrity | XorMappedAddress | Fingerprint.
Definition attribute_code (t : StunAttributeType) : Z :=
  match t with
  | User => 6
  | MessageIntegrity => 8
  | XorMappedAddress => 32
  | Fingerprint => 32808
  end.

Inductive StunAddressFamily := IPV4 | IPV6.
Definition family_code (f : StunAddressFamily) : Z :=
  match f with IPV4 => 1 | IPV6 => 2 end.

(** [(payload_len + STUN_ALIGNMENT - 1) & !(STUN_ALIGNMENT - 1)] on [usize] *)
Definition padded (payload_len : nat) : nat :=
  Z.to_nat (Z.land (Z.of_nat payload_len + STUN_ALIGNMENT - 1)
                   (2 ^ 64 - 1 - (STUN_ALIGNMENT - 1))).

Section parser.
Context {bo : ByteOrder}.

(** The body of the [User] case: the two names around the first colon. *)
Definition parse_user (tid server_and_remote_user : list Z) :
    outcome (option StunBindingRequest) :=
  colon ←! position 58 server_and_remote_user;
  server_user ← slice server_and_remote_user 0 colon;
  remote_user ← slice server_and_remote_user (colon + 1)
                  (length server_and_remote_user);
  if decide (STUN_MAX_IDENTIFIER_LEN < length server_user ∨
             STUN_MAX_IDENTIFIER_LEN < length remote_user)%nat then Done None
  else
    server_user ←! from_utf8 server_user;
    remote_user ←! from_utf8 remote_user;
    Done (Some {| transaction_id := tid;
                  remote_user := remote_user;
                  server_user := server_user |}).

(** [while offset < length - 4 { ... } None] *)
Fixpoint attributes_loop (fuel : nat) (bytes : list Z) (len : nat) (tid : list Z)
    (offset : nat) : outcome (option StunBindingRequest) :=
  match fuel with
  | O => Stuck
  | S fuel =>
      limit ← usub len 4;
      if decide (offset < limit)%nat then
        s ← slice bytes offset (offset + 2); payload_type ← read_u16 s;
        s ← slice bytes (offset + 2) (offset + 4); payload_len ← read_u16 s;
        let payload_len := Z.to_nat payload_len in
        let offset := (offset + 4)%nat in
        let padded_len := padded payload_len in
        if decide (len < offset + padded_len)%nat then Done None
        else if decide (payload_type = attribute_code User) then
          server_and_remote_user ← slice bytes offset (offset + payload_len);
          parse_user tid server_and_remote_user
        else attributes_loop fuel bytes len tid (offset + padded_len)
      else Done None
  end.

Definition parse_stun_binding_request (bytes : list Z) :
    outcome (option StunBindingRequest) :=
  if decide (length bytes < STUN_HEADER_LEN)%nat then Done None else
  b0 ← index bytes 0;
  if decide (Z.shiftr b0 6 ≠ 0) then Done None else
  s ← slice bytes 0 2; stun_type ← read_u16 s;
  if decide (stun_type ≠ stun_type_code BindingRequest) then Done None else
  s ← slice bytes 2 4; len ← read_u16 s;
  let len := Z.to_nat len in
  if decide (len < 4 ∨ length bytes < STUN_HEADER_LEN + len)%nat then Done None else
  cookie ← slice bytes 4 8;
  if decide (cookie ≠ STUN_COOKIE) then Done None else
  s ← slice bytes 8 STUN_HEADER_LEN;
  tid ← copy_from_slice s (replicate STUN_TRANSACTION_ID_LEN 0);
  attributes_loop (S len) bytes len tid STUN_HEADER_LEN.
End parser.

(** ** Padding *)

Lemma land_align x : 0 ≤ x < 2 ^ 64 → Z.land x (2 ^ 64 - 4) = 4 * (x / 4).
Proof.
  intros Hx. apply Z.bits_inj'. intros i Hi. rewrite Z.land_spec.
  change (2 ^ 64 - 4) with (Z.shiftl (Z.ones 62) 2).
  replace (4 * (x / 4)) with (Z.shiftl (Z.shiftr x 2) 2).
  2:{ rewrite Z.shiftl_mul_pow2, Z.shiftr_div_pow2 by lia. change (2 ^ 2) with 4. lia. }
  rewrite !Z.shiftl_spec by lia. destruct (Z.ltb_spec i 2).
  - rewrite !(Z.testbit_neg_r _ (i - 2)) by lia. apply andb_false_r.
  - rewrite Z.shiftr_spec by lia. replace (i - 2 + 2) with i by lia.
    rewrite Z.testbit_ones_nonneg by lia.
    destruct (Z.ltb_spec (i - 2) 62); [apply andb_true_r|].
    rewrite andb_false_r. symmetry.
    destruct (Z.eq_dec x 0) as [->|]; [apply Z.bits_0|].
    apply Z.bits_above_log2; [lia|]. apply Z.log2_lt_pow2; [lia|].
    eapply Z.lt_le_trans; [apply Hx|]. apply Z.pow_le_mono_r; lia.
Qed.

(** [padded] rounds up to the next multiple of four. *)
Lemma padded_spec n :
  Z.of_nat n < 65536 → Z.of_nat (padded n) = 4 * ((Z.of_nat n + 3) / 4).
Proof.
  intros. unfold padded, STUN_ALIGNMENT.
  replace (2 ^ 64 - 1 - (4 - 1)) with (2 ^ 64 - 4) by lia.
  replace (Z.of_nat n + 4 - 1) with (Z.of_nat n + 3) by lia.
  rewrite land_align by lia. rewrite Z2Nat.id; [done|].
  pose proof (Z.div_pos (Z.of_nat n + 3) 4). lia.
Qed.

Lemma padded_bounds n : Z.of_nat n < 65536 → (n ≤ padded n < n + 4)%nat.
Proof. intros Hn. pose proof (padded_spec n Hn). Z.div_mod_to_equations. lia. Qed.

(** ** Totality *)

Section total.
Context {bo : ByteOrder} {BE : NetworkEndian bo}.

Lemma parse_user_total tid s : ∃ r, parse_user tid s = Done r.
Proof.
  unfold parse_user. destruct (position 58 s) as [colon|] eqn:Hc; [|by eexists].
  apply position_lt in Hc. simpl. rewrite !slice_Done by lia. simpl.
  case_decide; [by eexists|].
  destruct (from_utf8 _); [|by eexists]. destruct (from_utf8 _); by eexists.
Qed.

Lemma read_attr_field bytes i :
  bytes_ok bytes → (i + 2 ≤ length bytes)%nat →
  ∃ n, (s ← slice bytes i (i + 2); read_u16 s) = Done n ∧ is_u16 n.
Proof.
  intros Hb Hi. rewrite slice_Done by lia. simpl.
  apply read_u16_total; [auto with rstreamer|]. rewrite length_take, length_drop. lia.
Qed.

(** Inside the announced length every read is in range, and every iteration
    advances by at least four: the loop returns. *)
Lemma attributes_loop_total fuel bytes len tid offset :
  bytes_ok bytes → (4 ≤ len)%nat → (STUN_HEADER_LEN + len ≤ length bytes)%nat →
  (len ≤ offset + fuel)%nat → (0 < fuel)%nat →
  ∃ r, attributes_loop fuel bytes len tid offset = Done r.
Proof.
  intros Hb Hlen Hle. unfold STUN_HEADER_LEN in Hle.
  revert offset. induction fuel as [|fuel IH]; intros offset Hf Hpos; [lia|].
  simpl. unfold usub. rewrite decide_True by lia. simpl.
  case_decide as Hoff; [|by eexists].
  destruct (read_attr_field bytes offset) as (ty & Hty & _); [done|lia|].
  destruct (read_attr_field bytes (offset + 2)) as (pl & Hpl & Hpl'); [done|lia|].
  replace (offset + 2 + 2)%nat with (offset + 4)%nat in Hpl by lia.
  apply outcome_bind_Done in Hty as (s1 & -> & Hty). simpl. rewrite Hty. simpl.
  apply outcome_bind_Done in Hpl as (s2 & -> & Hpl). simpl. rewrite Hpl. simpl.
  case_decide as Hfit; [by eexists|]. case_decide.
  - assert (Z.of_nat (Z.to_nat pl) < 65536) as Hlt%padded_bounds by (unfold is_u16 in *; lia).
    rewrite slice_Done by lia. simpl. apply parse_user_total.
  - apply IH; lia.
Qed.

Lemma parse_total bytes :
  bytes_ok bytes → ∃ r, parse_stun_binding_request bytes = Done r.
Proof.
  intros Hb. unfold parse_stun_binding_request, STUN_HEADER_LEN.
  case_decide as Hl; [by eexists|].
  destruct (index_is_Done bytes 0) as (b0 & _ & ->); [lia|]. bind_step.
  case_decide; [by eexists|].
  destruct (read_attr_field bytes 0) as (ty & Hty & _); [done|lia|].
  destruct (read_attr_field bytes 2) as (l & Hlen & Hl'); [done|lia|].
  simpl in Hty, Hlen.
  apply outcome_bind_Done in Hty as (s1 & -> & Hty). bind_step. rewrite Hty. bind_step.
  case_decide; [by eexists|].
  apply outcome_bind_Done in Hlen as (s2 & -> & Hlen). bind_step. rewrite Hlen. bind_step.
  case_decide; [by eexists|]. rewrite (slice_Done bytes 4 8) by lia. bind_step.
  case_decide; [by eexists|]. rewrite (slice_Done bytes 8 20) by lia. bind_step.
  rewrite copy_from_slice_Done.
  - bind_step. apply (attributes_loop_total (S (Z.to_nat l))); unfold STUN_HEADER_LEN; auto; lia.
  - rewrite length_replicate, length_take, length_drop. unfold STUN_TRANSACTION_ID_LEN. lia.
Qed.
End total.

(** ** The wire format

    A sender's view of a binding request: type-length-value attributes padded
    to four bytes, behind the header whose length field counts the bytes after
    the header. *)

Record attr := { a_type : Z; a_value : list Z; a_pad : list Z }.

Record attr_ok (a : attr) : Prop := {
  attr_type_ok : is_u16 (a_type a);
  attr_value_ok : bytes_ok (a_value a);
  attr_pad_ok : bytes_ok (a_pad a);
  attr_length_ok : Z.of_nat (length (a_value a)) < 65536;
  attr_padding : (length (a_value a) + length (a_pad a))%nat = padded (length (a_value a));
}.

Definition encode_attr (a : attr) : list Z :=
  be16_bytes (a_type a) ++ be16_bytes (Z.of_nat (length (a_value a))) ++
  a_value a ++ a_pad a.

Definition encode_attrs (l : list attr) : list Z := concat (encode_attr <$> l).

Definition encode_request (tid body trailer : list Z) : list Z :=
  be16_bytes (stun_type_code BindingRequest) ++
  be16_bytes (Z.of_nat (length body)) ++ STUN_COOKIE ++ tid ++ body ++ trailer.

Lemma length_encode_attr a :
  attr_ok a → length (encode_attr a) = (4 + padded (length (a_value a)))%nat.
Proof.
  intros Ha. unfold encode_attr. rewrite !length_app, <-(attr_padding a Ha). simpl. lia.
Qed.

Section wire.
Context {bo : ByteOrder} {BE : NetworkEndian bo}.

(** What the body of the loop does on a well-formed attribute. *)
Definition attr_step (len : nat) (tid : list Z) (offset : nat)
    (a : attr) (k : nat → outcome (option StunBindingRequest)) :
    outcome (option StunBindingRequest) :=
  if decide (len ≤ offset + 4)%nat then Done None
  else if decide (len < offset + 4 + padded (length (a_value a)))%nat then Done None
  else if decide (a_type a = attribute_code User) then parse_user tid (a_value a)
  else k (offset + 4 + padded (length (a_value a)))%nat.

Lemma encode_attr_slices l a r :
  let bytes := l ++ encode_attr a ++ r in
  let n := length l in
  slice bytes n (n + 2) = Done (be16_bytes (a_type a)) ∧
  slice bytes (n + 2) (n + 4) = Done (be16_bytes (Z.of_nat (length (a_value a)))) ∧
  slice bytes (n + 4) (n + 4 + length (a_value a)) = Done (a_value a).
Proof.
  intros bytes n. subst bytes n. unfold encode_attr. rewrite <-!app_assoc. split_and!.
  - by apply slice_app_mid.
  - rewrite (app_assoc l). apply slice_app_mid; rewrite !length_app; simpl; lia.
  - rewrite (app_assoc (be16_bytes _)), (app_assoc l).
    apply slice_app_mid; rewrite !length_app; simpl; lia.
Qed.

Lemma attributes_loop_step fuel l a r len tid offset :
  attr_ok a → (4 ≤ len)%nat → offset = length l →
  let bytes := l ++ encode_attr a ++ r in
  attributes_loop (S fuel) bytes len tid offset =
  attr_step len tid offset a (attributes_loop fuel bytes len tid).
Proof.
  intros [? ? ? Hlen Hpad] Hl4 -> bytes. unfold attr_step.
  destruct (encode_attr_slices l a r) as (H1 & H2 & H3). fold bytes in H1, H2, H3.
  assert (is_u16 (Z.of_nat (length (a_value a)))) by (unfold is_u16; lia).
  cbn [attributes_loop]. unfold usub. rewrite decide_True by lia. bind_step.
  case_decide; case_decide; try lia; [|done].
  rewrite H1. bind_step. rewrite read_u16_exact by done. bind_step.
  rewrite H2. bind_step. rewrite read_u16_exact by done. bind_step. rewrite Nat2Z.id.
  case_decide; [done|]. case_decide; [|done]. by rewrite H3.
Qed.

(** The loop skips every attribute in front of the user name, as long as the
    announced length leaves room for it. *)
Lemma attributes_loop_skip fuel l pre r len tid :
  Forall attr_ok pre → Forall (λ a, a_type a ≠ attribute_code User) pre →
  (length l + length (encode_attrs pre) + 4 ≤ len)%nat →
  attributes_loop (length pre + fuel) (l ++ encode_attrs pre ++ r) len tid (length l) =
  attributes_loop fuel (l ++ encode_attrs pre ++ r) len tid
    (length l + length (encode_attrs pre)).
Proof.
  intros Hok Hty. revert l. induction Hok as [|a pre Ha Hpre IH]; intros l Hlen.
  { simpl. by rewrite Nat.add_0_r. }
  apply Forall_cons in Hty as [Hta Hty].
  change (encode_attrs (a :: pre)) with (encode_attr a ++ encode_attrs pre) in *.
  rewrite length_app in *. rewrite <-app_assoc in *. 
  change (length (a :: pre) + fuel)%nat with (S (length pre + fuel)).
  rewrite attributes_loop_step by (done || lia). unfold attr_step.
  pose proof (length_encode_attr a Ha) as Hal.
  rewrite !decide_False by (done || lia).
  replace (length l + 4 + padded _)%nat with (length (l ++ encode_attr a))
    by (rewrite length_app; lia).
  rewrite (app_assoc l). rewrite IH by (done || rewrite length_app; lia).
  f_equal. rewrite length_app. lia.
Qed.

(** The user name is refused when its end, counted from the start of the
    datagram, lies beyond the announced length. *)
Lemma attributes_loop_past fuel l pre u r len tid :
  Forall attr_ok pre → Forall (λ a, a_type a ≠ attribute_code User) pre → attr_ok u →
  (4 ≤ len)%nat →
  (len < length l + length (encode_attrs pre) + length (encode_attr u))%nat →
  (length pre < fuel)%nat →
  attributes_loop fuel (l ++ encode_attrs pre ++ encode_attr u ++ r) len tid (length l) =
  Done None.
Proof.
  intros Hok Hty Hu H4. revert l fuel.
  induction Hok as [|a pre Ha Hpre IH]; intros l [|fuel] Hlen Hf; try (simpl in *; lia).
  { change (encode_attrs [] ++ ?x) with x. change (encode_attrs []) with (@nil Z) in *.
    rewrite attributes_loop_step by (done || lia). unfold attr_step.
    rewrite (length_encode_attr u Hu) in Hlen. simpl in Hlen.
    case_decide; [done|]. by rewrite decide_True by lia. }
  apply Forall_cons in Hty as [Hta Hty].
  change (encode_attrs (a :: pre)) with (encode_attr a ++ encode_attrs pre) in *.
  rewrite length_app in Hlen. rewrite <-app_assoc.
  rewrite attributes_loop_step by (done || lia). unfold attr_step.
  pose proof (length_encode_attr a Ha) as Hal.
  case_decide; [done|]. case_decide; [done|]. rewrite decide_False by done.
  replace (length l + 4 + padded _)%nat with (length (l ++ encode_attr a))
    by (rewrite length_app; lia).
  rewrite (app_assoc l). apply IH; [done|rewrite length_app; lia|simpl in Hf; lia].
Qed.

Lemma length_encode_attrs pre :
  Forall attr_ok pre → (4 * length pre ≤ length (encode_attrs pre))%nat.
Proof.
  induction 1 as [|a pre Ha _ IH]; [simpl; lia|].
  change (encode_attrs (a :: pre)) with (encode_attr a ++ encode_attrs pre).
  rewrite length_app, (length_encode_attr a Ha). simpl. lia.
Qed.

Lemma parse_encoded_header tid body trailer :
  length tid = STUN_TRANSACTION_ID_LEN →
  Z.of_nat (length body) < 65536 → (4 ≤ length body)%nat →
  parse_stun_binding_request (encode_request tid body trailer) =
  attributes_loop (S (length body)) (encode_request tid body trailer)
    (length body) tid STUN_HEADER_LEN.
Proof.
  intros Htid Hlen H4. unfold parse_stun_binding_request.
  set (req := encode_request tid body trailer).
  assert (length req = 20 + length body + length trailer)%nat as Hreq.
  { unfold req, encode_request. rewrite !length_app, Htid. simpl. lia. }
  assert (is_u16 (Z.of_nat (length body))) by (unfold is_u16; lia).
  assert (slice req 0 2 = Done (be16_bytes (stun_type_code BindingRequest))) as ->
    by (by apply (slice_app_mid [])).
  assert (slice req 2 4 = Done (be16_bytes (Z.of_nat (length body)))) as ->
    by (by apply (slice_app_mid (be16_bytes _))).
  assert (slice req 4 8 = Done STUN_COOKIE) as ->.
  { unfold req, encode_request. rewrite (app_assoc (be16_bytes _)).
    by apply slice_app_mid. }
  assert (slice req 8 STUN_HEADER_LEN = Done tid) as ->.
  { unfold req, encode_request. rewrite (app_assoc (be16_bytes _)), (app_assoc (_ ++ _)).
    apply slice_app_mid; [done|]. rewrite Htid. done. }
  rewrite decide_False by (unfold STUN_HEADER_LEN; lia).
  rewrite (index_Done req 0 0) by done. bind_step.
  rewrite decide_False by (by intros []).
  rewrite (read_u16_exact (stun_type_code _)) by (unfold is_u16; simpl; lia). bind_step.
  rewrite decide_False by (intros Hne; by apply Hne). rewrite read_u16_exact by done. bind_step.
  rewrite Nat2Z.id, decide_False by (unfold STUN_HEADER_LEN; lia).
  rewrite decide_False by (intros Hne; by apply Hne). rewrite copy_from_slice_Done by (by rewrite Htid). done.
Qed.

Lemma parse_user_names tid su ru :
  58 ∉ su → (length su ≤ STUN_MAX_IDENTIFIER_LEN)%nat →
  (length ru ≤ STUN_MAX_IDENTIFIER_LEN)%nat →
  utf8_valid su = true → utf8_valid ru = true →
  parse_user tid (su ++ 58 :: ru) =
  Done (Some {| transaction_id := tid; remote_user := ru; server_user := su |}).
Proof.
  intros Hsu Hsl Hrl Hs Hr. unfold parse_user. rewrite position_app by done. bind_step.
  assert (slice (su ++ 58 :: ru) 0 (length su) = Done su) as ->
    by (by apply (slice_app_mid [])). bind_step.
  replace (su ++ 58 :: ru) with ((su ++ [58]) ++ ru) by (by rewrite <-app_assoc).
  rewrite slice_app_end by (rewrite length_app; simpl; lia). bind_step.
  rewrite decide_False by lia. unfold from_utf8. by rewrite Hs, Hr.
Qed.
End wire.

(** ** Soundness *)

Lemma position_prefix x l n : position x l = Some n → x ∉ take n l.
Proof.
  revert n; induction l as [|y l IH]; intros n; simpl; [done|]. case_decide.
  - intros [= <-]. simpl. set_solver.
  - destruct (position x l) as [m|]; simpl; intros [= <-]. simpl.
    specialize (IH m eq_refl). set_solver.
Qed.

(** A user name field that was accepted, in terms of the datagram. *)
Record accepted (value : list Z) (r : StunBindingRequest) : Prop := {
  acc_value : value = server_user r ++ 58 :: remote_user r;
  acc_colon : 58 ∉ server_user r;
  acc_server_len : (length (server_user r) ≤ STUN_MAX_IDENTIFIER_LEN)%nat;
  acc_remote_len : (length (remote_user r) ≤ STUN_MAX_IDENTIFIER_LEN)%nat;
  acc_server_utf8 : utf8_valid (server_user r) = true;
  acc_remote_utf8 : utf8_valid (remote_user r) = true;
}.

Lemma parse_user_sound tid value r :
  parse_user tid value = Done (Some r) → transaction_id r = tid ∧ accepted value r.
Proof.
  unfold parse_user. destruct (position 58 value) as [n|] eqn:Hpos; [|done].
  pose proof (position_lt _ _ _ Hpos). bind_step.
  rewrite !slice_Done by lia. bind_step. rewrite drop_0, Nat.sub_0_r.
  rewrite (take_ge (drop _ _)) by (rewrite length_drop; lia).
  case_decide as Hlen; [done|]. unfold from_utf8, opt_bind.
  destruct (utf8_valid (take n value)) eqn:Hs; [|done].
  destruct (utf8_valid (drop (n + 1) value)) eqn:Hr; [|done].
  intros [= <-]. split; [done|]. split; simpl; try done; try lia.
  - rewrite <-(take_drop n value) at 1. f_equal. rewrite Nat.add_1_r.
    by apply drop_S, position_lookup.
  - by eapply position_prefix.
Qed.

Section sound.
Context {bo : ByteOrder}.

Lemma attributes_loop_sound fuel bytes len tid offset r :
  attributes_loop fuel bytes len tid offset = Done (Some r) →
  transaction_id r = tid ∧
  ∃ value o, slice bytes o (o + length value) = Done value ∧ accepted value r ∧
             (offset + 4 ≤ o ∧ o ≤ len)%nat.
Proof.
  revert offset. induction fuel as [|fuel IH]; intros offset; [done|].
  cbn [attributes_loop]. intros H.
  apply outcome_bind_Done in H as (limit & _ & H). case_decide; [|done].
  do 4 (apply outcome_bind_Done in H as (? & _ & H)). cbv zeta in H.
  case_decide as Hfit; [done|]. case_decide.
  - apply outcome_bind_Done in H as (value & Hv & [Htid Hacc]%parse_user_sound).
    split; [done|]. eexists value, _. split_and!; [|done|reflexivity|lia].
    by eapply slice_self.
  - destruct (IH _ H) as (? & value & o & ? & ? & ? & ?).
    split; [done|]. exists value, o. split_and!; (done || lia).
Qed.

Lemma parse_header_sound bytes r :
  parse_stun_binding_request bytes = Done (Some r) →
  (STUN_HEADER_LEN ≤ length bytes)%nat ∧
  (∃ b0, bytes !! 0%nat = Some b0 ∧ Z.shiftr b0 6 = 0) ∧
  slice bytes 4 8 = Done STUN_COOKIE ∧
  slice bytes 8 STUN_HEADER_LEN = Done (transaction_id r) ∧
  ∃ len fuel tid, attributes_loop fuel bytes len tid STUN_HEADER_LEN = Done (Some r) ∧
             (STUN_HEADER_LEN + len ≤ length bytes)%nat.
Proof.
  unfold parse_stun_binding_request. case_decide as Hlen; [done|]. intros H.
  apply outcome_bind_Done in H as (b0 & Hb0 & H). case_decide as H6; [done|].
  do 2 (apply outcome_bind_Done in H as (? & _ & H)). case_decide; [done|].
  do 2 (apply outcome_bind_Done in H as (? & _ & H)). cbv zeta in H.
  case_decide; [done|]. apply outcome_bind_Done in H as (c & Hc & H).
  case_decide as Hck; [done|]. apply outcome_bind_Done in H as (s & Hs & H).
  apply outcome_bind_Done in H as (tid & Htid & H).
  unfold copy_from_slice in Htid. case_decide; [|done]. injection Htid as <-.
  pose proof H as [Ht _]%attributes_loop_sound. subst c.
  unfold index in Hb0. destruct (bytes !! 0%nat) eqn:E0; [|done]. injection Hb0 as ->.
  split_and!; [lia|eauto|done|by rewrite Ht|]. do 3 eexists. split; [exact H|lia].
Qed.
End sound.

(** ** Properties *)

Section stun_parse_properties.
Context {bo : ByteOrder} {BE : NetworkEndian bo}.

(** C19. The STUN parser is total: on every datagram it returns, with no
    panic (no slice or index out of range, no underflow) and no endless loop. *)
Theorem stun_parse_never_panics bytes :
  bytes_ok bytes → ∃ r, parse_stun_binding_request bytes = Done r.
Proof. apply parse_total. Qed.

(** C18. What the parser makes of a well-formed binding request that carries a
    user name after other attributes: it returns the transaction id and the two
    names exactly when at least 20 bytes of attributes follow the user name,
    and refuses the request otherwise. (The loop compares offsets counted from
    the start of the datagram with a length that does not count the header.) *)
Theorem stun_parse_encoded tid pre u su ru post trailer :
  length tid = STUN_TRANSACTION_ID_LEN →
  Forall attr_ok pre → Forall (λ a, a_type a ≠ attribute_code User) pre →
  attr_ok u → a_type u = attribute_code User → a_value u = su ++ 58 :: ru →
  58 ∉ su → (length su ≤ STUN_MAX_IDENTIFIER_LEN)%nat →
  (length ru ≤ STUN_MAX_IDENTIFIER_LEN)%nat →
  utf8_valid su = true → utf8_valid ru = true →
  let body := encode_attrs pre ++ encode_attr u ++ post in
  Z.of_nat (length body) < 65536 →
  parse_stun_binding_request (encode_request tid body trailer) =
  Done (if decide (20 ≤ length post)%nat
        then Some {| transaction_id := tid; remote_user := ru; server_user := su |}
        else None).
Proof.
  intros Htid Hpre Hty Hu Hut Huv Hsu Hsl Hrl Hs Hr body Hbody.
  pose proof (length_encode_attr u Hu) as Hul.
  pose proof (length_encode_attrs pre Hpre) as Hpl.
  pose proof (padded_bounds _ (attr_length_ok u Hu)) as Hpad.
  assert (0 < length (a_value u))%nat as Hpos by (rewrite Huv, length_app; simpl; lia).
  assert (length body = length (encode_attrs pre) + length (encode_attr u) + length post)%nat
    as Hbl by (subst body; rewrite !length_app; lia).
  rewrite parse_encoded_header by (done || lia).
  set (hdr := be16_bytes (stun_type_code BindingRequest) ++
              be16_bytes (Z.of_nat (length body)) ++ STUN_COOKIE ++ tid).
  assert (length hdr = STUN_HEADER_LEN) as Hh
    by (unfold hdr; rewrite !length_app, Htid; done).
  assert (encode_request tid body trailer =
          hdr ++ encode_attrs pre ++ encode_attr u ++ (post ++ trailer)) as ->.
  { unfold encode_request, hdr, body. by rewrite <-!app_assoc. }
  rewrite <-Hh. unfold STUN_HEADER_LEN in Hh. case_decide as Hpost.
  - replace (S (length body)) with (length pre + S (length body - length pre))%nat by lia.
    rewrite attributes_loop_skip by (done || lia).
    rewrite app_assoc, <-length_app.
    rewrite attributes_loop_step by (done || lia). unfold attr_step.
    rewrite length_app, 2!decide_False by lia. rewrite decide_True by done.
    rewrite Huv. by apply parse_user_names.
  - apply attributes_loop_past; (done || lia).
Qed.

(** Everything the parser returns was in the datagram: the transaction id
    is bytes 8 to 19, the two names are around the first colon of a field that
    lies inside the datagram after the header, both at most 128 bytes long and
    valid UTF-8, and the magic cookie was present. *)
Lemma stun_parse_sound bytes r :
  parse_stun_binding_request bytes = Done (Some r) →
  transaction_id r = take 12 (drop 8 bytes) ∧
  take 4 (drop 4 bytes) = STUN_COOKIE ∧
  ∃ o value,
    (STUN_HEADER_LEN ≤ o)%nat ∧ take (length value) (drop o bytes) = value ∧
    value = server_user r ++ 58 :: remote_user r ∧ (58 ∉ server_user r) ∧
    (length (server_user r) ≤ STUN_MAX_IDENTIFIER_LEN)%nat ∧
    (length (remote_user r) ≤ STUN_MAX_IDENTIFIER_LEN)%nat ∧
    utf8_valid (server_user r) = true ∧ utf8_valid (remote_user r) = true.
Proof.
  intros (_ & _ & Hc & Ht & len & fuel & tid & Hloop & _)%parse_header_sound.
  apply attributes_loop_sound in Hloop as (_ & value & o & Hv & [] & ? & _).
  apply slice_inv in Hc as (_ & _ & Hc), Ht as (_ & _ & Ht), Hv as (_ & _ & Hv).
  rewrite Nat.add_comm, Nat.add_sub in Hv.
  split_and!; [done|done|]. exists o, value. split_and!; try done. lia.
Qed.
End stun_parse_properties.

(** A request with the user name [srv:cli] and [n] bytes of attributes after it. *)
Definition sample_user : attr :=
  {| a_type := 6; a_value := str "srv:cli"; a_pad := [0] |}.
Definition sample_request (n : nat) : list Z :=
  encode_request (replicate 12 7) (encode_attrs [] ++ encode_attr sample_user ++ replicate n 0) [].

Lemma sample_user_ok : attr_ok sample_user.
Proof. split; by apply (bool_decide_unpack _). Qed.

Lemma stun_parse_never_panics_witness :
  ∃ r, parse_stun_binding_request (bo := be_order) (sample_request 24) = Done r.
Proof.
  apply stun_parse_never_panics. by apply (bool_decide_unpack _).
Defined.

Lemma stun_parse_encoded_witness :
  parse_stun_binding_request (bo := be_order) (sample_request 24) =
    Done (Some {| transaction_id := replicate 12 7; remote_user := str "cli";
                  server_user := str "srv" |}).
Proof.
  apply (stun_parse_encoded (bo := be_order) (replicate 12 7) [] sample_user
           (str "srv") (str "cli") (replicate 24 0) []);
    first [apply Forall_nil_2 | apply sample_user_ok | by apply (bool_decide_unpack _)].
Defined.

Lemma stun_parse_sound_witness :
  take 4 (drop 4 (sample_request 24)) = STUN_COOKIE.
Proof.
  apply (stun_parse_sound (bo := be_order) (sample_request 24)
    {| transaction_id := replicate 12 7; remote_user := str "cli";
       server_user := str "srv" |}).
  vm_compute. reflexivity.
Defined.
