(* ===== verification/StunWrite.v ===== *)
(** * STUN success responses (src/src/stun/mod.rs, writer)

    [write_stun_success_response] fills a caller's buffer, which holds
    uninitialised bytes, with a binding response. OpenSSL's HMAC and the CRC
    crate are parameters of the model ([StunCrypto]); the class
    [StunCryptoLaws] states what their documentation promises: signing hashes
    the concatenation of the updates, a SHA-1 HMAC has 20 bytes, and the CRC
    hasher computes a [u32] of the concatenation of its updates. *)

From S2P Require Import Prelude Net Srtp ByteOrder Utf8 StunParse.
Local Open Scope Z_scope.

Class StunCrypto (F : Foreign) := {
  HmacKey : Type;
  Signer : Type;
  CrcHasher : Type;
  pkey_hmac : list Z → result HmacKey ErrorStack;
  signer_new_sha1 : HmacKey → result Signer ErrorStack;
  signer_update : Signer → list Z → result Signer ErrorStack;
  signer_sign : Signer → list Z → result (list Z) ErrorStack;
  crc_new : CrcHasher;
  crc_update : CrcHasher → list Z → CrcHasher;
  crc_finalize : CrcHasher → Z;
}.

(** [Box<dyn Error>]: the message of the length check or an OpenSSL error. *)
Inductive StunError {F : Foreign} :=
| Message (text : SmolStr)
| Stack (e : ErrorStack).
Arguments StunError _ : clear implicits.
Arguments StunError {F}.

(** [xor_range] *)
Fixpoint xor_range (target xor : list Z) : outcome (list Z) :=
  match target, xor with
  | [], _ => Done []
  | t :: ts, x :: xs => r ← xor_range ts xs; Done (Z.lxor t x :: r)
  | _ :: _, [] => Panicked
  end.

Definition ATTRIBUTE_MARKER_LEN : nat := 4.
Definition IPV4_ADDR_ATTRIBUTE_LEN : nat := 8.
Definition IPV6_ADDR_ATTRIBUTE_LEN : nat := 20.
Definition INTEGRITY_ATTRIBUTE_LEN : nat := 20.
Definition FINGERPRINT_ATTRIBUTE_LEN : nat := 4.

Definition addr_attribute_len (remote_addr : SocketAddr) : nat :=
  if is_ipv4 remote_addr then IPV4_ADDR_ATTRIBUTE_LEN else IPV6_ADDR_ATTRIBUTE_LEN.
Definition content_len_integrity (remote_addr : SocketAddr) : nat :=
  ATTRIBUTE_MARKER_LEN * 2 + addr_attribute_len remote_addr + INTEGRITY_ATTRIBUTE_LEN.
Definition content_len (remote_addr : SocketAddr) : nat :=
  content_len_integrity remote_addr + ATTRIBUTE_MARKER_LEN + FINGERPRINT_ATTRIBUTE_LEN.

Section writer.
Context {F : Foreign} {bo : ByteOrder} {SC : StunCrypto F}.

(** The two-byte code and length in front of an attribute's value. *)
Definition write_marker (attribute : list Z) (code : Z) (len : nat) : outcome (list Z) :=
  attribute ← with_slice attribute 0 2 (λ s, write_u16 s code);
  with_slice attribute 2 4 (λ s, write_u16 s (Z.of_nat len)).

Definition write_header (header transaction_id : list Z) (len : nat) : outcome (list Z) :=
  header ← with_slice header 0 2 (λ s, write_u16 s (stun_type_code SuccessResponse));
  header ← with_slice header 2 4 (λ s, write_u16 s (Z.of_nat len));
  header ← with_slice header 4 8 (copy_from_slice STUN_COOKIE);
  with_slice header 8 20 (copy_from_slice transaction_id).

(** The XOR-MAPPED-ADDRESS attribute *)
Definition write_addr_attribute (addr_attribute transaction_id : list Z)
    (remote_addr : SocketAddr) : outcome (list Z) :=
  a ← write_marker addr_attribute (attribute_code XorMappedAddress)
        (addr_attribute_len remote_addr);
  match remote_addr with
  | V4 octets port =>
      a ← store a 4 0;
      a ← store a 5 (family_code IPV4);
      a ← with_slice a 6 8 (λ s, write_u16 s port);
      a ← with_slice a 6 8 (λ s, xor_range s STUN_COOKIE);
      a ← with_slice a 8 12 (copy_from_slice octets);
      with_slice a 8 12 (λ s, xor_range s STUN_COOKIE)
  | V6 octets port _ _ =>
      a ← store a 4 0;
      a ← store a 5 (family_code IPV6);
      a ← with_slice a 6 8 (λ s, write_u16 s port);
      a ← with_slice a 6 8 (λ s, xor_range s STUN_COOKIE);
      a ← with_slice a 8 24 (copy_from_slice octets);
      a ← with_slice a 8 12 (λ s, xor_range s STUN_COOKIE);
      with_slice a 12 24 (λ s, xor_range s transaction_id)
  end.

(** [PKey::hmac] to [signer.sign], each with its [?] *)
Definition sign_response (passwd header addr_attribute : list Z) :
    result (list Z) ErrorStack :=
  match pkey_hmac passwd with
  | Err e => Err e
  | Ok key =>
  match signer_new_sha1 key with
  | Err e => Err e
  | Ok signer =>
  match signer_update signer header with
  | Err e => Err e
  | Ok signer =>
  match signer_update signer addr_attribute with
  | Err e => Err e
  | Ok signer => signer_sign signer (replicate INTEGRITY_ATTRIBUTE_LEN 0)
  end end end end.

(** The result, and the contents of [out] after the call. *)
Definition write_stun_success_response (transaction_id : list Z)
    (remote_addr : SocketAddr) (passwd out : list Z) :
    outcome (result nat StunError * list Z) :=
  if decide (length out < STUN_HEADER_LEN + content_len remote_addr)%nat then
    Done (Err (Message (str "output buffer too small for STUN response")), out)
  else
    '(header, rest) ← split_at_mut out STUN_HEADER_LEN;
    '(addr_attribute, rest) ←
      split_at_mut rest (ATTRIBUTE_MARKER_LEN + addr_attribute_len remote_addr);
    '(integrity_attribute, fingerprint_attribute) ←
      split_at_mut rest (ATTRIBUTE_MARKER_LEN + INTEGRITY_ATTRIBUTE_LEN);
    header ← write_header header transaction_id (content_len_integrity remote_addr);
    addr_attribute ← write_addr_attribute addr_attribute transaction_id remote_addr;
    match sign_response passwd header addr_attribute with
    | Err e =>
        Done (Err (Stack e), header ++ addr_attribute ++ integrity_attribute ++
                             fingerprint_attribute)
    | Ok hmac =>
        integrity_attribute ← write_marker integrity_attribute
          (attribute_code MessageIntegrity) INTEGRITY_ATTRIBUTE_LEN;
        integrity_attribute ← with_slice integrity_attribute 4
          (length integrity_attribute) (copy_from_slice hmac);
        header ← with_slice header 2 4
          (λ s, write_u16 s (Z.of_nat (content_len remote_addr)));
        let crc := crc_finalize
          (crc_update (crc_update (crc_update crc_new header) addr_attribute)
             integrity_attribute) in
        fingerprint_attribute ← write_marker fingerprint_attribute
          (attribute_code Fingerprint) FINGERPRINT_ATTRIBUTE_LEN;
        fingerprint_attribute ← with_slice fingerprint_attribute 4 8
          (λ s, write_u32 s (Z.lxor crc STUN_CRC_XOR));
        Done (Ok (STUN_HEADER_LEN + content_len remote_addr)%nat,
              header ++ addr_attribute ++ integrity_attribute ++ fingerprint_attribute)
    end.
End writer.

(** What the documentation of the libraries promises. [hmac_sha1] and [crc32]
    are the functions they compute; [signer_key] and [signer_data] name what a
    signer has been given so far, [crc_data] what a hasher has. *)
Class StunCryptoLaws (F : Foreign) (SC : StunCrypto F) := {
  hmac_sha1 : list Z → list Z → list Z;
  crc32 : list Z → Z;
  key_bytes : HmacKey → list Z;
  signer_key : Signer → list Z;
  signer_data : Signer → list Z;
  crc_data : CrcHasher → list Z;
  pkey_hmac_key k key : pkey_hmac k = Ok key → key_bytes key = k;
  signer_new_state key s :
    signer_new_sha1 key = Ok s → signer_key s = key_bytes key ∧ signer_data s = [];
  signer_update_state s m s' :
    signer_update s m = Ok s' →
    signer_key s' = signer_key s ∧ signer_data s' = signer_data s ++ m;
  signer_sign_hmac s buf d :
    length buf = 20%nat → signer_sign s buf = Ok d → d = hmac_sha1 (signer_key s) (signer_data s);
  hmac_sha1_length k m : length (hmac_sha1 k m) = 20%nat;
  crc_new_data : crc_data crc_new = [];
  crc_update_data h m : crc_data (crc_update h m) = crc_data h ++ m;
  crc_finalize_data h : crc_finalize h = crc32 (crc_data h);
  crc32_u32 m : is_u32 (crc32 m);
}.

(** ** The bytes of a response *)

Abbreviation xor_bytes := (zip_with Z.lxor).

Definition marker_bytes (code : Z) (len : nat) : list Z :=
  be16_bytes code ++ be16_bytes (Z.of_nat len).

Definition response_header (tid : list Z) (len : nat) : list Z :=
  be16_bytes (stun_type_code SuccessResponse) ++ be16_bytes (Z.of_nat len) ++
  STUN_COOKIE ++ tid.

Definition addr_family (a : SocketAddr) : StunAddressFamily :=
  if is_ipv4 a then IPV4 else IPV6.

(** The value of XOR-MAPPED-ADDRESS: the port masked with the first two bytes
    of the cookie, the address with the cookie followed by the transaction id. *)
Definition xor_mapped_value (tid : list Z) (a : SocketAddr) : list Z :=
  [0; family_code (addr_family a)] ++
  xor_bytes (be16_bytes (addr_port a)) STUN_COOKIE ++
  xor_bytes (addr_octets a) (STUN_COOKIE ++ tid).

Definition addr_attribute_bytes (tid : list Z) (a : SocketAddr) : list Z :=
  marker_bytes (attribute_code XorMappedAddress) (addr_attribute_len a) ++
  xor_mapped_value tid a.

Lemma xor_range_Done t x :
  (length t ≤ length x)%nat → xor_range t x = Done (xor_bytes t x).
Proof.
  revert x; induction t as [|a t IH]; intros [|b x] Hl; simpl in *; try done; try lia.
  by rewrite IH by lia.
Qed.

Lemma xor_bytes_prefix o c t :
  length o = length c → xor_bytes o (c ++ t) = xor_bytes o c.
Proof.
  intros Hl. rewrite <-(app_nil_r o) at 1. rewrite zip_with_app by done.
  apply app_nil_r.
Qed.

Section writer_facts.
Context {F : Foreign} {bo : ByteOrder} {BE : NetworkEndian bo}.

Lemma write_u16_twice a b c d r n m :
  is_u16 n → is_u16 m →
  (x ← with_slice (a :: b :: c :: d :: r) 0 2 (λ s, write_u16 s n);
   with_slice x 2 4 (λ s, write_u16 s m)) = Done (be16_bytes n ++ be16_bytes m ++ r).
Proof.
  intros Hn Hm.
  rewrite (with_slice_mid [] [a; b] (c :: d :: r) (be16_bytes n))
    by auto using write_u16_exact.
  bind_step.
  by rewrite (with_slice_mid (be16_bytes n) [c; d] r (be16_bytes m))
    by auto using write_u16_exact.
Qed.

Lemma write_marker_Done m v code len :
  length m = ATTRIBUTE_MARKER_LEN → is_u16 code → is_u16 (Z.of_nat len) →
  write_marker (m ++ v) code len = Done (marker_bytes code len ++ v).
Proof.
  intros Hm Hc Hl. destruct m as [|a [|b [|c [|d [|]]]]]; try done.
  unfold write_marker, marker_bytes.
  change ([a; b; c; d] ++ v) with (a :: b :: c :: d :: v). rewrite write_u16_twice by done.
  by rewrite <-app_assoc.
Qed.

Lemma write_header_Done header tid len :
  length header = STUN_HEADER_LEN → length tid = STUN_TRANSACTION_ID_LEN →
  is_u16 (Z.of_nat len) →
  write_header header tid len = Done (response_header tid len).
Proof.
  intros Hh Ht Hl. unfold write_header, response_header.
  destruct (list_split_at 8 header) as (h1 & h2 & -> & H1).
  { rewrite Hh. unfold STUN_HEADER_LEN. lia. }
  rewrite length_app, H1 in Hh.
  do 9 (destruct h1 as [|? h1]; try done).
  change ([z; z0; z1; z2; z3; z4; z5; z6] ++ h2)
    with (z :: z0 :: z1 :: z2 :: z3 :: z4 :: z5 :: z6 :: h2).
  pose proof (write_u16_twice z z0 z1 z2 (z3 :: z4 :: z5 :: z6 :: h2)
    (stun_type_code SuccessResponse) (Z.of_nat len)) as E.
  apply outcome_bind_Done in E as (x & Hx & E); [|unfold is_u16; simpl; lia|done].
  rewrite Hx. bind_step. rewrite E. bind_step.
  rewrite (app_assoc (be16_bytes _)).
  rewrite (with_slice_mid _ [z3; z4; z5; z6] h2 STUN_COOKIE)
    by (try apply copy_from_slice_Done; done).
  bind_step. rewrite app_assoc. rewrite <-(app_nil_r h2).
  rewrite (with_slice_mid _ h2 [] tid).
  - by rewrite app_nil_r, <-!app_assoc.
  - done.
  - unfold STUN_HEADER_LEN in Hh. simpl. lia.
  - apply copy_from_slice_Done. unfold STUN_HEADER_LEN in Hh. rewrite Ht.
    unfold STUN_TRANSACTION_ID_LEN. lia.
Qed.

(** The steps both address families share: reserved byte, family, port. *)
Lemma write_port_Done m z f p o fam port (k : list Z → outcome (list Z)) :
  length m = 4%nat → length p = 2%nat → is_u16 port →
  (a ← store (m ++ z :: f :: p ++ o) 4 0;
   a ← store a 5 fam;
   a ← with_slice a 6 8 (λ s, write_u16 s port);
   a ← with_slice a 6 8 (λ s, xor_range s STUN_COOKIE);
   k a) =
  k ((m ++ [0; fam] ++ xor_bytes (be16_bytes port) STUN_COOKIE) ++ o).
Proof.
  intros Hm Hp Hport. rewrite (store_mid m) by done. bind_step.
  replace (m ++ 0 :: f :: p ++ o) with ((m ++ [0]) ++ f :: p ++ o) by (by rewrite <-app_assoc).
  rewrite store_mid by (rewrite length_app, Hm; done). bind_step.
  replace ((m ++ [0]) ++ fam :: p ++ o) with ((m ++ [0; fam]) ++ p ++ o)
    by (by rewrite <-!app_assoc).
  assert (length (m ++ [0; fam]) = 6%nat) as H6 by (rewrite length_app, Hm; done).
  rewrite (with_slice_mid _ p o (be16_bytes port))
    by (rewrite ?H6, ?Hp; auto using write_u16_exact).
  bind_step.
  rewrite (with_slice_mid _ (be16_bytes port) o (xor_bytes (be16_bytes port) STUN_COOKIE))
    by (rewrite ?H6; try apply xor_range_Done; simpl; lia || done).
  bind_step. by rewrite <-!app_assoc.
Qed.

Lemma write_addr_v4 m v tid octets port :
  length m = 4%nat → length v = 8%nat → addr_ok (V4 octets port) →
  write_addr_attribute (m ++ v) tid (V4 octets port) =
  Done (addr_attribute_bytes tid (V4 octets port)).
Proof.
  intros Hm Hv (Ho & _ & Hp). unfold write_addr_attribute.
  rewrite write_marker_Done by (done || unfold is_u16; simpl; lia). bind_step.
  destruct v as [|z [|f [|p1 [|p2 o]]]]; try done.
  change (z :: f :: p1 :: p2 :: o) with (z :: f :: [p1; p2] ++ o).
  etrans; [apply (write_port_Done _ _ _ _ _ _ _ (λ a, a ← with_slice a 8 12 (copy_from_slice octets);
    with_slice a 8 12 (λ s, xor_range s STUN_COOKIE))); done|].
  rewrite <-(app_nil_r o). injection Hv as Hv.
  rewrite (with_slice_mid _ o [] octets) by (simpl; try apply copy_from_slice_Done; lia).
  bind_step.
  rewrite (with_slice_mid _ octets [] (xor_bytes octets STUN_COOKIE))
    by (simpl; try apply xor_range_Done; simpl; lia).
  rewrite app_nil_r. unfold addr_attribute_bytes, xor_mapped_value.
  cbn [addr_octets addr_port]. rewrite xor_bytes_prefix by done. by rewrite <-!app_assoc.
Qed.

Lemma write_addr_v6 m v tid octets port fl sc :
  length m = 4%nat → length v = 20%nat → length tid = STUN_TRANSACTION_ID_LEN →
  addr_ok (V6 octets port fl sc) →
  write_addr_attribute (m ++ v) tid (V6 octets port fl sc) =
  Done (addr_attribute_bytes tid (V6 octets port fl sc)).
Proof.
  intros Hm Hv Ht (Ho & _ & Hp & _). unfold STUN_TRANSACTION_ID_LEN in Ht.
  unfold write_addr_attribute.
  rewrite write_marker_Done by (done || unfold is_u16; simpl; lia). bind_step.
  destruct v as [|z [|f [|p1 [|p2 o]]]]; try done.
  change (z :: f :: p1 :: p2 :: o) with (z :: f :: [p1; p2] ++ o).
  etrans; [apply (write_port_Done _ _ _ _ _ _ _ (λ a, a ← with_slice a 8 24 (copy_from_slice octets);
    a ← with_slice a 8 12 (λ s, xor_range s STUN_COOKIE);
    with_slice a 12 24 (λ s, xor_range s tid))); done|].
  rewrite <-(app_nil_r o). injection Hv as Hv.
  rewrite (with_slice_mid _ o [] octets) by (simpl; try apply copy_from_slice_Done; lia).
  bind_step. destruct (list_split_at 4 octets) as (o1 & o2 & -> & Ho1); [lia|].
  rewrite length_app in Ho. rewrite <-(app_assoc o1 o2 []).
  rewrite (with_slice_mid _ o1 _ (xor_bytes o1 STUN_COOKIE))
    by (simpl; try apply xor_range_Done; simpl; lia).
  bind_step. rewrite (app_assoc _ (xor_bytes o1 STUN_COOKIE)).
  rewrite (with_slice_mid _ o2 [] (xor_bytes o2 tid)).
  - rewrite app_nil_r. unfold addr_attribute_bytes, xor_mapped_value.
    cbn [addr_octets addr_port]. rewrite zip_with_app by done. by rewrite <-!app_assoc.
  - rewrite length_app, length_zip_with_l_eq by done. simpl. lia.
  - rewrite length_app, length_zip_with_l_eq by done. simpl. lia.
  - apply xor_range_Done. lia.
Qed.

Lemma write_addr_attribute_Done a tid addr :
  length a = (ATTRIBUTE_MARKER_LEN + addr_attribute_len addr)%nat →
  length tid = STUN_TRANSACTION_ID_LEN → addr_ok addr →
  write_addr_attribute a tid addr = Done (addr_attribute_bytes tid addr).
Proof.
  intros Ha Ht Hok. destruct (list_split_at 4 a) as (m & v & -> & Hm).
  { rewrite Ha. unfold ATTRIBUTE_MARKER_LEN. lia. }
  rewrite length_app, Hm in Ha. destruct addr.
  - apply write_addr_v4; [done|injection Ha; done|done].
  - apply write_addr_v6; [done|injection Ha; done|done|done].
Qed.
End writer_facts.

(** ** Properties *)

Section writer_properties.
Context {F : Foreign} {bo : ByteOrder} {BE : NetworkEndian bo}.
Context {SC : StunCrypto F} {SL : StunCryptoLaws F SC}.

(** The response as one byte string. *)
Definition integrity_bytes (tid : list Z) (addr : SocketAddr) (passwd : list Z) : list Z :=
  marker_bytes (attribute_code MessageIntegrity) INTEGRITY_ATTRIBUTE_LEN ++
  hmac_sha1 passwd (response_header tid (content_len_integrity addr) ++
                    addr_attribute_bytes tid addr).

Definition fingerprinted (tid : list Z) (addr : SocketAddr) (passwd : list Z) : list Z :=
  response_header tid (content_len addr) ++ addr_attribute_bytes tid addr ++
  integrity_bytes tid addr passwd.

Definition stun_response (tid : list Z) (addr : SocketAddr) (passwd : list Z) : list Z :=
  fingerprinted tid addr passwd ++
  marker_bytes (attribute_code Fingerprint) FINGERPRINT_ATTRIBUTE_LEN ++
  be32_bytes (Z.lxor (crc32 (fingerprinted tid addr passwd)) STUN_CRC_XOR).

Lemma sign_response_hmac passwd h a d :
  sign_response passwd h a = Ok d → d = hmac_sha1 passwd (h ++ a).
Proof.
  unfold sign_response. destruct (pkey_hmac passwd) as [k|] eqn:Hk; [|done].
  destruct (signer_new_sha1 k) as [s|] eqn:Hs; [|done].
  destruct (signer_update s h) as [s1|] eqn:H1; [|done].
  destruct (signer_update s1 a) as [s2|] eqn:H2; [|done]. intros Hd.
  apply pkey_hmac_key in Hk. apply signer_new_state in Hs as [Hs Hs'].
  apply signer_update_state in H1 as [H1 H1'], H2 as [H2 H2'].
  apply signer_sign_hmac in Hd as ->; [|done].
  by rewrite H2, H1, Hs, Hk, H2', H1', Hs'.
Qed.

Lemma addr_attribute_bytes_length tid addr :
  addr_ok addr → length tid = STUN_TRANSACTION_ID_LEN →
  length (addr_attribute_bytes tid addr) =
  (ATTRIBUTE_MARKER_LEN + addr_attribute_len addr)%nat.
Proof.
  intros Hok Ht. unfold addr_attribute_bytes, xor_mapped_value.
  rewrite !length_app, !length_zip_with, length_app, Ht.
  destruct addr as [o p|o p ? ?]; destruct Hok as [Ho _]; simpl addr_octets;
    rewrite Ho; done.
Qed.

Lemma content_len_u16 addr :
  is_u16 (Z.of_nat (content_len addr)) ∧ is_u16 (Z.of_nat (content_len_integrity addr)).
Proof. destruct addr; split; by apply (bool_decide_unpack _). Qed.

(** The buffer, split the way the function splits it. *)
Lemma split_out (out : list Z) n1 n2 n3 :
  (n1 + n2 + n3 ≤ length out)%nat →
  ∃ h a i f, out = h ++ a ++ i ++ f ∧ length h = n1 ∧ length a = n2 ∧ length i = n3 ∧
             length f = (length out - (n1 + n2 + n3))%nat.
Proof.
  intros Hl. destruct (list_split_at n1 out) as (h & r & -> & Hh); [lia|].
  rewrite length_app in Hl. destruct (list_split_at n2 r) as (a & r' & -> & Ha); [lia|].
  rewrite length_app in Hl. destruct (list_split_at n3 r') as (i & f & -> & Hi); [lia|].
  exists h, a, i, f. split_and!; try done. rewrite !length_app. lia.
Qed.

(** The integrity and fingerprint steps after a successful signature. *)
Lemma finish_response tid addr passwd i f :
  addr_ok addr → length tid = STUN_TRANSACTION_ID_LEN →
  length i = 24%nat → (8 ≤ length f)%nat →
  let header := response_header tid (content_len_integrity addr) in
  let addr_attribute := addr_attribute_bytes tid addr in
  let hmac := hmac_sha1 passwd (header ++ addr_attribute) in
  (i ← write_marker i (attribute_code MessageIntegrity) INTEGRITY_ATTRIBUTE_LEN;
   i ← with_slice i 4 (length i) (copy_from_slice hmac);
   header ← with_slice header 2 4 (λ s, write_u16 s (Z.of_nat (content_len addr)));
   let crc := crc_finalize (crc_update (crc_update (crc_update crc_new header)
                addr_attribute) i) in
   f ← write_marker f (attribute_code Fingerprint) FINGERPRINT_ATTRIBUTE_LEN;
   f ← with_slice f 4 8 (λ s, write_u32 s (Z.lxor crc STUN_CRC_XOR));
   Done (@Ok nat (@StunError F) (STUN_HEADER_LEN + content_len addr)%nat,
         header ++ addr_attribute ++ i ++ f)) =
  Done (Ok (STUN_HEADER_LEN + content_len addr)%nat,
        stun_response tid addr passwd ++ drop 8 f).
Proof.
  intros Hok Ht Hi Hf header addr_attribute hmac.
  assert (length hmac = 20%nat) as Hh by apply hmac_sha1_length.
  pose proof (content_len_u16 addr) as [? _].
  destruct (list_split_at 4 i) as (m & v & -> & Hm); [lia|].
  rewrite length_app in Hi.
  rewrite write_marker_Done by (done || unfold is_u16; simpl; lia). bind_step.
  rewrite <-(app_nil_r v) at 1.
  rewrite (with_slice_mid _ v [] hmac)
    by (rewrite ?length_app; simpl; try apply copy_from_slice_Done; lia).
  bind_step. unfold header at 1, response_header.
  rewrite (with_slice_mid (be16_bytes _) (be16_bytes _) _ (be16_bytes (Z.of_nat (content_len addr))))
    by auto using write_u16_exact.
  bind_step. rewrite crc_finalize_data, !crc_update_data, crc_new_data.
  destruct (list_split_at 4 f) as (m' & v' & -> & Hm'); [lia|].
  rewrite length_app in Hf. destruct (list_split_at 4 v') as (v1 & v2 & -> & Hv1); [lia|].
  rewrite write_marker_Done by (done || unfold is_u16; simpl; lia). bind_step.
  rewrite (with_slice_mid _ v1 v2 (be32_bytes (Z.lxor (crc32 (fingerprinted tid addr passwd))
    STUN_CRC_XOR))).
  - bind_step. unfold stun_response. rewrite (app_assoc m' v1), drop_app_length'.
    + unfold fingerprinted, integrity_bytes. rewrite app_nil_r. by rewrite <-!app_assoc.
    + rewrite length_app. lia.
  - done.
  - rewrite Hv1. done.
  - unfold fingerprinted, integrity_bytes. rewrite app_nil_r, app_nil_l, <-!app_assoc.
    apply write_u32_exact; [done|]. apply lxor_u32; [apply crc32_u32|].
    by apply (bool_decide_unpack _).
Qed.

Lemma content_len_sum addr :
  (STUN_HEADER_LEN + content_len addr =
   STUN_HEADER_LEN + (ATTRIBUTE_MARKER_LEN + addr_attribute_len addr) +
   (ATTRIBUTE_MARKER_LEN + INTEGRITY_ATTRIBUTE_LEN) + 8)%nat.
Proof. destruct addr; reflexivity. Qed.

(** The common prefix of every run with a large enough buffer. *)
Lemma write_response_split tid addr passwd h a i f :
  length h = STUN_HEADER_LEN →
  length a = (ATTRIBUTE_MARKER_LEN + addr_attribute_len addr)%nat →
  length i = (ATTRIBUTE_MARKER_LEN + INTEGRITY_ATTRIBUTE_LEN)%nat →
  (8 ≤ length f)%nat → addr_ok addr → length tid = STUN_TRANSACTION_ID_LEN →
  let header := response_header tid (content_len_integrity addr) in
  let addr_attribute := addr_attribute_bytes tid addr in
  write_stun_success_response tid addr passwd (h ++ a ++ i ++ f) =
  match sign_response passwd header addr_attribute with
  | Err e => Done (Err (Stack e), header ++ addr_attribute ++ i ++ f)
  | Ok _ => Done (Ok (STUN_HEADER_LEN + content_len addr)%nat,
                  stun_response tid addr passwd ++ drop 8 f)
  end.
Proof.
  intros Hh Ha Hi Hf Hok Ht header addr_attribute. unfold write_stun_success_response.
  rewrite decide_False.
  2:{ rewrite content_len_sum, !length_app, Hh, Ha, Hi. lia. }
  rewrite (split_at_mut_app h) by done. bind_step.
  rewrite (split_at_mut_app a) by done. bind_step.
  rewrite (split_at_mut_app i) by done. bind_step.
  rewrite write_header_Done by (done || apply content_len_u16). bind_step.
  rewrite write_addr_attribute_Done by done. bind_step.
  fold header. fold addr_attribute.
  destruct (sign_response passwd header addr_attribute) as [d|e] eqn:Hs; [|done].
  apply sign_response_hmac in Hs as ->. by apply finish_response.
Qed.

Lemma stun_response_length tid addr passwd :
  length tid = STUN_TRANSACTION_ID_LEN → addr_ok addr →
  length (stun_response tid addr passwd) = (STUN_HEADER_LEN + content_len addr)%nat.
Proof.
  intros Ht Hok. unfold stun_response, fingerprinted, integrity_bytes.
  rewrite !length_app, addr_attribute_bytes_length, hmac_sha1_length by done.
  unfold response_header. rewrite !length_app, Ht. destruct addr; reflexivity.
Qed.

(** With a buffer of at least 64 (IPv4) or 76 (IPv6) bytes and a signer
    that does not fail, the writer returns the number of bytes written; they
    are exactly the response: header with the transaction id, XOR-MAPPED-ADDRESS,
    an HMAC computed over the message with the length field that ends at the
    integrity attribute, and a fingerprint over everything before it with the
    final length. Nothing of the uninitialised buffer is left in it, and the
    bytes behind it are untouched. *)
Lemma write_response_whole tid addr passwd out hmac :
  length tid = STUN_TRANSACTION_ID_LEN → addr_ok addr →
  sign_response passwd (response_header tid (content_len_integrity addr))
    (addr_attribute_bytes tid addr) = Ok hmac →
  let n := (STUN_HEADER_LEN + content_len addr)%nat in
  (n ≤ length out)%nat →
  write_stun_success_response tid addr passwd out =
    Done (Ok n, stun_response tid addr passwd ++ drop n out) ∧
  length (stun_response tid addr passwd) = n ∧
  n = (if is_ipv4 addr then 64 else 76)%nat.
Proof.
  intros Ht Hok Hs n Hn. unfold n in *. rewrite content_len_sum in Hn.
  destruct (split_out out STUN_HEADER_LEN (ATTRIBUTE_MARKER_LEN + addr_attribute_len addr)
    (ATTRIBUTE_MARKER_LEN + INTEGRITY_ATTRIBUTE_LEN)) as (h & a & i & f & -> & Hh & Ha & Hi & Hf);
    [lia|].
  rewrite write_response_split by (done || lia). rewrite Hs. split_and!.
  - do 3 f_equal. rewrite content_len_sum.
    rewrite <-Hh, <-Ha, <-Hi, <-Nat.add_assoc, <-Nat.add_assoc, !drop_app_add. done.
  - by apply stun_response_length.
  - by destruct addr.
Qed.

Lemma write_response_refused tid addr passwd out e :
  length tid = STUN_TRANSACTION_ID_LEN → addr_ok addr →
  sign_response passwd (response_header tid (content_len_integrity addr))
    (addr_attribute_bytes tid addr) = Err e →
  (STUN_HEADER_LEN + content_len addr ≤ length out)%nat →
  ∃ out', write_stun_success_response tid addr passwd out = Done (Err (Stack e), out').
Proof.
  intros Ht Hok Hs Hn. rewrite content_len_sum in Hn.
  destruct (split_out out STUN_HEADER_LEN (ATTRIBUTE_MARKER_LEN + addr_attribute_len addr)
    (ATTRIBUTE_MARKER_LEN + INTEGRITY_ATTRIBUTE_LEN)) as (h & a & i & f & -> & Hh & Ha & Hi & Hf);
    [lia|].
  rewrite write_response_split by (done || lia). rewrite Hs. by eexists.
Qed.

(** The writer never panics and never writes past the buffer: for every
    address, password and buffer it returns, and the buffer keeps its length.
    A buffer that is too small is refused with the buffer unchanged. *)
Lemma stun_response_total tid addr passwd out :
  length tid = STUN_TRANSACTION_ID_LEN → addr_ok addr →
  ∃ r out',
    write_stun_success_response tid addr passwd out = Done (r, out') ∧
    length out' = length out ∧
    ((length out < STUN_HEADER_LEN + content_len addr)%nat →
     r = Err (Message (str "output buffer too small for STUN response")) ∧ out' = out).
Proof.
  intros Ht Hok.
  destruct (decide (length out < STUN_HEADER_LEN + content_len addr)%nat) as [Hl|Hl].
  { eexists _, _. unfold write_stun_success_response. rewrite decide_True by done. by eauto. }
  rewrite content_len_sum in Hl.
  destruct (split_out out STUN_HEADER_LEN (ATTRIBUTE_MARKER_LEN + addr_attribute_len addr)
    (ATTRIBUTE_MARKER_LEN + INTEGRITY_ATTRIBUTE_LEN)) as (h & a & i & f & -> & Hh & Ha & Hi & Hf);
    [lia|].
  pose proof (addr_attribute_bytes_length tid addr Hok Ht) as Hal.
  assert (length (response_header tid (content_len_integrity addr)) = STUN_HEADER_LEN) as Hhl
    by (unfold response_header; rewrite !length_app, Ht; done).
  rewrite write_response_split by (done || lia).
  destruct (sign_response _ _ _) as [d|e] eqn:Hs; eexists _, _; (split; [done|split]).
  - pose proof (stun_response_length tid addr passwd Ht Hok) as Hrl.
    rewrite !length_app, length_drop, Hrl, content_len_sum. lia.
  - rewrite content_len_sum. lia.
  - rewrite !length_app. lia.
  - rewrite content_len_sum. lia.
Qed.

(** A receiver's reading of the XOR-MAPPED-ADDRESS value (RFC 5389, 15.2). *)
Definition decode_xor_mapped (tid value : list Z) : option (Z * Z * list Z) :=
  match value with
  | _ :: fam :: p1 :: p2 :: o =>
      match xor_bytes [p1; p2] STUN_COOKIE with
      | [q1; q2] => Some (fam, be16 q1 q2, xor_bytes o (STUN_COOKIE ++ tid))
      | _ => None
      end
  | _ => None
  end.

Lemma xor_bytes_involutive l k :
  (length l ≤ length k)%nat → xor_bytes (xor_bytes l k) k = l.
Proof.
  revert k; induction l as [|a l IH]; intros [|b k] Hl; simpl in *; try done; try lia.
  rewrite lxor_cancel_r, IH by lia. done.
Qed.

(** C37. The address a client reads out of the response is the one the request
    came from: decoding the attribute the writer produces gives the family, the
    port and the octets of the remote address, for IPv4 and IPv6. *)
Theorem xor_mapped_roundtrip tid addr :
  length tid = STUN_TRANSACTION_ID_LEN → addr_ok addr →
  ∀ a, length a = (ATTRIBUTE_MARKER_LEN + addr_attribute_len addr)%nat →
  ∃ value,
    write_addr_attribute a tid addr =
      Done (marker_bytes (attribute_code XorMappedAddress) (length value) ++ value) ∧
    decode_xor_mapped tid value =
      Some (if is_ipv4 addr then 1 else 2, addr_port addr, addr_octets addr).
Proof.
  intros Ht Hok a Ha. exists (xor_mapped_value tid addr).
  rewrite write_addr_attribute_Done by done.
  pose proof (addr_attribute_bytes_length tid addr Hok Ht) as Hl.
  unfold addr_attribute_bytes in *. rewrite length_app in Hl.
  change (length (marker_bytes _ _)) with ATTRIBUTE_MARKER_LEN in Hl.
  assert (length (xor_mapped_value tid addr) = addr_attribute_len addr) as -> by lia.
  split; [done|].
  unfold xor_mapped_value, be16_bytes. simpl. rewrite !lxor_cancel_r.
  rewrite be16_of_bytes by auto with rstreamer.
  change (33 :: 18 :: 164 :: 66 :: tid) with (STUN_COOKIE ++ tid).
  rewrite xor_bytes_involutive.
  - by destruct addr.
  - rewrite length_app, Ht. unfold STUN_TRANSACTION_ID_LEN.
    destruct addr; destruct Hok as [Ho _]; simpl; lia.
Qed.
End writer_properties.

(** A concrete signer and hasher: a checksum padded to 20 bytes, and a sum of
    bytes. They satisfy the laws, so the laws are consistent. *)
Definition toy_hmac (k m : list Z) : list Z :=
  replicate 20 (foldr Z.add 0 (k ++ m) mod 256).

Definition toy_crypto : StunCrypto no_foreign := {|
  HmacKey := list Z;
  Signer := list Z * list Z;
  CrcHasher := list Z;
  pkey_hmac k := Ok k;
  signer_new_sha1 k := Ok (k, []);
  signer_update s m := Ok (s.1, s.2 ++ m);
  signer_sign s _ := Ok (toy_hmac s.1 s.2);
  crc_new := [];
  crc_update h m := h ++ m;
  crc_finalize h := foldr Z.add 0 h mod 2 ^ 32;
|}.

Definition toy_crypto_laws : StunCryptoLaws no_foreign toy_crypto.
Proof.
  refine {| hmac_sha1 := toy_hmac; crc32 m := foldr Z.add 0 m mod 2 ^ 32;
            key_bytes (k : @HmacKey _ toy_crypto) := k;
            signer_key (s : @Signer _ toy_crypto) := s.1;
            signer_data (s : @Signer _ toy_crypto) := s.2;
            crc_data (h : @CrcHasher _ toy_crypto) := h |};
    simpl; intros; simplify_eq/=; auto.
  apply Z.mod_pos_bound. lia.
Defined.

Definition sample_addr : SocketAddr := V4 [192; 0; 2; 1] 32853.
Definition sample_addr6 : SocketAddr :=
  V6 [32; 1; 13; 184; 0; 0; 0; 0; 0; 0; 0; 0; 0; 0; 0; 1] 32853 0 0.

Lemma stun_response_total_witness :
  ∃ r out', write_stun_success_response (bo := be_order) (SC := toy_crypto)
    (replicate 12 7) sample_addr6 (str "secret") (replicate 10 9) = Done (r, out').
Proof.
  destruct (stun_response_total (bo := be_order) (SL := toy_crypto_laws)
    (replicate 12 7) sample_addr6 (str "secret") (replicate 10 9)) as (r & out' & H & _);
    [reflexivity|by apply (bool_decide_unpack _)|].
  by exists r, out'.
Defined.

Lemma xor_mapped_roundtrip_witness :
  ∃ value, decode_xor_mapped (replicate 12 7) value =
           Some (2, 32853, addr_octets sample_addr6).
Proof.
  destruct (xor_mapped_roundtrip (bo := be_order)
    (replicate 12 7) sample_addr6 eq_refl) with (a := replicate 24 9) as (value & _ & H);
    [by apply (bool_decide_unpack _)|reflexivity|].
  by exists value.
Defined.
