(* ===== verification/Meta.v ===== *)
(** * The server's identity (src/src/server/meta.rs)

    The user name and the password that the answers announce and the STUN requests
    name. [draw k] is what the [k]-th call of the random generator gives. *)

From S2P Require Import Prelude Net ByteOrder Utf8 StunParse.
Local Open Scope Z_scope.

Definition RAND_CHAR_TABLE : list Z :=
  str "ABCDEFGHIJKLMNOPQRSTUVWXYZabcdefghijklmnopqrstuvwxyz0123456789".

(** The loop of [rand_string], from the [k]-th of [size] rounds. *)
Fixpoint rand_loop (draw : nat → Z) (k rounds : nat) (s : SmolStr) : outcome SmolStr :=
  match rounds with
  | O => Done s
  | S rounds =>
      c ← index RAND_CHAR_TABLE (Z.to_nat (draw k));
      rand_loop draw (S k) rounds (s ++ [c])
  end.

Definition rand_string (draw : nat → Z) (size : nat) : outcome SmolStr :=
  rand_loop draw 0 size [].

Record ServerMeta := { user : SmolStr; password : SmolStr }.

(** [ServerMeta::new]: both strings take their draws from one generator. *)
Definition server_meta_new (draw : nat → Z) : outcome ServerMeta :=
  user ← rand_string draw 12;
  password ← rand_string (λ k, draw (12 + k)%nat) 24;
  Done {| user := user; password := password |}.

(** ** Facts *)

Definition alphanumeric (b : Z) : Prop :=
  48 ≤ b ≤ 57 ∨ 65 ≤ b ≤ 90 ∨ 97 ≤ b ≤ 122.

#[export] Instance alphanumeric_dec b : Decision (alphanumeric b).
Proof. unfold alphanumeric. apply _. Defined.

Lemma table_length : length RAND_CHAR_TABLE = 62%nat.
Proof. reflexivity. Qed.

Lemma table_alphanumeric : Forall alphanumeric RAND_CHAR_TABLE.
Proof. apply (bool_decide_unpack _). vm_compute. exact I. Qed.

Lemma rand_loop_Done draw rounds k s :
  (∀ k, 0 ≤ draw k < 62) → Forall alphanumeric s →
  ∃ r, rand_loop draw k rounds s = Done (s ++ r) ∧ length r = rounds ∧ Forall alphanumeric r.
Proof.
  intros Hdraw. revert k s. induction rounds as [|rounds IH]; intros k s Hs; simpl.
  { exists []. rewrite app_nil_r. by split. }
  destruct (index_is_Done RAND_CHAR_TABLE (Z.to_nat (draw k))) as (c & Hc & ->).
  { rewrite table_length. specialize (Hdraw k). lia. }
  assert (alphanumeric c) as Hok by exact (Forall_lookup_1 _ _ _ _ table_alphanumeric Hc).
  destruct (IH (S k) (s ++ [c])) as (r & Hr & Hlen & Hall).
  { apply Forall_app. by split; [|constructor]. }
  exists (c :: r). bind_step. rewrite Hr, <- app_assoc. split; [done|].
  split; [simpl; by rewrite Hlen|by constructor].
Qed.

Lemma rand_string_Done draw size :
  (∀ k, 0 ≤ draw k < 62) →
  ∃ s, rand_string draw size = Done s ∧ length s = size ∧ Forall alphanumeric s.
Proof. intros Hdraw. by apply (rand_loop_Done draw size 0 []). Qed.

Lemma alphanumeric_utf8 s : Forall alphanumeric s → utf8_valid s = true.
Proof.
  induction 1 as [|b s Hb _ IH]; [done|]. simpl. unfold in_range.
  rewrite bool_decide_eq_true_2; [done|]. unfold alphanumeric in Hb. lia.
Qed.

Lemma alphanumeric_no_colon s : Forall alphanumeric s → 58 ∉ s.
Proof.
  intros Hs Hin. rewrite Forall_forall in Hs. specialize (Hs _ Hin).
  unfold alphanumeric in Hs. lia.
Qed.

(** ** Properties *)

Lemma server_meta_total draw :
  (∀ k, 0 ≤ draw k < 62) → ∃ m, server_meta_new draw = Done m ∧
    length (user m) = 12%nat ∧ length (password m) = 24%nat ∧
    Forall alphanumeric (user m) ∧ Forall alphanumeric (password m).
Proof.
  intros Hdraw. destruct (rand_string_Done draw 12 Hdraw) as (u & Hu & Hul & Hua).
  destruct (rand_string_Done (λ k, draw (12 + k)%nat) 24) as (p & Hp & Hpl & Hpa); [done|].
  exists {| user := u; password := p |}. unfold server_meta_new. rewrite Hu. bind_step.
  by rewrite Hp.
Qed.

(** The generated identity is usable: whatever the generator draws, the start
    returns a user name of 12 and a password of 24 letters and digits, and the STUN
    user name a client forms from the announced name and its own, joined by a colon,
    is taken apart at that colon into the same two names. *)
Lemma server_identity draw :
  (∀ k, 0 ≤ draw k < 62) →
  ∃ m, server_meta_new draw = Done m ∧
    length (user m) = 12%nat ∧ length (password m) = 24%nat ∧
    Forall alphanumeric (user m) ∧ Forall alphanumeric (password m) ∧
    ∀ tid ufrag, (length ufrag ≤ STUN_MAX_IDENTIFIER_LEN)%nat → utf8_valid ufrag = true →
      parse_user tid (user m ++ 58 :: ufrag) =
      Done (Some {| transaction_id := tid; remote_user := ufrag; server_user := user m |}).
Proof.
  intros Hdraw. destruct (server_meta_total draw Hdraw) as (m & Hm & Hul & Hpl & Hua & Hpa).
  exists m. do 5 (split; [done|]). intros tid ufrag Hlen Hvalid.
  apply parse_user_names; try done.
  - by apply alphanumeric_no_colon.
  - simpl. rewrite Hul. unfold STUN_MAX_IDENTIFIER_LEN. lia.
  - by apply alphanumeric_utf8.
Qed.

Lemma server_identity_witness : ∃ m,
  server_meta_new (λ k, Z.of_nat k mod 62) = Done m ∧ length (user m) = 12%nat.
Proof.
  destruct (server_identity (λ k, Z.of_nat k mod 62)) as (m & Hm & Hl & _).
  - intros k. apply Z.mod_pos_bound. lia.
  - exists m. split; [exact Hm|exact Hl].
Defined.
