(* ===== verification/Demux.v ===== *)
(** * Demultiplexing datagrams
      (src/src/server/udp.rs, src/src/dtls/mod.rs, src/src/dtls/message.rs)

    Every datagram the socket delivers becomes a [WebRtcRequest] by its first
    bytes: RTP, then STUN, then DTLS. *)

From S2P Require Import Prelude Net Srtp ByteOrder RtpCore StunParse.
Local Open Scope Z_scope.

(** [is_dtls] *)
Definition is_dtls (buf : list Z) : outcome bool :=
  b0 ← index buf 0;
  if decide (20 ≤ b0) then b0 ← index buf 0; Done (bool_decide (b0 ≤ 64))
  else Done false.

(** A [DataPacket] ([SmallVec<[u8; 1200]>]) is the list of its bytes. *)
Abbreviation DataPacket := (list Z) (only parsing).

Inductive WebRtcRequest :=
| Stun (req : StunBindingRequest) (addr : SocketAddr)
| Dtls (message : DataPacket) (addr : SocketAddr)
| Rtc (message : DataPacket) (addr : SocketAddr)
| Unknown.

#[export] Instance WebRtcRequest_eq_dec : EqDecision WebRtcRequest.
Proof. solve_decision. Defined.

Inductive MessageType := Incoming | Outgoing.

Record DtlsMessage := {
  dtls_type : MessageType;
  dtls_packet : DataPacket;
  dtls_addr : SocketAddr;
}.

(** [DtlsMessage::create_outgoing], [get_type] and [into_webrtc] *)
Definition create_outgoing (message : DataPacket) (addr : SocketAddr) : DtlsMessage :=
  {| dtls_type := Outgoing; dtls_packet := message; dtls_addr := addr |}.
Definition get_type (m : DtlsMessage) : MessageType := dtls_type m.
Definition into_webrtc (m : DtlsMessage) : WebRtcRequest :=
  Dtls (dtls_packet m) (dtls_addr m).

Section demux.
Context {bo : ByteOrder}.

(** [WebRtcRequest::from((buf, addr))] *)
Definition webrtc_from (buf : DataPacket) (addr : SocketAddr) : outcome WebRtcRequest :=
  rtp ← is_rtp_header buf;
  if rtp : bool then Done (Rtc buf addr)
  else
    stun ← parse_stun_binding_request buf;
    match stun with
    | Some stun => Done (Stun stun addr)
    | None =>
        dtls ← is_dtls buf;
        if dtls : bool then Done (Dtls buf addr) else Done Unknown
    end.

Definition RECV_BUFFER_LEN : nat := 1200.

(** One step of the receiving stream of [UdpRecv::new]: [recv_from] puts at
    most 1200 bytes of the datagram into the buffer, which is truncated to the
    number of bytes received. A receive error ends the stream ([None]). *)
Definition recv_step {E} (received : result (list Z * SocketAddr) E) :
    outcome (option WebRtcRequest) :=
  match received with
  | Ok (datagram, addr) =>
      message ← webrtc_from (take RECV_BUFFER_LEN datagram) addr;
      Done (Some message)
  | Err _ => Done None
  end.
End demux.

(** ** The three tests *)

Definition dtls_shape (buf : list Z) : bool :=
  match buf with b0 :: _ => bool_decide (20 ≤ b0 ≤ 64) | [] => false end.

Lemma is_dtls_shape buf : buf ≠ [] → is_dtls buf = Done (dtls_shape buf).
Proof.
  destruct buf as [|b0 buf]; [done|]. intros _. unfold is_dtls. simpl.
  case_decide; simpl; f_equal; [apply bool_decide_ext|]; try lia.
  symmetry. apply bool_decide_eq_false_2. lia.
Qed.

Section facts.
Context {bo : ByteOrder} {BE : NetworkEndian bo}.

(** An accepted STUN request starts with the bytes 0 and 1. *)
Lemma parse_first_bytes bytes r :
  bytes_ok bytes → parse_stun_binding_request bytes = Done (Some r) →
  ∃ rest, bytes = 0 :: 1 :: rest ∧ (18 ≤ length rest)%nat.
Proof.
  intros Hb Hp. pose proof (parse_header_sound _ _ Hp) as (Hlen & _).
  unfold STUN_HEADER_LEN in Hlen.
  destruct bytes as [|b0 [|b1 rest]]; simpl in Hlen; try lia.
  exists rest. split; [|lia]. unfold parse_stun_binding_request in Hp.
  case_decide; [done|]. change (index (b0 :: b1 :: rest) 0) with (Done b0) in Hp.
  cbn [mbind outcome_bind] in Hp.
  case_decide as Hv; [done|].
  rewrite (slice_app_mid [] [b0; b1] rest 0 2 eq_refl eq_refl : slice (b0 :: b1 :: rest) 0 2 = _) in Hp.
  apply Forall_cons in Hb as [H0 [H1 _]%Forall_cons].
  cbn [mbind outcome_bind] in Hp. rewrite read_u16_be in Hp by done.
  cbn [mbind outcome_bind] in Hp. case_decide as Ht; [done|].
  unfold be16, is_u8 in *. simpl in Ht.
  assert (b0 = 0 ∧ b1 = 1) as [-> ->] by lia. done.
Qed.

(** The tests exclude each other. *)
Lemma demux_tests_disjoint buf r :
  bytes_ok buf → parse_stun_binding_request buf = Done (Some r) →
  rtp_shape buf = false ∧ dtls_shape buf = false.
Proof.
  intros Hb Hp. destruct (parse_first_bytes buf r Hb Hp) as (rest & -> & _).
  split; [apply andb_false_r|reflexivity].
Qed.

Lemma rtp_dtls_disjoint buf : rtp_shape buf = true → dtls_shape buf = false.
Proof.
  destruct buf as [|b0 r]; [done|]. simpl. intros [_ H%bool_decide_eq_true]%andb_prop.
  apply bool_decide_eq_false_2. lia.
Qed.

Lemma webrtc_from_nonempty buf addr :
  bytes_ok buf → buf ≠ [] →
  ∃ stun, parse_stun_binding_request buf = Done stun ∧
    webrtc_from buf addr =
    Done (if rtp_shape buf then Rtc buf addr
          else match stun with
               | Some s => Stun s addr
               | None => if dtls_shape buf then Dtls buf addr else Unknown
               end).
Proof.
  intros Hb Hne. destruct (parse_total buf Hb) as (stun & Hs). exists stun. split; [done|].
  unfold webrtc_from. rewrite is_rtp_header_shape by done. bind_step.
  destruct (rtp_shape buf); [done|]. rewrite Hs. bind_step.
  destruct stun; [done|]. rewrite is_dtls_shape by done. bind_step.
  by destruct (dtls_shape buf).
Qed.
End facts.

(** ** Properties *)

Section demux_properties.
Context {bo : ByteOrder} {BE : NetworkEndian bo}.

(** C38. Demultiplexing does not depend on the order of the tests: on a
    non-empty datagram the request is the one whose own test accepts the bytes,
    at most one test does, and an RTP or DTLS request carries the datagram
    unchanged. On the empty datagram it panics: both earlier tests check the
    length, [is_dtls] indexes the first byte without a check. *)
Theorem demux_by_content buf addr :
  bytes_ok buf →
  (webrtc_from buf addr = Panicked ↔ buf = []) ∧
  (buf ≠ [] → ∃ q, webrtc_from buf addr = Done q ∧
    (q = Rtc buf addr ↔ rtp_shape buf = true) ∧
    (q = Dtls buf addr ↔ dtls_shape buf = true) ∧
    (∀ s, q = Stun s addr ↔ parse_stun_binding_request buf = Done (Some s)) ∧
    (q = Unknown ↔ rtp_shape buf = false ∧ dtls_shape buf = false ∧
                   parse_stun_binding_request buf = Done None)).
Proof.
  intros Hb. split.
  { split; [|by intros ->]. destruct (decide (buf = [])) as [|Hne]; [done|].
    by destruct (webrtc_from_nonempty buf addr Hb Hne) as (stun & _ & ->). }
  intros Hne. destruct (webrtc_from_nonempty buf addr Hb Hne) as (stun & Hs & ->).
  eexists; split; [done|]. rewrite Hs. destruct stun as [s|].
  - destruct (demux_tests_disjoint buf s Hb Hs) as [-> ->]. naive_solver.
  - destruct (rtp_shape buf) eqn:Hr; [rewrite (rtp_dtls_disjoint buf Hr)|];
      [|destruct (dtls_shape buf)]; naive_solver.
Qed.
End demux_properties.

Lemma demux_by_content_witness :
  ∃ q, webrtc_from (bo := be_order) sample_rtp (V4 [127; 0; 0; 1] 9) = Done q ∧
       q = Rtc sample_rtp (V4 [127; 0; 0; 1] 9).
Proof.
  destruct (demux_by_content (bo := be_order) sample_rtp (V4 [127; 0; 0; 1] 9))
    as [_ Hq].
  - by apply (bool_decide_unpack _).
  - destruct Hq as (q & Hq & [_ Hr] & _); [discriminate|].
    exists q. split; [exact Hq|]. apply Hr. reflexivity.
Defined.
