(* ===== verification/Jitter.v ===== *)
(** * The jitter buffer (src/src/rtp/jitter.rs)

    [JitterControlActor] delays the RTP packets of each sender: packets are
    queued per address and handed over together once the address's delay has
    passed since the last hand-over. RTCP packets pass through. The abstract
    promise is a FIFO queue per address ([jitter_fifo]); the timing promise is
    that hand-overs of an address are at least the start delay apart
    ([jitter_pacing]). *)

From S2P Require Import Prelude Net Srtp ByteOrder RtpCore Demux.
Local Open Scope Z_scope.

Definition JITTER_BUFFER_DELAY_INCREASE_STEP : Duration := from_millis 10.
Definition JITTER_BUFFER_START_DELAY : Duration := from_millis 50.
Definition JITTER_BUFFER_VOLATILE : Z := 1000.
Definition JITTER_RECHECK_TIME : Duration := from_secs 10.

Record JitterBuffer := {
  jb_buffer : list DataPacket;
  jb_time : Instant;
  jb_delay : Duration;
}.

Definition jitter_new (delay : Duration) (now : Instant) : JitterBuffer :=
  {| jb_buffer := []; jb_time := now; jb_delay := delay |}.
Definition jitter_default (now : Instant) : JitterBuffer :=
  jitter_new JITTER_BUFFER_START_DELAY now.

(** The only field of [JitterControlActor]. *)
Abbreviation JitterBufferStorage := (gmap SocketAddr JitterBuffer).

Inductive GetOrStoreJitterBufferResponse :=
| Buffer (b : option (list DataPacket))
| Packet (p : DataPacket).

(** The value [self.jitter_storage.entry(addr).or_default()] refers to. *)
Definition entry_or_default (st : JitterBufferStorage) (addr : SocketAddr)
    (now : Instant) : JitterBuffer :=
  default (jitter_default now) (st !! addr).

(** [Handler<IncreaseJitterBufferDelay>]; [now] is read if the entry is new. *)
Definition handle_increase (st : JitterBufferStorage) (addr : SocketAddr)
    (now : Instant) : outcome JitterBufferStorage :=
  let jitter := entry_or_default st addr now in
  delay ← dur_add (jb_delay jitter) JITTER_BUFFER_DELAY_INCREASE_STEP;
  Done (<[addr := {| jb_buffer := jb_buffer jitter; jb_time := jb_time jitter;
                     jb_delay := delay |}]> st).

(** [Handler<DecreaseJitterBufferDelay>] *)
Definition handle_decrease (st : JitterBufferStorage) (addr : SocketAddr) :
    outcome JitterBufferStorage :=
  match st !! addr with
  | Some jitter =>
      if decide (jb_delay jitter ≤ JITTER_BUFFER_START_DELAY) then Done st
      else
        delay ← dur_sub (jb_delay jitter) JITTER_BUFFER_DELAY_INCREASE_STEP;
        Done (<[addr := {| jb_buffer := jb_buffer jitter; jb_time := jb_time jitter;
                           jb_delay := delay |}]> st)
  | None => Done st
  end.

(** [Handler<GetOrStoreJitterBuffer>]. The clock is read up to three times: for
    a new entry, by [elapsed()], and to restart the timer. *)
Definition handle_get_or_store (st : JitterBufferStorage) (addr : SocketAddr)
    (data : DataPacket) (t_new t_elapsed t_now : Instant) :
    outcome (GetOrStoreJitterBufferResponse * JitterBufferStorage) :=
  rtcp ← is_rtcp data;
  if rtcp : bool then Done (Packet data, st)
  else
    let jitter_buffer := entry_or_default st addr t_new in
    let buffer := jb_buffer jitter_buffer ++ [data] in
    if decide (elapsed (jb_time jitter_buffer) t_elapsed >= jb_delay jitter_buffer) then
      Done (Buffer (Some buffer),
            <[addr := {| jb_buffer := []; jb_time := t_now;
                         jb_delay := jb_delay jitter_buffer |}]> st)
    else
      Done (Buffer None,
            <[addr := {| jb_buffer := buffer; jb_time := jb_time jitter_buffer;
                         jb_delay := jb_delay jitter_buffer |}]> st).

(** ** The actor as a machine over its mailbox *)

Inductive JitterMsg :=
| IncreaseJitterBufferDelay (addr : SocketAddr) (now : Instant)
| DecreaseJitterBufferDelay (addr : SocketAddr)
| GetOrStoreJitterBuffer (addr : SocketAddr) (data : DataPacket)
    (t_new t_elapsed t_now : Instant).

Definition jitter_step (st : JitterBufferStorage) (m : JitterMsg) :
    outcome (option GetOrStoreJitterBufferResponse * JitterBufferStorage) :=
  match m with
  | IncreaseJitterBufferDelay addr now =>
      st ← handle_increase st addr now; Done (None, st)
  | DecreaseJitterBufferDelay addr =>
      st ← handle_decrease st addr; Done (None, st)
  | GetOrStoreJitterBuffer addr data t0 t1 t2 =>
      '(r, st) ← handle_get_or_store st addr data t0 t1 t2; Done (Some r, st)
  end.

(** The messages of a mailbox in order, each with its response. *)
Fixpoint jitter_run (st : JitterBufferStorage) (ms : list JitterMsg) :
    outcome (list (JitterMsg * option GetOrStoreJitterBufferResponse) *
             JitterBufferStorage) :=
  match ms with
  | [] => Done ([], st)
  | m :: ms =>
      '(r, st) ← jitter_step st m;
      '(log, st) ← jitter_run st ms;
      Done ((m, r) :: log, st)
  end.

(** ** The queue per address *)

Definition msg_ok (m : JitterMsg) : Prop :=
  match m with GetOrStoreJitterBuffer _ data _ _ _ => bytes_ok data | _ => True end.

#[export] Instance msg_ok_dec m : Decision (msg_ok m).
Proof. destruct m; simpl; apply _. Defined.

(** The RTP packets a message brings for [a], those its response hands over,
    and those waiting. *)
Definition packet_of (a : SocketAddr) (m : JitterMsg) : list DataPacket :=
  match m with
  | GetOrStoreJitterBuffer addr data _ _ _ =>
      if bool_decide (addr = a) && negb (rtcp_shape data) then [data] else []
  | _ => []
  end.

Definition released_by (a : SocketAddr)
    (e : JitterMsg * option GetOrStoreJitterBufferResponse) : list DataPacket :=
  match e with
  | (GetOrStoreJitterBuffer addr _ _ _ _, Some (Buffer (Some b))) =>
      if bool_decide (addr = a) then b else []
  | _ => []
  end.

Definition pending (a : SocketAddr) (st : JitterBufferStorage) : list DataPacket :=
  default [] (jb_buffer <$> st !! a).

Lemma pending_insert a addr j (st : JitterBufferStorage) :
  pending a (<[addr := j]> st) =
  if bool_decide (addr = a) then jb_buffer j else pending a st.
Proof.
  unfold pending. case_bool_decide; subst; by simplify_map_eq.
Qed.

Lemma entry_pending st addr now : jb_buffer (entry_or_default st addr now) = pending addr st.
Proof. unfold entry_or_default, pending. by destruct (st !! addr). Qed.

(** Queued and new packets are either handed over or queued, in order. *)
Lemma jitter_step_fifo a st m r st' :
  msg_ok m → jitter_step st m = Done (r, st') →
  pending a st ++ packet_of a m = released_by a (m, r) ++ pending a st'.
Proof.
  intros Hok Hs. destruct m as [addr now|addr|addr data t0 t1 t2]; simpl in Hs.
  - unfold handle_increase in Hs. outcome_inv. rewrite pending_insert. simpl.
    rewrite app_nil_r, entry_pending. case_bool_decide; by subst.
  - unfold handle_decrease in Hs. destruct (st !! addr) as [j|] eqn:Hj; simpl in *.
    + case_decide; outcome_inv; rewrite app_nil_r; [done|].
      rewrite pending_insert. case_bool_decide; [|done]. subst.
      unfold pending. by rewrite Hj.
    + outcome_inv. by rewrite app_nil_r.
  - unfold handle_get_or_store in Hs. rewrite is_rtcp_shape in Hs by done. simpl in *.
    destruct (rtcp_shape data); simpl in Hs.
    { simplify_eq/=. by rewrite andb_false_r, app_nil_r. }
    rewrite andb_true_r. case_decide; simplify_eq/=; rewrite pending_insert; simpl;
      rewrite entry_pending; case_bool_decide; subst; rewrite ?app_nil_r; done.
Qed.

Lemma jitter_run_fifo a ms st log st' :
  Forall msg_ok ms → jitter_run st ms = Done (log, st') →
  pending a st ++ (ms ≫= packet_of a) = (log ≫= released_by a) ++ pending a st'.
Proof.
  intros Hok. revert st log st'. induction Hok as [|m ms Hm _ IH]; intros st log st' Hr.
  { simpl in *. simplify_eq. by rewrite app_nil_r. }
  cbn [jitter_run] in Hr. apply outcome_bind_Done in Hr as ([r st1] & Hs & Hr).
  apply outcome_bind_Done in Hr as ([log1 st2] & Hr & ?). simplify_eq.
  rewrite !bind_cons, app_assoc, (jitter_step_fifo a st m r st1) by done.
  by rewrite <-app_assoc, (IH _ _ _ Hr), app_assoc.
Qed.

(** ** Delays *)

(** Every delay is the start delay plus a number of steps, at most [n]. *)
Definition delay_ok (n : Z) (d : Duration) : Prop :=
  ∃ k, 0 ≤ k ≤ n ∧
       d = JITTER_BUFFER_START_DELAY + k * JITTER_BUFFER_DELAY_INCREASE_STEP.
Definition delays_ok (n : Z) (st : JitterBufferStorage) : Prop :=
  map_Forall (λ _ j, delay_ok n (jb_delay j)) st.

Lemma delays_ok_entry n st addr now :
  0 ≤ n → delays_ok n st → delay_ok n (jb_delay (entry_or_default st addr now)).
Proof.
  intros Hn Hst. unfold entry_or_default. destruct (st !! addr) as [j|] eqn:Hj; simpl.
  - exact (Hst _ _ Hj).
  - exists 0. split; lia.
Qed.

Lemma delay_ok_mono n n' d : n ≤ n' → delay_ok n d → delay_ok n' d.
Proof. intros ? (k & ? & ->). exists k. split; [lia|done]. Qed.

Lemma delays_ok_mono n n' st : n ≤ n' → delays_ok n st → delays_ok n' st.
Proof. intros ? H a j Hj. eapply delay_ok_mono; [|exact (H a j Hj)]. done. Qed.

Lemma delays_ok_insert n st addr j :
  delays_ok n st → delay_ok n (jb_delay j) → delays_ok n (<[addr := j]> st).
Proof. intros. by apply map_Forall_insert_2. Qed.
#[local] Hint Resolve delays_ok_insert delays_ok_entry : rstreamer.

(** Enough room for [n] more increases in a [Duration]. *)
Definition max_increases : Z := 10 ^ 20.

Lemma jitter_step_total n st m :
  0 ≤ n < max_increases → msg_ok m → delays_ok n st →
  ∃ r st', jitter_step st m = Done (r, st') ∧ delays_ok (n + 1) st'.
Proof.
  intros [Hn Hmax] Hok Hst. unfold max_increases in Hmax.
  pose proof (delays_ok_mono n (n + 1) st ltac:(lia) Hst) as Hst'.
  destruct m as [addr now|addr|addr data t0 t1 t2]; simpl.
  - unfold handle_increase.
    destruct (delays_ok_entry n st addr now Hn Hst) as (k & Hk & ->).
    unfold dur_add. rewrite decide_True.
    + eexists _, _. split; [done|]. apply delays_ok_insert; [done|]. simpl.
      exists (k + 1). split; lia.
    + unfold JITTER_BUFFER_START_DELAY, JITTER_BUFFER_DELAY_INCREASE_STEP, from_millis, dur_max. lia.
  - unfold handle_decrease. destruct (st !! addr) as [j|] eqn:Hj; [|by eauto].
    case_decide as Hd; [by eauto|].
    destruct (Hst _ _ Hj) as (k & Hk & Hjk). rewrite Hjk in Hd |- *. unfold dur_sub.
    unfold JITTER_BUFFER_START_DELAY, JITTER_BUFFER_DELAY_INCREASE_STEP, from_millis in *.
    rewrite decide_True by lia. eexists _, _. split; [done|].
    apply delays_ok_insert; [done|]. exists (k - 1).
    unfold JITTER_BUFFER_START_DELAY, JITTER_BUFFER_DELAY_INCREASE_STEP, from_millis.
    simpl. split; lia.
  - unfold handle_get_or_store. rewrite is_rtcp_shape by done. bind_step.
    destruct (rtcp_shape data); [by eauto|].
    case_decide; eexists _, _; (split; [done|]); apply delays_ok_insert; try done; simpl;
      apply delays_ok_entry; (done || lia).
Qed.

Lemma jitter_run_total n st ms :
  0 ≤ n → n + Z.of_nat (length ms) ≤ max_increases → Forall msg_ok ms → delays_ok n st →
  ∃ log st', jitter_run st ms = Done (log, st') ∧ delays_ok (n + Z.of_nat (length ms)) st'.
Proof.
  intros Hn Hlen Hok. revert n st Hn Hlen.
  induction Hok as [|m ms Hm _ IH]; intros n st Hn Hlen Hst; simpl length in *.
  { eexists _, _. split; [done|]. by rewrite Z.add_0_r. }
  destruct (jitter_step_total n st m) as (r & st1 & Hs & Hst1); [lia|done|done|].
  destruct (IH (n + 1) st1) as (log & st2 & Hr & Hst2); [lia|lia|done|].
  eexists _, _. cbn [jitter_run]. rewrite Hs. bind_step. rewrite Hr. bind_step.
  split; [done|]. by replace (n + Z.of_nat (S (length ms))) with (n + 1 + Z.of_nat (length ms)) by lia.
Qed.

(** ** Timing *)

(** The readings of [elapsed()] and of the restarted timer at a hand-over. *)
Definition release_of (a : SocketAddr)
    (e : JitterMsg * option GetOrStoreJitterBufferResponse) : list (Instant * Instant) :=
  match e with
  | (GetOrStoreJitterBuffer addr _ _ t1 t2, Some (Buffer (Some _))) =>
      if bool_decide (addr = a) then [(t1, t2)] else []
  | _ => []
  end.

Lemma jitter_step_time n a st m r st' :
  delays_ok n st → msg_ok m → jitter_step st m = Done (r, st') →
  (∃ t1 t2 j', release_of a (m, r) = [(t1, t2)] ∧ st' !! a = Some j' ∧ jb_time j' = t2 ∧
     ∀ j, st !! a = Some j → jb_time j + JITTER_BUFFER_START_DELAY ≤ t1) ∨
  (release_of a (m, r) = [] ∧
   ∀ j, st !! a = Some j → ∃ j', st' !! a = Some j' ∧ jb_time j' = jb_time j).
Proof.
  intros Hst Hok Hs. destruct m as [addr now|addr|addr data t0 t1 t2]; simpl in Hs.
  - right. unfold handle_increase in Hs. outcome_inv. split; [done|]. intros j Hj.
    destruct (decide (addr = a)) as [->|]; simplify_map_eq; [|by eauto].
    unfold entry_or_default. rewrite Hj. by eauto.
  - right. unfold handle_decrease in Hs. split; [done|]. intros j Hj.
    destruct (st !! addr) as [j0|] eqn:Hj0; [|outcome_inv; by eauto].
    simpl in Hs. case_decide; outcome_inv; [by eauto|].
    destruct (decide (addr = a)) as [->|]; simplify_map_eq; by eauto.
  - unfold handle_get_or_store in Hs. rewrite is_rtcp_shape in Hs by done. simpl in Hs.
    destruct (rtcp_shape data); simpl in Hs; [right; simplify_eq; by eauto|].
    case_decide as Hel; simplify_eq/=;
      destruct (decide (addr = a)) as [->|Ha];
      rewrite ?bool_decide_eq_true_2, ?bool_decide_eq_false_2 by done.
    + left. eexists _, _, _. simplify_map_eq. split_and!; [done..|].
      intros j Hj. unfold entry_or_default in Hel. rewrite Hj in Hel. simpl in Hel.
      destruct (Hst _ _ Hj) as (k & Hk & Hjk). unfold elapsed, saturating_sub in Hel.
      unfold JITTER_BUFFER_START_DELAY, JITTER_BUFFER_DELAY_INCREASE_STEP, from_millis in *.
      lia.
    + right. split; [done|]. intros j Hj. simplify_map_eq. by eauto.
    + right. split; [done|]. intros j Hj. simplify_map_eq.
      unfold entry_or_default. rewrite Hj. by eauto.
    + right. split; [done|]. intros j Hj. simplify_map_eq. by eauto.
Qed.

(** Two consecutive hand-overs of a log are a start delay apart, and the first
    one is a start delay after the timer in the initial state. *)
Definition paced (l : list (Instant * Instant)) : Prop :=
  ∀ i r1 r2, l !! i = Some r1 → l !! S i = Some r2 →
             r1.2 + JITTER_BUFFER_START_DELAY ≤ r2.1.

Lemma jitter_run_paced a n ms st log st' :
  0 ≤ n → n + Z.of_nat (length ms) ≤ max_increases →
  delays_ok n st → Forall msg_ok ms → jitter_run st ms = Done (log, st') →
  (∀ j r, st !! a = Some j → (log ≫= release_of a) !! 0%nat = Some r →
          jb_time j + JITTER_BUFFER_START_DELAY ≤ r.1) ∧
  paced (log ≫= release_of a).
Proof.
  intros Hn Hmax Hst Hok. revert n st log st' Hn Hmax Hst.
  induction Hok as [|m ms Hm _ IH]; intros n st log st' Hn Hmax Hst Hr.
  { simpl in Hr. simplify_eq. split; [done|]. by intros i ?? H. }
  cbn [jitter_run length] in *. apply outcome_bind_Done in Hr as ([r st1] & Hs & Hr).
  apply outcome_bind_Done in Hr as ([log1 st2] & Hr & ?). simplify_eq.
  destruct (jitter_step_total n st m) as (r' & st1' & Hs' & Hst1); [lia|done|done|].
  rewrite Hs in Hs'. simplify_eq.
  destruct (IH (n + 1) st1' log1 st' ltac:(lia) ltac:(lia) Hst1 Hr) as [Hfirst Hpaced].
  rewrite bind_cons.
  destruct (jitter_step_time n a st m r' st1' Hst Hm Hs)
    as [(t1 & t2 & j' & -> & Hj' & <- & Hj)|[-> Hkeep]].
  - split; [intros j r Hj0 [= <-]; by apply Hj|]. intros [|i] r1 r2; simpl.
    + intros [= <-] H2. exact (Hfirst _ _ Hj' H2).
    + apply Hpaced.
  - split; [|done]. intros j r Hj Hl. destruct (Hkeep j Hj) as (j' & Hj' & <-). by eapply Hfirst.
Qed.

(** ** Properties *)

(** The actor never panics within 10^20 messages, and every delay it holds stays
    between the start delay and the start delay plus one step per message. *)
Lemma jitter_never_panics ms :
  Forall msg_ok ms → Z.of_nat (length ms) ≤ max_increases →
  ∃ log st, jitter_run ∅ ms = Done (log, st) ∧
    map_Forall (λ _ j, JITTER_BUFFER_START_DELAY ≤ jb_delay j ≤
      JITTER_BUFFER_START_DELAY +
      Z.of_nat (length ms) * JITTER_BUFFER_DELAY_INCREASE_STEP) st.
Proof.
  intros Hok Hlen.
  destruct (jitter_run_total 0 ∅ ms) as (log & st & Hr & Hst); [lia|lia|done| |].
  { apply map_Forall_empty. }
  exists log, st. split; [done|]. intros a j Hj. destruct (Hst a j Hj) as (k & Hk & ->).
  unfold JITTER_BUFFER_DELAY_INCREASE_STEP, from_millis in *. lia.
Qed.

(** C27. No packet is lost, duplicated or reordered by the jitter buffer: on every
    mailbox of up to 10^20 messages the actor returns, for every address the packets
    handed over so far followed by the packets still queued are the RTP packets
    received from the address, in the order of arrival, and every delay stays
    between the start delay and the start delay plus one step per message:
    decreasing never goes below the start delay. *)
Theorem jitter_fifo ms :
  Forall msg_ok ms → Z.of_nat (length ms) ≤ max_increases →
  ∃ log st, jitter_run ∅ ms = Done (log, st) ∧
    (∀ a, (log ≫= released_by a) ++ pending a st = ms ≫= packet_of a) ∧
    map_Forall (λ _ j, JITTER_BUFFER_START_DELAY ≤ jb_delay j ≤
      JITTER_BUFFER_START_DELAY +
      Z.of_nat (length ms) * JITTER_BUFFER_DELAY_INCREASE_STEP) st.
Proof.
  intros Hok Hlen. destruct (jitter_never_panics ms Hok Hlen) as (log & st & Hr & Hst).
  exists log, st. split; [done|]. split; [|done].
  intros a. by rewrite <-(jitter_run_fifo a ms ∅ log st).
Qed.

(** Consecutive hand-overs of one address are at least the start delay of
    50 ms apart, measured from the restart of the timer to the reading that
    releases the next batch. *)
Lemma jitter_pacing a ms log st :
  Forall msg_ok ms → Z.of_nat (length ms) ≤ max_increases →
  jitter_run ∅ ms = Done (log, st) → paced (log ≫= release_of a).
Proof.
  intros Hok Hlen Hr. eapply (jitter_run_paced a 0 ms ∅); [lia|lia| |done|exact Hr].
  apply map_Forall_empty.
Qed.

(** Packets do not stay queued: a packet that arrives once the delay of its
    address has passed releases the whole queue including itself. *)
Lemma jitter_releases st addr data t0 t1 t2 :
  bytes_ok data → rtcp_shape data = false →
  jb_delay (entry_or_default st addr t0) ≤
    elapsed (jb_time (entry_or_default st addr t0)) t1 →
  ∃ st', handle_get_or_store st addr data t0 t1 t2 =
           Done (Buffer (Some (pending addr st ++ [data])), st') ∧
         pending addr st' = [].
Proof.
  intros Hb Hr Hd. unfold handle_get_or_store. rewrite is_rtcp_shape, Hr by done. bind_step.
  rewrite decide_True by lia. rewrite entry_pending. eexists. split; [done|].
  by rewrite pending_insert, bool_decide_eq_true_2.
Qed.

(** A short mailbox: two packets, the second after the delay, then one more. *)
Definition sample_mailbox (a : SocketAddr) : list JitterMsg :=
  [GetOrStoreJitterBuffer a sample_rtp 0 1 2;
   IncreaseJitterBufferDelay a 3;
   GetOrStoreJitterBuffer a sample_rtp 4 (from_millis 70) (from_millis 71);
   DecreaseJitterBufferDelay a;
   GetOrStoreJitterBuffer a sample_rtp 0 (from_millis 80) (from_millis 81)].
Definition jitter_addr : SocketAddr := V4 [127; 0; 0; 1] 5000.

Lemma sample_mailbox_ok : Forall msg_ok (sample_mailbox jitter_addr).
Proof. by apply (bool_decide_unpack _). Qed.

Definition sample_jitter_run := jitter_run ∅ (sample_mailbox jitter_addr).
Definition sample_log :=
  match sample_jitter_run with Done (log, _) => log | _ => [] end.
Definition sample_storage : JitterBufferStorage :=
  match sample_jitter_run with Done (_, st) => st | _ => ∅ end.

Lemma sample_jitter_run_Done :
  jitter_run ∅ (sample_mailbox jitter_addr) = Done (sample_log, sample_storage).
Proof.
  assert (match sample_jitter_run with Done _ => true | _ => false end = true) as Hd
    by (vm_compute; reflexivity).
  unfold sample_log, sample_storage. unfold sample_jitter_run in *.
  by destruct (jitter_run _ _) as [[]| |].
Qed.

Lemma jitter_fifo_witness : ∃ log st,
  jitter_run ∅ (sample_mailbox jitter_addr) = Done (log, st) ∧
  (log ≫= released_by jitter_addr) ++ pending jitter_addr st =
    sample_mailbox jitter_addr ≫= packet_of jitter_addr.
Proof.
  destruct (jitter_fifo (sample_mailbox jitter_addr)) as (log & st & Hr & Hfifo & _).
  - apply sample_mailbox_ok.
  - vm_compute. congruence.
  - exists log, st. split; [exact Hr|apply Hfifo].
Defined.

Lemma jitter_pacing_witness : paced (sample_log ≫= release_of jitter_addr).
Proof.
  apply (jitter_pacing jitter_addr (sample_mailbox jitter_addr) _ sample_storage);
    [apply sample_mailbox_ok|vm_compute; congruence|apply sample_jitter_run_Done].
Defined.

Lemma jitter_releases_witness :
  ∃ st', handle_get_or_store ∅ jitter_addr sample_rtp 0 (from_millis 60) (from_millis 60) =
         Done (Buffer (Some [sample_rtp]), st').
Proof.
  destruct (jitter_releases ∅ jitter_addr sample_rtp 0 (from_millis 60) (from_millis 60))
    as (st' & H & _); [by apply (bool_decide_unpack _)|reflexivity|vm_compute; congruence|].
  exists st'. exact H.
Defined.
