(* ===== verification/Media.v ===== *)
(** * Media descriptions (src/src/sdp/media.rs)

    A [MediaList] relates the payload types a client announced to codec names
    (a [bimap::BiMap]) and clock frequencies. The [bimap] crate and the
    attribute types of [webrtc-sdp] are not part of the repository: they are
    parameters, with the documented behaviour of [insert] (a pair that shares
    its left or its right value with the new one is removed) as [BiMapLaws]. *)

From S2P Require Import Prelude.
Local Open Scope Z_scope.

(** [BiMap<SmolStr, u8>] *)
Class BiMapOps := {
  bimap : Type;
  bimap_default : bimap;
  bimap_insert : bimap → SmolStr → Z → bimap;
  get_by_left : bimap → SmolStr → option Z;
  get_by_right : bimap → Z → option SmolStr;
}.

Class BiMapLaws (B : BiMapOps) : Prop := {
  left_default l : get_by_left bimap_default l = None;
  right_default r : get_by_right bimap_default r = None;
  left_insert m l r l' :
    get_by_left (bimap_insert m l r) l' =
    if decide (l' = l) then Some r
    else if decide (get_by_left m l' = Some r) then None else get_by_left m l';
  right_insert m l r r' :
    get_by_right (bimap_insert m l r) r' =
    if decide (r' = r) then Some l
    else if decide (get_by_right m r' = Some l) then None else get_by_right m r';
}.

(** [SdpAttributeRtpmap], and the two calls into
    [webrtc-sdp]: matching an attribute against [Rtpmap(_)] and listing the
    attributes of a media section. *)
Record Rtpmap := {
  payload_type : Z;
  codec_name : SmolStr;
  frequency : Z;
  channels : option Z;
}.

Class SdpMediaOps := {
  SdpAttribute : Type;
  SdpMedia : Type;
  as_rtpmap : SdpAttribute → option Rtpmap;
  get_attributes : SdpMedia → list SdpAttribute;
}.

Section media.
Context {B : BiMapOps}.

Record MediaList := {
  media_names : bimap;
  media_frequencies : gmap Z Z;
}.

Definition media_default : MediaList :=
  {| media_names := bimap_default; media_frequencies := ∅ |}.

Definition get_name (m : MediaList) (id : Z) : option SmolStr :=
  get_by_right (media_names m) id.
Definition get_id (m : MediaList) (name : SmolStr) : option Z :=
  get_by_left (media_names m) name.
Definition get_frequency (m : MediaList) (id : Z) : option Z :=
  media_frequencies m !! id.
Definition get_frequencies (m : MediaList) : list Z :=
  (map_to_list (media_frequencies m)).*2.

(** [MediaList::insert] *)
Definition media_insert (m : MediaList) (id : Z) (name : SmolStr) (frequency : Z) :
    MediaList :=
  {| media_names := bimap_insert (media_names m) name id;
     media_frequencies := <[id := frequency]> (media_frequencies m) |}.

Definition media_insert_rtpmap (m : MediaList) (s : Rtpmap) : MediaList :=
  media_insert m (payload_type s) (codec_name s) (frequency s).

(** [FromIterator<SdpAttribute> for MediaList] *)
Definition media_from_iter {S : SdpMediaOps} (attributes : list SdpAttribute) : MediaList :=
  foldl media_insert_rtpmap media_default (omap as_rtpmap attributes).

(** [From<Vec<SdpMedia>> for MediaList] *)
Definition media_from_vec {S : SdpMediaOps} (media_vec : list SdpMedia) : MediaList :=
  media_from_iter (media_vec ≫= get_attributes).
End media.

Section media_facts.
Context {B : BiMapOps} {BL : BiMapLaws B}.

(** The two directions agree, and every named payload type has a frequency. *)
Record media_ok (m : MediaList) : Prop := {
  names_bijective id name : get_name m id = Some name ↔ get_id m name = Some id;
  names_have_frequency id : is_Some (get_name m id) → is_Some (get_frequency m id);
}.

Lemma media_default_ok : media_ok media_default.
Proof.
  split; unfold get_name, get_id; simpl; intros.
  - by rewrite left_default, right_default.
  - rewrite right_default in *. by destruct H.
Qed.

Lemma get_name_insert m id name f id' :
  get_name (media_insert m id name f) id' =
  if decide (id' = id) then Some name
  else if decide (get_name m id' = Some name) then None else get_name m id'.
Proof. apply right_insert. Qed.

Lemma get_id_insert m id name f name' :
  get_id (media_insert m id name f) name' =
  if decide (name' = name) then Some id
  else if decide (get_id m name' = Some id) then None else get_id m name'.
Proof. apply left_insert. Qed.

Lemma get_frequency_insert m id name f id' :
  get_frequency (media_insert m id name f) id' =
  if decide (id' = id) then Some f else get_frequency m id'.
Proof.
  unfold get_frequency. simpl. case_decide; subst; by simplify_map_eq.
Qed.

Lemma get_name_rtpmap m s id' :
  get_name (media_insert_rtpmap m s) id' =
  if decide (id' = payload_type s) then Some (codec_name s)
  else if decide (get_name m id' = Some (codec_name s)) then None else get_name m id'.
Proof. apply get_name_insert. Qed.

Lemma get_frequency_rtpmap m s id' :
  get_frequency (media_insert_rtpmap m s) id' =
  if decide (id' = payload_type s) then Some (frequency s) else get_frequency m id'.
Proof. apply get_frequency_insert. Qed.

Lemma media_insert_ok m id name f : media_ok m → media_ok (media_insert m id name f).
Proof.
  intros [Hbij Hfreq]. split.
  - intros id' name'. rewrite get_name_insert, get_id_insert.
    repeat case_decide; naive_solver.
  - intros id'. rewrite get_name_insert, get_frequency_insert.
    repeat case_decide; naive_solver.
Qed.

Lemma media_foldl_ok l m : media_ok m → media_ok (foldl media_insert_rtpmap m l).
Proof.
  revert m. induction l as [|s l IH]; intros m Hm; [done|].
  simpl. apply IH. by apply media_insert_ok.
Qed.

(** Later announcements of other payload types and other names change nothing. *)
Lemma media_foldl_keep l m id name :
  Forall (λ s, payload_type s ≠ id ∧ codec_name s ≠ name) l →
  get_name m id = Some name →
  get_name (foldl media_insert_rtpmap m l) id = Some name.
Proof.
  intros Hl. revert m. induction Hl as [|s l [Hid Hname] _ IH]; intros m Hm; [done|].
  simpl. apply IH. rewrite get_name_rtpmap.
  rewrite decide_False by done. rewrite decide_False; [done|]. congruence.
Qed.

Lemma media_foldl_no_name l m id :
  Forall (λ s, payload_type s ≠ id) l → get_name m id = None →
  get_name (foldl media_insert_rtpmap m l) id = None.
Proof.
  intros Hl. revert m. induction Hl as [|s l Hid _ IH]; intros m Hm; [done|].
  simpl. apply IH. rewrite get_name_rtpmap.
  rewrite decide_False by done. by case_decide.
Qed.

Lemma media_foldl_frequency l m id :
  Forall (λ s, payload_type s ≠ id) l →
  get_frequency (foldl media_insert_rtpmap m l) id = get_frequency m id.
Proof.
  intros Hl. revert m. induction Hl as [|s l Hid _ IH]; intros m; [done|].
  simpl. rewrite IH. rewrite get_frequency_rtpmap.
  by rewrite decide_False.
Qed.
End media_facts.

(** ** Properties *)

Section media_properties.
Context {B : BiMapOps} {BL : BiMapLaws B} {S : SdpMediaOps}.

(** In every media list built from session descriptions the payload type
    of a name and the name of a payload type agree, and every payload type with
    a name has a frequency, so the lookups of the RTC actor cannot disagree. *)
Lemma media_list_consistent media_vec :
  media_ok (media_from_vec media_vec).
Proof. apply media_foldl_ok, media_default_ok. Qed.

(** The last announcement of a payload type decides its name and frequency,
    unless a later announcement gives the same codec name to another payload
    type. *)
Lemma media_last_announcement media_vec l1 s l2 :
  omap as_rtpmap (media_vec ≫= get_attributes) = l1 ++ s :: l2 →
  Forall (λ t, payload_type t ≠ payload_type s ∧ codec_name t ≠ codec_name s) l2 →
  let m := media_from_vec media_vec in
  get_name m (payload_type s) = Some (codec_name s) ∧
  get_id m (codec_name s) = Some (payload_type s) ∧
  get_frequency m (payload_type s) = Some (frequency s).
Proof.
  intros E Hl2 m. assert (get_name m (payload_type s) = Some (codec_name s)) as Hn.
  { unfold m, media_from_vec, media_from_iter. rewrite E, foldl_app. simpl.
    apply media_foldl_keep; [done|]. by rewrite get_name_rtpmap, decide_True. }
  split_and!; [done| |].
  - by apply (names_bijective m (media_foldl_ok _ _ media_default_ok)).
  - unfold m, media_from_vec, media_from_iter. rewrite E, foldl_app. simpl.
    rewrite media_foldl_frequency by (eapply Forall_impl; [exact Hl2|naive_solver]).
    by rewrite get_frequency_rtpmap, decide_True.
Qed.

(** Announcing a codec name again for another payload type takes the name
    away from the first: its frequency stays, its name is gone, and the RTC
    actor will refuse its packets. *)
Lemma media_name_shadowed media_vec l1 s l2 t l3 :
  omap as_rtpmap (media_vec ≫= get_attributes) = l1 ++ s :: l2 ++ t :: l3 →
  codec_name t = codec_name s → payload_type t ≠ payload_type s →
  Forall (λ u, payload_type u ≠ payload_type s ∧ codec_name u ≠ codec_name s) l2 →
  Forall (λ u, payload_type u ≠ payload_type s) l3 →
  let m := media_from_vec media_vec in
  get_name m (payload_type s) = None ∧
  get_frequency m (payload_type s) = Some (frequency s).
Proof.
  intros E Hc Hp Hl2 Hl3 m.
  unfold m, media_from_vec, media_from_iter. rewrite E, foldl_app. simpl. rewrite foldl_app. simpl.
  set (m0 := media_insert_rtpmap (foldl media_insert_rtpmap media_default l1) s).
  assert (get_name (foldl media_insert_rtpmap m0 l2) (payload_type s) = Some (codec_name s)) as Hn.
  { apply media_foldl_keep; [done|]. unfold m0. by rewrite get_name_rtpmap, decide_True. }
  split.
  - apply media_foldl_no_name; [done|]. rewrite get_name_rtpmap, decide_False, decide_True by congruence. done.
  - rewrite media_foldl_frequency by done. rewrite get_frequency_rtpmap, decide_False by congruence.
    rewrite media_foldl_frequency by (eapply Forall_impl; [exact Hl2|naive_solver]).
    unfold m0. by rewrite get_frequency_rtpmap, decide_True.
Qed.
End media_properties.

(** ** A concrete bimap *)

Definition gmap_bimap : BiMapOps := {|
  bimap := gmap SmolStr Z * gmap Z SmolStr;
  bimap_default := (∅, ∅);
  bimap_insert m l r :=
    (<[l := r]> (filter (λ p, p.2 ≠ r) m.1), <[r := l]> (filter (λ p, p.2 ≠ l) m.2));
  get_by_left m l := m.1 !! l;
  get_by_right m r := m.2 !! r;
|}.

Lemma lookup_insert_filter `{Countable K} {V} `{EqDecision V} (m : gmap K V) k v k' :
  (<[k := v]> (filter (λ p, p.2 ≠ v) m)) !! k' =
  if decide (k' = k) then Some v else if decide (m !! k' = Some v) then None else m !! k'.
Proof.
  case_decide; [subst; by rewrite lookup_insert_eq|]. rewrite lookup_insert_ne by done.
  rewrite map_lookup_filter. destruct (m !! k') as [v'|]; simpl; [|done].
  case_guard; case_decide; naive_solver.
Qed.

#[export] Instance gmap_bimap_laws : BiMapLaws gmap_bimap.
Proof.
  split; intros; simpl; try apply lookup_empty; apply lookup_insert_filter.
Qed.

(** Media sections that are lists of rtpmap attributes. *)
Definition rtpmap_sdp : SdpMediaOps := {|
  SdpAttribute := Rtpmap; SdpMedia := list Rtpmap;
  as_rtpmap := Some; get_attributes l := l;
|}.

Definition vp8 : Rtpmap := {| payload_type := 96; codec_name := str "VP8"; frequency := 90000; channels := None |}.
Definition h264a : Rtpmap := {| payload_type := 102; codec_name := str "H264"; frequency := 90000; channels := None |}.
Definition h264b : Rtpmap := {| payload_type := 108; codec_name := str "H264"; frequency := 90000; channels := None |}.

Lemma media_last_announcement_witness :
  get_name (B := gmap_bimap) (media_from_vec (S := rtpmap_sdp) [[h264a; vp8]; [h264b]]) 96 =
  Some (str "VP8").
Proof.
  apply (media_last_announcement (B := gmap_bimap) (S := rtpmap_sdp)
           [[h264a; vp8]; [h264b]] [h264a] vp8 [h264b]);
    [reflexivity|repeat constructor; vm_compute; congruence].
Defined.

Lemma media_list_consistent_witness :
  media_ok (B := gmap_bimap) (media_from_vec (S := rtpmap_sdp) [[h264a; vp8]; [h264b]]).
Proof. apply (media_list_consistent (B := gmap_bimap) (S := rtpmap_sdp)). Defined.
