(* ===== verification/Stream.v ===== *)
(** * The packet stream under the DTLS session
      (src/src/client/stream.rs, [push_dtls] of src/src/client/dtls.rs)

    OpenSSL reads and writes DTLS records through [ClientSslPackets], which is
    backed by two unbounded channels: the client actor pushes the datagrams it
    receives into [incoming] and forwards what appears in [outgoing]. The
    channels are [futures::channel::mpsc] and the read buffer is [tokio]'s:
    both are parameters ([Mpsc], [ReadBufOps]) with their documentation as
    laws. *)

From S2P Require Import Prelude Net Srtp ByteOrder RtpCore StunParse Demux.

Inductive Poll (A : Type) := Ready (a : A) | Pending.
Arguments Ready {_} _.
Arguments Pending {_}.

(** The error kinds of [std::io] that the server names. *)
Inductive ErrorKind := ConnectionAborted | WriteZero | Other | TimedOut | WouldBlock.

(** One channel, seen from both ends. Every operation returns the channel's
    next state. *)
Class Mpsc := {
  SendError : Type;
  is_disconnected : SendError → bool;
  chan : Type;
  unbounded : chan;
  sink_send : chan → DataPacket → Poll (result unit SendError) * chan;
  sink_flush : chan → Poll (result unit SendError) * chan;
  sink_close : chan → Poll (result unit SendError) * chan;
  stream_next : chan → Poll (option DataPacket) * chan;
  is_terminated : chan → bool;
  drop_receiver : chan → chan;
  drop_sender : chan → chan;
}.

Class ReadBufOps := {
  ReadBuf : Type;
  put_slice : ReadBuf → list Z → outcome ReadBuf;
}.

(** The errors of the client side (src/src/client/clients.rs). *)
Inductive ClientError {F : Foreign} {M : Mpsc} :=
| Receive (e : SendError)
| NotConnected
| AlreadyConnected
| ReadError (e : ErrorKind)
| SrtpParseError (e : ErrorParse)
| SslErrorStack (e : ErrorStack)
| SslErr (e : SslError).
Arguments ClientError _ _ : clear implicits.
Arguments ClientError {F M}.

Section stream.
Context {F : Foreign} {M : Mpsc}.

(** The [From] implementations; an [io::Error] is known by its kind. *)
#[export] Instance client_error_from_send : From SendError ClientError := Receive.
#[export] Instance client_error_from_kind : From ErrorKind ClientError := ReadError.
#[export] Instance client_error_from_parse : From ErrorParse ClientError := SrtpParseError.
#[export] Instance client_error_from_stack : From ErrorStack ClientError := SslErrorStack.
#[export] Instance client_error_from_ssl : From SslError ClientError := SslErr.

(** The two channels of a client. [ClientSslPackets] holds the reader of
    [incoming] and the writer of [outgoing]; [ClientSslPacketsChannels] the
    other two ends. *)
Record Channels := {
  incoming : chan;
  outgoing : chan;
}.

(** [ClientSslPackets::new] *)
Definition channels_new : Channels := {| incoming := unbounded; outgoing := unbounded |}.

Definition set_incoming (c : Channels) (i : chan) : Channels :=
  {| incoming := i; outgoing := outgoing c |}.
Definition set_outgoing (c : Channels) (o : chan) : Channels :=
  {| incoming := incoming c; outgoing := o |}.

(** [AsyncRead::poll_read] *)
Definition poll_read {R : ReadBufOps} (c : Channels) (buf : ReadBuf) :
    outcome (Poll (result unit ErrorKind) * ReadBuf * Channels) :=
  if is_terminated (incoming c) then Done (Ready (Err ConnectionAborted), buf, c)
  else
    let '(p, i) := stream_next (incoming c) in
    let c := set_incoming c i in
    match p with
    | Ready (Some message) =>
        buf ← put_slice buf message;
        Done (Ready (Ok tt), buf, c)
    | Ready None => Done (Ready (Err ConnectionAborted), buf, c)
    | Pending => Done (Pending, buf, c)
    end.

(** [AsyncWrite::poll_write] *)
Definition poll_write (c : Channels) (buf : list Z) :
    Poll (result nat ErrorKind) * Channels :=
  let '(p, o) := sink_send (outgoing c) buf in
  (match p with
   | Ready (Ok _) => Ready (Ok (length buf))
   | Ready (Err _) => Ready (Err WriteZero)
   | Pending => Pending
   end, set_outgoing c o).

(** The error mapping [poll_flush] and [poll_shutdown] share. *)
Definition map_send_error (p : Poll (result unit SendError)) :
    Poll (result unit ErrorKind) :=
  match p with
  | Ready (Ok _) => Ready (Ok tt)
  | Ready (Err e) =>
      Ready (Err (if is_disconnected e then ConnectionAborted else Other))
  | Pending => Pending
  end.

(** [AsyncWrite::poll_flush] *)
Definition poll_flush (c : Channels) : Poll (result unit ErrorKind) * Channels :=
  let '(p, o) := sink_flush (outgoing c) in (map_send_error p, set_outgoing c o).

(** [AsyncWrite::poll_shutdown] *)
Definition poll_shutdown (c : Channels) : Poll (result unit ErrorKind) * Channels :=
  let '(p, o) := sink_close (outgoing c) in (map_send_error p, set_outgoing c o).

(** One item of [ClientSslPacketsChannels::outgoing_stream]: [Ready None] ends
    the stream. *)
Definition outgoing_next (c : Channels) (addr : SocketAddr) :
    Poll (option DtlsMessage) * Channels :=
  if is_terminated (outgoing c) then (Ready None, c)
  else
    let '(p, o) := stream_next (outgoing c) in
    (match p with
     | Ready (Some message) => Ready (Some (create_outgoing message addr))
     | Ready None => Ready None
     | Pending => Pending
     end, set_outgoing c o).

(** [push_dtls]; the unbounded sender does not wait. *)
Definition push_dtls (c : Channels) (buf : DataPacket) :
    Poll (result unit ClientError) * Channels :=
  let '(p, i) := sink_send (incoming c) buf in
  (match p with
   | Ready (Ok _) => Ready (Ok tt)
   | Ready (Err e) => Ready (Err (from e))
   | Pending => Pending
   end, set_incoming c i).

(** Dropping the [ClientSslPackets] under an SSL stream: the reader of
    [incoming] and the writer of [outgoing] go with it. *)
Definition drop_packets (c : Channels) : Channels :=
  {| incoming := drop_receiver (incoming c); outgoing := drop_sender (outgoing c) |}.
End stream.

(** What the documentation of the channels promises. [queue] is the content,
    [rx_alive] whether the receiver still exists, [tx_open] whether the sender
    has not been closed. *)
Class MpscLaws (M : Mpsc) := {
  queue : chan → list DataPacket;
  rx_alive : chan → bool;
  tx_open : chan → bool;
  unbounded_queue : queue unbounded = [] ∧ rx_alive unbounded = true ∧ tx_open unbounded = true
    ∧ is_terminated unbounded = false;
  send_alive c m : rx_alive c = true → tx_open c = true →
    ∃ c', sink_send c m = (Ready (Ok tt), c') ∧ queue c' = queue c ++ [m] ∧
          rx_alive c' = true ∧ tx_open c' = true ∧ is_terminated c' = is_terminated c;
  send_dead c m : rx_alive c = false →
    ∃ e, sink_send c m = (Ready (Err e), c) ∧ is_disconnected e = true;
  next_some c m q : queue c = m :: q → rx_alive c = true →
    ∃ c', stream_next c = (Ready (Some m), c') ∧ queue c' = q ∧
          rx_alive c' = true ∧ tx_open c' = tx_open c ∧ is_terminated c' = false;
  next_empty c : queue c = [] → rx_alive c = true → tx_open c = true →
    stream_next c = (Pending, c);
  next_closed c : queue c = [] → rx_alive c = true → tx_open c = false →
    ∃ c', stream_next c = (Ready None, c') ∧ is_terminated c' = true;
  terminated_drained c : is_terminated c = true → queue c = [] ∧ tx_open c = false;
  drop_receiver_dead c : rx_alive (drop_receiver c) = false;
  drop_sender_closed c : tx_open (drop_sender c) = false ∧ queue (drop_sender c) = queue c ∧
    rx_alive (drop_sender c) = rx_alive c;
}.

Class ReadBufLaws (R : ReadBufOps) := {
  filled : ReadBuf → list Z;
  remaining : ReadBuf → nat;
  put_slice_fits b s : length s ≤ remaining b →
    ∃ b', put_slice b s = Done b' ∧ filled b' = filled b ++ s ∧
          remaining b' = remaining b - length s;
  put_slice_overflow b s : remaining b < length s → put_slice b s = Panicked;
}.

(** ** Properties *)

Section stream_properties.
Context {F : Foreign} {M : Mpsc} {ML : MpscLaws M} {R : ReadBufOps} {RL : ReadBufLaws R}.

(** Record boundaries survive the channel: a record OpenSSL writes to a
    client whose outgoing reader exists is accepted whole, and once the records
    before it have been taken the outgoing stream yields exactly that record,
    addressed to the client. *)
Lemma outgoing_record_roundtrip c addr record :
  rx_alive (outgoing c) = true → tx_open (outgoing c) = true → queue (outgoing c) = [] →
  ∃ c1 c2,
    poll_write c record = (Ready (Ok (length record)), c1) ∧
    outgoing_next c1 addr = (Ready (Some (create_outgoing record addr)), c2) ∧
    queue (outgoing c2) = [] ∧ incoming c2 = incoming c.
Proof.
  intros Hrx Htx Hq. destruct (send_alive (outgoing c) record Hrx Htx)
    as (o & Ho & Hqo & Hrxo & Htxo & _).
  rewrite Hq in Hqo. destruct (next_some o record [] Hqo Hrxo) as (o' & Ho' & Hqo' & _).
  exists (set_outgoing c o), (set_outgoing c o'). unfold poll_write, outgoing_next.
  rewrite Ho. simpl. destruct (is_terminated o) eqn:Ht.
  { apply terminated_drained in Ht as [Hd _]. by rewrite Hqo in Hd. }
  by rewrite Ho'.
Qed.

(** A datagram pushed for a client is what OpenSSL reads next from an empty
    incoming channel, unchanged and appended to the read buffer; the read
    panics when the buffer has less room than the datagram. *)
Lemma incoming_datagram_read c datagram buf :
  rx_alive (incoming c) = true → tx_open (incoming c) = true → queue (incoming c) = [] →
  ∃ c1,
    push_dtls c datagram = (Ready (Ok tt), c1) ∧
    (length datagram ≤ remaining buf →
     ∃ buf' c2, poll_read c1 buf = Done (Ready (Ok tt), buf', c2) ∧
                filled buf' = filled buf ++ datagram ∧ queue (incoming c2) = []) ∧
    (remaining buf < length datagram → poll_read c1 buf = Panicked).
Proof.
  intros Hrx Htx Hq. destruct (send_alive (incoming c) datagram Hrx Htx)
    as (i & Hi & Hqi & Hrxi & Htxi & _).
  rewrite Hq in Hqi. destruct (next_some i datagram [] Hqi Hrxi) as (i' & Hi' & Hqi' & _).
  exists (set_incoming c i). unfold push_dtls, poll_read. rewrite Hi. split; [done|]. simpl.
  destruct (is_terminated i) eqn:Ht.
  { apply terminated_drained in Ht as [Hd _]. by rewrite Hqi in Hd. }
  rewrite Hi'. split.
  - intros Hfit. destruct (put_slice_fits buf datagram Hfit) as (b' & -> & Hb' & _).
    simpl. eexists _, _. split; [done|]. by split.
  - intros Hover. by rewrite (put_slice_overflow _ _ Hover).
Qed.

(** A push into an open channel succeeds and leaves it open. *)
Lemma push_open c datagram :
  rx_alive (incoming c) = true → tx_open (incoming c) = true →
  ∃ c', push_dtls c datagram = (Ready (Ok tt), c') ∧
    rx_alive (incoming c') = true ∧ tx_open (incoming c') = true.
Proof.
  intros Hr Ht. destruct (send_alive (incoming c) datagram Hr Ht)
    as (i & Hs & _ & Hr' & Ht' & _).
  exists (set_incoming c i). unfold push_dtls. by rewrite Hs.
Qed.

(** Once the SSL stream of a client is dropped, every push fails and leaves the
    channels as they are. *)
Lemma push_closed c datagram :
  ∃ e, push_dtls (drop_packets c) datagram = (Ready (Err (Receive e)), drop_packets c).
Proof.
  destruct (send_dead (drop_receiver (incoming c)) datagram
    (drop_receiver_dead (incoming c))) as (e & He & Hd).
  exists e. unfold push_dtls. simpl. by rewrite He.
Qed.
End stream_properties.

(** ** Concrete channels and buffers *)

Record qchan := { q_items : list DataPacket; q_rx : bool; q_tx : bool; q_end : bool }.

Definition list_mpsc : Mpsc := {|
  SendError := unit;
  is_disconnected _ := true;
  chan := qchan;
  unbounded := {| q_items := []; q_rx := true; q_tx := true; q_end := false |};
  sink_send c m :=
    if q_rx c && q_tx c then
      (Ready (Ok tt), {| q_items := q_items c ++ [m]; q_rx := true; q_tx := true; q_end := q_end c |})
    else (Ready (Err tt), c);
  sink_flush c := (Ready (Ok tt), c);
  sink_close c :=
    (Ready (Ok tt), {| q_items := q_items c; q_rx := q_rx c; q_tx := false; q_end := q_end c |});
  stream_next c :=
    match q_items c with
    | m :: q => (Ready (Some m), {| q_items := q; q_rx := q_rx c; q_tx := q_tx c; q_end := false |})
    | [] => if q_tx c then (Pending, c)
            else (Ready None, {| q_items := []; q_rx := q_rx c; q_tx := false; q_end := true |})
    end;
  is_terminated c := q_end c && negb (q_tx c) && bool_decide (q_items c = []);
  drop_sender c :=
    {| q_items := q_items c; q_rx := q_rx c; q_tx := false; q_end := q_end c |};
  drop_receiver c := {| q_items := []; q_rx := false; q_tx := q_tx c; q_end := q_end c |};
|}.

Definition list_mpsc_laws : MpscLaws list_mpsc.
Proof.
  refine {| queue (c : @chan list_mpsc) := q_items c;
            rx_alive (c : @chan list_mpsc) := q_rx c;
            tx_open (c : @chan list_mpsc) := q_tx c |}; simpl.
  - done.
  - intros [i r t e] m -> ->. eexists. split; [done|]. simpl. by rewrite andb_false_r.
  - intros [i r t e] m ->. by exists tt.
  - intros [i r t e] m q -> ->. eexists. split; done.
  - by intros [i r t e] -> -> ->.
  - intros [i r t e] -> -> ->. eexists. split; done.
  - intros [i r t e]. simpl. intros [[_ Ht]%andb_prop Hi]%andb_prop.
    apply bool_decide_eq_true in Hi. by destruct t.
  - done.
  - done.
Defined.

(** A read buffer: what is filled and how much room is left. *)
Definition list_readbuf : ReadBufOps := {|
  ReadBuf := list Z * nat;
  put_slice b s :=
    if decide (length s ≤ b.2) then Done (b.1 ++ s, b.2 - length s) else Panicked;
|}.

Definition list_readbuf_laws : ReadBufLaws list_readbuf.
Proof.
  refine {| filled (b : @ReadBuf list_readbuf) := b.1;
            remaining (b : @ReadBuf list_readbuf) := b.2 |}; simpl; intros b s Hs.
  - rewrite decide_True by done. by eexists.
  - by rewrite decide_False by lia.
Defined.

Definition sample_channels : @Channels list_mpsc := channels_new.

Lemma outgoing_record_roundtrip_witness :
  ∃ c1 : @Channels list_mpsc, poll_write sample_channels [22%Z; 254%Z] = (Ready (Ok 2), c1).
Proof.
  destruct (outgoing_record_roundtrip (ML := list_mpsc_laws) sample_channels
    (V4 [127; 0; 0; 1] 9)%Z [22; 254]%Z) as (c1 & _ & H & _); try reflexivity.
  by exists c1.
Defined.
