(* ===== verification/Group.v ===== *)
(** * Groups (src/src/client/group.rs)

    A group is a stream identified by a number; the table holds the address of
    its current sender, or of the first client that joined it. *)

From S2P Require Import Prelude Net.

Abbreviation GroupsStorage := (gmap Z SocketAddr).

(** [Group::insert_or_get_sender]: the previous occupant of the group, or
    [addr] itself if there was none, and the new table. *)
Definition insert_or_get_sender (g : GroupsStorage) (group_id : Z) (addr : SocketAddr)
    (is_sender : bool) : SocketAddr * GroupsStorage :=
  if is_sender then (default addr (g !! group_id), <[group_id := addr]> g)
  else
    match g !! group_id with
    | Some s => (s, g)
    | None => (addr, <[group_id := addr]> g)
    end.

(** [Group::remove_sender]: [retain] *)
Definition remove_sender (g : GroupsStorage) (addr : SocketAddr) : GroupsStorage :=
  filter (λ p, addr ≠ p.2) g.

Lemma lookup_remove_sender g addr id s :
  remove_sender g addr !! id = Some s ↔ g !! id = Some s ∧ s ≠ addr.
Proof. unfold remove_sender. rewrite map_lookup_filter_Some. simpl. naive_solver. Qed.

Lemma insert_or_get_sender_lookup g id addr b :
  (insert_or_get_sender g id addr b).2 !! id =
  Some (if b then addr else (insert_or_get_sender g id addr b).1).
Proof.
  unfold insert_or_get_sender. destruct b; simpl; [by simplify_map_eq|].
  destruct (g !! id) eqn:E; by simplify_map_eq.
Qed.

Lemma insert_or_get_sender_other g id id' addr b :
  id' ≠ id → (insert_or_get_sender g id addr b).2 !! id' = g !! id'.
Proof.
  intros. unfold insert_or_get_sender. destruct b; simpl; [by simplify_map_eq|].
  destruct (g !! id); by simplify_map_eq.
Qed.
