(* ===== verification/Clients.v ===== *)
(** * The client table (src/src/client/clients.rs)

    [ClientsRefStorage] maps addresses to shared [Client] objects
    ([Arc<Client>]): the same object is reachable from the table and from the
    receiver maps of other clients, and is mutated through locks. The model
    keeps the sharing: a [ClientRef] is a pointer into a heap of clients, the
    tables hold pointers, and every access goes through the lock the code
    takes, in a state monad over [World] whose [Stuck] outcome is a thread that
    waits for a lock it holds itself. *)

From S2P Require Import Prelude Net Srtp ByteOrder RtpCore StunParse Demux Jitter.
From S2P Require Import Media Stream Group.
Local Open Scope Z_scope.

(** ** Locks

    [parking_lot]'s [RwLock] and [Mutex] are not part of the repository. What
    decides whether a thread can take a lock is a parameter, in two parts: given the
    guards it holds itself, and given the guards of the other threads and the locks
    they wait for. The laws are the documentation: a free lock can be taken, nobody
    reads while a writer holds the lock, nobody writes while anyone holds it. Whether
    a second read guard of the same thread is granted, and whether a reader is let in
    while a writer waits, is left open, as in the documentation. *)
Inductive lock :=
| LStorage
| LReceivers (r : nat)
| LSenderAddr (r : nat)
| LMedia (r : nat)
| LSrtp (r : nat)
| LRuntime (r : nat)
| LJitterStats (r : nat).
Inductive mode := Read | Write.

#[export] Instance lock_eq_dec : EqDecision lock.
Proof. solve_decision. Defined.
#[export] Instance mode_eq_dec : EqDecision mode.
Proof. solve_decision. Defined.

Class RwLockOps := {
  can_read : list (lock * mode) → lock → bool;
  can_write : list (lock * mode) → lock → bool;
  admits : list (lock * mode) → list (lock * mode) → lock → mode → bool;
}.

Class RwLockLaws (K : RwLockOps) : Prop := {
  read_free held l : l ∉ held.*1 → can_read held l = true;
  write_free held l : l ∉ held.*1 → can_write held l = true;
  read_blocked held l : (l, Write) ∈ held → can_read held l = false;
  write_blocked held l : l ∈ held.*1 → can_write held l = false;
  admits_read guards waiting l :
    (l, Write) ∉ guards → (l, Write) ∉ waiting → admits guards waiting l Read = true;
  admits_write guards waiting l : l ∉ guards.*1 → admits guards waiting l Write = true;
  read_excludes guards waiting l : admits guards waiting l Read = true → (l, Write) ∉ guards;
  write_excludes guards waiting l : admits guards waiting l Write = true → l ∉ guards.*1;
}.

(** Everything the client side calls outside the repository, in one place. *)
Class Platform := {
  pf_foreign :: Foreign;
  pf_bytes :: ByteOrder;
  pf_srtp :: SrtpLib pf_foreign;
  pf_bimap :: BiMapOps;
  pf_mpsc :: Mpsc;
  pf_locks :: RwLockOps;
}.

Class PlatformLaws (P : Platform) : Prop := {
  pl_bytes :: NetworkEndian pf_bytes;
  pl_srtp :: SrtpLaws pf_foreign pf_srtp;
  pl_bimap :: BiMapLaws pf_bimap;
  pl_locks :: RwLockLaws pf_locks;
}.

(** ** Clients *)

Inductive ClientStateStatus := StatusNew | StatusConnected | StatusShutdown.

Record ClientRtpRuntime := {
  client_ts : option Z;
  server_ts : Z;
  client_sequence : option Z;
  server_sequence : Z;
  started_time : Instant;
  prev_time_diff : Duration;
}.

(** [ClientRtpRuntime::default]; the two random draws and the clock reading are
    arguments. *)
Definition runtime_default (ts seq : Z) (now : Instant) : ClientRtpRuntime :=
  {| client_ts := None; server_ts := ts; client_sequence := None;
     server_sequence := seq; started_time := now; prev_time_diff := 0 |}.

Record ClientRtpJitterStats := {
  jitter_delay : Z;
  jitter_check_timestamp : Instant;
}.

Definition jitter_stats_default (now : Instant) : ClientRtpJitterStats :=
  {| jitter_delay := as_millis JITTER_BUFFER_START_DELAY; jitter_check_timestamp := now |}.

Abbreviation ClientRef := nat.

Section clients.
Context {P : Platform}.

Inductive ClientState :=
| New
| Connected (ssl : Ssl)
| Shutdown.

Definition get_status (s : ClientState) : ClientStateStatus :=
  match s with
  | New => StatusNew
  | Connected _ => StatusConnected
  | Shutdown => StatusShutdown
  end.

Record Client := {
  c_state : ClientState;
  c_channels : Channels;
  c_media : option MediaList;
  c_srtp : option SrtpTransport;
  c_runtime : gmap Z ClientRtpRuntime;
  c_jitter : ClientRtpJitterStats;
  c_receivers : gmap SocketAddr ClientRef;
  c_sender_addr : option SocketAddr;
  c_deleted : bool;
  c_dtls_connected : bool;
}.

(** [Client::default] *)
Definition client_default (now : Instant) : Client :=
  {| c_state := New; c_channels := channels_new; c_media := None; c_srtp := None;
     c_runtime := ∅; c_jitter := jitter_stats_default now; c_receivers := ∅;
     c_sender_addr := None; c_deleted := false; c_dtls_connected := false |}.

Definition set_media (m : option MediaList) (c : Client) : Client :=
  {| c_state := c_state c; c_channels := c_channels c; c_media := m; c_srtp := c_srtp c;
     c_runtime := c_runtime c; c_jitter := c_jitter c; c_receivers := c_receivers c;
     c_sender_addr := c_sender_addr c; c_deleted := c_deleted c;
     c_dtls_connected := c_dtls_connected c |}.
Definition set_srtp (s : option SrtpTransport) (c : Client) : Client :=
  {| c_state := c_state c; c_channels := c_channels c; c_media := c_media c; c_srtp := s;
     c_runtime := c_runtime c; c_jitter := c_jitter c; c_receivers := c_receivers c;
     c_sender_addr := c_sender_addr c; c_deleted := c_deleted c;
     c_dtls_connected := c_dtls_connected c |}.
Definition set_runtime (m : gmap Z ClientRtpRuntime) (c : Client) : Client :=
  {| c_state := c_state c; c_channels := c_channels c; c_media := c_media c;
     c_srtp := c_srtp c; c_runtime := m; c_jitter := c_jitter c;
     c_receivers := c_receivers c; c_sender_addr := c_sender_addr c;
     c_deleted := c_deleted c; c_dtls_connected := c_dtls_connected c |}.
Definition set_jitter (j : ClientRtpJitterStats) (c : Client) : Client :=
  {| c_state := c_state c; c_channels := c_channels c; c_media := c_media c;
     c_srtp := c_srtp c; c_runtime := c_runtime c; c_jitter := j;
     c_receivers := c_receivers c; c_sender_addr := c_sender_addr c;
     c_deleted := c_deleted c; c_dtls_connected := c_dtls_connected c |}.
Definition set_receivers (m : gmap SocketAddr ClientRef) (c : Client) : Client :=
  {| c_state := c_state c; c_channels := c_channels c; c_media := c_media c;
     c_srtp := c_srtp c; c_runtime := c_runtime c; c_jitter := c_jitter c;
     c_receivers := m; c_sender_addr := c_sender_addr c; c_deleted := c_deleted c;
     c_dtls_connected := c_dtls_connected c |}.
Definition set_sender_addr (a : option SocketAddr) (c : Client) : Client :=
  {| c_state := c_state c; c_channels := c_channels c; c_media := c_media c;
     c_srtp := c_srtp c; c_runtime := c_runtime c; c_jitter := c_jitter c;
     c_receivers := c_receivers c; c_sender_addr := a; c_deleted := c_deleted c;
     c_dtls_connected := c_dtls_connected c |}.

(** [Client::delete] and [Client::make_connected] *)
Definition client_delete (c : Client) : Client :=
  {| c_state := c_state c; c_channels := c_channels c; c_media := c_media c;
     c_srtp := c_srtp c; c_runtime := c_runtime c; c_jitter := c_jitter c;
     c_receivers := c_receivers c; c_sender_addr := c_sender_addr c; c_deleted := true;
     c_dtls_connected := c_dtls_connected c |}.
Definition make_connected (c : Client) : Client :=
  {| c_state := c_state c; c_channels := c_channels c; c_media := c_media c;
     c_srtp := c_srtp c; c_runtime := c_runtime c; c_jitter := c_jitter c;
     c_receivers := c_receivers c; c_sender_addr := c_sender_addr c;
     c_deleted := c_deleted c; c_dtls_connected := true |}.

(** ** Invariants of one client *)

(** The ranges of the Rust types: [u32], [u16] and their [NonZero] variants. *)
Record runtime_ok (r : ClientRtpRuntime) : Prop := {
  ok_server_ts : is_u32 (server_ts r);
  ok_server_sequence : is_u16 (server_sequence r);
  ok_client_ts t : client_ts r = Some t → is_u32 t ∧ t ≠ 0;
  ok_client_sequence s : client_sequence r = Some s → is_u16 s ∧ s ≠ 0;
}.

(** Every frequency of the negotiated media has its runtime entry, and the
    numbers are in range. *)
Record client_ok (c : Client) : Prop := {
  ok_media m id f :
    c_media c = Some m → get_frequency m id = Some f → is_Some (c_runtime c !! f);
  ok_runtime f r : c_runtime c !! f = Some r → is_u32 f ∧ runtime_ok r;
  ok_jitter : is_u32 (jitter_delay (c_jitter c));
}.

Lemma runtime_default_ok ts seq now :
  is_u32 ts → is_u16 seq → runtime_ok (runtime_default ts seq now).
Proof. by split. Qed.

Lemma client_default_ok now : client_ok (client_default now).
Proof. split; [done| |done]. intros f r. simpl. by rewrite lookup_empty. Qed.

Lemma client_ok_ext c c' :
  c_media c' = c_media c → c_runtime c' = c_runtime c → c_jitter c' = c_jitter c →
  client_ok c → client_ok c'.
Proof. intros Hm Hr Hj []. split; [rewrite Hm, Hr|rewrite Hr|rewrite Hj]; done. Qed.
End clients.

#[export] Hint Resolve runtime_default_ok client_default_ok : rstreamer.
