(* ===== verification/Store.v ===== *)
(** * The shared store and the lock discipline

    The state the two client-side actors share: the heap of clients, the client
    table, the locks the running thread holds, the messages it has sent; and the
    monad in which their handlers run. A handler leaves no guard behind, so it
    starts and ends with no lock held. *)

From S2P Require Import Prelude Net Srtp ByteOrder RtpCore StunParse Demux Jitter.
From S2P Require Import Media Stream Group Clients.

(** What a handler sends or starts. *)
Inductive Effect :=
| UdpSend (r : WebRtcRequest)
| JitterIncrease (addr : SocketAddr)
| JitterDecrease (addr : SocketAddr)
| AddOutgoingStream (r : ClientRef) (addr : SocketAddr)
| SpawnDtlsTask (r : ClientRef) (message : DataPacket) (addr : SocketAddr).

(** The readings of the clock in one run of the forwarding handler, in order. *)
Record Readings := { at_packet : Instant; at_check : Instant; at_update : Instant }.

Section store.
Context {P : Platform}.

Record World := {
  w_clients : gmap ClientRef Client;
  w_storage : gmap SocketAddr ClientRef;
  w_groups : GroupsStorage;
  w_held : list (lock * mode);
  w_sent : list Effect;
}.

Definition with_clients (w : World) cs : World :=
  {| w_clients := cs; w_storage := w_storage w; w_groups := w_groups w;
     w_held := w_held w; w_sent := w_sent w |}.
Definition with_storage (w : World) st : World :=
  {| w_clients := w_clients w; w_storage := st; w_groups := w_groups w;
     w_held := w_held w; w_sent := w_sent w |}.
Definition with_groups (w : World) g : World :=
  {| w_clients := w_clients w; w_storage := w_storage w; w_groups := g;
     w_held := w_held w; w_sent := w_sent w |}.
Definition with_held (w : World) h : World :=
  {| w_clients := w_clients w; w_storage := w_storage w; w_groups := w_groups w;
     w_held := h; w_sent := w_sent w |}.
Definition with_sent (w : World) s : World :=
  {| w_clients := w_clients w; w_storage := w_storage w; w_groups := w_groups w;
     w_held := w_held w; w_sent := s |}.

(** ** Programs

    A handler is a program: a sequence of operations on the shared state, each of
    which is one step. [run] executes a program of one thread by itself; the
    interleaved execution of several programs is in [Threads]. *)

Inductive Op : Type → Type :=
| OClient (r : ClientRef) : Op Client
| OUpdate (r : ClientRef) (f : Client → Client) : Op ()
| OAlloc (c : Client) : Op ClientRef
| OGetStorage : Op (gmap SocketAddr ClientRef)
| OPutStorage (st : gmap SocketAddr ClientRef) : Op ()
| OGetGroups : Op GroupsStorage
| OPutGroups (g : GroupsStorage) : Op ()
| OSend (e : Effect) : Op ()
| OAcquire (l : lock) (m : mode) : Op ()
| ORelease : Op ()
| OClock (rd : Readings) : Op Readings
| OPanic : Op Empty_set
| OStuck : Op Empty_set.

Inductive M (A : Type) : Type :=
| Return (a : A)
| Perform {B : Type} (op : Op B) (k : B → M A).
#[global] Arguments Return {_} _.
#[global] Arguments Perform {_ _} _ _.

#[export] Instance M_ret : MRet M := @Return.
#[export] Instance M_bind : MBind M := λ A B f,
  fix bind m :=
    match m with
    | Return a => f a
    | Perform op k => Perform op (λ b, bind (k b))
    end.

(** One operation of a thread that holds [w_held]. Dereferencing a pointer fails
    when it is not allocated, which [world_ok] below excludes; [Arc::new] gives a
    pointer to a fresh client. The clock shows what the operation says when the
    program runs by itself. *)
Definition op_run {B} (op : Op B) (w : World) : outcome (B * World) :=
  match op in Op B return outcome (B * World) with
  | OClient r => match w_clients w !! r with Some c => Done (c, w) | None => Stuck end
  | OUpdate r f => Done ((), with_clients w (alter f r (w_clients w)))
  | OAlloc c =>
      let r := fresh (dom (w_clients w)) in
      Done (r, with_clients w (<[r := c]> (w_clients w)))
  | OGetStorage => Done (w_storage w, w)
  | OPutStorage st => Done ((), with_storage w st)
  | OGetGroups => Done (w_groups w, w)
  | OPutGroups g => Done ((), with_groups w g)
  | OSend e => Done ((), with_sent w (w_sent w ++ [e]))
  | OAcquire l m =>
      if match m with Read => can_read (w_held w) l | Write => can_write (w_held w) l end
      then Done ((), with_held w ((l, m) :: w_held w))
      else Stuck
  | ORelease => Done ((), with_held w (tail (w_held w)))
  | OClock rd => Done (rd, w)
  | OPanic => Panicked
  | OStuck => Stuck
  end.

Fixpoint run {A} (m : M A) (w : World) : outcome (A * World) :=
  match m with
  | Return a => Done (a, w)
  | Perform op k =>
      match op_run op w with
      | Done (b, w) => run (k b) w
      | Panicked => Panicked
      | Stuck => Stuck
      end
  end.

Definition perform {B} (op : Op B) : M B := Perform op Return.

Definition lift {A} (o : outcome A) : M A :=
  match o with
  | Done a => mret a
  | Panicked => Perform OPanic (Empty_set_rect _)
  | Stuck => Perform OStuck (Empty_set_rect _)
  end.
Definition send (e : Effect) : M () := perform (OSend e).
Definition client (r : ClientRef) : M Client := perform (OClient r).
Definition update (r : ClientRef) (f : Client → Client) : M () := perform (OUpdate r f).
Definition alloc (c : Client) : M ClientRef := perform (OAlloc c).
Definition get_storage : M (gmap SocketAddr ClientRef) := perform OGetStorage.
Definition put_storage (st : gmap SocketAddr ClientRef) : M () := perform (OPutStorage st).
Definition get_groups : M GroupsStorage := perform OGetGroups.
Definition put_groups (g : GroupsStorage) : M () := perform (OPutGroups g).

Definition clock (rd : Readings) : M Readings := perform (OClock rd).

(** A guard lives from its acquisition to the end of [body]. *)
Definition acquire (l : lock) (m : mode) : M () := perform (OAcquire l m).
Definition release : M () := perform ORelease.
Definition guarded {A} (l : lock) (m : mode) (body : M A) : M A :=
  acquire l m;; a ← body; release;; mret a.

(** A loop over a list, in order. *)
Fixpoint for_each {A} (l : list A) (f : A → M ()) : M () :=
  match l with
  | [] => mret ()
  | a :: l => f a;; for_each l f
  end.
(** ** Running programs *)

Lemma run_bind {A B} (m : M A) (f : A → M B) w :
  run (m ≫= f) w =
  match run m w with
  | Done (a, w') => run (f a) w'
  | Panicked => Panicked
  | Stuck => Stuck
  end.
Proof.
  revert w. induction m as [a|C op k IH]; intros w; [done|].
  change (run (Perform op k ≫= f) w) with
    (match op_run op w with
     | Done (b, w) => run (k b ≫= f) w
     | Panicked => Panicked
     | Stuck => Stuck
     end).
  simpl. destruct (op_run op w) as [[b w']| |]; [apply IH|done|done].
Qed.

Lemma run_perform {B} (op : Op B) w : run (perform op) w = op_run op w.
Proof. unfold perform. simpl. by destruct (op_run op w) as [[b w']| |]. Qed.

Lemma run_lift {A} (o : outcome A) w : run (lift o) w = (a ← o; Done (a, w)).
Proof. by destruct o. Qed.

End store.

(** A program of one thread is also the function that runs it. *)
Coercion run : M >-> Funclass.
#[global] Arguments run {_ _} _ _ : simpl never.

(** Programs are taken apart by the rules below, not by [simpl]. *)
#[global] Opaque perform.

(** ** Total correctness of handlers

    [runs m w Q]: from [w] the computation returns, without panic and without
    waiting forever, and [Q] holds of its result and final state. *)
Section runs.
Context {P : Platform} {PL : PlatformLaws P}.

Definition runs {A} (m : M A) (w : World) (Q : A → World → Prop) : Prop :=
  match m w with Done (a, w') => Q a w' | _ => False end.

Lemma runs_Done {A} (m : M A) w Q :
  runs m w Q ↔ ∃ a w', m w = Done (a, w') ∧ Q a w'.
Proof.
  unfold runs. split.
  { destruct (m w) as [[a w']| |]; [by eauto|intros []|intros []]. }
  by intros (a & w' & -> & HQ).
Qed.

Lemma runs_eq {A} (m : M A) w a w' :
  runs m w (λ b v, b = a ∧ v = w') → m w = Done (a, w').
Proof. intros (b & v & -> & -> & ->)%runs_Done. done. Qed.

Lemma runs_mono {A} (m : M A) w Q Q' :
  runs m w Q → (∀ a w', Q a w' → Q' a w') → runs m w Q'.
Proof. unfold runs. destruct (m w) as [[a w']| |]; auto. Qed.

Lemma runs_ret {A} (a : A) w Q : Q a w → runs (mret a) w Q.
Proof. done. Qed.

Lemma runs_bind {A B} (m : M A) (f : A → M B) w Q :
  runs m w (λ a w', runs (f a) w' Q) → runs (m ≫= f) w Q.
Proof. unfold runs. rewrite run_bind. by destruct (m w) as [[a w']| |]. Qed.

Lemma run_client r c w : w_clients w !! r = Some c → client r w = Done (c, w).
Proof. unfold client. rewrite run_perform. simpl. by intros ->. Qed.

Lemma runs_client r c w (Q : Client → World → Prop) :
  w_clients w !! r = Some c → Q c w → runs (client r) w Q.
Proof. unfold runs, client. rewrite run_perform. simpl. by intros ->. Qed.

Lemma runs_update r f w (Q : () → World → Prop) :
  Q () (with_clients w (alter f r (w_clients w))) → runs (update r f) w Q.
Proof. done. Qed.

Lemma runs_alloc c w Q :
  (∀ r, w_clients w !! r = None → Q r (with_clients w (<[r := c]> (w_clients w)))) →
  runs (alloc c) w Q.
Proof. intros HQ. apply HQ. apply not_elem_of_dom. apply is_fresh. Qed.

Lemma runs_get_storage w Q : Q (w_storage w) w → runs get_storage w Q.
Proof. done. Qed.
Lemma runs_put_storage st w Q : Q () (with_storage w st) → runs (put_storage st) w Q.
Proof. done. Qed.
Lemma runs_get_groups w Q : Q (w_groups w) w → runs get_groups w Q.
Proof. done. Qed.
Lemma runs_put_groups g w Q : Q () (with_groups w g) → runs (put_groups g) w Q.
Proof. done. Qed.
Lemma runs_clock rd w (Q : Readings → World → Prop) : Q rd w → runs (clock rd) w Q.
Proof. done. Qed.
Lemma runs_send e w Q : Q () (with_sent w (w_sent w ++ [e])) → runs (send e) w Q.
Proof. done. Qed.

(** A lock the thread does not hold is granted, and given back. *)
Lemma acquire_free l m w :
  l ∉ (w_held w).*1 → acquire l m w = Done ((), with_held w ((l, m) :: w_held w)).
Proof.
  intros Hl. unfold acquire. rewrite run_perform. simpl.
  assert ((match m with Read => can_read (w_held w) l | Write => can_write (w_held w) l end)
          = true) as ->; [|done].
  destruct m; [by apply read_free|by apply write_free].
Qed.

Lemma runs_guarded {A} l m (body : M A) w Q :
  l ∉ (w_held w).*1 →
  runs body (with_held w ((l, m) :: w_held w))
    (λ a w', w_held w' = (l, m) :: w_held w ∧ Q a (with_held w' (w_held w))) →
  runs (guarded l m body) w Q.
Proof.
  intros Hfree Hbody. unfold guarded. apply runs_bind.
  unfold runs at 1. rewrite acquire_free by done. apply runs_bind. eapply runs_mono; [exact Hbody|]. intros a w' [Hh HQ].
  apply runs_bind. unfold runs, release. rewrite run_perform. simpl. by rewrite Hh.
Qed.

(** Taking a lock that the thread already holds for writing never returns, and
    neither does writing to a lock it holds at all. *)
Lemma guarded_blocked {A} l m (body : M A) w :
  ((l, Write) ∈ w_held w ∨ m = Write ∧ l ∈ (w_held w).*1) →
  guarded l m body w = Stuck.
Proof.
  intros Hb. unfold guarded, acquire. rewrite run_bind, run_perform. simpl.
  assert ((match m with Read => can_read (w_held w) l | Write => can_write (w_held w) l end)
          = false) as ->; [|done].
  destruct Hb as [Hw|[-> Hw]]; [|by apply write_blocked].
  destruct m; [by apply read_blocked|]. apply write_blocked.
  apply list_elem_of_fmap. by exists (l, Write).
Qed.

(** A computation waits forever when a part of it does. *)
Lemma stuck_bind_l {A B} (m : M A) (f : A → M B) w : m w = Stuck → (m ≫= f) w = Stuck.
Proof. intros Hm. by rewrite run_bind, Hm. Qed.

Lemma stuck_bind_r {A B} (m : M A) (f : A → M B) w a w' :
  m w = Done (a, w') → f a w' = Stuck → (m ≫= f) w = Stuck.
Proof. intros Hm Hf. by rewrite run_bind, Hm. Qed.

Lemma stuck_guarded {A} l m (body : M A) w :
  l ∉ (w_held w).*1 → body (with_held w ((l, m) :: w_held w)) = Stuck →
  guarded l m body w = Stuck.
Proof.
  intros Hl Hbody. eapply stuck_bind_r; [by apply acquire_free|]. by apply stuck_bind_l.
Qed.

(** A loop keeps an invariant its body keeps. *)
Lemma runs_for_each {A} (l : list A) (f : A → M ()) (I : World → Prop) w
    (Q : () → World → Prop) :
  I w → (∀ a w, a ∈ l → I w → runs (f a) w (λ _ w', I w')) →
  (∀ w', I w' → Q () w') → runs (for_each l f) w Q.
Proof.
  revert w. induction l as [|a l IH]; intros w Hw Hf HQ; simpl; [by apply HQ|].
  apply runs_bind. eapply runs_mono; [apply Hf; [apply list_elem_of_here|done]|].
  intros [] w' Hw'. apply IH; [done| |done]. intros b w'' Hb. apply Hf. by right.
Qed.

(** The heap operations on an allocated pointer. *)
Lemma alter_is_insert `{Countable K} {A} (f : A → A) (m : gmap K A) i x :
  m !! i = Some x → alter f i m = <[i := f x]> m.
Proof.
  intros Hx. apply map_eq. intros j. destruct (decide (i = j)) as [<-|].
  - by rewrite lookup_alter_eq, lookup_insert_eq, Hx.
  - by rewrite lookup_alter_ne, lookup_insert_ne.
Qed.

(** ** The invariant of the shared store *)

(** Between two handlers: no lock is held; every pointer in the table and in a
    receiver map is allocated; the table holds no deleted client; every client
    has one home address, under which alone the table and the receiver maps list
    it; every client is well formed. *)
Record world_ok (w : World) : Prop := {
  ok_held : w_held w = [];
  ok_storage a r :
    w_storage w !! a = Some r → ∃ c, w_clients w !! r = Some c ∧ c_deleted c = false;
  ok_receivers r c a r' :
    w_clients w !! r = Some c → c_receivers c !! a = Some r' → is_Some (w_clients w !! r');
  ok_home : ∃ home : ClientRef → SocketAddr,
    (∀ a r, w_storage w !! a = Some r → home r = a) ∧
    (∀ r c a r', w_clients w !! r = Some c → c_receivers c !! a = Some r' → home r' = a);
  ok_client r c : w_clients w !! r = Some c → client_ok c;
}.

Lemma ok_inj w a a' r :
  world_ok w → w_storage w !! a = Some r → w_storage w !! a' = Some r → a = a'.
Proof. intros [? ? ? (home & Hst & _) ?] Ha Ha'. rewrite <- (Hst a r), <- (Hst a' r); done. Qed.

Lemma ok_receivers_inj w r c a a' r' :
  world_ok w → w_clients w !! r = Some c →
  c_receivers c !! a = Some r' → c_receivers c !! a' = Some r' → a = a'.
Proof.
  intros [? ? ? (home & _ & Hrec) ?] Hc Ha Ha'.
  rewrite <- (Hrec r c a r'), <- (Hrec r c a' r'); done.
Qed.

(** How a step may change the heap: clients stay allocated and well formed, a
    live client of the table stays live, and a receiver map gets no entry but one
    that the table has. *)
Lemma world_ok_clients w cs :
  world_ok w →
  (∀ a r c, w_storage w !! a = Some r → w_clients w !! r = Some c → c_deleted c = false →
     ∃ c', cs !! r = Some c' ∧ c_deleted c' = false) →
  (∀ r, is_Some (w_clients w !! r) → is_Some (cs !! r)) →
  (∀ r c a r', cs !! r = Some c → c_receivers c !! a = Some r' →
     w_storage w !! a = Some r' ∨
     ∃ r1 c1, w_clients w !! r1 = Some c1 ∧ c_receivers c1 !! a = Some r') →
  (∀ r c, cs !! r = Some c → client_ok c) →
  world_ok (with_clients w cs).
Proof.
  intros Hw Hd Halloc Hr Hok. split; simpl; [apply Hw| | | |done].
  - intros a r Ha. destruct (ok_storage _ Hw _ _ Ha) as (c & Hc & Hdel). by eapply Hd.
  - intros r c a r' Hc Ha. apply Halloc.
    destruct (Hr _ _ _ _ Hc Ha) as [Hst|(r1 & c1 & Hc1 & Ha1)];
      [|by eapply (ok_receivers _ Hw)].
    destruct (ok_storage _ Hw _ _ Hst) as (c' & Hc' & _). by eexists.
  - destruct (ok_home _ Hw) as (home & Hst & Hrec). exists home. split; [done|].
    intros r c a r' Hc Ha.
    destruct (Hr _ _ _ _ Hc Ha) as [?|(r1 & c1 & Hc1 & Ha1)]; [by apply Hst|by eapply Hrec].
Qed.

(** The special case of one client changed in place. *)
Lemma world_ok_alter w r f :
  world_ok w →
  (∀ c, w_clients w !! r = Some c → c_deleted (f c) = c_deleted c) →
  (∀ c a r', w_clients w !! r = Some c → c_receivers (f c) !! a = Some r' →
     w_storage w !! a = Some r' ∨ c_receivers c !! a = Some r') →
  (∀ c, w_clients w !! r = Some c → client_ok c → client_ok (f c)) →
  world_ok (with_clients w (alter f r (w_clients w))).
Proof.
  intros Hw Hd Hr Hok. apply world_ok_clients; [done|..].
  - intros a r' c Ha Hc Hdel. destruct (decide (r' = r)) as [->|]; simplify_map_eq; [|by eauto].
    eexists. split; [done|]. by rewrite Hd.
  - intros r'. by rewrite lookup_alter_is_Some.
  - intros r' c a r'' Hc Hrec.
    apply lookup_alter_Some in Hc as [(<- & c' & Hc' & ->)|[Hne Hc]];
      [|by right; exists r', c].
    destruct (Hr _ _ _ Hc' Hrec); [by left|by right; exists r, c'].
  - intros r' c [(<- & c' & Hc' & ->)|[Hne Hc]]%lookup_alter_Some;
      [apply Hok; [done|]|]; by eapply (ok_client _ Hw).
Qed.
End runs.

#[export] Hint Resolve runs_ret runs_get_storage runs_get_groups : rstreamer.

(** One symbolic execution step of a handler. *)
Ltac run_step :=
  lazymatch goal with
  | |- runs (_ ≫= _) _ _ => apply runs_bind
  | |- runs (mret _) _ _ => apply runs_ret
  | |- runs (update _ _) _ _ => apply runs_update
  | |- runs get_storage _ _ => apply runs_get_storage
  | |- runs (put_storage _) _ _ => apply runs_put_storage
  | |- runs get_groups _ _ => apply runs_get_groups
  | |- runs (put_groups _) _ _ => apply runs_put_groups
  | |- runs (send _) _ _ => apply runs_send
  | |- runs (clock _) _ _ => apply runs_clock
  end; cbv beta.

(** A world with its projections reduced. *)
Ltac world_simpl :=
  cbn [w_clients w_storage w_groups w_held w_sent with_clients with_storage
       with_groups with_held with_sent fmap list_fmap fst snd].

(** Takes a lock that is not among the held ones. *)
Ltac run_guard :=
  apply runs_guarded; [world_simpl; set_solver|].

(** Equality of two worlds, by components. *)
Ltac world_eq :=
  unfold with_clients, with_storage, with_groups, with_held, with_sent;
  cbn [w_clients w_storage w_groups w_held w_sent]; f_equal.
