(* ===== verification/Runtime.v ===== *)
(** * Packet numbering and jitter statistics (src/src/client/rtc_actor.rs:101-156)

    The server replaces the sequence number and the timestamp of every packet it
    forwards by numbers of its own, which follow the increments of the client's,
    and compares the arrival times of packets with their timestamps to steer the
    jitter buffer. The code is inline in the RTC actor's handler; it is stated
    here as two functions of the runtime entry, the header and the clock. *)

From S2P Require Import Prelude Net Srtp ByteOrder RtpCore StunParse Demux Jitter.
From S2P Require Import Media Stream Group Clients.
From stdpp Require Import sorting.
Local Open Scope Z_scope.

(** [NonZeroU16::new] and [NonZeroU32::new] *)
Definition nonzero (z : Z) : option Z := if decide (z = 0) then None else Some z.

(** [new.saturating_sub(old)], or 0 when there is no old value. *)
Definition increment (new : Z) (old : option Z) : Z :=
  match old with Some o => saturating_sub new o | None => 0 end.

(** rtc_actor.rs:110-127: the new entry, [client_diff] and [real_time_diff]. *)
Definition advance_runtime (prof : profile) (rt : ClientRtpRuntime) (h : RtpHeader)
    (now : Instant) : outcome (ClientRtpRuntime * Z * Duration) :=
  let client_diff := increment (timestamp h) (client_ts rt) in
  let incr_sequence := increment (sequence h) (client_sequence rt) in
  server_sequence' ← arith prof 16 (server_sequence rt + incr_sequence);
  server_ts' ← arith prof 32 (server_ts rt + client_diff);
  let current_time := elapsed (started_time rt) now in
  real_time_diff ← dur_sub current_time (prev_time_diff rt);
  Done ({| client_ts := nonzero (timestamp h); server_ts := server_ts';
           client_sequence := nonzero (sequence h); server_sequence := server_sequence';
           started_time := started_time rt; prev_time_diff := current_time |},
        client_diff, real_time_diff).

Inductive JitterCommand := CommandIncrease | CommandDecrease.

(** rtc_actor.rs:137-155: the new statistics and the message to the jitter actor.
    [now1] and [now2] are the two clock readings, in order. *)
Definition update_jitter_stats (prof : profile) (frequency : Z) (real_time_diff : Duration)
    (client_diff : Z) (js : ClientRtpJitterStats) (now1 now2 : Instant) :
    outcome (ClientRtpJitterStats * option JitterCommand) :=
  let rate := frequency / 1000 in
  arrival ← arith prof 32 (as_millis real_time_diff mod 2 ^ 32 * rate);
  let transit := Z.abs (arrival - client_diff) mod 2 ^ 32 in
  scaled ← arith prof 32 (jitter_delay js * rate);
  limit ← arith prof 32 (scaled + JITTER_BUFFER_VOLATILE);
  let step := as_millis JITTER_BUFFER_DELAY_INCREASE_STEP mod 2 ^ 32 in
  if decide (limit < transit) then
    delay ← arith prof 32 (jitter_delay js + step);
    Done ({| jitter_delay := delay; jitter_check_timestamp := now1 |}, Some CommandIncrease)
  else if decide (JITTER_RECHECK_TIME ≤ elapsed (jitter_check_timestamp js) now1) then
    delay ← arith prof 32 (jitter_delay js - step);
    Done ({| jitter_delay := delay; jitter_check_timestamp := now2 |}, Some CommandDecrease)
  else Done (js, None).

(** A sequence of packets of one stream, with the clock reading at each: the
    numbers they leave with. *)
Fixpoint renumber (prof : profile) (rt : ClientRtpRuntime) (l : list (RtpHeader * Instant)) :
    outcome (ClientRtpRuntime * list (Z * Z)) :=
  match l with
  | [] => Done (rt, [])
  | (h, now) :: l =>
      '(rt', _, _) ← advance_runtime prof rt h now;
      '(rt'', out) ← renumber prof rt' l;
      Done (rt'', (server_sequence rt', server_ts rt') :: out)
  end.

(** ** Ranges *)

(** The clock has not gone back since the entry's last packet. *)
Definition clock_ok (rt : ClientRtpRuntime) (now : Instant) : Prop :=
  prev_time_diff rt ≤ elapsed (started_time rt) now.

Lemma increment_bound new old w :
  0 ≤ new < w → (∀ o, old = Some o → 0 ≤ o) → 0 ≤ increment new old < w.
Proof.
  intros Hn Ho. unfold increment, saturating_sub. destruct old as [o|]; [|lia].
  specialize (Ho o eq_refl). lia.
Qed.

Lemma arith_release_Done w z : arith Release w z = Done (z mod 2 ^ w) ∨ w < 0.
Proof.
  destruct (decide (w < 0)); [by right|left]. unfold arith. case_decide; [|done].
  by rewrite Z.mod_small.
Qed.

Lemma arith_16 z : arith Release 16 z = Done (z mod 2 ^ 16).
Proof. by destruct (arith_release_Done 16 z). Qed.
Lemma arith_32 z : arith Release 32 z = Done (z mod 2 ^ 32).
Proof. by destruct (arith_release_Done 32 z). Qed.

Lemma nonzero_ok z w : 0 ≤ z < w → ∀ t, nonzero z = Some t → 0 ≤ t < w ∧ t ≠ 0.
Proof. unfold nonzero. intros Hz t. case_decide; [done|]. by intros [= <-]. Qed.

(** In the release profile a packet always gets its numbers. *)
Lemma advance_release rt h now :
  is_u16 (sequence h) → is_u32 (timestamp h) → runtime_ok rt → clock_ok rt now →
  ∃ rt' cd d, advance_runtime Release rt h now = Done (rt', cd, d) ∧ runtime_ok rt' ∧
    is_u32 cd ∧
    server_sequence rt' =
      (server_sequence rt + increment (sequence h) (client_sequence rt)) mod 2 ^ 16 ∧
    server_ts rt' = (server_ts rt + increment (timestamp h) (client_ts rt)) mod 2 ^ 32 ∧
    client_sequence rt' = nonzero (sequence h) ∧ client_ts rt' = nonzero (timestamp h) ∧
    started_time rt' = started_time rt ∧ prev_time_diff rt' = elapsed (started_time rt) now.
Proof.
  intros Hs Ht Hrt Hclock. unfold advance_runtime.
  rewrite arith_16. simpl. rewrite arith_32. simpl.
  unfold dur_sub. rewrite decide_True by exact Hclock. simpl.
  eexists _, _, _. split; [done|]. split; [|split; [|done]].
  - split; simpl; unfold is_u16, is_u32;
      [apply Z.mod_pos_bound; lia|apply Z.mod_pos_bound; lia|..].
    + intros t Hn. by apply (nonzero_ok (timestamp h)).
    + intros s Hn. by apply (nonzero_ok (sequence h)).
  - apply increment_bound; [done|]. intros o Ho. destruct (ok_client_ts _ Hrt _ Ho) as [[] _]. lia.
Qed.

(** And the statistics are updated without panic. *)
Lemma update_jitter_release f d cd js now1 now2 :
  is_u32 (jitter_delay js) →
  ∃ js' cmd, update_jitter_stats Release f d cd js now1 now2 = Done (js', cmd) ∧
    is_u32 (jitter_delay js').
Proof.
  intros Hj. unfold update_jitter_stats. repeat (rewrite arith_32; simpl). case_decide; [|case_decide].
  - eexists _, _. split; [done|]. apply Z.mod_pos_bound. lia.
  - eexists _, _. split; [done|]. apply Z.mod_pos_bound. lia.
  - by eexists _, _.
Qed.

(** ** Numbering *)

(** A packet that comes after another in the client's numbering and in time. *)
Definition follows (p q : RtpHeader * Instant) : Prop :=
  sequence p.1 < sequence q.1 ∧ timestamp p.1 ≤ timestamp q.1 ∧ p.2 ≤ q.2.

Definition header_ok (p : RtpHeader * Instant) : Prop :=
  is_u16 (sequence p.1) ∧ is_u32 (timestamp p.1).

Lemma nonzero_Some z : z ≠ 0 → nonzero z = Some z.
Proof. intros. unfold nonzero. by rewrite decide_False. Qed.

Lemma clock_ok_mono rt now now' : clock_ok rt now → now ≤ now' → clock_ok rt now'.
Proof. unfold clock_ok, elapsed, saturating_sub. lia. Qed.

(** One step of [renumber] in the release profile. *)
Lemma renumber_cons rt p l :
  header_ok p → runtime_ok rt → clock_ok rt p.2 →
  ∃ rt', runtime_ok rt' ∧ clock_ok rt' p.2 ∧
    server_sequence rt' =
      (server_sequence rt + increment (sequence p.1) (client_sequence rt)) mod 2 ^ 16 ∧
    server_ts rt' = (server_ts rt + increment (timestamp p.1) (client_ts rt)) mod 2 ^ 32 ∧
    client_sequence rt' = nonzero (sequence p.1) ∧
    client_ts rt' = nonzero (timestamp p.1) ∧
    renumber Release rt (p :: l) =
      ('(rt'', out) ← renumber Release rt' l;
       Done (rt'', (server_sequence rt', server_ts rt') :: out)).
Proof.
  intros [Hs Ht] Hrt Hc. destruct p as [h now].
  destruct (advance_release rt h now Hs Ht Hrt Hc)
    as (rt' & cd & d & Hadv & Hok & _ & Hss & Hst & Hcs & Hct & Hstart & Hprev).
  exists rt'. split; [done|]. split; [unfold clock_ok; simpl in *; rewrite Hstart, Hprev; lia|].
  do 4 (split; [done|]). cbn [renumber]. by rewrite Hadv.
Qed.

(** C21. Numbering is faithful on an ordered stream, in a release build: when the first
    packet has neither sequence number nor timestamp 0, and then the client's sequence
    numbers increase without wrapping and its timestamps do not decrease, the
    numbers the packets leave with keep the client's distances, modulo the width
    of the fields, whatever numbering the server had reached. *)
Theorem numbering_follows_client p l rt :
  runtime_ok rt → clock_ok rt p.2 → Forall header_ok (p :: l) →
  sequence p.1 ≠ 0 → timestamp p.1 ≠ 0 → Sorted follows (p :: l) →
  let s0 := server_sequence rt + increment (sequence p.1) (client_sequence rt) in
  let t0 := server_ts rt + increment (timestamp p.1) (client_ts rt) in
  ∃ rt', renumber Release rt (p :: l) =
    Done (rt', (λ q : RtpHeader * Instant,
                  ((s0 + (sequence q.1 - sequence p.1)) mod 2 ^ 16,
                   (t0 + (timestamp q.1 - timestamp p.1)) mod 2 ^ 32)) <$> (p :: l)).
Proof.
  revert p rt. induction l as [|q l IH]; intros p rt Hrt Hc Hall Hs Ht Hsort s0 t0;
    apply Forall_cons in Hall as [Hp Hall].
  - destruct (renumber_cons rt p [] Hp Hrt Hc) as (rt' & _ & _ & Hss' & Hst' & _ & _ & ->).
    exists rt'. simpl. rewrite Hss', Hst', !Z.sub_diag, !Z.add_0_r. done.
  - destruct (renumber_cons rt p (q :: l) Hp Hrt Hc)
      as (rt1 & Hrt1 & Hc1 & Hss & Hst & Hcs & Hct & Heq).
    apply Sorted_inv in Hsort as [Hsort Hhd]. apply HdRel_inv in Hhd as (Hsq & Htq & Hclk).
    destruct (Forall_cons_1 _ _ _ Hall) as [Hq _].
    destruct (IH q rt1) as (rt' & Hrun); [done|by eapply clock_ok_mono|done| |
      unfold header_ok, is_u32 in *; lia|done|].
    { destruct Hp as [[] _]. lia. }
    exists rt'. rewrite Heq, Hrun. simpl. do 2 f_equal.
    rewrite (nonzero_Some _ Hs) in Hcs. rewrite (nonzero_Some _ Ht) in Hct.
    rewrite Hss, Hst, Hcs, Hct, !Z.sub_diag, !Z.add_0_r. fold s0 t0. f_equal.
    assert (increment (sequence q.1) (Some (sequence p.1)) = sequence q.1 - sequence p.1) as ->.
    { unfold increment, saturating_sub. lia. }
    assert (increment (timestamp q.1) (Some (timestamp p.1)) = timestamp q.1 - timestamp p.1)
      as ->. { unfold increment, saturating_sub. lia. }
    rewrite !Zplus_mod_idemp_l. f_equal.
    apply list_fmap_ext. intros _ r _.
    f_equal; rewrite <- Z.add_assoc, Zplus_mod_idemp_l; f_equal; lia.
Qed.

(** C33. Sequence numbers repeat when the client's wrap around: the packets 65535,
    0 and 1 of an ordered stream all leave with the same number, because the
    difference saturates at 0 and 0 is then taken for "no packet yet". *)
Theorem wraparound_repeats_number p q r rt :
  runtime_ok rt → clock_ok rt p.2 → p.2 ≤ q.2 ≤ r.2 →
  Forall header_ok [p; q; r] →
  sequence p.1 = 65535 → sequence q.1 = 0 → sequence r.1 = 1 →
  ∃ rt' s t1 t2 t3, renumber Release rt [p; q; r] = Done (rt', [(s, t1); (s, t2); (s, t3)]).
Proof.
  intros Hrt Hc Hclk Hall Hp Hq Hr.
  rewrite !Forall_cons in Hall. destruct Hall as (Hhp & Hhq & Hhr & _).
  destruct (renumber_cons rt p [q; r]) as (rt1 & Hrt1 & Hc1 & Hs1 & _ & Hcs1 & _ & ->); [done..|].
  destruct (renumber_cons rt1 q [r]) as (rt2 & Hrt2 & Hc2 & Hs2 & _ & Hcs2 & _ & ->);
    [done|done|eapply clock_ok_mono; [done|lia]|].
  destruct (renumber_cons rt2 r []) as (rt3 & _ & _ & Hs3 & _ & _ & _ & ->);
    [done|done|eapply clock_ok_mono; [done|lia]|].
  rewrite Hcs1, Hp, Hq in Hs2. rewrite Hcs2, Hq in Hs3.
  assert (server_sequence rt2 = server_sequence rt1) as E2.
  { rewrite Hs2. change (increment 0 (nonzero 65535)) with 0.
    rewrite Z.add_0_r. apply Z.mod_small, Hrt1. }
  assert (server_sequence rt3 = server_sequence rt2) as E3.
  { rewrite Hs3. change (increment _ (nonzero 0)) with 0.
    rewrite Z.add_0_r. apply Z.mod_small, Hrt2. }
  eexists _, (server_sequence rt1), _, _, _. simpl. by rewrite E3, E2.
Qed.

(** A packet that arrives late gets the number of the packet before it, and
    the gap it leaves is then counted a second time: of the packets n+1, n, n+2
    the first two leave with the same number and the third two after it. *)
Lemma late_packet_repeats_number n p q r rt :
  runtime_ok rt → clock_ok rt p.2 → p.2 ≤ q.2 ≤ r.2 →
  Forall header_ok [p; q; r] → n ≠ 0 →
  sequence p.1 = n + 1 → sequence q.1 = n → sequence r.1 = n + 2 →
  ∃ rt' s t1 t2 t3, renumber Release rt [p; q; r] =
    Done (rt', [(s, t1); (s, t2); ((s + 2) mod 2 ^ 16, t3)]).
Proof.
  intros Hrt Hc Hclk Hall Hn Hp Hq Hr.
  rewrite !Forall_cons in Hall. destruct Hall as (Hhp & Hhq & Hhr & _).
  pose proof (proj1 Hhq) as Hrange.
  rewrite Hq in Hrange. unfold is_u16 in Hrange.
  destruct (renumber_cons rt p [q; r]) as (rt1 & Hrt1 & Hc1 & Hs1 & _ & Hcs1 & _ & ->); [done..|].
  destruct (renumber_cons rt1 q [r]) as (rt2 & Hrt2 & Hc2 & Hs2 & _ & Hcs2 & _ & ->);
    [done|done|eapply clock_ok_mono; [done|lia]|].
  destruct (renumber_cons rt2 r []) as (rt3 & _ & _ & Hs3 & _ & _ & _ & ->);
    [done|done|eapply clock_ok_mono; [done|lia]|].
  rewrite Hcs1, nonzero_Some in Hs2 by lia. rewrite Hcs2, nonzero_Some in Hs3 by lia.
  unfold increment, saturating_sub in Hs2, Hs3.
  assert (server_sequence rt2 = server_sequence rt1) as E2.
  { rewrite Hs2. replace (Z.max 0 _) with 0 by lia.
    rewrite Z.add_0_r. apply Z.mod_small, Hrt1. }
  replace (Z.max 0 _) with 2 in Hs3 by lia.
  eexists _, (server_sequence rt1), _, _, _. simpl. by rewrite Hs3, E2.
Qed.

(** ** The jitter delay *)

(** A packet whose arrival agrees with its timestamp to within the tolerance:
    real time and timestamp since the packet before, and the clock. *)
Definition on_time (f : Z) (p : Duration * Z * Instant) : Prop :=
  let '(d, cd, now) := p in
  0 ≤ as_millis d < 2 ^ 32 ∧ as_millis d * (f / 1000) < 2 ^ 32 ∧
  Z.abs (as_millis d * (f / 1000) - cd) ≤ JITTER_BUFFER_VOLATILE.

#[export] Instance on_time_dec f p : Decision (on_time f p).
Proof. destruct p as [[d cd] now]. simpl. apply _. Defined.

(** The statistics over a sequence of packets of one frequency. *)
Fixpoint jitter_stats_run (prof : profile) (f : Z) (js : ClientRtpJitterStats)
    (l : list (Duration * Z * Instant)) : outcome ClientRtpJitterStats :=
  match l with
  | [] => Done js
  | (d, cd, now) :: l =>
      '(js', _) ← update_jitter_stats prof f d cd js now now;
      jitter_stats_run prof f js' l
  end.

Lemma arith_small prof w z : 0 ≤ z < 2 ^ w → arith prof w z = Done z.
Proof. intros. unfold arith. by rewrite decide_True. Qed.

(** A recheck of a quiet stream lowers the delay, or tries to. *)
Lemma update_jitter_quiet prof f d cd js now :
  0 ≤ f < 4000000000 → on_time f (d, cd, now) → 0 ≤ jitter_delay js ≤ 50 →
  jitter_check_timestamp js + JITTER_RECHECK_TIME ≤ now →
  update_jitter_stats prof f d cd js now now =
  (delay ← arith prof 32 (jitter_delay js - 10);
   Done ({| jitter_delay := delay; jitter_check_timestamp := now |}, Some CommandDecrease)).
Proof.
  intros Hf (Hd & Ha & Ht) Hj Hclk. unfold update_jitter_stats.
  assert (0 ≤ f / 1000 ≤ 4000000) as Hr by (Z.div_mod_to_equations; lia).
  unfold JITTER_BUFFER_VOLATILE in *. set (rate := f / 1000) in *.
  change (as_millis JITTER_BUFFER_DELAY_INCREASE_STEP mod 2 ^ 32) with 10.
  rewrite (Z.mod_small (as_millis d)) by lia.
  rewrite (arith_small _ _ (as_millis d * rate)) by nia. simpl.
  rewrite (arith_small _ _ (jitter_delay js * rate)) by nia. simpl.
  rewrite (arith_small _ _ (jitter_delay js * rate + 1000)) by nia. simpl.
  rewrite (Z.mod_small (Z.abs _)) by lia.
  rewrite decide_False by nia. rewrite decide_True; [done|].
  unfold elapsed, saturating_sub. lia.
Qed.

(** C32. The jitter delay has no floor: a stream that stays on time through six
    rechecks, each at least ten seconds after the one before, takes the delay
    from its initial 50 ms through 0, and the sixth recheck panics where overflow
    is checked and leaves the delay at 4294967286 ms where it is not. *)
Theorem quiet_stream_underflows f t0 d1 d2 d3 d4 d5 d6 :
  let l := [d1; d2; d3; d4; d5; d6] in
  0 ≤ f < 4000000000 → Forall (on_time f) l →
  Sorted (λ a b, a + JITTER_RECHECK_TIME ≤ b) (t0 :: l.*2) →
  jitter_stats_run Debug f (jitter_stats_default t0) l = Panicked ∧
  jitter_stats_run Release f (jitter_stats_default t0) l =
    Done {| jitter_delay := 4294967286; jitter_check_timestamp := d6.2 |}.
Proof.
  intros l Hf Hl Hclk. subst l. simpl in Hclk.
  repeat match goal with
  | H : Sorted _ (_ :: _) |- _ =>
      apply Sorted_inv in H as [H ?%HdRel_inv]
  end.
  decompose_Forall_hyps.
  repeat match goal with d : Z * Z * Instant |- _ => destruct d as [[? ?] ?] end. simpl in *.
  change (jitter_stats_default t0) with
    {| jitter_delay := 50; jitter_check_timestamp := t0 |}.
  split; do 6 (rewrite update_jitter_quiet; [|done|done|simpl; lia|done];
    first [rewrite arith_small by (simpl; lia)|idtac]; simpl); done.
Qed.

(** ** Concrete streams *)

Definition sample_header (s t : Z) : RtpHeader :=
  {| marker := false; payload := 96; sequence := s; timestamp := t |}.

Definition fresh_runtime : ClientRtpRuntime := runtime_default 1000 100 0.

Lemma fresh_runtime_ok : runtime_ok fresh_runtime.
Proof. apply runtime_default_ok; by apply (bool_decide_unpack _). Qed.

Lemma fresh_runtime_clock now : 0 ≤ now → clock_ok fresh_runtime now.
Proof. unfold clock_ok, elapsed, saturating_sub. simpl. lia. Qed.

Lemma numbering_follows_client_witness : ∃ rt',
  renumber Release fresh_runtime
    [(sample_header 7 3000, 5); (sample_header 8 3000, 6); (sample_header 10 6000, 9)] =
  Done (rt', [(100, 1000); (101, 1000); (103, 4000)]).
Proof.
  apply (numbering_follows_client (sample_header 7 3000, 5)
    [(sample_header 8 3000, 6); (sample_header 10 6000, 9)] fresh_runtime);
    [exact fresh_runtime_ok|apply fresh_runtime_clock; simpl; lia
    |repeat constructor; unfold is_u16, is_u32; simpl; lia|simpl; lia|simpl; lia|].
  repeat constructor; simpl; lia.
Defined.

Lemma wraparound_repeats_number_witness : ∃ rt' s t1 t2 t3,
  renumber Release fresh_runtime
    [(sample_header 65535 3000, 5); (sample_header 0 6000, 6); (sample_header 1 9000, 7)] =
  Done (rt', [(s, t1); (s, t2); (s, t3)]).
Proof.
  apply wraparound_repeats_number; [exact fresh_runtime_ok|apply fresh_runtime_clock; simpl; lia
    |simpl; lia|repeat constructor; unfold is_u16, is_u32; simpl; lia|reflexivity..].
Defined.

Lemma late_packet_repeats_number_witness : ∃ rt' s t1 t2 t3,
  renumber Release fresh_runtime
    [(sample_header 8 3000, 5); (sample_header 7 2000, 6); (sample_header 9 9000, 7)] =
  Done (rt', [(s, t1); (s, t2); ((s + 2) mod 2 ^ 16, t3)]).
Proof.
  apply (late_packet_repeats_number 7);
    [exact fresh_runtime_ok|apply fresh_runtime_clock; simpl; lia
    |simpl; lia|repeat constructor; unfold is_u16, is_u32; simpl; lia|lia|reflexivity..].
Defined.

Lemma quiet_stream_underflows_witness :
  jitter_stats_run Debug 90000 (jitter_stats_default 0)
    ((λ i, (from_millis 20, 1800, from_secs i)) <$> [10; 20; 30; 40; 50; 60]) = Panicked.
Proof.
  apply (quiet_stream_underflows 90000 0 (from_millis 20, 1800, from_secs 10)
    (from_millis 20, 1800, from_secs 20) (from_millis 20, 1800, from_secs 30)
    (from_millis 20, 1800, from_secs 40) (from_millis 20, 1800, from_secs 50)
    (from_millis 20, 1800, from_secs 60)); [lia| |].
  - apply (bool_decide_unpack _). vm_compute. exact I.
  - do 7 (apply Sorted_cons;
      [|first [apply HdRel_nil|apply HdRel_cons; vm_compute; discriminate]]).
    apply Sorted_nil.
Defined.
