(* ===== verification/Sample.v ===== *)
(** * A concrete platform

    Simple implementations of what the client side calls outside the repository,
    on which the theorems are instantiated and the model runs. *)

From S2P Require Import Prelude Net Srtp ByteOrder RtpCore StunParse Demux Jitter.
From S2P Require Import Media Stream Group Clients Store.
Local Open Scope Z_scope.

(** A lock policy: no reader beside a writer, no writer beside anybody; a reader of
    another thread waits for the writers that wait. *)
Definition simple_locks : RwLockOps := {|
  can_read held l := bool_decide ((l, Write) ∉ held);
  can_write held l := bool_decide (l ∉ held.*1);
  admits guards waiting l m :=
    match m with
    | Read => bool_decide ((l, Write) ∉ guards ++ waiting)
    | Write => bool_decide (l ∉ guards.*1)
    end;
|}.

#[export] Instance simple_locks_laws : RwLockLaws simple_locks.
Proof.
  split; simpl; intros held.
  - intros l Hl. apply bool_decide_eq_true. intros Hin. apply Hl.
    apply list_elem_of_fmap. by exists (l, Write).
  - intros l. apply bool_decide_eq_true.
  - intros l Hl. apply bool_decide_eq_false. naive_solver.
  - intros l Hl. apply bool_decide_eq_false. naive_solver.
  - intros waiting l Hg Hw. apply bool_decide_eq_true. set_solver.
  - intros waiting l. apply bool_decide_eq_true.
  - intros waiting l Hd%bool_decide_eq_true. set_solver.
  - intros waiting l. apply bool_decide_eq_true.
Qed.

(** An SRTP context that authenticates with an eight byte trailer and counts the
    packets it handled. *)
Definition trailer : list Z := replicate 8 170.

Definition toy_protect (s : nat) (buf : list Z) : nat * list Z * option unit :=
  (S s, buf ++ trailer, None).

Definition toy_unprotect (s : nat) (buf : list Z) : nat * list Z * option unit :=
  let n := (length buf - 8)%nat in
  if decide (12 ≤ n ∧ drop n buf = trailer)%nat then (S s, take n buf, None) else (s, buf, Some tt).

Definition toy_srtp : SrtpLib no_foreign := {|
  Ssl := bool;
  Srtp := nat;
  MasterKey := list Z;
  selected_srtp_profile ssl := if ssl then Some srtp_profile_name else None;
  export_keying_material _ n _ := Ok (replicate n 7);
  master_len _ := 30%nat;
  extract_keying_material _ b := (take 30 b, drop 30 b);
  srtp_new _ _ _ _ := Ok O;
  srtp_protect := toy_protect : nat → list Z → nat * list Z * option (ErrorSrtp (Foreign := no_foreign));
  srtp_protect_rtcp := toy_protect;
  srtp_unprotect := toy_unprotect;
  srtp_unprotect_rtcp := toy_unprotect;
|}.

#[export] Instance toy_srtp_laws : SrtpLaws no_foreign toy_srtp.
Proof.
  split. simpl. unfold toy_unprotect. intros c b c' b' Hb.
  case_decide as Hd; [|done]. intros [= _ <-]. rewrite take_take. f_equal. lia.
Qed.

(** A pair of contexts that handled so many packets. *)
Definition toy_transport (incoming outgoing : nat) : @SrtpTransport no_foreign toy_srtp :=
  @Build_SrtpTransport no_foreign toy_srtp incoming outgoing.

#[export] Instance sample_platform : Platform := {|
  pf_foreign := no_foreign;
  pf_bytes := be_order;
  pf_srtp := toy_srtp;
  pf_bimap := gmap_bimap;
  pf_mpsc := list_mpsc;
  pf_locks := simple_locks;
|}.

#[export] Instance sample_platform_laws : PlatformLaws sample_platform.
Proof. split; apply _. Qed.

(** A streamer that announced VP8, a viewer of it, and a client whose handshake
    has not finished. *)
Definition streamer_addr : SocketAddr := V4 [192; 0; 2; 1] 4000.
Definition viewer_addr : SocketAddr := V4 [192; 0; 2; 2] 4001.
Definition rival_addr : SocketAddr := V4 [192; 0; 2; 3] 4002.
Definition stranger_addr : SocketAddr := V4 [192; 0; 2; 4] 4003.

Definition sample_media : MediaList := media_insert_rtpmap media_default vp8.

Definition sample_runtime : ClientRtpRuntime := runtime_default 1000 100 0.

Definition sample_client (rs : gmap SocketAddr ClientRef) (s : option SocketAddr) : Client :=
  {| c_state := Connected true; c_channels := channels_new; c_media := Some sample_media;
     c_srtp := Some (toy_transport 0 0);
     c_runtime := {[ 90000 := sample_runtime ]}; c_jitter := jitter_stats_default 0;
     c_receivers := rs; c_sender_addr := s; c_deleted := false; c_dtls_connected := true |}.

Definition sample_world (rs : gmap SocketAddr ClientRef) : World :=
  {| w_clients := {[ 0%nat := sample_client rs None; 1%nat := sample_client ∅ (Some streamer_addr);
                     2%nat := client_default 0 ]};
     w_storage := {[ streamer_addr := 0%nat; viewer_addr := 1%nat; rival_addr := 2%nat ]};
     w_groups := {[ 7 := streamer_addr ]};
     w_held := []; w_sent := [] |}.

Lemma sample_frequencies id f : get_frequency sample_media id = Some f → f = 90000.
Proof.
  unfold sample_media, get_frequency. simpl.
  intros [[_ <-]|[_ Hf]]%lookup_insert_Some; [done|by rewrite lookup_empty in Hf].
Qed.

Lemma sample_client_ok rs s : client_ok (sample_client rs s).
Proof.
  split; simpl; [| |by apply (bool_decide_unpack _)].
  - intros m id f [= <-]. by intros ->%sample_frequencies.
  - intros f r [<- <-]%lookup_singleton_Some. split; [by apply (bool_decide_unpack _)|].
    apply runtime_default_ok; by apply (bool_decide_unpack _).
Qed.

(** Home addresses of the three clients. *)
Definition sample_home (r : ClientRef) : SocketAddr :=
  match r with 0%nat => streamer_addr | 1%nat => viewer_addr | _ => rival_addr end.

Lemma sample_world_ok rs :
  (∀ a r, rs !! a = Some r → (r < 3)%nat ∧ sample_home r = a) → world_ok (sample_world rs).
Proof.
  intros Hrs.
  assert (∀ r c a r', w_clients (sample_world rs) !! r = Some c →
            c_receivers c !! a = Some r' → (r' < 3)%nat ∧ sample_home r' = a) as Hrec.
  { intros r c a r'. simpl. rewrite !lookup_insert_Some, lookup_singleton_Some.
    intros [[<- <-]|[_ [[<- <-]|[_ [<- <-]]]]]; simpl; [by apply Hrs|done..]. }
  split; simpl; [done|..].
  - intros a r. rewrite !lookup_insert_Some, lookup_singleton_Some.
    naive_solver.
  - intros r c a r' Hc Hr. destruct (Hrec _ _ _ _ Hc Hr) as [Hlt _].
    destruct r' as [|[|[|r']]]; [done..|lia].
  - exists sample_home. split; [|intros; by eapply Hrec].
    intros a r. rewrite !lookup_insert_Some, lookup_singleton_Some. naive_solver.
  - intros r c. rewrite !lookup_insert_Some, lookup_singleton_Some.
    intros [[_ <-]|[_ [[_ <-]|[_ [_ <-]]]]];
      [apply sample_client_ok..|apply client_default_ok].
Qed.
