(* ===== verification/Threads.v ===== *)
(** * Threads

    The client actor runs on the thread of the event loop, the RTC actor on a pool of
    worker threads ([SyncArbiter::start(num_cpus::get(), ..)],
    src/src/client/rtc_actor.rs:29-35), and they share the client table and the
    clients. This file runs the programs of [Store] as threads: one operation of one
    thread is one step. It proves, for any programs that respect a lock discipline,
    that some thread can always go on and that every schedule ends, and that a thread
    the others do not disturb does what the run of its program computes. *)

From Stdlib Require Import Wellfounded.
From S2P Require Import Prelude Net Srtp ByteOrder RtpCore StunParse Demux Jitter.
From S2P Require Import Media Stream Group Clients Store.
Local Open Scope Z_scope.

(** The event loop, where [takes] says whether it handles the message of a client that
    announces itself as the sender of a group; or a worker handling a packet from an
    address. *)
Inductive Role := MainThread (takes : bool) | Worker (addr : SocketAddr) (packet : DataPacket).

#[export] Instance Role_eq_dec : EqDecision Role.
Proof. solve_decision. Defined.

Section threads.
Context {P : Platform}.

Record Thread := {
  th_role : Role;
  th_held : list (lock * mode);
  th_prog : M ();
}.

Definition request {A} (m : M A) : option (lock * mode) :=
  match m with
  | Perform (OAcquire l md) _ => Some (l, md)
  | _ => None
  end.

Definition finished {A} (m : M A) : bool :=
  match m with Return _ => true | Perform _ _ => false end.

(** Whether the other threads let a thread take the lock it asks for. *)
Definition may_go (others : list Thread) (th : Thread) : Prop :=
  match request (th_prog th) with
  | Some (l, m) =>
      admits (others ≫= th_held) (omap (λ th, request (th_prog th)) others) l m = true
  | None => True
  end.

#[export] Instance may_go_dec others th : Decision (may_go others th).
Proof. unfold may_go. destruct (request (th_prog th)) as [[l m]|]; apply _. Defined.

(** What the clock shows when it is read. *)
Definition clock_op {B} (rd : Readings) (op : Op B) : Op B :=
  match op with OClock _ => OClock rd | op => op end.

(** The next operation of a thread, with its own guards. *)
Definition thread_step (rd : Readings) (th : Thread) (w : World) : outcome (Thread * World) :=
  match th_prog th with
  | Return _ => Stuck
  | Perform op k =>
      '(b, w) ← op_run (clock_op rd op) (with_held w (th_held th));
      Done ({| th_role := th_role th; th_held := w_held w; th_prog := k b |}, with_held w [])
  end.

(** The shared state, the clock, and the threads. *)
Record Pool := {
  p_world : World;
  p_clock : Instant;
  p_threads : list Thread;
}.

Definition pool_step (i : nat) (rd : Readings) (p : Pool) : outcome Pool :=
  match p_threads p !! i with
  | None => Stuck
  | Some th =>
      if decide (p_clock p ≤ at_packet rd ∧ may_go (delete i (p_threads p)) th) then
        '(th, w) ← thread_step rd th (p_world p);
        Done {| p_world := w; p_clock := at_packet rd; p_threads := <[i := th]> (p_threads p) |}
      else Stuck
  end.

Definition pool_next (p p' : Pool) : Prop :=
  ∃ i rd, pool_step i rd p = Done p'.
End threads.

(** ** Every schedule ends *)

(** A relation on the elements of a list, one element at a time. *)
Definition at_one {A} (R : A → A → Prop) (l' l : list A) : Prop :=
  ∃ i x y, l !! i = Some x ∧ R y x ∧ l' = <[i := y]> l.

Lemma at_one_acc {A} (R : A → A → Prop) l : Forall (Acc R) l → Acc (at_one R) l.
Proof.
  induction 1 as [|x l Hx _ Hl].
  { constructor. intros l' (i & x & y & Hi & _). by rewrite lookup_nil in Hi. }
  revert l Hl. induction Hx as [x Hx IHx]. intros l Hl. induction Hl as [l Hl IHl].
  constructor. intros l' (i & z & y & Hi & Hy & ->). destruct i as [|i]; simpl in *.
  - injection Hi as <-. apply IHx; [done|]. by constructor.
  - apply IHl. by exists i, z, y.
Qed.

Section termination.
Context {P : Platform}.

(** What is left of a program after one operation. *)
Definition rest {A} (m' m : M A) : Prop :=
  match m with Return _ => False | Perform op k => ∃ b, m' = k b end.

Lemma rest_wf {A} : well_founded (@rest A).
Proof.
  intros m. induction m as [a|B op k IH]; constructor; simpl; [done|]. intros m' [b ->]. apply IH.
Qed.

Lemma thread_step_rest rd th w th' w' :
  thread_step rd th w = Done (th', w') →
  rest (th_prog th') (th_prog th) ∧ th_role th' = th_role th.
Proof.
  unfold thread_step. destruct (th_prog th) as [|B op k]; [done|].
  destruct (op_run _ _) as [[b w1]| |]; [|done..]. intros [= <- _]. split; [by exists b|done].
Qed.

Lemma thread_step_clears rd th w th' w' :
  thread_step rd th w = Done (th', w') → w_held w' = [].
Proof.
  unfold thread_step. destruct (th_prog th) as [|B op k]; [done|].
  destruct (op_run _ _) as [[b w1]| |]; [|done..]. by intros [= _ <-].
Qed.

Lemma pool_step_inv i rd p p' :
  pool_step i rd p = Done p' →
  ∃ th th' w', p_threads p !! i = Some th ∧ p_clock p ≤ at_packet rd ∧
    may_go (delete i (p_threads p)) th ∧
    thread_step rd th (p_world p) = Done (th', w') ∧
    p' = {| p_world := w'; p_clock := at_packet rd; p_threads := <[i := th']> (p_threads p) |}.
Proof.
  unfold pool_step. destruct (p_threads p !! i) as [th|]; [|done].
  case_decide as Hd; [|done]. destruct Hd.
  destruct (thread_step rd th (p_world p)) as [[th' w']| |] eqn:Hs; [|done..].
  intros [= <-]. by exists th, th', w'.
Qed.

(** No pool steps forever: each operation shortens one program. *)
Lemma pool_terminates p : Acc (flip (pool_next)) p.
Proof.
  assert (∀ l, Acc (at_one (λ th' th, rest (th_prog th') (th_prog th))) l →
            ∀ p, p_threads p = l → Acc (flip (pool_next)) p) as H.
  { induction 1 as [l _ IH]. intros q <-. constructor. intros p' (i & rd & Hs).
    apply pool_step_inv in Hs as (th & th' & w' & Hi & _ & _ & Hs & ->).
    eapply IH; [|done]. simpl. exists i, th, th'. split; [done|]. split; [|done].
    by eapply thread_step_rest. }
  eapply H; [|done]. apply at_one_acc. apply Forall_true. intros th.
  apply (Acc_inverse_image _ _ _ th_prog), rest_wf.
Qed.
End termination.

(** ** A thread that runs alone *)

Section alone.
Context {P : Platform} {PL : PlatformLaws P}.

(** Programs that read the clock only as [rd]. *)
Fixpoint timed {A} (rd : Readings) (m : M A) : Prop :=
  match m with
  | Return _ => True
  | Perform op k => clock_op rd op = op ∧ ∀ b, timed rd (k b)
  end.

Lemma timed_bind {A B} rd (m : M A) (f : A → M B) :
  timed rd m → (∀ a, timed rd (f a)) → timed rd (m ≫= f).
Proof.
  intros Hm Hf. induction m as [a|C op k IH]; [apply Hf|]. destruct Hm as [Hop Hk].
  split; [done|]. intros b. apply IH, Hk.
Qed.

Definition lone (ρ : Role) (h : list (lock * mode)) (m : M ()) (w : World) (now : Instant) : Pool :=
  {| p_world := w; p_clock := now;
     p_threads := [{| th_role := ρ; th_held := h; th_prog := m |}] |}.

Definition alone_next (rd : Readings) (p p' : Pool) : Prop :=
  pool_step 0 rd p = Done p'.

Lemma alone_step ρ rd {B} (op : Op B) k h w now :
  clock_op rd op = op → now ≤ at_packet rd →
  pool_step 0 rd (lone ρ h (Perform op k) w now) =
  match op_run op (with_held w h) with
  | Done (b, w') => Done (lone ρ (w_held w') (k b) (with_held w' []) (at_packet rd))
  | Panicked => Panicked
  | Stuck => Stuck
  end.
Proof.
  intros Hop Hnow. unfold pool_step. simpl. rewrite decide_True.
  - unfold thread_step. simpl. rewrite Hop. by destruct (op_run op _) as [[b w']| |].
  - split; [done|]. unfold may_go. simpl. destruct op; try done. simpl.
    destruct m; [apply admits_read|apply admits_write]; set_solver.
Qed.

Lemma with_held_twice w h h' : with_held (with_held w h) h' = with_held w h'.
Proof. done. Qed.

Lemma with_held_id w : with_held w (w_held w) = w.
Proof. by destruct w. Qed.

(** Every pool it goes through has the same run left. *)
Lemma alone_run ρ rd m h w now p :
  timed rd m → now ≤ at_packet rd → rtc (alone_next rd) (lone ρ h m w now) p →
  ∃ m' h' w' now', p = lone ρ h' m' w' now' ∧ timed rd m' ∧ now' ≤ at_packet rd ∧
    run m' (with_held w' h') = run m (with_held w h).
Proof.
  intros Hm Hnow Hp. remember (lone ρ h m w now) as p0 eqn:Hp0.
  revert m h w now Hm Hnow Hp0. induction Hp as [p|p p1 p2 Hs _ IH]; intros m h w now Hm Hnow ->.
  { by exists m, h, w, now. }
  destruct m as [a|B op k].
  { exfalso. revert Hs. unfold alone_next, pool_step. simpl. by case_decide. }
  destruct Hm as [Hop Hk].
  unfold alone_next in Hs. rewrite alone_step in Hs by done.
  change (run (Perform op k) (with_held w h)) with
    (match op_run op (with_held w h) with
     | Done (b, v) => run (k b) v | Panicked => Panicked | Stuck => Stuck end).
  destruct (op_run op _) as [[b v]| |]; [|done..]. injection Hs as <-.
  destruct (IH (k b) (w_held v) (with_held v []) (at_packet rd)) as (m' & h' & w' & now' & -> & ? & ? & Hr);
    [apply Hk|done|done|].
  exists m', h', w', now'. split; [done|]. do 2 (split; [done|]).
  rewrite Hr. by rewrite with_held_twice, with_held_id.
Qed.

(** Among no other threads, the steps of a program are its run. *)
Lemma alone_iff ρ rd m h w now v :
  w_held w = [] → timed rd m → now ≤ at_packet rd →
  (∃ now', rtc (alone_next rd) (lone ρ h m w now)
             (lone ρ (w_held v) (Return ()) (with_held v []) now')) ↔
  run m (with_held w h) = Done ((), v).
Proof.
  intros Hw Hm Hnow. split.
  - intros [now' Hs]. destruct (alone_run _ _ _ _ _ _ _ Hm Hnow Hs) as (m' & h' & w' & n' & Heq & _ & _ & <-).
    unfold lone in Heq. injection Heq as <- _ <- <-. by rewrite with_held_twice, with_held_id.
  - revert h w now Hw Hnow. induction m as [[]|B op k IH]; intros h w now Hw Hnow Hr.
    + change (Done ((), with_held w h) = Done ((), v)) in Hr. injection Hr as <-. exists now.
      simpl. by rewrite with_held_twice, <- Hw, with_held_id.
    + destruct Hm as [Hop Hk]. pose proof (alone_step ρ rd op k h w now Hop Hnow) as Hs.
      change (match op_run op (with_held w h) with
              | Done (b, v) => run (k b) v | Panicked => Panicked | Stuck => Stuck end
              = Done ((), v)) in Hr.
      destruct (op_run op _) as [[b v']| |]; [|done..].
      destruct (IH b (Hk b) (w_held v') (with_held v' []) (at_packet rd)) as [now' Hrtc]; [done|done| |].
      { by rewrite with_held_twice, with_held_id. }
      exists now'. by eapply rtc_l; [|exact Hrtc].
Qed.

(** Threads that have finished, and hold no lock, do not disturb. *)
Definition quiet (ths : list Thread) : Prop :=
  Forall (λ th, finished (th_prog th) = true ∧ th_held th = []) ths.

Definition beside (ths : list Thread) (p : Pool) : Pool :=
  {| p_world := p_world p; p_clock := p_clock p; p_threads := ths ++ p_threads p |}.

(** A step of any thread, with the clock at [rd]. *)
Definition pool_next_at (rd : Readings) (p p' : Pool) : Prop :=
  ∃ i, pool_step i rd p = Done p'.

Lemma quiet_none ths :
  quiet ths → ths ≫= th_held = [] ∧ omap (λ th, request (th_prog th)) ths = [].
Proof.
  intros Hq. induction Hq as [|th ths [Hf Hh] _ [IH1 IH2]]; [done|]. split.
  - change (th_held th ++ (ths ≫= th_held) = []). by rewrite Hh, IH1.
  - change (match request (th_prog th) with
            | Some q => q :: omap (λ th, request (th_prog th)) ths
            | None => omap (λ th, request (th_prog th)) ths
            end = []). rewrite IH2. by destruct (th_prog th).
Qed.

Lemma quiet_may_go ths th : quiet ths → may_go ths th.
Proof.
  intros [Hh Hr]%quiet_none. unfold may_go. rewrite Hh, Hr.
  destruct (request (th_prog th)) as [[l m]|]; [|done].
  destruct m; [apply admits_read|apply admits_write]; set_solver.
Qed.

Lemma insert_last {A} (l : list A) x y : <[length l := y]> (l ++ [x]) = l ++ [y].
Proof. by rewrite insert_app_r_alt, Nat.sub_diag by lia. Qed.

Lemma delete_last {A} (l : list A) x : delete (length l) (l ++ [x]) = l.
Proof. rewrite delete_middle. apply app_nil_r. Qed.

(** Beside quiet threads, the steps are those of the thread alone. *)
Lemma quiet_step ths ρ rd h m w now i p' :
  quiet ths → pool_step i rd (beside ths (lone ρ h m w now)) = Done p' →
  ∃ q, alone_next rd (lone ρ h m w now) q ∧ p' = beside ths q.
Proof.
  intros Hq (th & th' & w' & Hi & Hc & _ & Hs & ->)%pool_step_inv. simpl in *.
  apply lookup_app_Some in Hi as [Hi|[Hle Hi]].
  - destruct (Forall_lookup_1 _ _ _ _ Hq Hi) as [Hf _]. unfold thread_step in Hs.
    by destruct (th_prog th).
  - apply list_lookup_singleton_Some in Hi as [Hi <-].
    assert (i = length ths) as -> by lia.
    eexists. split; [unfold alone_next, pool_step; simpl; rewrite decide_True, Hs; [reflexivity|]|].
    + split; [done|]. apply quiet_may_go. constructor.
    + unfold beside. simpl. f_equal. by rewrite insert_last.
Qed.

Lemma step_quiet ths ρ rd h m w now q :
  quiet ths → alone_next rd (lone ρ h m w now) q →
  pool_next_at rd (beside ths (lone ρ h m w now)) (beside ths q).
Proof.
  intros Hq (th & th' & w' & Hi & Hc & _ & Hs & ->)%pool_step_inv. simpl in *.
  injection Hi as <-. exists (length ths). unfold pool_step. simpl.
  rewrite list_lookup_middle by done. rewrite delete_last, decide_True, Hs; [|split; [done|by apply quiet_may_go]].
  unfold beside. simpl. do 2 f_equal. by rewrite insert_last.
Qed.

Lemma lone_return ρ rd h a w now q : ¬ alone_next rd (lone ρ h (Return a) w now) q.
Proof. unfold alone_next, pool_step. simpl. by case_decide. Qed.

Lemma alone_shape ρ rd h m w now q :
  alone_next rd (lone ρ h m w now) q → ∃ h' m' w' now', q = lone ρ h' m' w' now'.
Proof.
  intros (th & [ρ' h' m'] & w' & Hi & _ & _ & Hs & ->)%pool_step_inv. injection Hi as <-.
  apply thread_step_rest in Hs as [_ Hρ]. simpl in Hρ. subst ρ'. by exists h', m', w', (at_packet rd).
Qed.

Lemma quiet_lift ths ρ rd h m w now q :
  quiet ths → rtc (alone_next rd) (lone ρ h m w now) q →
  rtc (pool_next_at rd) (beside ths (lone ρ h m w now)) (beside ths q).
Proof.
  intros Hq Hs. remember (lone ρ h m w now) as p eqn:Hp. revert h m w now Hp.
  induction Hs as [p|p p1 p2 Hs _ IH]; intros h m w now ->; [done|].
  destruct (alone_shape _ _ _ _ _ _ _ Hs) as (h' & m' & w' & now' & ->).
  eapply rtc_l; [by apply step_quiet|by eapply IH].
Qed.

(** Whichever threads take steps, beside quiet threads a program ends with its run. *)
Lemma quiet_run ths ρ rd m w now v p :
  quiet ths → w_held w = [] → timed rd m → now ≤ at_packet rd → run m w = Done ((), v) →
  rtc (pool_next_at rd) (beside ths (lone ρ [] m w now)) p → (∀ p', ¬ pool_next_at rd p p') →
  ∃ n, p = beside ths (lone ρ (w_held v) (Return ()) (with_held v []) n).
Proof.
  intros Hq Hw Hm Hnow Hr Hsteps Hend.
  assert (∃ q, p = beside ths q ∧ rtc (alone_next rd) (lone ρ [] m w now) q) as (q & -> & Halone).
  { clear Hend Hr. remember (beside ths _) as p0 eqn:Hp0.
    assert (∃ m1 h1 w1 n1, p0 = beside ths (lone ρ h1 m1 w1 n1) ∧
      rtc (alone_next rd) (lone ρ [] m w now) (lone ρ h1 m1 w1 n1)) as Hstart.
    { exists m, [], w, now. by split. }
    clear Hp0. induction Hsteps as [p0|p0 p1 p2 [i Hs] _ IH].
    - destruct Hstart as (m1 & h1 & w1 & n1 & -> & ?). by eexists.
    - apply IH. destruct Hstart as (m1 & h1 & w1 & n1 & -> & Hrtc).
      apply quiet_step in Hs as (q & Hq1 & ->); [|done].
      assert (rtc (alone_next rd) (lone ρ [] m w now) q) as Hrtc' by by eapply rtc_r.
      destruct (alone_run _ _ _ _ _ _ _ Hm Hnow Hrtc') as (m2 & h2 & w2 & n2 & -> & _).
      by exists m2, h2, w2, n2. }
  destruct (alone_run _ _ _ _ _ _ _ Hm Hnow Halone) as (m1 & h1 & w1 & n1 & -> & Hm1 & Hn1 & Hrun).
  assert (with_held w [] = w) as E by (rewrite <- Hw; apply with_held_id). rewrite E, Hr in Hrun.
  destruct m1 as [[]|B op k].
  - injection Hrun as Hv. exists n1. rewrite <- Hv. simpl. rewrite with_held_twice.
    assert (w_held w1 = []) as Hw1; [|by rewrite <- Hw1, with_held_id].
    clear -Halone Hw. remember (lone ρ [] m w now) as p0 eqn:Hp0.
    remember (lone ρ h1 (Return ()) w1 n1) as p1 eqn:Hp1.
    assert (w_held (p_world p0) = []) as Hh by by subst.
    assert (w_held (p_world p1) = []) as Hh'; [|by subst]. clear Hp0 Hp1.
    induction Halone as [|p0 p1 p2 Hs _ IH]; [done|]. apply IH.
    apply pool_step_inv in Hs as (th & th' & w' & _ & _ & _ & Hs & ->). by eapply thread_step_clears.
  - exfalso. destruct Hm1 as [Hop _]. pose proof (alone_step ρ rd op k h1 w1 n1 Hop Hn1) as Hs.
    change (match op_run op (with_held w1 h1) with
            | Done (b, v) => run (k b) v | Panicked => Panicked | Stuck => Stuck end
            = Done ((), v)) in Hrun.
    destruct (op_run op _) as [[b v']| |]; [|done..].
    by eapply Hend, step_quiet, Hs.
Qed.
End alone.
(** ** Deadlock freedom *)

(** The order in which the code nests its locks. The client table is outside of it:
    the event loop holds it for reading while it takes the locks of a client, and a
    worker reads it while it holds some of them. *)
Definition lock_rank (l : lock) : nat :=
  match l with
  | LStorage => 0
  | LReceivers _ | LRuntime _ => 1
  | LSenderAddr _ => 2
  | LMedia _ | LSrtp _ | LJitterStats _ => 3
  end.

Definition above (h : list (lock * mode)) (l : lock) : Prop :=
  ∀ l', l' ∈ h.*1 → (lock_rank l' < lock_rank l)%nat.

(** The lock discipline. Only the event loop writes the table, and takes it before
    any other lock; while a worker reads it, or the event loop writes it, they take
    no other lock; otherwise locks are taken by increasing rank, except that the
    event loop may wait for a lock it has for writing itself when it handles the
    message of a new sender. *)
Definition may_acquire (ρ : Role) (h : list (lock * mode)) (l : lock) (m : mode) : Prop :=
  match ρ, l with
  | MainThread _, LStorage => h = []
  | MainThread takes, _ => ((LStorage, Write) ∉ h) ∧ (above h l ∨ takes = true ∧ (l, Write) ∈ h)
  | Worker _ _, LStorage => m = Read ∧ LStorage ∉ h.*1
  | Worker _ _, _ => (LStorage ∉ h.*1) ∧ above h l
  end.

Lemma may_acquire_above ρ h l m :
  may_acquire ρ h l m → l ≠ LStorage → above h l ∨ ρ = MainThread true ∧ (l, Write) ∈ h.
Proof. unfold may_acquire. destruct ρ, l; naive_solver. Qed.

Lemma may_acquire_fresh ρ h l m :
  may_acquire ρ h l m → l ∈ h.*1 → ρ = MainThread true ∧ (l, Write) ∈ h.
Proof.
  intros Hmay Hl. destruct (decide (l = LStorage)) as [->|Hne].
  - exfalso. destruct ρ; simpl in Hmay; [subst h; set_solver|by destruct Hmay].
  - destruct (may_acquire_above _ _ _ _ Hmay Hne) as [Habove|?]; [|done].
    specialize (Habove _ Hl). lia.
Qed.

Section progress.
Context {P : Platform} {PL : PlatformLaws P}.

Definition disciplined (th : Thread) : Prop :=
  (∀ l m, request (th_prog th) = Some (l, m) → may_acquire (th_role th) (th_held th) l m) ∧
  (finished (th_prog th) = true → th_held th = []).

(** The event loop waits for a lock it holds itself. *)
Definition self_waiting (th : Thread) : Prop :=
  th_role th = MainThread true ∧
  match request (th_prog th) with Some (l, _) => (l, Write) ∈ th_held th | None => False end.

#[export] Instance self_waiting_dec th : Decision (self_waiting th).
Proof.
  unfold self_waiting. destruct (request (th_prog th)) as [[l m]|]; apply _.
Defined.

Definition is_main (th : Thread) : bool :=
  match th_role th with MainThread _ => true | Worker _ _ => false end.

(** One event loop. *)
Definition one_main (ts : list Thread) : Prop :=
  ∀ i j th th', ts !! i = Some th → ts !! j = Some th' →
    is_main th = true → is_main th' = true →
    finished (th_prog th) = false → finished (th_prog th') = false → i = j.

(** A thread whose next operation is possible, but for a panic. *)
Definition unblocked (i : nat) (ts : list Thread) (th : Thread) : Prop :=
  finished (th_prog th) = false ∧ may_go (delete i ts) th ∧
  match request (th_prog th) with
  | Some (l, Read) => can_read (th_held th) l = true
  | Some (l, Write) => can_write (th_held th) l = true
  | None => True
  end.

Lemma elem_of_other {A} (i : nat) (l : list A) x :
  x ∈ delete i l → ∃ j, j ≠ i ∧ l !! j = Some x.
Proof.
  rewrite list_elem_of_lookup. intros [j Hj]. destruct (decide (j < i)%nat).
  - rewrite list_lookup_delete_lt in Hj by done. exists j. split; [lia|done].
  - rewrite list_lookup_delete_ge in Hj by lia. exists (S j). split; [lia|done].
Qed.

(** What keeps a thread from going on: a lock of its own, a guard of another
    thread, or a writer that waits. *)
Lemma blocked_by i ts th l m :
  ts !! i = Some th → disciplined th → ¬ self_waiting th →
  request (th_prog th) = Some (l, m) → ¬ unblocked i ts th →
  ∃ j th', j ≠ i ∧ ts !! j = Some th' ∧
    ((l, Write) ∈ th_held th' ∨
     m = Write ∧ l ∈ (th_held th').*1 ∨
     m = Read ∧ request (th_prog th') = Some (l, Write)).
Proof.
  intros Hi [Hd _] Hself Hreq Hb.
  assert (l ∉ (th_held th).*1) as Hfree.
  { intros Hl. destruct (may_acquire_fresh _ _ _ _ (Hd _ _ Hreq) Hl).
    apply Hself. split; [done|by rewrite Hreq]. }
  assert (finished (th_prog th) = false) as Hf by by destruct (th_prog th).
  unfold unblocked, may_go in Hb. rewrite Hreq in Hb.
  set (guards := delete i ts ≫= th_held) in Hb.
  set (waiting := omap (λ th, request (th_prog th)) (delete i ts)) in Hb.
  assert (admits guards waiting l m ≠ true) as Hg.
  { intros Hg. apply Hb. split; [done|]. split; [done|].
    destruct m; [by apply read_free|by apply write_free]. }
  destruct m.
  - destruct (decide ((l, Write) ∈ guards)) as [(th' & Hl & (j & Hj & Hth')%elem_of_other)%list_elem_of_bind|Hg1].
    { exists j, th'. by eauto. }
    destruct (decide ((l, Write) ∈ waiting)) as [(th' & (j & Hj & Hth')%elem_of_other & Hr)%list_elem_of_omap|Hg2].
    { exists j, th'. by eauto 6. }
    by destruct Hg; apply admits_read.
  - destruct (decide (l ∈ guards.*1)) as [([l' m'] & -> & Hl)%list_elem_of_fmap|Hg1].
    + apply list_elem_of_bind in Hl as (th' & Hl & (j & Hj & Hth')%elem_of_other).
      exists j, th'. apply (list_elem_of_fmap_2 fst) in Hl. by eauto 6.
    + by destruct Hg; apply admits_write.
Qed.

Section stuck.
Context (ts : list Thread).
Hypothesis Hdisc : Forall disciplined ts.
Hypothesis Hmain : one_main ts.
Hypothesis Hself : ∀ th, th ∈ ts → ¬ self_waiting th.
Hypothesis Hstuck : ∀ i th, ts !! i = Some th → ¬ unblocked i ts th.

Lemma stuck_disciplined i th : ts !! i = Some th → disciplined th.
Proof. intros Hi. by apply (Forall_lookup_1 _ _ _ _ Hdisc Hi). Qed.

Lemma stuck_requests i th :
  ts !! i = Some th → finished (th_prog th) = false →
  ∃ l m, request (th_prog th) = Some (l, m) ∧ may_acquire (th_role th) (th_held th) l m.
Proof.
  intros Hi Hf. destruct (request (th_prog th)) as [[l m]|] eqn:Hr.
  - exists l, m. split; [done|]. by apply (stuck_disciplined i th Hi).
  - destruct (Hstuck i th Hi). split; [done|]. unfold may_go. by rewrite Hr.
Qed.

(** A thread that holds a lock waits for another one. *)
Lemma holder_requests i th l :
  ts !! i = Some th → l ∈ (th_held th).*1 →
  ∃ l' m', request (th_prog th) = Some (l', m') ∧ may_acquire (th_role th) (th_held th) l' m'.
Proof.
  intros Hi Hl. apply (stuck_requests i th Hi). destruct (finished (th_prog th)) eqn:Hf; [|done].
  destruct (stuck_disciplined i th Hi) as [_ H]. rewrite (H Hf) in Hl. set_solver.
Qed.

Lemma held_mode (th : Thread) l m : (l, m) ∈ th_held th → l ∈ (th_held th).*1.
Proof. intros H. by apply (list_elem_of_fmap_2 fst) in H. Qed.

Lemma blocked_thread i th l m :
  ts !! i = Some th → request (th_prog th) = Some (l, m) →
  ∃ j th', j ≠ i ∧ ts !! j = Some th' ∧
    ((l, Write) ∈ th_held th' ∨ m = Write ∧ l ∈ (th_held th').*1 ∨
     m = Read ∧ request (th_prog th') = Some (l, Write)).
Proof.
  intros Hi Hr. eapply blocked_by; [done|by eapply stuck_disciplined| |done|by apply Hstuck].
  apply Hself. by eapply list_elem_of_lookup_2.
Qed.

(** Nobody holds the table for writing, and no worker holds it. *)
Lemma table_holder i th m :
  ts !! i = Some th → (LStorage, m) ∈ th_held th → is_main th = true ∧ m = Read.
Proof.
  intros Hi Hl. pose proof (held_mode _ _ _ Hl) as Hin.
  destruct (holder_requests i th _ Hi Hin) as (l' & m' & _ & Hmay).
  unfold may_acquire in Hmay. unfold is_main. destruct (th_role th) eqn:Hr.
  - split; [done|]. destruct m; [done|]. destruct l'; try (by destruct Hmay).
    rewrite Hmay in Hin. set_solver.
  - destruct l'; by destruct Hmay.
Qed.

Lemma request_unfinished {A} (p : M A) q : request p = Some q → finished p = false.
Proof. by destruct p. Qed.

Lemma table_requested i th m : ts !! i = Some th → request (th_prog th) ≠ Some (LStorage, m).
Proof.
  assert (∀ j th', ts !! j = Some th' → request (th_prog th') = Some (LStorage, Write) →
            is_main th' = true) as Hwriter.
  { intros j th' Hj Hr. destruct (stuck_disciplined j th' Hj) as [Hd _].
    specialize (Hd _ _ Hr). unfold is_main. destruct (th_role th'); [done|]. by destruct Hd. }
  assert (∀ j th', ts !! j = Some th' → request (th_prog th') ≠ Some (LStorage, Write)) as Hw.
  { intros j th' Hj Hr. pose proof (Hwriter _ _ Hj Hr) as Hrole.
    destruct (blocked_thread _ _ _ _ Hj Hr) as (k & th2 & Hne & Hk & [Hh|[[_ Hh]|[? _]]]); [..|done].
    - by destruct (table_holder _ _ _ Hk Hh).
    - apply list_elem_of_fmap in Hh as ([l m'] & Heq & Hh). simpl in Heq. subst l.
      destruct (table_holder _ _ _ Hk Hh) as [Hrole2 _].
      destruct (holder_requests _ _ _ Hk (held_mode _ _ _ Hh)) as (l2 & m2 & Hr2 & _).
      apply Hne, (Hmain _ _ _ _ Hk Hj); eauto using request_unfinished. }
  intros Hi Hr. destruct m; [|by apply (Hw _ _ Hi)].
  destruct (blocked_thread _ _ _ _ Hi Hr) as (j & th' & _ & Hj & [Hh|[[? _]|[_ Hr']]]); [|done|].
  - by destruct (table_holder _ _ _ Hj Hh).
  - by apply (Hw _ _ Hj).
Qed.

(** No lock of a client is waited for: its holder would wait for a higher one. *)
Lemma rank_requested n i th l m :
  ts !! i = Some th → request (th_prog th) = Some (l, m) → (3 < n + lock_rank l)%nat → False.
Proof.
  revert i th l m. induction n as [|n IH]; intros i th l m Hi Hr Hn.
  { destruct l; simpl in Hn; lia. }
  assert (∀ j th', ts !! j = Some th' → l ∈ (th_held th').*1 → False) as Hholder.
  { intros j th' Hj Hl. destruct (holder_requests _ _ _ Hj Hl) as (l' & m' & Hr' & Hmay).
    pose proof (table_requested _ _ m' Hj) as Hnot.
    apply (IH j th' l' m' Hj Hr').
    destruct (may_acquire_above _ _ _ _ Hmay) as [Habove|[Hrole Hwr]];
      [by intros ->|specialize (Habove _ Hl); lia|].
    exfalso. apply (Hself th'); [by eapply list_elem_of_lookup_2|]. split; [done|by rewrite Hr']. }
  assert (∀ j th', ts !! j = Some th' → (l, Write) ∈ th_held th' → False) as Hholder'.
  { intros j th' Hj Hl. apply (Hholder j th' Hj). by eapply held_mode. }
  destruct (blocked_thread _ _ _ _ Hi Hr) as (j & th' & _ & Hj & [Hh|[[_ Hh]|[_ Hr']]]);
    [by eapply Hholder'|by eapply Hholder|].
  destruct (blocked_thread _ _ _ _ Hj Hr') as (k & th2 & _ & Hk & [Hh|[[_ Hh]|[? _]]]);
    [by eapply Hholder'|by eapply Hholder|done].
Qed.

Lemma stuck_finished i th : ts !! i = Some th → finished (th_prog th) = true.
Proof.
  intros Hi. destruct (finished (th_prog th)) eqn:Hf; [done|].
  destruct (stuck_requests i th Hi Hf) as (l & m & Hr & _). exfalso.
  by apply (rank_requested 4 i th l m Hi Hr); lia.
Qed.
End stuck.

#[export] Instance unblocked_dec i ts th : Decision (unblocked i ts th).
Proof. unfold unblocked. destruct (request (th_prog th)) as [[l []]|]; apply _. Defined.

(** Deadlock freedom: unless the event loop waits for its own lock, some thread can
    go on as long as one is not finished. *)
Lemma deadlock_free ts i th :
  Forall disciplined ts → one_main ts → ts !! i = Some th → finished (th_prog th) = false →
  (∃ j th', ts !! j = Some th' ∧ unblocked j ts th') ∨
  Exists self_waiting ts.
Proof.
  intros Hdisc Hmain Hi Hf. destruct (decide (Exists self_waiting ts)) as [|Hself]; [by right|].
  destruct (decide (Exists (λ p, unblocked p.1 ts p.2) (imap pair ts))) as [Hun|Hun].
  - left. apply Exists_exists in Hun as ([j th'] & Hin & Hun).
    apply elem_of_lookup_imap in Hin as (j' & th2 & [= <- <-] & Hj). by exists j, th'.
  - exfalso. rewrite (stuck_finished ts Hdisc Hmain) with (i := i) in Hf; [done| | |done].
    + intros th' Hin Hs. apply Hself, Exists_exists. by exists th'.
    + intros j th' Hj Hn. apply Hun, Exists_exists. exists (j, th'). split; [|done].
      apply elem_of_lookup_imap_2 with (f := pair) in Hj. done.
Qed.
End progress.
