(* ===== verification/Rely.v ===== *)
(** * Programs among other threads

    A judgement for programs whose operations interleave with those of other
    threads. A protocol says what all threads may rely on: an invariant of the shared
    state, indexed by facts that only grow (who owns a client, who joined a group, how
    late it is), some of which ([given]) only the environment adds. [wp ρ m h g Q]: when the thread of role [ρ] holds the guards [h] and
    the facts [g] are known, every operation of [m] keeps the protocol, respects the
    lock discipline, sends only what is allowed, and does not panic, whatever the other
    threads do in between; and [Q] holds when it returns. *)

From S2P Require Import Prelude Net Srtp ByteOrder RtpCore StunParse Demux Jitter.
From S2P Require Import Media Stream Group Clients Store Threads.
Local Open Scope Z_scope.

Class Protocol {P : Platform} := {
  facts : Type;
  grow : facts → facts → Prop;
  time : facts → Instant;
  known : Type;
  given : facts → known;
  shared : facts → World → Prop;
  allowed : facts → Role → Effect → Prop;
}.

Class ProtocolLaws {P : Platform} (R : Protocol) : Prop := {
  grow_preorder :: PreOrder grow;
  grow_tick g t : time g ≤ t →
    ∃ g', grow g g' ∧ time g' = t ∧ given g' = given g ∧ ∀ w, shared g w → shared g' w;
  shared_frame g w w' :
    w_clients w' = w_clients w → w_storage w' = w_storage w → w_groups w' = w_groups w →
    shared g w → shared g w';
}.

Section wp.
Context {P : Platform} {R : Protocol}.

(** Every write of a client's field happens under the field's lock; the session of a
    client belongs to its DTLS tasks. *)
Record guarded_write (h : list (lock * mode)) (r : ClientRef) (c c' : Client) : Prop := {
  gw_session : c_state c' = c_state c ∧ c_channels c' = c_channels c;
  gw_media : c_media c' = c_media c ∨ (LMedia r, Write) ∈ h;
  gw_srtp : c_srtp c' = c_srtp c ∨ (LSrtp r, Write) ∈ h;
  gw_runtime : c_runtime c' = c_runtime c ∨ (LRuntime r, Write) ∈ h;
  gw_jitter : c_jitter c' = c_jitter c ∨ (LJitterStats r, Write) ∈ h;
  gw_receivers : c_receivers c' = c_receivers c ∨ (LReceivers r, Write) ∈ h;
  gw_sender : c_sender_addr c' = c_sender_addr c ∨ (LSenderAddr r, Write) ∈ h;
}.

Definition op_ok (ρ : Role) (h : list (lock * mode)) (g : facts) {B} (op : Op B) : Prop :=
  match op with
  | OAcquire l m => may_acquire ρ h l m
  | OSend e => allowed g ρ e
  | OUpdate r f => ∀ c, guarded_write h r c (f c)
  | OPutStorage _ => (LStorage, Write) ∈ h
  | _ => True
  end.

Fixpoint wp {A} (ρ : Role) (m : M A) (h : list (lock * mode)) (g : facts)
    (Q : A → list (lock * mode) → facts → Prop) : Prop :=
  match m with
  | Return a => ∀ g', grow g g' → Q a h g'
  | Perform op k =>
      ∀ g' w, grow g g' → shared g' w →
        op_ok ρ h g' op ∧
        ∀ rd, at_packet rd = time g' →
          match op_run (clock_op rd op) (with_held w h) with
          | Done (b, w') =>
              ∃ g2, grow g' g2 ∧ time g2 = time g' ∧ given g2 = given g' ∧ shared g2 (with_held w' []) ∧
                wp ρ (k b) (w_held w') g2 Q
          | Panicked => False
          | Stuck => is_Some (request (Perform op k))
          end
  end.
End wp.

Section rules.
Context {P : Platform} {PL : PlatformLaws P} {R : Protocol} {RL : ProtocolLaws R}.
Implicit Types (h : list (lock * mode)) (g : facts).

Lemma wp_le {A} ρ (m : M A) h g g' Q : wp ρ m h g Q → grow g g' → wp ρ m h g' Q.
Proof.
  destruct m as [a|B op k]; simpl; intros H Hg.
  - intros g2 Hg2. apply H. by etrans.
  - intros g2 w Hg2. apply H. by etrans.
Qed.

Lemma wp_mono {A} ρ (m : M A) h g (Q Q' : A → list (lock * mode) → facts → Prop) :
  wp ρ m h g Q → (∀ a h' g', grow g g' → Q a h' g' → Q' a h' g') → wp ρ m h g Q'.
Proof.
  revert h g. induction m as [a|B op k IH]; simpl; intros h g H HQ; [by auto|].
  intros g' w Hg Hw. destruct (H g' w Hg Hw) as [Hop Hrun]. split; [done|]. intros rd Hrd.
  specialize (Hrun rd Hrd). destruct (op_run _ _) as [[b w']| |]; [|done..].
  destruct Hrun as (g2 & Hg2 & Ht & Hn & Hw' & Hk). exists g2. do 4 (split; [done|]).
  apply (IH b); [done|]. intros a h' g3 Hg3. apply HQ. by do 2 (etrans; [done|]).
Qed.

Lemma wp_bind {A B} ρ (m : M A) (f : A → M B) h g Q :
  wp ρ m h g (λ a h' g', wp ρ (f a) h' g' Q) → wp ρ (m ≫= f) h g Q.
Proof.
  revert h g. induction m as [a|C op k IH]; simpl; intros h g H; [by apply H|].
  intros g' w Hg Hw. destruct (H g' w Hg Hw) as [Hop Hrun]. split; [done|]. intros rd Hrd.
  specialize (Hrun rd Hrd). destruct (op_run _ _) as [[b w']| |]; [|done..].
  destruct Hrun as (g2 & Hg2 & Ht & Hn & Hw' & Hk). exists g2. do 4 (split; [done|]). by apply IH.
Qed.

Lemma wp_ret {A} ρ (a : A) h g (Q : A → list (lock * mode) → facts → Prop) :
  (∀ g', grow g g' → Q a h g') → wp ρ (mret a) h g Q.
Proof. done. Qed.

Lemma wp_lift {A} ρ (o : outcome A) a h g (Q : A → list (lock * mode) → facts → Prop) :
  o = Done a → (∀ g', grow g g' → Q a h g') → wp ρ (lift o) h g Q.
Proof. by intros ->. Qed.

(** One operation. *)
Lemma wp_perform {B} ρ (op : Op B) h g (Q : B → list (lock * mode) → facts → Prop) :
  (∀ g' w, grow g g' → shared g' w →
     op_ok ρ h g' op ∧
     ∀ rd, at_packet rd = time g' →
       match op_run (clock_op rd op) (with_held w h) with
       | Done (b, w') =>
           ∃ g2, grow g' g2 ∧ time g2 = time g' ∧ given g2 = given g' ∧ shared g2 (with_held w' []) ∧
             ∀ g3, grow g2 g3 → Q b (w_held w') g3
       | Panicked => False
       | Stuck => is_Some (request (Perform op Return))
       end) → wp ρ (perform op) h g Q.
Proof. Transparent perform. done. Qed.
#[local] Opaque perform.

(** One operation that leaves the table, the groups and the clients alone. *)
Lemma wp_frame {B} ρ (op : Op B) h g (Q : B → list (lock * mode) → facts → Prop) :
  (∀ g', grow g g' → op_ok ρ h g' op) →
  (∀ g' w rd, grow g g' → shared g' w → at_packet rd = time g' →
     match op_run (clock_op rd op) (with_held w h) with
     | Done (b, w') =>
         w_clients w' = w_clients w ∧ w_storage w' = w_storage w ∧
         w_groups w' = w_groups w ∧ ∀ g2, grow g' g2 → Q b (w_held w') g2
     | Panicked => False
     | Stuck => is_Some (request (Perform op Return))
     end) → wp ρ (perform op) h g Q.
Proof.
  intros Hop Hrun. apply wp_perform. intros g' w Hg Hw. split; [by apply Hop|]. intros rd Hrd.
  specialize (Hrun g' w rd Hg Hw Hrd). destruct (op_run _ _) as [[b w']| |]; [|done..].
  destruct Hrun as (Hc & Hs & Hgr & HQ). exists g'. do 3 (split; [done|]).
  split; [by apply (shared_frame g' w)|done].
Qed.

Lemma wp_send ρ e h g (Q : () → list (lock * mode) → facts → Prop) :
  (∀ g', grow g g' → allowed g' ρ e) → (∀ g', grow g g' → Q () h g') → wp ρ (send e) h g Q.
Proof.
  intros He HQ. apply wp_frame; [done|]. intros g' w rd Hg Hw _. simpl.
  do 3 (split; [done|]). intros g2 Hg2. apply HQ. by etrans.
Qed.

(** The clock shows the time of some moment between the last operation and now. *)
Lemma wp_clock ρ rd h g (Q : Readings → list (lock * mode) → facts → Prop) :
  (∀ g1 g2 rd', grow g g1 → at_packet rd' = time g1 → grow g1 g2 → Q rd' h g2) →
  wp ρ (clock rd) h g Q.
Proof.
  intros HQ. apply wp_frame; [done|]. intros g' w rd' Hg Hw Hrd. simpl.
  do 3 (split; [done|]). intros g2 Hg2. by eapply HQ.
Qed.

(** A critical section. *)
Lemma wp_guarded {A} ρ l m (body : M A) h g (Q : A → list (lock * mode) → facts → Prop) :
  may_acquire ρ h l m →
  wp ρ body ((l, m) :: h) g
    (λ a h' g', h' = (l, m) :: h ∧ ∀ g2, grow g' g2 → Q a h g2) →
  wp ρ (guarded l m body) h g Q.
Proof.
  intros Hmay Hbody. unfold guarded. apply wp_bind, wp_frame; [done|].
  intros g' w rd Hg Hw _. simpl.
  destruct (match m with Read => _ | Write => _ end); [|by eexists].
  do 3 (split; [done|]). intros g2 Hg2. simpl. apply wp_bind.
  eapply wp_mono; [eapply wp_le; [exact Hbody|by etrans]|].
  intros a h' g3 _ [-> HQ]. apply wp_bind, wp_frame; [done|].
  intros g4 w4 rd4 Hg4 Hw4 _. simpl. do 3 (split; [done|]). intros g5 Hg5.
  intros g6 Hg6. apply HQ. by do 2 (etrans; [done|]).
Qed.

(** A lock that the event loop holds for writing is never granted to it again. *)
Lemma wp_blocked {A} ρ l m (body : M A) h g Q :
  may_acquire ρ h l m → (l, Write) ∈ h → wp ρ (guarded l m body) h g Q.
Proof.
  intros Hmay Hl. unfold guarded. apply wp_bind, wp_frame; [done|].
  intros g' w rd Hg Hw _. simpl.
  assert ((match m with Read => can_read h l | Write => can_write h l end) = false) as ->;
    [|by eexists].
  destruct m; [by apply read_blocked|]. apply write_blocked.
  by apply (list_elem_of_fmap_2 fst) in Hl.
Qed.

Lemma wp_for_each {A} ρ (l : list A) (f : A → M ()) h g
    (Q : () → list (lock * mode) → facts → Prop) :
  (∀ a g', a ∈ l → grow g g' → wp ρ (f a) h g' (λ _ h' _, h' = h)) →
  (∀ g', grow g g' → Q () h g') → wp ρ (for_each l f) h g Q.
Proof.
  revert g. induction l as [|a l IH]; intros g Hf HQ; simpl; [by apply wp_ret|].
  apply wp_bind. eapply wp_mono; [apply Hf; [apply list_elem_of_here|done]|].
  intros [] h' g' Hg ->. apply IH.
  - intros b g2 Hb Hg2. apply Hf; [by right|by etrans].
  - intros g2 Hg2. apply HQ. by etrans.
Qed.
End rules.

#[global] Arguments wp : simpl never.

(** The write of a field, by setters that leave the others alone. *)
Ltac write_ok :=
  let c := fresh in intros c; split; [done|..]; simpl;
  first [by left | right; set_solver].

(** ** Adequacy *)

Section adequacy.
Context {P : Platform} {PL : PlatformLaws P} {R : Protocol} {RL : ProtocolLaws R}.

Definition thread_ok (g : facts) (th : Thread) : Prop :=
  wp (th_role th) (th_prog th) (th_held th) g (λ _ h _, h = []).

(** The facts of a pool: they are true now, and every thread keeps them. *)
Record pool_ok (g : facts) (p : Pool) : Prop := {
  po_clock : time g = p_clock p;
  po_shared : shared g (p_world p);
  po_threads : Forall (thread_ok g) (p_threads p);
}.

Lemma thread_ok_le g g' th : grow g g' → thread_ok g th → thread_ok g' th.
Proof. intros Hg Hth. by eapply wp_le. Qed.

Lemma thread_ok_step g rd th w :
  thread_ok g th → shared g w → at_packet rd = time g →
  match thread_step rd th w with
  | Done (th', w') => ∃ g', grow g g' ∧ time g' = time g ∧ given g' = given g ∧ shared g' w' ∧ thread_ok g' th'
  | Panicked => False
  | Stuck => finished (th_prog th) = true ∨ is_Some (request (th_prog th))
  end.
Proof.
  unfold thread_ok, thread_step. destruct (th_prog th) as [a|B op k]; [by left|].
  intros Hth Hw Hrd. destruct (Hth g w) as [_ Hrun]; [done|done|]. specialize (Hrun rd Hrd).
  destruct (op_run _ _) as [[b w']| |]; simpl; [by destruct Hrun as (g2 & ?); exists g2|done|].
  by right.
Qed.

Lemma pool_ok_step g i rd p :
  pool_ok g p → match pool_step i rd p with
                | Done p' => ∃ g', grow g g' ∧ given g' = given g ∧ pool_ok g' p'
                | Panicked => False
                | Stuck => True
                end.
Proof.
  intros [Hclock Hw Hths]. unfold pool_step. destruct (p_threads p !! i) as [th|] eqn:Hi; [|done].
  case_decide as Hd; [|done]. destruct Hd as [Hnow _].
  destruct (grow_tick g (at_packet rd)) as (g1 & Hg1 & Ht1 & Hn1 & Hsh1); [by rewrite Hclock|].
  pose proof (Forall_lookup_1 _ _ _ _ Hths Hi) as Hth.
  pose proof (thread_ok_step g1 rd th (p_world p) (thread_ok_le _ _ _ Hg1 Hth) (Hsh1 _ Hw)
                (eq_sym Ht1)) as Hs.
  destruct (thread_step rd th (p_world p)) as [[th' w']| |]; [|done..].
  destruct Hs as (g2 & Hg2 & Ht2 & Hn2 & Hw' & Hth'). exists g2. split; [by etrans|].
  split; [congruence|].
  split; simpl; [by rewrite Ht2|done|]. apply Forall_insert; [|done].
  eapply Forall_impl; [exact Hths|]. intros th2. apply thread_ok_le. by etrans.
Qed.

Lemma thread_ok_disciplined g w th : shared g w → thread_ok g th → disciplined th.
Proof.
  unfold thread_ok, disciplined. destruct (th_prog th) as [a|B op k]; intros Hw Hth.
  - split; [done|]. intros _. by apply (Hth g).
  - destruct (Hth g w) as [Hop _]; [done|done|]. split; [|done].
    intros l m Hr. destruct op; simplify_eq/=; done.
Qed.

(** A thread that is about to send something may. *)
Lemma thread_ok_sends g w th e (k : () → M ()) :
  shared g w → thread_ok g th → th_prog th = Perform (OSend e) k → allowed g (th_role th) e.
Proof.
  unfold thread_ok. intros Hw Hth Hp. rewrite Hp in Hth. by destruct (Hth g w) as [He _].
Qed.

(** A thread that is not blocked goes on. *)
Lemma unblocked_step g i rd p th :
  pool_ok g p → p_threads p !! i = Some th → unblocked i (p_threads p) th →
  p_clock p ≤ at_packet rd → ∃ p', pool_step i rd p = Done p'.
Proof.
  intros [Hclock Hw Hths] Hi (Hf & Hgo & Hown) Hnow. unfold pool_step.
  rewrite Hi, decide_True by done.
  destruct (grow_tick g (at_packet rd)) as (g1 & Hg1 & Ht1 & Hn1 & Hsh1); [by rewrite Hclock|].
  pose proof (Forall_lookup_1 _ _ _ _ Hths Hi) as Hth.
  pose proof (thread_ok_step g1 rd th (p_world p) (thread_ok_le _ _ _ Hg1 Hth) (Hsh1 _ Hw)
                (eq_sym Ht1)) as Hs.
  destruct (thread_step rd th (p_world p)) as [[th' w']| |] eqn:Hstep; [by eexists|done|].
  exfalso. destruct Hs as [Hs|[[l m] Hr]]; [congruence|]. rewrite Hr in Hown.
  unfold thread_step in Hstep. destruct (th_prog th) as [a|B op k]; [done|].
  destruct op; simplify_eq/=. by destruct m; rewrite Hown in Hstep.
Qed.

(** Some thread goes on, unless all are finished or the event loop waits for
    itself. *)
Lemma pool_progress g p :
  pool_ok g p → one_main (p_threads p) →
  (∃ p', pool_next p p') ∨
  Forall (λ th, finished (th_prog th) = true) (p_threads p) ∨
  Exists self_waiting (p_threads p).
Proof.
  intros Hp Hmain.
  destruct (decide (Forall (λ th, finished (th_prog th) = true) (p_threads p))) as [|Hn];
    [by right; left|].
  apply not_Forall_Exists, Exists_exists in Hn as (th & [i Hi]%list_elem_of_lookup & Hf); [|apply _].
  apply not_true_is_false in Hf.
  destruct (deadlock_free (p_threads p) i th) as [(j & th' & Hj & Hun)|Hself]; try done.
  - eapply Forall_impl; [apply Hp|]. intros th'. by eapply thread_ok_disciplined, Hp.
  - left. destruct (unblocked_step g j {| at_packet := p_clock p; at_check := p_clock p;
      at_update := p_clock p |} p th') as [p' Hp']; [done..|simpl; lia|]. by eexists _, _, _.
  - by right; right.
Qed.
End adequacy.

(** ** What a guard protects *)

Section exclusion.
Context {P : Platform} {PL : PlatformLaws P} {R : Protocol} {RL : ProtocolLaws R}.

Definition same_field {A} (f : Client → A) (r : ClientRef) (w w' : World) : Prop :=
  ∀ c, w_clients w !! r = Some c → ∃ c', w_clients w' !! r = Some c' ∧ f c' = f c.

(** The data of a lock did not change. *)
Definition same_data (l : lock) (w w' : World) : Prop :=
  match l with
  | LStorage => w_storage w' = w_storage w
  | LReceivers r => same_field c_receivers r w w'
  | LSenderAddr r => same_field c_sender_addr r w w'
  | LMedia r => same_field c_media r w w'
  | LSrtp r => same_field c_srtp r w w'
  | LRuntime r => same_field c_runtime r w w'
  | LJitterStats r => same_field c_jitter r w w'
  end.

Lemma same_data_eq l w w' :
  w_clients w' = w_clients w → w_storage w' = w_storage w → same_data l w w'.
Proof. intros Hc Hs. destruct l; simpl; [done|..]; intros c; rewrite Hc; by eauto. Qed.

(** A change of one client that leaves the fields of the locks alone. *)
Lemma same_field_alter {A} (f : Client → A) r r' (u : Client → Client) w w' :
  w_clients w' = alter u r (w_clients w) →
  (∀ c, w_clients w !! r = Some c → r' = r → f (u c) = f c) → same_field f r' w w'.
Proof.
  intros Hw' Hu c Hc. rewrite Hw'. destruct (decide (r' = r)) as [->|].
  - rewrite lookup_alter_eq, Hc. eexists. split; [done|]. by apply Hu.
  - rewrite lookup_alter_ne by done. by exists c.
Qed.

Lemma same_data_update h r u l w w' :
  (∀ c, guarded_write h r c (u c)) → (l, Write) ∉ h →
  w_clients w' = alter u r (w_clients w) → w_storage w' = w_storage w → same_data l w w'.
Proof.
  intros Hgw Hl Hc Hs. destruct l; simpl; [done|..]; eapply same_field_alter; try done;
    intros c _ ->; by destruct (Hgw c) as [? [|] [|] [|] [|] [|] [|]].
Qed.

(** A thread changes only data it holds the lock of. *)
Lemma thread_step_data g rd th w th' w' l :
  thread_ok g th → shared g w → thread_step rd th w = Done (th', w') →
  (l, Write) ∉ th_held th → same_data l w w'.
Proof.
  unfold thread_ok, thread_step. destruct (th_prog th) as [a|B op k]; [done|].
  intros Hth Hw Hs Hl. destruct (Hth g w) as [Hop _]; [done|done|].
  destruct op; cbn -[can_read can_write] in Hs; repeat case_match; simplify_eq/=;
    try by apply same_data_eq.
  - by eapply same_data_update.
  - set (r := fresh _). assert (w_clients w !! r = None) as Hr by apply not_elem_of_dom, is_fresh.
    destruct l; simpl; [done|..]; intros c1 Hc1; exists c1;
      (split; [|done]); simpl; rewrite lookup_insert_ne; congruence.
  - destruct l; [done|..]; intros c1 Hc1; by exists c1.
Qed.

(** No thread changes the session of a client. *)
Lemma thread_step_session g rd th w th' w' r :
  thread_ok g th → shared g w → thread_step rd th w = Done (th', w') →
  same_field c_state r w w'.
Proof.
  unfold thread_ok, thread_step. destruct (th_prog th) as [a|B op k]; [done|].
  intros Hth Hw Hs. destruct (Hth g w) as [Hop _]; [done|done|].
  destruct op; cbn -[can_read can_write] in Hs; repeat case_match; simplify_eq/=;
    try (intros c0 ?; by exists c0).
  - eapply same_field_alter; [reflexivity|]. intros c _ _. by destruct (Hop c) as [[? _] _].
  - intros c0 Hc. exists c0. split; [|done]. simpl. rewrite lookup_insert_ne; [done|].
    intros Hr. assert (w_clients w !! r = None) as Hn; [|congruence].
    rewrite <- Hr. apply not_elem_of_dom, is_fresh.
Qed.

(** Guards of different threads are compatible. *)
Definition exclusive (ts : list Thread) : Prop :=
  ∀ i j th th' l, i ≠ j → ts !! i = Some th → ts !! j = Some th' →
    (l, Write) ∈ th_held th → l ∉ (th_held th').*1.

Lemma thread_step_held rd th w th' w' q :
  thread_step rd th w = Done (th', w') → q ∈ th_held th' →
  q ∈ th_held th ∨ request (th_prog th) = Some q.
Proof.
  unfold thread_step. destruct (th_prog th) as [a|B op k]; [done|]. intros Hs Hq.
  destruct op; cbn -[can_read can_write] in Hs; repeat case_match; simplify_eq/=; auto.
  - apply elem_of_cons in Hq as [->|]; auto.
  - apply elem_of_cons in Hq as [->|]; auto.
  - left. destruct (th_held th); [done|by right].
Qed.

Lemma granted_exclusive others th l m th' :
  request (th_prog th) = Some (l, m) → may_go others th → th' ∈ others →
  ((l, Write) ∉ th_held th') ∧ (m = Write → l ∉ (th_held th').*1).
Proof.
  intros Hr Hgo Hth. unfold may_go in Hgo. rewrite Hr in Hgo.
  set (guards := others ≫= th_held) in Hgo.
  assert (∀ q, q ∈ th_held th' → q ∈ guards) as Hin.
  { intros q Hq. apply list_elem_of_bind. by exists th'. }
  assert (l ∈ (th_held th').*1 → l ∈ guards.*1) as Hin1.
  { intros ([l' m'] & -> & Hq%Hin)%list_elem_of_fmap. by apply (list_elem_of_fmap_2 fst) in Hq. }
  destruct m.
  - apply read_excludes in Hgo. split; [auto|done].
  - apply write_excludes in Hgo. split; [|auto]. intros Hq. apply Hgo, Hin1.
    by apply (list_elem_of_fmap_2 fst) in Hq.
Qed.

Lemma other_elem {A} (i j : nat) (l : list A) x : j ≠ i → l !! j = Some x → x ∈ delete i l.
Proof.
  intros Hne Hj. apply list_elem_of_lookup. destruct (decide (j < i)%nat).
  - exists j. by rewrite list_lookup_delete_lt.
  - exists (j - 1)%nat. rewrite list_lookup_delete_ge by lia.
    by replace (S (j - 1)) with j by lia.
Qed.

Lemma exclusive_step i rd p p' :
  pool_step i rd p = Done p' → exclusive (p_threads p) → exclusive (p_threads p').
Proof.
  intros (th & th1 & w1 & Hi & _ & Hgo & Hs & ->)%pool_step_inv Hex. simpl.
  assert (∀ q, q ∈ th_held th1 → q ∈ th_held th ∨ request (th_prog th) = Some q) as Hheld.
  { intros q. by eapply thread_step_held. }
  assert (∀ j th2 l, j ≠ i → p_threads p !! j = Some th2 → (l, Write) ∈ th_held th1 →
            l ∉ (th_held th2).*1) as Hmine.
  { intros j th2 l Hne Hj [Hq|Hq]%Hheld; [by eapply (Hex i j)|].
    eapply granted_exclusive; [done|done|by eapply other_elem|done]. }
  assert (∀ j th2 l, j ≠ i → p_threads p !! j = Some th2 → (l, Write) ∈ th_held th2 →
            l ∉ (th_held th1).*1) as Hothers.
  { intros j th2 l Hne Hj Hl ([l' m] & -> & [Hq|Hq]%Hheld)%list_elem_of_fmap; simpl in *.
    - eapply (Hex j i); [done..|]. by apply (list_elem_of_fmap_2 fst) in Hq.
    - destruct (granted_exclusive _ _ _ _ th2 Hq Hgo) as [Hn _]; [by eapply other_elem|done]. }
  intros j k tj tk l Hne. rewrite !list_lookup_insert_Some.
  intros [(-> & <- & _)|[? Hj]] [(-> & <- & _)|[? Hk]]; [done|by eapply Hmine|by eapply Hothers|].
  by eapply (Hex j k).
Qed.

(** While a thread holds a lock, the steps of the others leave its data alone. *)
Lemma guard_protects g i j rd p p' th l :
  pool_ok g p → exclusive (p_threads p) → pool_step i rd p = Done p' → j ≠ i →
  p_threads p !! j = Some th → l ∈ (th_held th).*1 → same_data l (p_world p) (p_world p').
Proof.
  intros [_ Hw Hths] Hex (th1 & th1' & w1 & Hi & _ & _ & Hs & ->)%pool_step_inv Hne Hj Hl.
  eapply thread_step_data; [by eapply (Forall_lookup_1 _ _ _ _ Hths Hi)|done|done|].
  intros Hin. by apply (Hex i j th1 th l).
Qed.
End exclusion.
