(* ===== verification/ClientActor.v ===== *)
(** * The client actor (src/src/client/actor.rs)

    The actor owns the group table and handles, one message at a time:
    incoming DTLS datagrams, outgoing DTLS records, deletions, group joins and
    media descriptions. The synchronous part of each handler is a computation
    in the monad of the shared store; the asynchronous part of the DTLS handler
    is the task it spawns ([SpawnDtlsTask]). *)

From S2P Require Import Prelude Net Srtp ByteOrder RtpCore StunParse Demux Jitter.
From S2P Require Import Media Stream Group Clients Store Sample.
Local Open Scope Z_scope.

Section client_actor.
Context {P : Platform}.

(** [client_storage.entry(addr).or_default()] *)
Definition entry_or_default_client (now : Instant) (addr : SocketAddr) : M ClientRef :=
  st ← get_storage;
  match st !! addr with
  | Some r => mret r
  | None =>
      r ← alloc (client_default now);
      put_storage (<[addr := r]> st);;
      mret r
  end.

(** [Handler<WebRtcRequest>]: the [Dtls] case up to the spawned task; the other
    cases only log. *)
Definition handle_dtls (now : Instant) (message : DataPacket) (addr : SocketAddr) : M () :=
  client_ref ← guarded LStorage Write (entry_or_default_client now addr);
  c ← client client_ref;
  (if c_dtls_connected c then mret ()
   else send (AddOutgoingStream client_ref addr);; update client_ref make_connected);;
  send (SpawnDtlsTask client_ref message addr).

Definition handle_webrtc (now : Instant) (msg : WebRtcRequest) : M () :=
  match msg with
  | Dtls message addr => handle_dtls now message addr
  | Rtc _ _ => mret ()
  | Stun _ _ => mret ()
  | Unknown => mret ()
  end.

(** [Handler<DtlsMessage>] *)
Definition handle_dtls_message (item : DtlsMessage) : M () :=
  match get_type item with
  | Incoming => mret ()
  | Outgoing => send (UdpSend (into_webrtc item))
  end.

(** The receivers that are not deleted: [filter(|(_, recv)| !recv.is_deleted())],
    which reads an atomic flag and takes no lock. *)
Fixpoint filter_live (l : list (SocketAddr * ClientRef)) : M (list (SocketAddr * ClientRef)) :=
  match l with
  | [] => mret []
  | (a, r) :: l =>
      c ← client r;
      l' ← filter_live l;
      mret (if c_deleted c then l' else (a, r) :: l')
  end.

(** [Handler<DeleteMessage>] *)
Definition handle_delete (addr : SocketAddr) : M bool :=
  removed ← guarded LStorage Write (
    st ← get_storage; put_storage (delete addr st);; mret (st !! addr));
  match removed with
  | None => mret true
  | Some client_ref =>
      g ← get_groups;
      put_groups (remove_sender g addr);;
      update client_ref client_delete;;
      guarded (LReceivers client_ref) Write (
        c ← client client_ref;
        live ← filter_live (map_to_list (c_receivers c));
        update client_ref (set_receivers (list_to_map live)));;
      mret true
  end.

(** The body of the takeover branch, actor.rs:202-212. *)
Definition redirect_receivers (sender_ref : ClientRef) (addr : SocketAddr) : M () :=
  rs ← guarded (LReceivers sender_ref) Read (
    c ← client sender_ref;
    let kept := filter (λ p, p.1 ≠ addr) (map_to_list (c_receivers c)) in
    for_each kept (λ p,
      guarded (LSenderAddr p.2) Write (update p.2 (set_sender_addr (Some addr))));;
    mret (list_to_map kept));
  update sender_ref (set_receivers rs).

(** [Handler<GroupId>] *)
Definition handle_group_id (group_id : Z) (addr : SocketAddr) (is_sender : bool) : M () :=
  g ← get_groups;
  let '(last_sender_addr, g') := insert_or_get_sender g group_id addr is_sender in
  put_groups g';;
  if bool_decide (last_sender_addr = addr) && negb is_sender then mret ()
  else guarded LStorage Read (
    st ← get_storage;
    match st !! addr, st !! last_sender_addr with
    | Some receiver_ref, Some sender_ref =>
        guarded (LReceivers sender_ref) Write (
          if negb (bool_decide (last_sender_addr = addr)) && is_sender then
            redirect_receivers sender_ref addr
          else
            guarded (LSenderAddr receiver_ref) Write (
              update receiver_ref (set_sender_addr (Some last_sender_addr)));;
            c ← client sender_ref;
            update sender_ref (set_receivers (<[addr := receiver_ref]> (c_receivers c))))
    | _, _ => mret ()
    end).

(** [for_each(|f| { storage.entry(f).or_default(); })]; [draw f] is what the
    random generator and the clock give when the entry is created. *)
Definition add_runtimes (draw : Z → Z * Z * Instant) (fs : list Z)
    (m : gmap Z ClientRtpRuntime) : gmap Z ClientRtpRuntime :=
  foldl (λ m f,
    match m !! f with
    | Some _ => m
    | None => let '(ts, seq, now) := draw f in <[f := runtime_default ts seq now]> m
    end) m fs.

(** [Handler<MediaAddrMessage>] *)
Definition handle_media_addr (draw : Z → Z * Z * Instant) (addr : SocketAddr)
    (media : MediaList) : M () :=
  guarded LStorage Read (
    st ← get_storage;
    match st !! addr with
    | None => mret ()
    | Some c_ref =>
        guarded (LRuntime c_ref) Write (
          c ← client c_ref;
          update c_ref (set_runtime (add_runtimes draw (get_frequencies media) (c_runtime c)));;
          guarded (LMedia c_ref) Write (update c_ref (set_media (Some media))))
    end).

(** The actor's mailbox. *)
Inductive ClientMsg :=
| MsgWebRtc (now : Instant) (msg : WebRtcRequest)
| MsgDtls (item : DtlsMessage)
| MsgDelete (addr : SocketAddr)
| MsgGroup (group_id : Z) (addr : SocketAddr) (is_sender : bool)
| MsgMedia (draw : Z → Z * Z * Instant) (addr : SocketAddr) (media : MediaList).

Definition client_step (m : ClientMsg) : M () :=
  match m with
  | MsgWebRtc now msg => handle_webrtc now msg
  | MsgDtls item => handle_dtls_message item
  | MsgDelete addr => handle_delete addr;; mret ()
  | MsgGroup group_id addr is_sender => handle_group_id group_id addr is_sender
  | MsgMedia draw addr media => handle_media_addr draw addr media
  end.

Definition client_run (ms : list ClientMsg) : M () := for_each ms client_step.
End client_actor.

(** ** Deletion *)
Section client_actor_facts.
Context {P : Platform} {PL : PlatformLaws P}.

Definition live (cs : gmap ClientRef Client) (r : ClientRef) : bool :=
  match cs !! r with Some c => negb (c_deleted c) | None => false end.

Lemma live_true cs r :
  live cs r = true ↔ ∃ c, cs !! r = Some c ∧ c_deleted c = false.
Proof.
  unfold live. destruct (cs !! r) as [c|]; [|naive_solver].
  rewrite negb_true_iff. naive_solver.
Qed.

Lemma runs_filter_live l w (Q : list (SocketAddr * ClientRef) → World → Prop) :
  (∀ p, p ∈ l → is_Some (w_clients w !! p.2)) →
  Q (filter (λ p, live (w_clients w) p.2) l) w →
  runs (filter_live l) w Q.
Proof.
  revert Q. induction l as [|[a r] l IH]; intros Q Hl HQ; simpl; [by run_step|].
  run_step. destruct (Hl (a, r)) as [c Hc]; [apply list_elem_of_here|].
  eapply runs_client; [exact Hc|]. run_step.
  apply IH; [intros p Hp; apply Hl; by right|]. run_step.
  assert (live (w_clients w) r = negb (c_deleted c)) as Hlive.
  { unfold live. simpl in Hc. by rewrite Hc. }
  revert HQ. rewrite filter_cons. simpl. rewrite Hlive. by destruct (c_deleted c).
Qed.

Lemma list_to_map_filter_map (f : ClientRef → bool) (m : gmap SocketAddr ClientRef) :
  list_to_map (filter (λ p, f p.2) (map_to_list m)) = filter (λ p, f p.2) m.
Proof. by rewrite map_filter_alt. Qed.

(** The receivers a deleted client keeps. *)
Definition live_receivers (cs : gmap ClientRef Client) (m : gmap SocketAddr ClientRef) :
    gmap SocketAddr ClientRef :=
  filter (λ p, live cs p.2) m.

Lemma lookup_live_receivers cs m a r :
  live_receivers cs m !! a = Some r ↔
  m !! a = Some r ∧ ∃ c, cs !! r = Some c ∧ c_deleted c = false.
Proof.
  unfold live_receivers. rewrite map_lookup_filter_Some. simpl.
  by rewrite Is_true_true, live_true.
Qed.

Definition deleted_world (w : World) (addr : SocketAddr) (r : ClientRef) : World :=
  let cs := alter client_delete r (w_clients w) in
  with_clients
    (with_groups (with_storage w (delete addr (w_storage w)))
       (remove_sender (w_groups w) addr))
    (alter (λ c, set_receivers (live_receivers cs (c_receivers c)) c) r cs).

Lemma alter_const (f : Client → Client → Client) (g : Client) r
    (cs : gmap ClientRef Client) :
  cs !! r = Some g → alter (f g) r cs = alter (λ c, f c c) r cs.
Proof. intros Hg. apply alter_ext. intros c Hc. by simplify_eq. Qed.

Lemma handle_delete_present w addr r :
  world_ok w → w_storage w !! addr = Some r →
  handle_delete addr w = Done (true, deleted_world w addr r).
Proof.
  intros Hw Hr. destruct (ok_storage _ Hw _ _ Hr) as (c & Hc & _).
  pose proof (ok_held _ Hw) as Hheld.
  apply runs_eq.
  unfold handle_delete. destruct w as [cs st g held sent]. simpl in *. subst held.
  run_step. run_guard. run_step. run_step. run_step. run_step. run_step. world_simpl.
  split; [done|]. rewrite Hr.
  repeat run_step. world_simpl. run_guard. world_simpl. run_step.
  eapply runs_client; [world_simpl; by simplify_map_eq|]. world_simpl. run_step.
  apply runs_filter_live.
  { intros [a r'] Hp%elem_of_map_to_list. world_simpl. simpl in *.
    rewrite lookup_alter_is_Some. exact (ok_receivers _ Hw _ _ _ _ Hc Hp). }
  run_step. world_simpl. split; [done|]. run_step. split; [done|].
  unfold deleted_world. world_eq. rewrite list_to_map_filter_map.
  apply (alter_const
           (λ c', set_receivers (live_receivers (alter client_delete r cs) (c_receivers c')))
           (client_delete c)).
  by simplify_map_eq.
Qed.

Lemma handle_delete_absent w addr :
  world_ok w → w_storage w !! addr = None → handle_delete addr w = Done (true, w).
Proof.
  intros Hw Hr. pose proof (ok_held _ Hw) as Hheld.
  apply runs_eq.
  unfold handle_delete. destruct w as [cs st g held sent]. simpl in *. subst held.
  run_step. run_guard. run_step. run_step. run_step. run_step. run_step. world_simpl.
  split; [done|]. rewrite Hr. run_step. split; [done|]. world_eq.
  by apply delete_id.
Qed.

(** ** Group joins *)

(** The newcomer announces itself as the sender of a group whose sender is
    another connected client. *)
Definition takes_over (w : World) (group_id : Z) (addr : SocketAddr) (is_sender : bool) :
    bool :=
  is_sender &&
  match w_groups w !! group_id with
  | Some s => bool_decide (s ≠ addr) && bool_decide (is_Some (w_storage w !! addr))
              && bool_decide (is_Some (w_storage w !! s))
  | None => false
  end.

Lemma handle_group_id_takeover w group_id addr is_sender :
  world_ok w → takes_over w group_id addr is_sender = true →
  handle_group_id group_id addr is_sender w = Stuck.
Proof.
  intros Hw Ht. pose proof (ok_held _ Hw) as Hheld.
  unfold takes_over in Ht. destruct is_sender; [|done]. simpl in Ht.
  destruct (w_groups w !! group_id) as [s|] eqn:Hs; [|done].
  rewrite !andb_true_iff, !bool_decide_eq_true in Ht.
  destruct Ht as [[Hne [ra Hra]] [rs Hrs]].
  destruct w as [cs st g held sent]. simpl in *. subst held.
  unfold handle_group_id. eapply stuck_bind_r; [done|]. simpl. rewrite Hs. simpl.
  rewrite bool_decide_eq_false_2 by done. simpl.
  eapply stuck_bind_r; [done|]. apply stuck_guarded; [set_solver|].
  eapply stuck_bind_r; [done|]. simpl. rewrite Hra, Hrs.
  apply stuck_guarded; [simpl; set_solver|]. apply stuck_bind_l, guarded_blocked.
  left. simpl. set_solver.
Qed.

(** The heap after [receiver] joined the stream of [sender]. *)
Definition joined_clients (cs : gmap ClientRef Client) (ra rs : ClientRef)
    (addr last : SocketAddr) : gmap ClientRef Client :=
  alter (λ c, set_receivers (<[addr := ra]> (c_receivers c)) c) rs
    (alter (set_sender_addr (Some last)) ra cs).

Definition group_world (w : World) (group_id : Z) (addr : SocketAddr) (is_sender : bool) :
    World :=
  let '(last, g) := insert_or_get_sender (w_groups w) group_id addr is_sender in
  let w' := with_groups w g in
  if bool_decide (last = addr) && negb is_sender then w'
  else match w_storage w !! addr, w_storage w !! last with
       | Some ra, Some rs => with_clients w' (joined_clients (w_clients w) ra rs addr last)
       | _, _ => w'
       end.

Lemma runs_set_receivers r w a ra :
  is_Some (w_clients w !! r) →
  runs (c ← client r; update r (set_receivers (<[a := ra]> (c_receivers c)))) w
    (λ _ w', w' = with_clients w
       (alter (λ c, set_receivers (<[a := ra]> (c_receivers c)) c) r (w_clients w))).
Proof.
  intros [c Hc]. run_step. eapply runs_client; [exact Hc|]. run_step. f_equal.
  by apply (alter_const (λ c', set_receivers (<[a := ra]> (c_receivers c'))) c).
Qed.

Lemma handle_group_id_joins w group_id addr is_sender :
  world_ok w → takes_over w group_id addr is_sender = false →
  handle_group_id group_id addr is_sender w =
  Done ((), group_world w group_id addr is_sender).
Proof.
  intros Hw Ht. pose proof (ok_held _ Hw) as Hheld. pose proof (ok_storage _ Hw) as Hst.
  apply runs_eq.
  unfold handle_group_id, group_world, takes_over in *.
  destruct w as [cs st g held sent]. simpl in *. subst held.
  run_step. run_step. world_simpl.
  destruct (insert_or_get_sender g group_id addr is_sender) as [last g'] eqn:Hlast.
  run_step. run_step. destruct (bool_decide (last = addr) && negb is_sender); [by run_step|].
  run_guard. run_step. run_step. world_simpl.
  destruct (st !! addr) as [ra|] eqn:Hra; [|by run_step; split; [|split; [|world_eq]]].
  destruct (st !! last) as [rs|] eqn:Hrs; [|by run_step; split; [|split; [|world_eq]]].
  assert (negb (bool_decide (last = addr)) && is_sender = false) as ->.
  { destruct is_sender; [|by rewrite andb_false_r]. simpl in *.
    unfold insert_or_get_sender in Hlast. injection Hlast as <- <-.
    destruct (g !! group_id) as [s|]; simpl in *; [|by rewrite bool_decide_eq_true_2].
    rewrite Hrs in Ht. destruct (decide (s = addr)); [by rewrite bool_decide_eq_true_2|].
    by rewrite !bool_decide_eq_true_2 in Ht by eauto. }
  run_guard. run_step. run_guard. run_step. world_simpl. split; [done|].
  eapply runs_mono.
  { apply runs_set_receivers. world_simpl. rewrite lookup_alter_is_Some.
    destruct (Hst _ _ Hrs) as (c & Hc & _). by eexists. }
  intros [] w' ->. world_simpl. split; [done|]. split; [done|]. split; [done|].
  by unfold joined_clients; world_eq.
Qed.

(** ** DTLS datagrams and media descriptions *)

(** The state after a datagram for the client [c] at [r]: the client exists,
    its outgoing stream is subscribed once, one task is started. *)
Definition dtls_world (w : World) (r : ClientRef) (c : Client) (message : DataPacket)
    (addr : SocketAddr) : World :=
  with_sent
    (with_clients (with_storage w (<[addr := r]> (w_storage w)))
       (<[r := make_connected c]> (w_clients w)))
    (w_sent w ++ (if c_dtls_connected c then [] else [AddOutgoingStream r addr])
              ++ [SpawnDtlsTask r message addr]).

(** The client a datagram belongs to: the registered one, or a new one. *)
Definition dtls_target (w : World) (now : Instant) (addr : SocketAddr) (r : ClientRef)
    (c : Client) : Prop :=
  (w_storage w !! addr = Some r ∧ w_clients w !! r = Some c) ∨
  (w_storage w !! addr = None ∧ w_clients w !! r = None ∧ c = client_default now).

Lemma runs_entry_or_default now addr w :
  world_ok w →
  runs (guarded LStorage Write (entry_or_default_client now addr)) w (λ r w', ∃ c,
    dtls_target w now addr r c ∧
    w' = with_clients (with_storage w (<[addr := r]> (w_storage w))) (<[r := c]> (w_clients w))).
Proof.
  intros Hw. pose proof (ok_held _ Hw) as Hheld. pose proof (ok_storage _ Hw) as Hst.
  destruct w as [cs st g held sent]. simpl in *. subst held.
  run_guard. unfold entry_or_default_client. run_step. run_step. world_simpl.
  destruct (st !! addr) as [r|] eqn:Hr.
  - run_step. world_simpl. split; [done|]. destruct (Hst _ _ Hr) as (c & Hc & _).
    exists c. split; [by left|]. world_eq; symmetry; by apply insert_id.
  - run_step. apply runs_alloc. world_simpl. intros r Hnone. repeat run_step. world_simpl.
    split; [done|]. exists (client_default now). split; [by right|]. world_eq.
Qed.

Lemma handle_dtls_runs now message addr w :
  world_ok w →
  runs (handle_dtls now message addr) w (λ _ w', ∃ r c,
    dtls_target w now addr r c ∧ w' = dtls_world w r c message addr).
Proof.
  intros Hw. unfold handle_dtls. run_step.
  eapply runs_mono; [by apply runs_entry_or_default|]. intros r w' (c & Ht & ->). run_step.
  eapply runs_client; [by world_simpl; simplify_map_eq|]. run_step.
  destruct (c_dtls_connected c) eqn:Hd.
  - repeat run_step. exists r, c. split; [done|]. unfold dtls_world. rewrite Hd.
    destruct w; world_eq. destruct c; simpl in *. by subst.
  - repeat run_step. exists r, c. split; [done|]. unfold dtls_world. rewrite Hd.
    destruct w; world_eq; [by rewrite alter_insert_eq|by rewrite <- app_assoc].
Qed.

Lemma lookup_add_runtimes draw fs m f :
  add_runtimes draw fs m !! f =
  match m !! f with
  | Some r => Some r
  | None => if decide (f ∈ fs)
            then Some (runtime_default (draw f).1.1 (draw f).1.2 (draw f).2)
            else None
  end.
Proof.
  revert m. induction fs as [|g fs IH]; intros m; simpl; [by destruct (m !! f)|].
  change (add_runtimes draw (g :: fs) m) with
    (add_runtimes draw fs
       (match m !! g with
        | Some _ => m
        | None => let '(ts, seq, now) := draw g in <[g := runtime_default ts seq now]> m
        end)).
  rewrite IH. destruct (m !! g) eqn:Hg.
  - destruct (m !! f) eqn:Hf; [done|].
    assert (f ≠ g) by congruence. repeat case_decide; set_solver.
  - destruct (draw g) as [[ts seq] now] eqn:Hdraw. destruct (decide (f = g)) as [->|].
    + simplify_map_eq. rewrite Hdraw, decide_True by set_solver. done.
    + simplify_map_eq. destruct (m !! f) eqn:Hf; [done|]. repeat case_decide; set_solver.
Qed.

Definition announce_media (draw : Z → Z * Z * Instant) (media : MediaList) (c : Client) :
    Client :=
  set_media (Some media)
    (set_runtime (add_runtimes draw (get_frequencies media) (c_runtime c)) c).

Definition media_world (w : World) (draw : Z → Z * Z * Instant) (addr : SocketAddr)
    (media : MediaList) : World :=
  match w_storage w !! addr with
  | None => w
  | Some r => with_clients w (alter (announce_media draw media) r (w_clients w))
  end.

Lemma handle_media_addr_Done draw addr media w :
  world_ok w →
  handle_media_addr draw addr media w = Done ((), media_world w draw addr media).
Proof.
  intros Hw. pose proof (ok_held _ Hw) as Hheld. pose proof (ok_storage _ Hw) as Hst.
  apply runs_eq. unfold handle_media_addr, media_world.
  destruct w as [cs st g held sent]. simpl in *. subst held.
  run_guard. run_step. run_step. world_simpl.
  destruct (st !! addr) as [r|] eqn:Hr; [|by repeat run_step].
  destruct (Hst _ _ Hr) as (c & Hc & _).
  run_guard. run_step. eapply runs_client; [done|]. run_step. run_step. run_guard. run_step.
  world_simpl. do 4 (split; [done|]). world_eq.
  rewrite alter_alter_eq. apply alter_ext. intros c' Hc'. unfold announce_media.
  by simplify_eq.
Qed.

(** ** The invariant *)

(** What the types of a message guarantee: the ranges of the random draws of
    [ClientRtpRuntime::default] and of the announced frequencies. *)
Definition msg_ok (m : ClientMsg) : Prop :=
  match m with
  | MsgMedia draw _ media =>
      (∀ f, is_u32 (draw f).1.1 ∧ is_u16 (draw f).1.2) ∧
      (∀ id f, get_frequency media id = Some f → is_u32 f)
  | _ => True
  end.

Lemma elem_of_get_frequencies m f :
  f ∈ get_frequencies m ↔ ∃ id, get_frequency m id = Some f.
Proof.
  unfold get_frequencies, get_frequency. rewrite list_elem_of_fmap. split.
  - intros ([id f'] & -> & Hp%elem_of_map_to_list). by exists id.
  - intros [id Hid]. exists (id, f). by rewrite elem_of_map_to_list.
Qed.

Lemma with_storage_clients w st : w_clients (with_storage w st) = w_clients w.
Proof. done. Qed.

Lemma deleted_world_ok w addr r :
  world_ok w → w_storage w !! addr = Some r → world_ok (deleted_world w addr r).
Proof.
  intros Hw Hr. unfold deleted_world.
  set (w1 := with_clients
    (with_groups (with_storage w (delete addr (w_storage w))) (remove_sender (w_groups w) addr))
    (alter client_delete r (w_clients w))).
  apply (world_ok_alter w1).
  - split; simpl.
    + apply Hw.
    + intros a r' [Hne Ha]%lookup_delete_Some.
      destruct (ok_storage _ Hw _ _ Ha) as (c & Hc & Hd). exists c. split; [|done].
      rewrite lookup_alter_ne; [done|]. intros ->. by eapply Hne, (ok_inj w).
    + intros r' c a r'' [(<- & c' & Hc' & ->)|[Hne Hc]]%lookup_alter_Some Hrec;
        rewrite lookup_alter_is_Some; by eapply (ok_receivers _ Hw).
    + destruct (ok_home _ Hw) as (home & Hst & Hrec). exists home. split.
      * intros a r' [_ Ha]%lookup_delete_Some. by apply Hst.
      * intros r' c a r'' [(<- & c' & Hc' & ->)|[Hne Hc]]%lookup_alter_Some Ha; by eapply Hrec.
    + intros r' c [(<- & c' & Hc' & ->)|[Hne Hc]]%lookup_alter_Some;
        [eapply client_ok_ext, (ok_client _ Hw _ _ Hc'); done|by eapply (ok_client _ Hw)].
  - done.
  - simpl. intros c a r' Hc [Hrec _]%lookup_live_receivers. by right.
  - intros c Hc. by apply client_ok_ext.
Qed.

Lemma group_world_ok w group_id addr is_sender :
  world_ok w → world_ok (group_world w group_id addr is_sender).
Proof.
  intros Hw. unfold group_world.
  destruct (insert_or_get_sender _ _ _ _) as [last g].
  assert (world_ok (with_groups w g)) as Hg by (destruct Hw; by split).
  destruct (_ && _); [done|].
  destruct (w_storage w !! addr) as [ra|] eqn:Hra; [|done].
  destruct (w_storage w !! last) as [rs|] eqn:Hrs; [|done].
  set (w1 := with_clients (with_groups w g)
               (alter (set_sender_addr (Some last)) ra (w_clients w))).
  apply (world_ok_alter w1 rs (λ c, set_receivers (<[addr := ra]> (c_receivers c)) c)).
  - apply (world_ok_alter (with_groups w g)); [done|done| |].
    + intros c a r' Hc Hrec. by right.
    + intros c Hc. by apply client_ok_ext.
  - done.
  - simpl. intros c a r' Hc [[<- <-]|[Hne Hrec]]%lookup_insert_Some; [by left|by right].
  - intros c Hc. by apply client_ok_ext.
Qed.

Lemma dtls_world_ok w now r c message addr :
  world_ok w → dtls_target w now addr r c → world_ok (dtls_world w r c message addr).
Proof.
  intros Hw Ht.
  assert (c_deleted c = false ∧ client_ok c ∧
          (∀ a r', c_receivers c !! a = Some r' → is_Some (w_clients w !! r')) ∧
          (∀ home, (∀ a r, w_storage w !! a = Some r → home r = a) →
             ∃ home', (∀ r', is_Some (w_clients w !! r') → home' r' = home r') ∧
                      home' r = addr)) as (Hd & Hok & Hrec & Hhome).
  { destruct Ht as [[Ha Hc]|(Ha & Hc & ->)].
    - destruct (ok_storage _ Hw _ _ Ha) as (c' & Hc' & Hd). simplify_eq.
      split; [done|]. split; [by eapply (ok_client _ Hw)|].
      split; [intros a r'; by eapply (ok_receivers _ Hw)|].
      intros home Hst. exists home. split; [done|by apply Hst].
    - split; [done|]. split; [auto with rstreamer|]. split; [done|].
      intros home Hst. exists (λ r', if decide (r' = r) then addr else home r').
      split; [|by rewrite decide_True].
      intros r' [c' Hr']. rewrite decide_False; [done|]. intros ->. congruence. }
  split; simpl.
  - apply Hw.
  - intros a r' [[<- <-]|[Hne Ha]]%lookup_insert_Some; [by simplify_map_eq; eauto|].
    destruct (decide (r' = r)) as [->|]; [by simplify_map_eq; eauto|].
    destruct (ok_storage _ Hw _ _ Ha) as (c' & Hc' & Hd'). exists c'. by simplify_map_eq.
  - intros r' c' a r''. rewrite lookup_insert_is_Some'.
    intros [[<- <-]|[Hne Hc']]%lookup_insert_Some Hr; right; [by eapply Hrec|].
    by eapply (ok_receivers _ Hw).
  - destruct (ok_home _ Hw) as (home & Hst & Hrc).
    destruct (Hhome home Hst) as (home' & Hsame & Hhr). exists home'. split.
    + intros a r' [[<- <-]|[Hne Ha]]%lookup_insert_Some; [done|].
      destruct (ok_storage _ Hw _ _ Ha) as (c' & Hc' & _).
      rewrite Hsame by by eexists. by apply Hst.
    + intros r' c' a r'' [[<- <-]|[Hne Hc']]%lookup_insert_Some Ha.
      * rewrite Hsame by by eapply Hrec. destruct Ht as [[_ Hc]|(_ & _ & ->)]; [|done].
        by eapply Hrc.
      * rewrite Hsame by by eapply (ok_receivers _ Hw). by eapply Hrc.
  - intros r' c' [[<- <-]|[? Hc']]%lookup_insert_Some; [by apply (client_ok_ext c)|].
    by eapply (ok_client _ Hw).
Qed.

Lemma announce_media_ok draw addr media c :
  msg_ok (MsgMedia draw addr media) → client_ok c → client_ok (announce_media draw media c).
Proof.
  intros [Hdraw Hf] Hok. split; simpl; [| |apply Hok].
  - intros m id f [= <-] Hid. rewrite lookup_add_runtimes.
    destruct (c_runtime c !! f); [done|]. rewrite decide_True; [done|].
    apply elem_of_get_frequencies. by exists id.
  - intros f r. rewrite lookup_add_runtimes. destruct (c_runtime c !! f) eqn:Hrt.
    + intros [= <-]. by eapply (ok_runtime _ Hok).
    + case_decide as Hin; [|done]. intros [= <-].
      apply elem_of_get_frequencies in Hin as [id Hid].
      split; [by eapply Hf|]. destruct (Hdraw f). auto with rstreamer.
Qed.

Lemma media_world_ok w draw addr media :
  world_ok w → msg_ok (MsgMedia draw addr media) →
  world_ok (media_world w draw addr media).
Proof.
  intros Hw Hm. unfold media_world. destruct (w_storage w !! addr); [|done].
  apply world_ok_alter; [done|done| |].
  - intros c a r' Hc Hrec. by right.
  - intros c _. by eapply announce_media_ok.
Qed.

Lemma with_sent_ok w s : world_ok w → world_ok (with_sent w s).
Proof. intros []. by split. Qed.

(** The one message a handler does not survive. *)
Definition blocks (w : World) (m : ClientMsg) : bool :=
  match m with
  | MsgGroup group_id addr is_sender => takes_over w group_id addr is_sender
  | _ => false
  end.

Lemma client_step_runs m w :
  world_ok w → msg_ok m → blocks w m = false →
  runs (client_step m) w (λ _ w', world_ok w').
Proof.
  intros Hw Hm Hb. destruct m as [now msg|item|addr|gid addr b|draw addr media];
    cbn [client_step].
  - destruct msg; cbn [handle_webrtc]; try by run_step.
    eapply runs_mono; [by apply handle_dtls_runs|].
    intros [] w' (r & c & Ht & ->). by eapply dtls_world_ok.
  - unfold handle_dtls_message. destruct (get_type item); run_step; [done|].
    by apply with_sent_ok.
  - run_step. unfold runs. destruct (w_storage w !! addr) as [r|] eqn:Hr.
    + rewrite (handle_delete_present _ _ _ Hw Hr). by apply deleted_world_ok.
    + by rewrite (handle_delete_absent _ _ Hw Hr).
  - unfold runs. rewrite handle_group_id_joins by done. by apply group_world_ok.
  - unfold runs. rewrite handle_media_addr_Done by done. by apply media_world_ok.
Qed.

Lemma client_step_blocked m w :
  world_ok w → blocks w m = true → client_step m w = Stuck.
Proof. destruct m; try done. intros. by apply handle_group_id_takeover. Qed.
End client_actor_facts.

Section client_actor_properties.
Context {P : Platform} {PL : PlatformLaws P}.

Lemma client_run_app ms ms' w :
  client_run (ms ++ ms') w = (client_run ms;; client_run ms') w.
Proof.
  revert w. induction ms as [|m ms IH]; intros w; [done|].
  unfold client_run in *. simpl. rewrite !run_bind.
  destruct (client_step m w) as [[[] w']| |]; [|done..]. by rewrite IH, run_bind.
Qed.

(** C12. Safety of the client actor over any sequence of messages: no handler
    panics, and as long as they return the shared store stays well formed with
    every lock released; the actor stops only at a group message by which a
    connected client takes over a group from another connected client, which is
    where its handler waits for a lock it holds itself. *)
Theorem client_actor_safe ms w :
  world_ok w → Forall msg_ok ms →
  match client_run ms w with
  | Done (_, w') => world_ok w'
  | Panicked => False
  | Stuck => ∃ pre m post w',
      ms = pre ++ m :: post ∧ client_run pre w = Done ((), w') ∧ blocks w' m = true
  end.
Proof.
  revert w. induction ms as [|m ms IH]; intros w Hw Hms; [done|].
  apply Forall_cons in Hms as [Hm Hms]. unfold client_run. simpl. rewrite run_bind.
  destruct (blocks w m) eqn:Hb.
  { rewrite client_step_blocked by done. by exists [], m, ms, w. }
  pose proof (client_step_runs m w Hw Hm Hb) as ([] & w' & Hstep & Hw')%runs_Done.
  rewrite Hstep. specialize (IH w' Hw' Hms). unfold client_run in IH.
  destruct (for_each ms client_step w') as [[[] w'']| |]; [done|done|].
  destruct IH as (pre & m' & post & v & -> & Hpre & Hb').
  exists (m :: pre), m', post, v. split; [done|]. split; [|done].
  unfold client_run. simpl. by rewrite run_bind, Hstep.
Qed.

(** C35. Joining a group: a viewer joins the group's sender, a streamer joins a group
    without another sender, and the handler does the same for both: the client is
    entered among the sender's receivers and the sender becomes its sender. For a
    streamer the sender is itself, so it becomes its own receiver. Nothing else
    changes. *)
Theorem group_joins group_id addr (is_sender : bool) s ra rs w :
  world_ok w → default addr (w_groups w !! group_id) = s →
  (if is_sender then s = addr else s ≠ addr) →
  w_storage w !! addr = Some ra → w_storage w !! s = Some rs →
  handle_group_id group_id addr is_sender w =
  Done ((), with_clients (with_groups w (<[group_id := s]> (w_groups w)))
    (joined_clients (w_clients w) ra rs addr s)).
Proof.
  intros Hw Hs Hcase Hra Hrs. rewrite handle_group_id_joins; [|done|].
  2: { unfold takes_over. destruct is_sender; [|done]. simpl. subst addr.
       destruct (w_groups w !! group_id) as [s'|]; [|done]. simpl in Hs. subst s'.
       by rewrite bool_decide_eq_false_2 by naive_solver. }
  do 2 f_equal. unfold group_world, insert_or_get_sender.
  destruct (w_groups w !! group_id) as [s'|] eqn:Hg; simpl in Hs; subst s; destruct is_sender; try done.
  - subst s'. assert (ra = rs) as -> by congruence. rewrite andb_false_r. simpl. by rewrite Hrs.
  - rewrite bool_decide_eq_false_2 by done. simpl. rewrite Hra, Hrs. by rewrite insert_id.
  - assert (ra = rs) as -> by congruence. rewrite andb_false_r. simpl. by rewrite Hrs.
Qed.

(** A viewer joins a stream. *)
Lemma viewer_joins group_id addr s ra rs ca cs w :
  world_ok w → w_groups w !! group_id = Some s → s ≠ addr →
  w_storage w !! addr = Some ra → w_clients w !! ra = Some ca →
  w_storage w !! s = Some rs → w_clients w !! rs = Some cs →
  handle_group_id group_id addr false w =
  Done ((), with_clients w
    (<[rs := set_receivers (<[addr := ra]> (c_receivers cs)) cs]>
      (<[ra := set_sender_addr (Some s) ca]> (w_clients w)))).
Proof.
  intros Hw Hg Hne Hra Hca Hrs Hcs.
  assert (ra ≠ rs) by (intros ->; by apply Hne, (ok_inj w _ _ rs)).
  rewrite handle_group_id_joins by done. do 2 f_equal.
  unfold group_world, insert_or_get_sender. rewrite Hg, bool_decide_eq_false_2 by done. simpl.
  rewrite Hra, Hrs. destruct w; world_eq. unfold joined_clients. simpl in *.
  erewrite (alter_is_insert _ _ ra) by done. by erewrite alter_is_insert by by simplify_map_eq.
Qed.

(** A connected client that announces itself as the sender of a group held
    by another connected client never gets its message handled: the handler
    takes the write lock on the old sender's receivers and then waits for a read
    lock on the same map. *)
Lemma takeover_never_returns group_id addr s ra rs w :
  world_ok w → w_groups w !! group_id = Some s → s ≠ addr →
  w_storage w !! addr = Some ra → w_storage w !! s = Some rs →
  handle_group_id group_id addr true w = Stuck.
Proof.
  intros Hw Hg Hne Hra Hrs. apply handle_group_id_takeover; [done|].
  unfold takes_over. by rewrite Hg, Hra, Hrs, !bool_decide_eq_true_2 by eauto.
Qed.


(** The first sender of a group becomes the group's sender and is entered
    among its own receivers, with itself as its sender. *)
Lemma first_sender_joins_itself group_id addr r c w :
  world_ok w → w_groups w !! group_id = None →
  w_storage w !! addr = Some r → w_clients w !! r = Some c →
  handle_group_id group_id addr true w =
  Done ((), with_clients (with_groups w (<[group_id := addr]> (w_groups w)))
    (<[r := set_receivers (<[addr := r]> (c_receivers c)) (set_sender_addr (Some addr) c)]>
      (w_clients w))).
Proof.
  intros Hw Hg Hr Hc. rewrite handle_group_id_joins; [|done|].
  2: { unfold takes_over. by rewrite Hg. }
  do 2 f_equal. unfold group_world, insert_or_get_sender. rewrite Hg, andb_false_r.
  cbn [default from_option id]. rewrite Hr. unfold joined_clients.
  rewrite (alter_is_insert (set_sender_addr (Some addr)) _ r c Hc).
  rewrite (alter_is_insert _ _ r (set_sender_addr (Some addr) c)) by by simplify_map_eq.
  destruct w; world_eq. by rewrite insert_insert_eq.
Qed.

(** C36. Deleting a connected client removes it from the client table and from
    every group it was the sender of, marks it deleted, and drops from its own
    receiver map exactly itself and the clients deleted before; every other
    client, and every receiver map it is still listed in, is left as it was. *)
Theorem deleted_client_leaves addr r c w :
  world_ok w → w_storage w !! addr = Some r → w_clients w !! r = Some c →
  ∃ w' c', handle_delete addr w = Done (true, w') ∧ world_ok w' ∧
    w_storage w' = delete addr (w_storage w) ∧
    (∀ id s, w_groups w' !! id = Some s ↔ w_groups w !! id = Some s ∧ s ≠ addr) ∧
    w_clients w' = <[r := c']> (w_clients w) ∧ c_deleted c' = true ∧
    (∀ a r', c_receivers c' !! a = Some r' ↔
       c_receivers c !! a = Some r' ∧ r' ≠ r ∧
       ∃ cr, w_clients w !! r' = Some cr ∧ c_deleted cr = false).
Proof.
  intros Hw Hr Hc. rewrite (handle_delete_present _ _ _ Hw Hr).
  pose proof (alter_is_insert client_delete _ _ _ Hc) as Hdel.
  eexists _, _. split; [done|]. split; [by apply deleted_world_ok|]. split; [done|].
  split; [intros; apply lookup_remove_sender|].
  unfold deleted_world. simpl. rewrite !Hdel. split.
  { erewrite alter_is_insert by by simplify_map_eq. by rewrite insert_insert_eq. }
  split; [done|]. intros a r'. simpl. rewrite lookup_live_receivers.
  split.
  - intros [Ha (cr & [[<- <-]|[Hne Hcr]]%lookup_insert_Some & Hlive)]; [done|].
    split; [done|]. split; [done|]. by exists cr.
  - intros (Ha & Hne & cr & Hcr & Hlive). split; [done|]. exists cr. by simplify_map_eq.
Qed.

(** The first datagram from an address creates one client, subscribes to
    its outgoing records and starts a handshake task; the next one starts another
    task for the same client and does not subscribe again. *)
Lemma datagrams_share_one_client now now' m m' addr w :
  world_ok w → w_storage w !! addr = None →
  ∃ r w', (handle_dtls now m addr;; handle_dtls now' m' addr) w = Done ((), w') ∧
    w_clients w !! r = None ∧
    w_clients w' = <[r := make_connected (client_default now)]> (w_clients w) ∧
    w_storage w' = <[addr := r]> (w_storage w) ∧
    w_sent w' = w_sent w ++
      [AddOutgoingStream r addr; SpawnDtlsTask r m addr; SpawnDtlsTask r m' addr].
Proof.
  intros Hw Hnone.
  pose proof (handle_dtls_runs now m addr w Hw) as ([] & w1 & Hrun1 & r & c & Ht & ->)%runs_Done.
  pose proof (dtls_world_ok w now r c m addr Hw Ht) as Hw1.
  destruct Ht as [[Ha _]|(_ & Hr & ->)]; [congruence|].
  pose proof (handle_dtls_runs now' m' addr _ Hw1)
    as ([] & w2 & Hrun2 & r2 & c2 & Ht2 & ->)%runs_Done.
  unfold dtls_target, dtls_world in Ht2. simpl in Ht2. rewrite !lookup_insert_eq in Ht2.
  destruct Ht2 as [[[= <-] Hc2]|(Ha2 & _)]; [|done]. simpl in Hc2.
  rewrite lookup_insert_eq in Hc2. injection Hc2 as <-.
  exists r. eexists. split; [by rewrite run_bind, Hrun1|].
  split; [done|]. simpl. split; [by rewrite insert_insert_eq|].
  split; [by rewrite insert_insert_eq|]. by rewrite <- app_assoc.
Qed.

(** A media description reaches the client: afterwards it is the client's
    media, every announced frequency has a runtime entry, and the entries that
    existed keep their numbering. *)
Lemma media_announced draw addr media r c w :
  world_ok w → w_storage w !! addr = Some r → w_clients w !! r = Some c →
  ∃ c', handle_media_addr draw addr media w =
        Done ((), with_clients w (<[r := c']> (w_clients w))) ∧
    c_media c' = Some media ∧
    (∀ id f, get_frequency media id = Some f → is_Some (c_runtime c' !! f)) ∧
    (∀ f rt, c_runtime c !! f = Some rt → c_runtime c' !! f = Some rt) ∧
    c_receivers c' = c_receivers c ∧ c_srtp c' = c_srtp c.
Proof.
  intros Hw Hr Hc. rewrite handle_media_addr_Done by done. unfold media_world. rewrite Hr.
  exists (announce_media draw media c). rewrite (alter_is_insert _ _ _ _ Hc).
  do 2 (split; [done|]). split.
  - intros id f Hf. simpl. rewrite lookup_add_runtimes.
    destruct (c_runtime c !! f); [done|]. rewrite decide_True; [done|].
    apply elem_of_get_frequencies. by exists id.
  - split; [|done]. intros f rt Hrt. simpl. by rewrite lookup_add_runtimes, Hrt.
Qed.
End client_actor_properties.

(** ** Runs on concrete clients *)

Lemma sample_world_empty_ok : world_ok (sample_world ∅).
Proof. apply sample_world_ok. intros a r. by rewrite lookup_empty. Qed.

Definition sample_messages : list ClientMsg :=
  [MsgGroup 7 viewer_addr false; MsgDelete viewer_addr].

Lemma sample_messages_return :
  is_done (client_run sample_messages (sample_world ∅)) = true.
Proof. vm_compute. reflexivity. Qed.

Lemma client_actor_safe_witness : ∃ w',
  client_run sample_messages (sample_world ∅) = Done ((), w') ∧ world_ok w'.
Proof.
  pose proof (client_actor_safe sample_messages (sample_world ∅) sample_world_empty_ok) as H.
  pose proof sample_messages_return as E.
  destruct (client_run sample_messages (sample_world ∅)) as [[[] w']| |];
    [exists w'; split; [reflexivity|apply H; repeat constructor]|discriminate E..].
Defined.

Lemma viewer_joins_witness : ∃ w',
  handle_group_id 7 viewer_addr false (sample_world ∅) = Done ((), w').
Proof.
  eexists. apply (viewer_joins 7 viewer_addr streamer_addr 1%nat 0%nat
    (sample_client ∅ (Some streamer_addr)) (sample_client ∅ None));
    [exact sample_world_empty_ok|reflexivity|discriminate|reflexivity..].
Defined.

Lemma group_joins_witness : ∃ w',
  handle_group_id 7 streamer_addr true (sample_world ∅) = Done ((), w').
Proof.
  eexists. apply (group_joins 7 streamer_addr true streamer_addr 0%nat 0%nat);
    [exact sample_world_empty_ok|reflexivity..].
Defined.


Lemma takeover_never_returns_witness :
  handle_group_id 7 rival_addr true (sample_world ∅) = Stuck.
Proof.
  apply (takeover_never_returns 7 rival_addr streamer_addr 2%nat 0%nat);
    [exact sample_world_empty_ok|reflexivity|discriminate|reflexivity..].
Defined.

Lemma deleted_client_leaves_witness : ∃ w',
  handle_delete streamer_addr (sample_world {[ viewer_addr := 1%nat ]}) = Done (true, w').
Proof.
  destruct (deleted_client_leaves streamer_addr 0%nat
    (sample_client {[ viewer_addr := 1%nat ]} None)
    (sample_world {[ viewer_addr := 1%nat ]})) as (w' & _ & H & _); [|reflexivity..|by exists w'].
  apply sample_world_ok. intros a r [<- <-]%lookup_singleton_Some. split; [lia|reflexivity].
Defined.

Lemma datagrams_share_one_client_witness : ∃ r w',
  (handle_dtls 5 [22; 1] stranger_addr;; handle_dtls 6 [22; 2] stranger_addr) (sample_world ∅) =
  Done ((), w') ∧ w_storage w' !! stranger_addr = Some r.
Proof.
  destruct (datagrams_share_one_client 5 6 [22; 1] [22; 2] stranger_addr (sample_world ∅))
    as (r & w' & H & _ & _ & Hst & _); [exact sample_world_empty_ok|reflexivity|].
  exists r, w'. split; [exact H|]. rewrite Hst. apply lookup_insert_eq.
Defined.

Lemma media_announced_witness : ∃ w',
  handle_media_addr (λ _, (77, 88, 9)) viewer_addr sample_media (sample_world ∅) =
  Done ((), w').
Proof.
  destruct (media_announced (λ _, (77, 88, 9)) viewer_addr sample_media 1%nat
    (sample_client ∅ (Some streamer_addr)) (sample_world ∅)) as (c' & H & _);
    [exact sample_world_empty_ok|reflexivity..|by eexists].
Defined.
