(* ===== verification/RtcActor.v ===== *)
(** * The RTC actor (src/src/client/rtc_actor.rs)

    One handler forwards a packet: decrypt it with the sender's SRTP context,
    renumber it, and encrypt it anew for each receiver; RTCP feedback of a client
    without receivers goes to its sender instead. The closure of [and_then] and
    the [?] operators are computations with a [result]; the clock readings, the
    order in which the thread pool takes the receivers and which of them still
    run after an error are arguments. *)

From S2P Require Import Prelude Net Srtp ByteOrder RtpCore StunParse Demux Jitter.
From S2P Require Import Media Stream Group Clients Store Runtime Sample.
Local Open Scope Z_scope.

(** What the thread pool decides: the order in which the receivers are taken, and
    whether a receiver taken after an error is still served. *)
Record Schedule := {
  sch_order : list (SocketAddr * ClientRef) → list (SocketAddr * ClientRef);
  sch_late : SocketAddr → bool;
}.

Definition schedule_ok (s : Schedule) : Prop := ∀ l, sch_order s l ≡ₚ l.

Section rtc_actor.
Context {P : Platform}.

(** The [?] operator in a handler. *)
Definition tryM {A B E} (m : M (result A E)) (k : A → M (result B E)) : M (result B E) :=
  r ← m; match r with Ok a => k a | Err e => mret (Err e) end.

(** rtc_actor.rs:63-75 *)
Definition codec_of (client_ref : ClientRef) (is_rtcp : bool) (h : RtpHeader) :
    M (option (SmolStr * Z)) :=
  if is_rtcp then mret None
  else guarded (LMedia client_ref) Read (
    c ← client client_ref;
    mret (media ← c_media c;
          name ← get_name media (payload h);
          frequency ← get_frequency media (payload h);
          Some (name, frequency))).

(** [let mut state = client.get_srtp().lock(); if let Some(srtp) = &mut *state]:
    [k] uses the SRTP context, in place. *)
Definition with_srtp {A} (r : ClientRef) (none : A) (k : SrtpTransport → SrtpTransport * A) :
    M A :=
  guarded (LSrtp r) Write (
    c ← client r;
    match c_srtp c with
    | None => mret none
    | Some srtp =>
        let '(srtp', a) := k srtp in
        update r (set_srtp (Some srtp'));;
        mret a
    end).

(** rtc_actor.rs:77-94: the decrypted message. *)
Definition decrypt (client_ref : ClientRef) (addr : SocketAddr) (is_rtcp : bool)
    (h : RtpHeader) (message : DataPacket) : M (result DataPacket ErrorParse) :=
  with_srtp client_ref (Err (ClientNotReady addr)) (λ srtp,
    let '(srtp', message', r) :=
      if is_rtcp then unprotect_rtcp srtp message else unprotect srtp message in
    (srtp', match r with
            | Err e => Err e
            | Ok _ =>
                if negb is_rtcp && bool_decide (payload h = 111) then Err UnsupportedFormat
                else Ok message'
            end)).

(** rtc_actor.rs:97-157: the renumbered message. *)
Definition renumber_packet (prof : profile) (rd : Readings) (client_ref : ClientRef)
    (addr : SocketAddr) (codec_n_frequency : option (SmolStr * Z)) (h : RtpHeader)
    (message : DataPacket) : M (result DataPacket ErrorParse) :=
  guarded (LRuntime client_ref) Write (
    c ← client client_ref;
    match '(_, frequency) ← codec_n_frequency;
          rt ← c_runtime c !! frequency; Some (rt, frequency) with
    | None => mret (Err (CodecNotSet addr))
    | Some (rt, frequency) =>
        rd ← clock rd;
        '(rt', client_diff, real_time_diff) ← lift (advance_runtime prof rt h (at_packet rd));
        update client_ref (set_runtime (<[frequency := rt']> (c_runtime c)));;
        message' ← lift (replace_sequence_n_timestamp message
                           (server_sequence rt') (server_ts rt'));
        guarded (LJitterStats client_ref) Write (
          c ← client client_ref;
          '(js', command) ← lift (update_jitter_stats prof frequency real_time_diff client_diff
                                    (c_jitter c) (at_check rd) (at_update rd));
          update client_ref (set_jitter js');;
          match command with
          | Some CommandIncrease => send (JitterIncrease addr)
          | Some CommandDecrease => send (JitterDecrease addr)
          | None => mret ()
          end);;
        mret (Ok message')
    end).

(** rtc_actor.rs:162-171: the feedback for the client's sender, encrypted. *)
Definition feedback (client_ref : ClientRef) (message : DataPacket) :
    M (option (result (SocketAddr * DataPacket) ErrorParse)) :=
  guarded (LSenderAddr client_ref) Read (
    c ← client client_ref;
    match c_sender_addr c with
    | None => mret None
    | Some sender_addr =>
        sender ← guarded LStorage Read (st ← get_storage; mret (st !! sender_addr));
        match sender with
        | None => mret None
        | Some sender =>
            with_srtp sender None (λ srtp,
              let '(srtp', message', r) := protect_rtcp srtp message in
              (srtp', Some match r with
                           | Ok _ => Ok (sender_addr, message')
                           | Err e => Err e
                           end))
        end
    end).

(** rtc_actor.rs:185-199: the message encrypted for one receiver. *)
Definition encrypt_for (recv : ClientRef) (addr : SocketAddr) (is_rtcp : bool)
    (message : DataPacket) : M (result DataPacket ErrorParse) :=
  with_srtp recv (Err (ClientNotReady addr)) (λ srtp,
    let '(srtp', message', r) :=
      if is_rtcp then protect_rtcp srtp message else protect srtp message in
    (srtp', match r with Ok _ => Ok message' | Err e => Err e end)).

(** rtc_actor.rs:201-215 *)
Definition adapt_payload (recv : ClientRef) (is_rtcp : bool)
    (codec_n_frequency : option (SmolStr * Z)) (h : RtpHeader) (message : DataPacket) :
    M DataPacket :=
  if is_rtcp then
    match codec_n_frequency with
    | None => mret message
    | Some (codec, _) =>
        guarded (LMedia recv) Read (
          c ← client recv;
          match media ← c_media c; get_id media codec with
          | None => mret message
          | Some payload => lift (store message 1 (calculate_payload (marker h) payload))
          end)
    end
  else mret message.

(** One receiver: the [filter] and the body of [try_for_each]. *)
Definition serve (addr : SocketAddr) (is_rtcp : bool)
    (codec_n_frequency : option (SmolStr * Z)) (h : RtpHeader) (message : DataPacket)
    (p : SocketAddr * ClientRef) : M (result unit ErrorParse) :=
  c ← client p.2;
  if c_deleted c then mret (Ok tt)
  else tryM (encrypt_for p.2 addr is_rtcp message) (λ message,
    message ← adapt_payload p.2 is_rtcp codec_n_frequency h message;
    send (UdpSend (Rtc message p.1));;
    mret (Ok tt)).

(** [try_for_each]: after an error some receivers are still served; the error
    reported is the first one. *)
Fixpoint try_for_each {A} (late : A → bool) (f : A → M (result unit ErrorParse))
    (l : list A) (r : result unit ErrorParse) : M (result unit ErrorParse) :=
  match l with
  | [] => mret r
  | a :: l =>
      match r with
      | Ok _ => r ← f a; try_for_each late f l r
      | Err e =>
          if late a then f a;; try_for_each late f l r else try_for_each late f l r
      end
  end.

(** rtc_actor.rs:159-226 *)
Definition forward (s : Schedule) (client_ref : ClientRef) (addr : SocketAddr)
    (is_rtcp : bool) (codec_n_frequency : option (SmolStr * Z)) (h : RtpHeader)
    (message : DataPacket) : M (result unit ErrorParse) :=
  guarded (LReceivers client_ref) Read (
    c ← client client_ref;
    let receivers := c_receivers c in
    if is_rtcp && bool_decide (receivers = ∅) then
      result ← feedback client_ref message;
      match result with
      | Some (Ok (sender_addr, message)) =>
          send (UdpSend (Rtc message sender_addr));; mret (Ok tt)
      | Some (Err e) => mret (Err e)
      | None => mret (Ok tt)
      end
    else
      try_for_each (λ p, sch_late s p.1) (serve addr is_rtcp codec_n_frequency h message)
        (sch_order s (map_to_list receivers)) (Ok tt)).

(** The closure after [RtpHeader::from_buf], rtc_actor.rs:62-227. *)
Definition process (prof : profile) (rd : Readings) (s : Schedule) (client_ref : ClientRef)
    (addr : SocketAddr) (is_rtcp : bool) (h : RtpHeader) (message : DataPacket) :
    M (result unit ErrorParse) :=
  codec_n_frequency ← codec_of client_ref is_rtcp h;
  tryM (decrypt client_ref addr is_rtcp h message) (λ message,
  tryM (if is_rtcp then mret (Ok message)
        else renumber_packet prof rd client_ref addr codec_n_frequency h message) (λ message,
  forward s client_ref addr is_rtcp codec_n_frequency h message)).

(** [Handler<WebRtcRequest>]; the [result] is what the handler logs unless it
    [should_ignored]. *)
Definition handle_rtc (prof : profile) (rd : Readings) (s : Schedule) (msg : WebRtcRequest) :
    M (option (result unit ErrorParse)) :=
  match msg with
  | Rtc message addr =>
      client_ref ← guarded LStorage Read (st ← get_storage; mret (st !! addr));
      match client_ref with
      | None => mret None
      | Some client_ref =>
          is_rtcp ← lift (is_rtcp message);
          h ← lift (from_buf message);
          r ← tryM (mret h) (λ h, process prof rd s client_ref addr is_rtcp h message);
          mret (Some r)
      end
  | _ => mret None
  end.
End rtc_actor.

(** ** What every run of the handler respects *)

Section rtc_safety.
Context {P : Platform} {PL : PlatformLaws P}.

(** The handler touches only the SRTP contexts, the numbering and the jitter
    statistics of a client. *)
Record keeps (c c' : Client) : Prop := {
  keeps_state : c_state c' = c_state c;
  keeps_channels : c_channels c' = c_channels c;
  keeps_media : c_media c' = c_media c;
  keeps_receivers : c_receivers c' = c_receivers c;
  keeps_sender : c_sender_addr c' = c_sender_addr c;
  keeps_deleted : c_deleted c' = c_deleted c;
  keeps_ready : is_Some (c_srtp c) → is_Some (c_srtp c');
  keeps_frequencies f : is_Some (c_runtime c !! f) → is_Some (c_runtime c' !! f);
  keeps_ok : client_ok c → client_ok c';
}.

#[export] Instance keeps_preorder : PreOrder keeps.
Proof.
  split; [by intros c; split|].
  intros c1 c2 c3 [] []. split; [congruence..|auto|auto|auto].
Qed.

(** How the world may change, when every effect satisfies [ok]. *)
Record rtc_rel (ok : Effect → Prop) (w w' : World) : Prop := {
  rel_storage : w_storage w' = w_storage w;
  rel_groups : w_groups w' = w_groups w;
  rel_held : w_held w' = w_held w;
  rel_clients r : option_Forall2 keeps (w_clients w !! r) (w_clients w' !! r);
  rel_sent : ∃ new, w_sent w' = w_sent w ++ new ∧ Forall ok new;
}.

#[export] Instance rtc_rel_preorder ok : PreOrder (rtc_rel ok).
Proof.
  split.
  - intros w. split; [done..|reflexivity|]. exists []. by rewrite app_nil_r.
  - intros w1 w2 w3 [??? Hc1 (n1 & Hs1 & Hn1)] [??? Hc2 (n2 & Hs2 & Hn2)].
    split; [congruence..|intros r; etrans; [apply Hc1|apply Hc2]|]. exists (n1 ++ n2).
    split; [by rewrite Hs2, Hs1, app_assoc|by apply Forall_app].
Qed.

Lemma rtc_rel_mono (ok ok' : Effect → Prop) w w' :
  (∀ e, ok e → ok' e) → rtc_rel ok w w' → rtc_rel ok' w w'.
Proof.
  intros Hok [??? Hc (new & Hs & Hn)]. split; [done..|]. exists new. split; [done|].
  by eapply Forall_impl.
Qed.

Lemma rel_lookup ok w w' r c :
  rtc_rel ok w w' → w_clients w !! r = Some c →
  ∃ c', w_clients w' !! r = Some c' ∧ keeps c c'.
Proof.
  intros Hrel Hc. pose proof (rel_clients _ _ _ Hrel r) as Hr. rewrite Hc in Hr.
  inversion Hr; subst. by eexists.
Qed.

Lemma rel_lookup_inv ok w w' r c' :
  rtc_rel ok w w' → w_clients w' !! r = Some c' →
  ∃ c, w_clients w !! r = Some c ∧ keeps c c'.
Proof.
  intros Hrel Hc. pose proof (rel_clients _ _ _ Hrel r) as Hr. rewrite Hc in Hr.
  inversion Hr; subst. by eexists.
Qed.

Lemma rel_world_ok ok w w' : rtc_rel ok w w' → world_ok w → world_ok w'.
Proof.
  intros Hrel Hw. split.
  - rewrite (rel_held _ _ _ Hrel). apply Hw.
  - intros a r. rewrite (rel_storage _ _ _ Hrel). intros (c & Hc & Hd)%(ok_storage _ Hw).
    destruct (rel_lookup _ _ _ _ _ Hrel Hc) as (c' & Hc' & Hk). exists c'.
    by rewrite (keeps_deleted _ _ Hk).
  - intros r c' a r' (c & Hc & Hk)%(rel_lookup_inv _ _ _ _ _ Hrel).
    rewrite (keeps_receivers _ _ Hk). intros [cr Hcr]%(ok_receivers _ Hw _ _ _ _ Hc).
    destruct (rel_lookup _ _ _ _ _ Hrel Hcr) as (cr' & Hcr' & _). by eexists.
  - destruct (ok_home _ Hw) as (home & Hst & Hrec). exists home.
    rewrite (rel_storage _ _ _ Hrel). split; [done|].
    intros r c' a r' (c & Hc & Hk)%(rel_lookup_inv _ _ _ _ _ Hrel).
    rewrite (keeps_receivers _ _ Hk). by apply (Hrec r c).
  - intros r c' (c & Hc & Hk)%(rel_lookup_inv _ _ _ _ _ Hrel).
    by apply (keeps_ok _ _ Hk), (ok_client _ Hw r).
Qed.

(** [safe ok m w Q]: [m] returns from [w], changes the world as [rtc_rel ok]
    allows, and establishes [Q]. *)
Definition safe {A} (ok : Effect → Prop) (m : M A) (w : World) (Q : A → World → Prop) : Prop :=
  runs m w (λ a w', rtc_rel ok w w' ∧ Q a w').

Lemma safe_bind {A B} ok (m : M A) (f : A → M B) w Q' Q :
  safe ok m w Q' →
  (∀ a w', rtc_rel ok w w' → Q' a w' → safe ok (f a) w' Q) → safe ok (m ≫= f) w Q.
Proof.
  intros Hm Hf. apply runs_bind. eapply runs_mono; [exact Hm|]. intros a w' [Hrel HQ].
  eapply runs_mono; [by apply Hf|]. intros b w'' [Hrel' HQ']. split; [by etrans|done].
Qed.

Lemma safe_mono {A} ok (m : M A) w (Q Q' : A → World → Prop) :
  safe ok m w Q → (∀ a w', rtc_rel ok w w' → Q a w' → Q' a w') → safe ok m w Q'.
Proof. intros Hm HQ. eapply runs_mono; [exact Hm|]. naive_solver. Qed.

Lemma safe_ret {A} ok (a : A) w (Q : A → World → Prop) : Q a w → safe ok (mret a) w Q.
Proof. intros HQ. apply runs_ret. by split. Qed.

Lemma safe_client ok r c w (Q : Client → World → Prop) :
  w_clients w !! r = Some c → Q c w → safe ok (client r) w Q.
Proof. intros Hc HQ. by eapply runs_client. Qed.

Lemma safe_lift {A} ok (o : outcome A) a w (Q : A → World → Prop) :
  o = Done a → Q a w → safe ok (lift o) w Q.
Proof. intros -> HQ. by split. Qed.

Lemma safe_get_storage ok w (Q : _ → World → Prop) :
  Q (w_storage w) w → safe ok get_storage w Q.
Proof. by split. Qed.

Lemma safe_send ok e w (Q : () → World → Prop) :
  ok e → Q () (with_sent w (w_sent w ++ [e])) → safe ok (send e) w Q.
Proof.
  intros He HQ. apply runs_send. split; [|done]. split; [done..|reflexivity|]. exists [e]. auto.
Qed.

Lemma safe_update ok r f w (Q : () → World → Prop) :
  (∀ c, w_clients w !! r = Some c → keeps c (f c)) →
  (∀ w', w_clients w' = alter f r (w_clients w) → Q () w') → safe ok (update r f) w Q.
Proof.
  intros Hf HQ. apply runs_update. split; [|by apply HQ]. split; try done.
  - intros r'. simpl. destruct (decide (r' = r)) as [->|].
    + rewrite lookup_alter_eq. destruct (w_clients w !! r) as [c|] eqn:Hc; constructor. by apply Hf.
    + by rewrite lookup_alter_ne.
  - exists []. by rewrite app_nil_r.
Qed.

Lemma safe_guarded {A} ok l m (body : M A) w (Q : A → World → Prop) :
  l ∉ (w_held w).*1 →
  safe ok body (with_held w ((l, m) :: w_held w)) (λ a w', Q a (with_held w' (w_held w))) →
  safe ok (guarded l m body) w Q.
Proof.
  intros Hl Hbody. apply runs_guarded; [done|]. eapply runs_mono; [exact Hbody|].
  intros a w' [[] HQ]. split; [done|]. split; [|done]. by split.
Qed.

(** One locked access that only reads the client. *)
Lemma safe_read_client {A} ok l m r c (f : Client → A) w (Q : A → World → Prop) :
  l ∉ (w_held w).*1 → w_clients w !! r = Some c →
  Q (f c) w →
  safe ok (guarded l m (c ← client r; mret (f c))) w Q.
Proof.
  intros Hl Hc HQ. apply safe_guarded; [done|].
  eapply (safe_bind _ _ _ _ (λ c' w', c' = c ∧ w' = with_held w ((l, m) :: w_held w)));
    [by eapply safe_client|].
  intros c' w' _ [-> ->]. apply safe_ret. by destruct w.
Qed.

Lemma codec_of_safe ok r b h c w :
  w_held w = [] → w_clients w !! r = Some c →
  safe ok (codec_of r b h) w (λ o w', w' = w ∧ (b = true → o = None)).
Proof.
  intros Hh Hc. unfold codec_of. destruct b; [by apply safe_ret|].
  eapply safe_read_client; [rewrite Hh; set_solver|done|done].
Qed.

(** A call of an SRTP context: the client stays as it was otherwise, and the
    result is [none] or what the call gives. *)
Lemma safe_srtp {A} ok r c w (none : A) k (Q : A → World → Prop) :
  LSrtp r ∉ (w_held w).*1 → w_clients w !! r = Some c →
  (∀ w', Q none w') →
  (∀ t w' c', w_clients w' !! r = Some c' → c_runtime c' = c_runtime c → Q (k t).2 w') →
  safe ok (with_srtp r none k) w Q.
Proof.
  intros Hl Hc Hnone HQ. apply safe_guarded; [done|].
  eapply (safe_bind _ _ _ _ (λ c' w', c' = c ∧ w_clients w' !! r = Some c));
    [by eapply safe_client|].
  intros c' w' _ [-> Hc']. destruct (c_srtp c) as [t|] eqn:Ht; [|apply safe_ret, Hnone].
  specialize (HQ t). destruct (k t) as [t' a].
  eapply (safe_bind _ _ _ _ (λ _ w', w_clients w' !! r = Some (set_srtp (Some t') c)));
    [apply safe_update|].
  - intros c'' Hc''. simplify_eq. split; try done.
    by apply client_ok_ext.
  - intros w'' ->. by rewrite lookup_alter_eq, Hc'.
  - intros [] w'' _ Hc''. apply safe_ret. by eapply HQ.
Qed.

Lemma decrypt_safe ok r addr b h message c w :
  w_held w = [] → w_clients w !! r = Some c → (12 ≤ length message)%nat →
  safe ok (decrypt r addr b h message) w
    (λ res w', ∀ m, res = Ok m → b = false → (12 ≤ length m)%nat ∧
       ∃ c', w_clients w' !! r = Some c' ∧ c_runtime c' = c_runtime c).
Proof.
  intros Hh Hc Hlen. apply (safe_srtp _ _ c); [rewrite Hh; set_solver|done|done|].
  intros t w' cl Hcl Hrt m. destruct b; [by destruct (unprotect_rtcp t message) as [[]]|].
  unfold unprotect. destruct (srtp_unprotect (srtp_client t) message) as [[c' m'] e] eqn:Hu.
  destruct e; simpl; [done|]. case_bool_decide; [done|].
  intros [= <-] _. split; [by eapply unprotect_length|by exists cl].
Qed.

Lemma encrypt_safe ok r addr b message c w :
  LSrtp r ∉ (w_held w).*1 → w_clients w !! r = Some c →
  safe ok (encrypt_for r addr b message) w (λ _ _, True).
Proof. intros Hh Hc. by apply (safe_srtp _ _ c). Qed.

(** The messages and packets a run may produce. *)
Definition serves (w : World) (c : Client) (a : SocketAddr) : Prop :=
  ∃ r cr, c_receivers c !! a = Some r ∧ w_clients w !! r = Some cr ∧ c_deleted cr = false.

Lemma serve_safe (ok : Effect → Prop) addr b o h message p c w :
  (b = true → o = None) → LSrtp p.2 ∉ (w_held w).*1 → w_clients w !! p.2 = Some c →
  (c_deleted c = false → ∀ m, ok (UdpSend (Rtc m p.1))) →
  safe ok (serve addr b o h message p) w (λ _ _, True).
Proof.
  intros Ho Hh Hc Hok. unfold serve.
  eapply (safe_bind _ _ _ _ (λ c' w', c' = c ∧ w' = w)); [by eapply safe_client|].
  intros c' w' _ [-> ->]. destruct (c_deleted c) eqn:Hd; [by apply safe_ret|].
  eapply (safe_bind _ _ _ _ (λ _ _, True)); [by eapply encrypt_safe|].
  intros [m|e] w' Hrel _; [|by apply safe_ret].
  eapply (safe_bind _ _ _ _ (λ _ _, True)).
  { unfold adapt_payload. destruct b; [rewrite Ho by done|]; by apply safe_ret. }
  intros m' w'' Hrel' _. eapply (safe_bind _ _ _ _ (λ _ _, True)).
  { apply safe_send; [by apply Hok|done]. }
  intros [] w3 _ _. by apply safe_ret.
Qed.

Lemma try_for_each_safe {A} ok late (f : A → M (result unit ErrorParse)) l w0 w res :
  rtc_rel ok w0 w →
  (∀ a w, a ∈ l → rtc_rel ok w0 w → safe ok (f a) w (λ _ _, True)) →
  safe ok (try_for_each late f l res) w (λ _ _, True).
Proof.
  revert w res. induction l as [|a l IH]; intros w res Hrel Hf; simpl; [by apply safe_ret|].
  assert (∀ w' res, rtc_rel ok w w' → safe ok (try_for_each late f l res) w' (λ _ _, True))
    as Hl.
  { intros w' res' Hrel'. apply IH; [by etrans|]. intros b w'' Hb. apply Hf. by right. }
  pose proof (Hf a w (list_elem_of_here _ _) Hrel) as Ha.
  destruct res as [u|e]; [|destruct (late a); [|by apply Hl]];
    (eapply safe_bind; [exact Ha|]); intros r w' Hrel' _; by apply Hl.
Qed.

Lemma feedback_safe ok r message c w :
  w_held w = [(LReceivers r, Read)] → world_ok (with_held w []) →
  w_clients w !! r = Some c →
  safe ok (feedback r message) w (λ res _, ∀ a m, res = Some (Ok (a, m)) →
    c_sender_addr c = Some a ∧ is_Some (w_storage w !! a)).
Proof.
  intros Hh Hw Hc. unfold feedback. apply safe_guarded; [rewrite Hh; set_solver|].
  eapply (safe_bind _ _ _ _ (λ c' w', c' = c ∧
      w' = with_held w [(LSenderAddr r, Read); (LReceivers r, Read)]));
    [eapply safe_client; [done|]; by rewrite Hh|].
  intros c' w' _ [-> ->]. destruct (c_sender_addr c) as [s|] eqn:Hs; [|by apply safe_ret].
  eapply (safe_bind _ _ _ _ (λ o w', o = w_storage w !! s)).
  { apply safe_guarded; [simpl; set_solver|].
    eapply (safe_bind _ _ _ _ (λ st _, st = w_storage w)); [by apply safe_get_storage|].
    intros st w' _ ->. by apply safe_ret. }
  intros o w' Hrel ->. destruct (w_storage w !! s) as [r'|] eqn:Hr'; [|by apply safe_ret].
  destruct (ok_storage _ Hw s r' Hr') as (cs & Hcs & _).
  destruct (rel_lookup _ _ _ r' cs Hrel) as (cs' & Hcs' & _); [done|].
  apply (safe_srtp _ _ cs'); [rewrite (rel_held _ _ _ Hrel); simpl; set_solver|done|done|].
  intros t wl cl _ _ a m. destruct (protect_rtcp t message) as [[t' m'] [u|e]]; simpl; [|done].
  intros [= <- <-]. rewrite Hr'. by eauto.
Qed.

Definition rtc_effect (addr : SocketAddr) (w : World) (c : Client) (e : Effect) : Prop :=
  match e with
  | UdpSend (Rtc _ a) =>
      serves w c a ∨
      c_receivers c = ∅ ∧ c_sender_addr c = Some a ∧ is_Some (w_storage w !! a)
  | JitterIncrease a | JitterDecrease a => a = addr
  | _ => False
  end.

Lemma set_runtime_keeps c f rt rt' :
  c_runtime c !! f = Some rt → runtime_ok rt' → keeps c (set_runtime (<[f := rt']> (c_runtime c)) c).
Proof.
  intros Hrt Hok. split; try done; simpl.
  - intros g Hg. rewrite lookup_insert_is_Some'. by right.
  - intros Hc. split; simpl; [| |apply Hc].
    + intros m id g Hm Hg. rewrite lookup_insert_is_Some'. right. by eapply (ok_media _ Hc).
    + intros g r [[<- <-]|[_ Hg]]%lookup_insert_Some; [|by eapply (ok_runtime _ Hc)].
      split; [|done]. by destruct (ok_runtime _ Hc f rt Hrt).
Qed.

Lemma renumber_packet_safe (ok : Effect → Prop) rd r addr o h message c w :
  w_held w = [] → w_clients w !! r = Some c → client_ok c →
  (∀ f rt, c_runtime c !! f = Some rt → clock_ok rt (at_packet rd)) →
  is_u16 (sequence h) → is_u32 (timestamp h) → (12 ≤ length message)%nat →
  ok (JitterIncrease addr) → ok (JitterDecrease addr) →
  safe ok (renumber_packet Release rd r addr o h message) w (λ _ _, True).
Proof.
  intros Hh Hc Hcok Hclock Hseq Hts Hlen Hinc Hdec. unfold renumber_packet.
  apply safe_guarded; [rewrite Hh; set_solver|].
  eapply (safe_bind _ _ _ _ (λ c' w', c' = c ∧ w' = with_held w [(LRuntime r, Write)]));
    [eapply safe_client; [done|]; by rewrite Hh|].
  intros c' w' _ [-> ->]. destruct o as [[name f]|]; simpl; [|by apply safe_ret].
  destruct (c_runtime c !! f) as [rt|] eqn:Hrt; simpl; [|by apply safe_ret].
  destruct (ok_runtime _ Hcok _ _ Hrt) as [_ Hrtok].
  destruct (advance_release rt h (at_packet rd)) as (rt' & cd & d & Hadv & Hrtok' & _);
    [done..|by eapply Hclock|].
  eapply (safe_bind _ _ _ _ (λ x w', x = rd ∧ w' = with_held w [(LRuntime r, Write)]));
    [by apply runs_clock|].
  intros _ w' _ [-> ->].
  eapply (safe_bind _ _ _ _ (λ x w', x = (rt', cd, d) ∧ w' = with_held w [(LRuntime r, Write)]));
    [by eapply safe_lift|].
  intros _ w' _ [-> ->].
  eapply (safe_bind _ _ _ _ (λ _ _, True)).
  { apply safe_update; [|done]. intros c' Hc'. simpl in *. simplify_eq.
    by eapply set_runtime_keeps. }
  intros [] w1 Hrel1 _.
  destruct (replace_Done message (server_sequence rt') (server_ts rt')) as [m' Hm'];
    [lia|apply Hrtok'|apply Hrtok'|].
  eapply (safe_bind _ _ _ _ (λ x w', w' = w1)); [by eapply safe_lift|].
  intros m'' w' _ ->.
  destruct (rel_lookup _ _ _ r c Hrel1) as (c1 & Hc1 & Hk1); [done|].
  eapply (safe_bind _ _ _ _ (λ _ _, True)); [|intros [] w2 _ _; by apply safe_ret].
  apply safe_guarded; [rewrite (rel_held _ _ _ Hrel1); simpl; set_solver|].
  eapply (safe_bind _ _ _ _ (λ c' w', c' = c1 ∧ w_clients w' !! r = Some c1));
    [by eapply safe_client|].
  intros c' w2 _ [-> Hc2].
  destruct (update_jitter_release f d cd (c_jitter c1) (at_check rd) (at_update rd))
    as (js' & cmd & Hjs & Hjok); [apply (ok_jitter _ (keeps_ok _ _ Hk1 Hcok))|].
  eapply (safe_bind _ _ _ _ (λ x w', x = (js', cmd) ∧ w' = w2)); [by eapply safe_lift|].
  intros _ w' _ [-> ->].
  eapply (safe_bind _ _ _ _ (λ _ _, True)).
  { apply safe_update; [|done]. intros c' Hc'. simplify_eq. split; try done.
    intros []. by split. }
  intros [] w3 _ _. destruct cmd as [[]|]; [by apply safe_send..|by apply safe_ret].
Qed.

Lemma serves_rel ok w w' c a r cr' :
  rtc_rel ok w w' → c_receivers c !! a = Some r → w_clients w' !! r = Some cr' →
  c_deleted cr' = false → serves w c a.
Proof.
  intros Hrel Ha Hcr Hd. destruct (rel_lookup_inv _ _ _ _ _ Hrel Hcr) as (cr & Hcr0 & Hk).
  exists r, cr. by rewrite <- (keeps_deleted _ _ Hk).
Qed.

Lemma forward_safe s r addr b o h message c w0 w :
  world_ok w0 → rtc_rel (rtc_effect addr w0 c) w0 w → schedule_ok s →
  w_clients w0 !! r = Some c → (b = true → o = None) →
  safe (rtc_effect addr w0 c) (forward s r addr b o h message) w (λ _ _, True).
Proof.
  intros Hw0 Hrel Hs Hc0 Ho. pose proof (rel_world_ok _ _ _ Hrel Hw0) as Hw.
  destruct (rel_lookup _ _ _ _ _ Hrel Hc0) as (c1 & Hc & Hk).
  unfold forward. apply safe_guarded; [rewrite (ok_held _ Hw); set_solver|].
  eapply (safe_bind _ _ _ _ (λ c' w', c' = c1 ∧ w' = with_held w [(LReceivers r, Read)]));
    [eapply safe_client; [done|]; by rewrite (ok_held _ Hw)|].
  intros c' w' _ [-> ->]. rewrite (keeps_receivers _ _ Hk).
  destruct (b && bool_decide (c_receivers c = ∅)) eqn:Hb.
  - apply andb_prop in Hb as [_ Hempty%bool_decide_eq_true].
    eapply safe_bind; [eapply (feedback_safe _ _ _ c1); [done| |done]|].
    { destruct Hw. by split. }
    intros res w1 Hrel1 Hres. destruct res as [[[a m]|e]|]; [|by apply safe_ret..].
    destruct (Hres a m eq_refl) as [Hsend Hst]. simpl in Hst.
    rewrite (keeps_sender _ _ Hk) in Hsend. rewrite (rel_storage _ _ _ Hrel) in Hst.
    eapply (safe_bind _ _ _ _ (λ _ _, True)); [apply safe_send; [by right|done]|].
    intros [] w2 _ _. by apply safe_ret.
  - eapply (try_for_each_safe _ _ _ _ (with_held w [(LReceivers r, Read)])); [done|].
    intros [a r'] w1 Hin Hrel1. rewrite (Hs _), elem_of_map_to_list in Hin.
    assert (is_Some (w_clients w !! r')) as [cr Hcr].
    { eapply (ok_receivers _ Hw r c1 a); [done|]. by rewrite (keeps_receivers _ _ Hk). }
    destruct (rel_lookup _ _ _ r' cr Hrel1) as (cr1 & Hcr1 & Hkr); [done|].
    apply (serve_safe _ _ _ _ _ _ _ cr1); [done| |done|].
    + rewrite (rel_held _ _ _ Hrel1). simpl. set_solver.
    + intros Hd m. left. apply (serves_rel _ _ _ _ _ r' cr Hrel); [done..|].
      by rewrite <- (keeps_deleted _ _ Hkr).
Qed.

Lemma process_safe rd s r addr b h message c w :
  world_ok w → schedule_ok s → w_clients w !! r = Some c →
  (∀ f rt, c_runtime c !! f = Some rt → clock_ok rt (at_packet rd)) →
  is_u16 (sequence h) → is_u32 (timestamp h) → (12 ≤ length message)%nat →
  safe (rtc_effect addr w c) (process Release rd s r addr b h message) w (λ _ _, True).
Proof.
  intros Hw Hs Hc Hclock Hseq Hts Hlen. unfold process.
  eapply safe_bind; [eapply codec_of_safe; [apply Hw|done]|]. intros o w1 _ [-> Ho].
  eapply safe_bind; [eapply decrypt_safe; [apply Hw|done|done]|].
  intros [m|e] w2 Hrel Hm; [|by apply safe_ret].
  pose proof (rel_world_ok _ _ _ Hrel Hw) as Hw2.
  eapply (safe_bind _ _ _ _ (λ _ _, True)).
  - destruct b; [by apply safe_ret|].
    destruct (Hm m eq_refl eq_refl) as (Hlen' & c2 & Hc2 & Hrt2).
    eapply (renumber_packet_safe _ _ _ _ _ _ _ c2); try done; [apply Hw2| |].
    + by eapply (ok_client _ Hw2).
    + by rewrite Hrt2.
  - intros [m'|e] w3 Hrel3 _; [|by apply safe_ret].
    apply (forward_safe _ _ _ _ _ _ _ c); [done|by etrans|done..].
Qed.
End rtc_safety.

(** ** The properties of the handler *)

Section rtc_properties.
Context {P : Platform} {PL : PlatformLaws P}.

Lemma find_client a w :
  w_held w = [] →
  guarded LStorage Read (st ← get_storage; mret (st !! a)) w = Done (w_storage w !! a, w).
Proof.
  intros Hw. apply runs_eq. destruct w. simpl in *. subst. run_guard. repeat run_step. done.
Qed.

(** The handler on a packet of a known client. *)
Lemma handle_rtc_known prof rd s message addr r res w :
  w_held w = [] → bytes_ok message → w_storage w !! addr = Some r → from_buf message = Done res →
  handle_rtc prof rd s (Rtc message addr) w =
  (x ← tryM (mret res)
     (λ h, process prof rd s r addr (rtcp_shape message) h message); mret (Some x)) w.
Proof.
  intros Hw Hb Hr Hf. unfold handle_rtc.
  rewrite run_bind, find_client, Hr by done. rewrite run_bind, run_lift, is_rtcp_shape by done.
  bind_step. by rewrite run_bind, run_lift, Hf.
Qed.

(** Every run of the handler returns, and changes the world as [rtc_rel] says. *)
Lemma handle_rtc_rel rd s message addr w :
  world_ok w → schedule_ok s → bytes_ok message →
  (∀ r c f rt, w_storage w !! addr = Some r → w_clients w !! r = Some c →
     c_runtime c !! f = Some rt → clock_ok rt (at_packet rd)) →
  ∃ res w', handle_rtc Release rd s (Rtc message addr) w = Done (res, w') ∧
    rtc_rel (λ e, ∃ r c, w_storage w !! addr = Some r ∧ w_clients w !! r = Some c ∧
               rtc_effect addr w c e) w w'.
Proof.
  intros Hw Hs Hb Hclock. destruct (w_storage w !! addr) as [r|] eqn:Hr.
  2: { exists None, w. split; [|reflexivity]. unfold handle_rtc.
       rewrite run_bind, find_client, Hr; [done|apply Hw]. }
  destruct (ok_storage _ Hw _ _ Hr) as (c & Hc & _).
  destruct (from_buf_total message Hb) as (res & Hf & _).
  assert (safe (rtc_effect addr w c) (x ← tryM (mret res)
     (λ h, process Release rd s r addr (rtcp_shape message) h message); mret (Some x)) w
     (λ _ _, True)) as Hsafe.
  { eapply (safe_bind _ _ _ _ (λ _ _, True)); [|intros x w1 _ _; by apply safe_ret].
    destruct res as [h|e]; [|by apply safe_ret].
    destruct (from_buf_Ok message h Hb Hf) as (Hshape & _ & Hseq & Hts).
    apply rtp_shape_length in Hshape.
    eapply (process_safe _ _ _ _ _ _ _ c); eauto with lia. }
  apply runs_Done in Hsafe as (x & w' & Hrun & Hrel & _).
  exists x, w'. rewrite (handle_rtc_known _ _ _ _ _ r res) by (done || apply Hw). split; [done|].
  eapply rtc_rel_mono; [|exact Hrel]. intros e He. by exists r, c.
Qed.

(** C11. Forwarding is safe: whatever packet arrives, from whatever state of the
    shared store, the handler returns in the release profile without waiting for
    a lock it holds and without panic, keeps the store well formed, and what it
    sends goes to a live receiver of the packet's sender, or back to the client's
    own sender when the client has no receivers; the only other messages are
    jitter commands for the packet's address. *)
Theorem rtc_handler_safe rd s message addr w :
  world_ok w → schedule_ok s → bytes_ok message →
  (∀ r c f rt, w_storage w !! addr = Some r → w_clients w !! r = Some c →
     c_runtime c !! f = Some rt → clock_ok rt (at_packet rd)) →
  ∃ res w', handle_rtc Release rd s (Rtc message addr) w = Done (res, w') ∧ world_ok w' ∧
    w_storage w' = w_storage w ∧ w_groups w' = w_groups w ∧
    ∃ new, w_sent w' = w_sent w ++ new ∧
      ∀ e, e ∈ new → ∃ r c, w_storage w !! addr = Some r ∧ w_clients w !! r = Some c ∧
        rtc_effect addr w c e.
Proof.
  intros Hw Hs Hb Hclock.
  destruct (handle_rtc_rel rd s message addr w) as (res & w' & Hrun & Hrel); [done..|].
  exists res, w'. split; [done|]. split; [by eapply rel_world_ok|].
  split; [apply Hrel|]. split; [apply Hrel|].
  destruct (rel_sent _ _ _ Hrel) as (new & Hnew & Hall). exists new. split; [done|].
  by apply Forall_forall.
Qed.

(** *** The exact effect of forwarding an RTP packet *)

(** The context a client's outgoing packets are encrypted with, and what it makes
    of a message. *)
Definition outbound (cs : gmap ClientRef Client) (r : ClientRef) : option Srtp :=
  c ← cs !! r; t ← c_srtp c; Some (srtp_server t).

Definition packet_for (cs : gmap ClientRef Client) (message : DataPacket) (r : ClientRef) :
    option DataPacket :=
  k ← outbound cs r;
  match srtp_protect k message with (_, m, None) => Some m | _ => None end.

Definition is_live (cs : gmap ClientRef Client) (p : SocketAddr * ClientRef) : bool :=
  match cs !! p.2 with Some c => negb (c_deleted c) | None => false end.

(** The packets of the live receivers in [l], in order. *)
Definition packets (cs : gmap ClientRef Client) (message : DataPacket)
    (l : list (SocketAddr * ClientRef)) : list Effect :=
  omap (λ p, if is_live cs p
             then (λ m, UdpSend (Rtc m p.1)) <$> packet_for cs message p.2 else None) l.

(** Why a receiver cannot be sent the message: its SRTP context does not exist yet, or
    libsrtp refuses to encrypt; a deleted client is passed over. *)
Definition failure (addr : SocketAddr) (cs : gmap ClientRef Client) (message : DataPacket)
    (p : SocketAddr * ClientRef) : option ErrorParse :=
  c ← cs !! p.2;
  if c_deleted c then None
  else match c_srtp c with
       | None => Some (ClientNotReady addr)
       | Some t => match (protect t message).2 with Ok _ => None | Err e => Some e end
       end.

(** The receivers the closures run for: in the order of the pool up to the first
    failure, and after it only those the pool still serves. *)
Fixpoint served {A} (late : A → bool) (fails : A → Prop) `{!∀ a, Decision (fails a)}
    (l : list A) : list A :=
  match l with
  | [] => []
  | a :: l => a :: (if decide (fails a) then filter (λ b, late b = true) l
                    else served late fails l)
  end.

(** The first error, if any. *)
Definition first_failure {A E} (fail : A → option E) (l : list A) : result unit E :=
  match omap fail l with [] => Ok tt | e :: _ => Err e end.

(** The receivers of the packet of a client, in the order they are taken, and those
    that are served. *)
Definition taken_receivers (s : Schedule) (c : Client) : list (SocketAddr * ClientRef) :=
  sch_order s (map_to_list (c_receivers c)).

Definition served_receivers (s : Schedule) (addr : SocketAddr) (cs : gmap ClientRef Client)
    (message : DataPacket) (c : Client) : list (SocketAddr * ClientRef) :=
  served (λ p, sch_late s p.1) (λ p, is_Some (failure addr cs message p)) (taken_receivers s c).

(** Encrypting the message advances the context of each client it is encrypted for,
    whether or not libsrtp then refuses it. *)
Definition after_encrypt (message : DataPacket) (c : Client) : Client :=
  if c_deleted c then c
  else match c_srtp c with
       | Some t => set_srtp (Some (protect t message).1.1) c
       | None => c
       end.

Definition encrypt_all (message : DataPacket) (l : list (SocketAddr * ClientRef))
    (cs : gmap ClientRef Client) : gmap ClientRef Client :=
  map_imap (λ r c, Some (if decide (r ∈ l.*2) then after_encrypt message c else c)) cs.

Lemma packets_ext cs cs' message l :
  (∀ q, q ∈ l → is_live cs q = is_live cs' q ∧
                packet_for cs message q.2 = packet_for cs' message q.2) →
  packets cs message l = packets cs' message l.
Proof.
  intros Hl. unfold packets. induction l as [|q l IH]; [done|]. simpl.
  destruct (Hl q) as [-> ->]; [apply list_elem_of_here|].
  case_match; [f_equal|]; apply IH; intros q' Hq'; apply Hl; by right.
Qed.

Lemma packets_app cs message l k :
  packets cs message (l ++ k) = packets cs message l ++ packets cs message k.
Proof. apply omap_app. Qed.

(** A live receiver gets its packet unless there is a failure. *)
Lemma failure_packet addr cs message p :
  is_live cs p = true → (is_Some (packet_for cs message p.2) ↔ failure addr cs message p = None).
Proof.
  unfold is_live, failure, packet_for, outbound. destruct (cs !! p.2) as [c|]; [|done]. simpl.
  intros ->%negb_true_iff. destruct (c_srtp c) as [t|]; simpl; [|by split; [intros []|]].
  unfold protect. destruct (srtp_protect _ _) as [[k m] [e|]]; simpl; [by split; [intros []|]|].
  by split; [|eexists].
Qed.

Lemma failure_no_packets addr cs message p e :
  failure addr cs message p = Some e → packets cs message [p] = [].
Proof.
  intros He. unfold packets. simpl. destruct (is_live cs p) eqn:Hl; [|done].
  destruct (packet_for cs message p.2) as [m|] eqn:Hm; [|done].
  assert (failure addr cs message p = None) by (apply failure_packet; [done|by eexists]).
  congruence.
Qed.

Lemma served_all {A} late (fails : A → Prop) `{!∀ a, Decision (fails a)} l :
  (∀ a, a ∈ l → ¬ fails a) → served late fails l = l.
Proof.
  induction l as [|a l IH]; intros Hl; [done|]. simpl.
  rewrite decide_False by apply Hl, list_elem_of_here. f_equal. apply IH.
  intros b Hb. apply Hl. by right.
Qed.

Lemma served_sublist {A} late (fails : A → Prop) `{!∀ a, Decision (fails a)} l :
  served late fails l `sublist_of` l.
Proof.
  induction l as [|a l IH]; [done|]. simpl. apply sublist_skip.
  case_decide; [apply sublist_filter|done].
Qed.

Lemma served_ext {A} late (fails fails' : A → Prop) `{!∀ a, Decision (fails a)}
    `{!∀ a, Decision (fails' a)} l :
  (∀ a, a ∈ l → (fails a ↔ fails' a)) → served late fails l = served late fails' l.
Proof.
  induction l as [|a l IH]; intros Hl; [done|]. simpl.
  rewrite IH by (intros b Hb; apply Hl; by right).
  pose proof (Hl a (list_elem_of_here _ _)). by do 2 case_decide; [|naive_solver..|].
Qed.

Lemma first_failure_ext {A E} (fail fail' : A → option E) l :
  (∀ a, a ∈ l → fail a = fail' a) → first_failure fail l = first_failure fail' l.
Proof.
  unfold first_failure. intros Hl. assert (omap fail l = omap fail' l) as ->; [|done].
  induction l as [|a l IH]; [done|]. csimpl. rewrite (Hl a) by apply list_elem_of_here.
  by rewrite IH by (intros b Hb; apply Hl; by right).
Qed.

(** The first failure splits the receivers. *)
Lemma first_failure_Err {A E} late (fail : A → option E) l e :
  first_failure fail l = Err e → ∃ before a after, l = before ++ a :: after ∧
    (∀ b, b ∈ before → fail b = None) ∧ fail a = Some e ∧
    served late (λ a, is_Some (fail a)) l = before ++ a :: filter (λ b, late b = true) after.
Proof.
  unfold first_failure. induction l as [|a l IH]; simpl; [done|].
  destruct (fail a) as [e'|] eqn:Ha; simpl.
  - intros [= ->]. exists [], a, l. split; [done|]. split; [by intros b Hb%not_elem_of_nil|].
    done.
  - intros (before & b & after & -> & Hbefore & Hb & Hserved)%IH.
    exists (a :: before), b, after. split; [done|]. split.
    { intros b' [->|Hb']%elem_of_cons; auto. }
    split; [done|]. by rewrite Hserved.
Qed.

Lemma first_failure_Ok {A E} (fail : A → option E) l :
  first_failure fail l = Ok tt ↔ ∀ a, a ∈ l → fail a = None.
Proof.
  unfold first_failure. induction l as [|a l IH]; simpl.
  { split; [by intros _ a Ha%not_elem_of_nil|done]. }
  destruct (fail a) as [e|] eqn:Ha; simpl.
  - split; [done|]. intros Hl. specialize (Hl a (list_elem_of_here _ _)). congruence.
  - rewrite IH. split; intros Hl b Hb; [|apply Hl; by right].
    apply elem_of_cons in Hb as [->|Hb]; auto.
Qed.

Lemma encrypt_all_nil message cs : encrypt_all message [] cs = cs.
Proof.
  apply map_eq. intros r. unfold encrypt_all. rewrite map_lookup_imap.
  destruct (cs !! r) as [c|]; [|done]. change (Some (if decide (r ∈ []) then after_encrypt message c else c) = Some c).
  by rewrite decide_False by apply not_elem_of_nil.
Qed.

Lemma encrypt_all_cons message p l cs :
  p.2 ∉ l.*2 →
  encrypt_all message (p :: l) cs = encrypt_all message l (alter (after_encrypt message) p.2 cs).
Proof.
  intros Hp. apply map_eq. intros r. unfold encrypt_all. rewrite !map_lookup_imap.
  destruct (decide (r = p.2)) as [->|Hr].
  - rewrite lookup_alter_eq. destruct (cs !! p.2) as [c|]; [|done]. cbn.
    do 2 case_decide; [done| |done|]; set_solver.
  - rewrite lookup_alter_ne by done. destruct (cs !! r) as [c|]; [|done]. cbn.
    do 2 case_decide; [done| | |done]; set_solver.
Qed.

Lemma encrypt_all_runtime message l cs r :
  c_runtime <$> encrypt_all message l cs !! r = c_runtime <$> cs !! r.
Proof.
  unfold encrypt_all. rewrite map_lookup_imap. destruct (cs !! r) as [c|]; simpl; [|done].
  f_equal. case_decide; [|done]. unfold after_encrypt. by repeat case_match.
Qed.

Definition command_effects (addr : SocketAddr) (cmd : option JitterCommand) : list Effect :=
  match cmd with
  | Some CommandIncrease => [JitterIncrease addr]
  | Some CommandDecrease => [JitterDecrease addr]
  | None => []
  end.

Lemma with_srtp_Done {A} r (none : A) k c t t' a w :
  LSrtp r ∉ (w_held w).*1 → w_clients w !! r = Some c → c_srtp c = Some t → k t = (t', a) →
  with_srtp r none k w =
  Done (a, with_clients w (<[r := set_srtp (Some t') c]> (w_clients w))).
Proof.
  intros Hl Hc Ht Hk. apply runs_eq. unfold with_srtp. apply runs_guarded; [done|].
  run_step. eapply runs_client; [done|]. rewrite Ht, Hk. run_step. run_step. run_step.
  destruct w. simpl in *. split; [done|]. split; [done|]. world_eq.
  by apply (alter_is_insert (set_srtp (Some t'))).
Qed.

Lemma with_srtp_None {A} r (none : A) k c w :
  LSrtp r ∉ (w_held w).*1 → w_clients w !! r = Some c → c_srtp c = None →
  with_srtp r none k w = Done (none, w).
Proof.
  intros Hl Hc Ht. apply runs_eq. unfold with_srtp. apply runs_guarded; [done|].
  run_step. eapply runs_client; [done|]. rewrite Ht. run_step. by destruct w.
Qed.

(** Serving one receiver. *)
Lemma serve_spec addr o h message p c w :
  LSrtp p.2 ∉ (w_held w).*1 → w_clients w !! p.2 = Some c →
  serve addr false o h message p w =
  Done (match failure addr (w_clients w) message p with None => Ok tt | Some e => Err e end,
        with_sent (with_clients w (alter (after_encrypt message) p.2 (w_clients w)))
          (w_sent w ++ packets (w_clients w) message [p])).
Proof.
  intros Hl Hc. unfold serve. rewrite run_bind. erewrite run_client by done. cbv beta iota.
  unfold failure, packets, is_live, packet_for, outbound. simpl. rewrite Hc. simpl.
  rewrite (alter_is_insert (after_encrypt message) _ _ c) by done. unfold after_encrypt.
  destruct (c_deleted c) eqn:Hd; simpl.
  { rewrite insert_id, app_nil_r by done. by destruct w. }
  unfold tryM, encrypt_for. rewrite run_bind.
  destruct (c_srtp c) as [t|] eqn:Ht; simpl.
  - unfold protect. destruct (srtp_protect (srtp_server t) message) as [[k m] e] eqn:Hp.
    erewrite with_srtp_Done; [|done..|unfold protect; by rewrite Hp].
    destruct e as [e|]; simpl; [|done]. rewrite app_nil_r. by destruct w.
  - erewrite with_srtp_None by done. simpl. rewrite insert_id, app_nil_r by done.
    by destruct w.
Qed.

(** What the loop does from a result [r] on. *)
Definition loop_result {E} (r res : result unit E) : result unit E :=
  match r with Ok _ => res | Err e => Err e end.

Lemma try_for_each_spec addr o h message late l r w :
  NoDup l.*2 → (∀ p, p ∈ l → LSrtp p.2 ∉ (w_held w).*1) →
  (∀ p, p ∈ l → is_Some (w_clients w !! p.2)) →
  let fail := failure addr (w_clients w) message in
  let run := match r with Ok _ => served late (λ p, is_Some (fail p)) l
             | Err _ => filter (λ p, late p = true) l end in
  try_for_each late (serve addr false o h message) l r w =
  Done (loop_result r (first_failure fail l),
        with_sent (with_clients w (encrypt_all message run (w_clients w)))
          (w_sent w ++ packets (w_clients w) message run)).
Proof.
  revert r w. induction l as [|p l IH]; intros r w Hnd Hl Hp fail run.
  { assert (run = []) as -> by by destruct r. rewrite encrypt_all_nil, app_nil_r.
    destruct w, r as [[]|]; done. }
  inversion Hnd as [|? ? Hnotin Hnd']; subst. clear Hnd.
  destruct (Hp p) as [c Hc]; [apply list_elem_of_here|].
  set (w1 := with_sent (with_clients w (alter (after_encrypt message) p.2 (w_clients w)))
               (w_sent w ++ packets (w_clients w) message [p])).
  assert (∀ q, q ∈ l → w_clients w1 !! q.2 = w_clients w !! q.2) as Hsame.
  { intros q Hq. simpl. apply lookup_alter_ne. intros Heq. apply Hnotin. rewrite Heq.
    by apply list_elem_of_fmap_2. }
  assert (∀ q, q ∈ l → failure addr (w_clients w1) message q = fail q) as Hfail.
  { intros q Hq. unfold fail, failure. by rewrite Hsame. }
  assert (∀ k, k `sublist_of` l → with_sent (with_clients w1 (encrypt_all message k (w_clients w1)))
            (w_sent w1 ++ packets (w_clients w1) message k) =
          with_sent (with_clients w (encrypt_all message (p :: k) (w_clients w)))
            (w_sent w ++ packets (w_clients w) message (p :: k))) as Hworld.
  { intros k Hk. assert (∀ q, q ∈ k → q ∈ l) as Hin
      by (intros q Hq; by eapply elem_of_sublist).
    rewrite encrypt_all_cons.
    2: { intros (q & Hq & Hqk)%list_elem_of_fmap. apply Hnotin. rewrite Hq.
         by apply list_elem_of_fmap_2, Hin. }
    rewrite (packets_app _ _ [p] k : packets _ _ (p :: k) = _), app_assoc.
    rewrite (packets_ext (w_clients w1) (w_clients w)); [done|].
    intros q Hq%Hin. unfold is_live, packet_for, outbound. by rewrite Hsame. }
  assert (∀ r', try_for_each late (serve addr false o h message) l r' w1 =
    let run := match r' with Ok _ => served late (λ p, is_Some (fail p)) l
             | Err _ => filter (λ p, late p = true) l end in
    Done (loop_result r' (first_failure fail l),
          with_sent (with_clients w (encrypt_all message (p :: run) (w_clients w)))
          (w_sent w ++ packets (w_clients w) message (p :: run)))) as Hnext.
  { intros r'. rewrite IH; [|done|..].
    - rewrite (first_failure_ext _ fail) by done. simpl. do 2 f_equal. destruct r'.
      + rewrite <- Hworld by apply served_sublist.
        by rewrite (served_ext _ _ (λ p, is_Some (fail p))) by (intros q Hq; by rewrite Hfail).
      + by rewrite <- Hworld by apply sublist_filter.
    - intros q Hq. apply Hl. by right.
    - intros q Hq. rewrite Hsame by done. apply Hp. by right. }
  assert (serve addr false o h message p w =
    Done (match fail p with None => Ok tt | Some e => Err e end, w1)) as Hserve.
  { eapply serve_spec; [|done]. apply Hl, list_elem_of_here. }
  unfold run. clear run. destruct r as [[]|e]; simpl.
  - rewrite run_bind, Hserve, Hnext. unfold first_failure. csimpl.
    by destruct (fail p) as [e|].
  - rewrite filter_cons. destruct (late p) eqn:Hlate; simpl.
    + by rewrite run_bind, Hserve, Hnext.
    + rewrite IH; [done|done|..]; intros q Hq; [apply Hl|apply Hp]; by right.
Qed.

(** *** The handler against a specification on one client *)

(** The codec of a payload type and its runtime entry. *)
Definition find_runtime (c : Client) (h : RtpHeader) : option (ClientRtpRuntime * Z) :=
  media ← c_media c;
  _ ← get_name media (payload h);
  frequency ← get_frequency media (payload h);
  rt ← c_runtime c !! frequency;
  Some (rt, frequency).

(** What an RTP packet does to the client it comes from, without the store and
    its locks: the new client, and the error or the message to forward and the
    command for the jitter buffer. *)
Definition rtp_step (prof : profile) (rd : Readings) (addr : SocketAddr) (c : Client)
    (h : RtpHeader) (message : DataPacket) :
    outcome (Client * result (DataPacket * option JitterCommand) ErrorParse) :=
  match c_srtp c with
  | None => Done (c, Err (ClientNotReady addr))
  | Some t =>
      let '(t', plain, r) := unprotect t message in
      let c := set_srtp (Some t') c in
      match r with
      | Err e => Done (c, Err e)
      | Ok _ =>
          if decide (payload h = 111) then Done (c, Err UnsupportedFormat)
          else match find_runtime c h with
               | None => Done (c, Err (CodecNotSet addr))
               | Some (rt, f) =>
                   '(rt', cd, d) ← advance_runtime prof rt h (at_packet rd);
                   m ← replace_sequence_n_timestamp plain (server_sequence rt') (server_ts rt');
                   '(js', cmd) ← update_jitter_stats prof f d cd (c_jitter c)
                                   (at_check rd) (at_update rd);
                   Done (set_jitter js' (set_runtime (<[f := rt']> (c_runtime c)) c), Ok (m, cmd))
               end
      end
  end.

Lemma runs_codec_of r h c w (Q : option (SmolStr * Z) → World → Prop) :
  w_held w = [] → w_clients w !! r = Some c →
  Q (media ← c_media c; name ← get_name media (payload h);
     frequency ← get_frequency media (payload h); Some (name, frequency)) w →
  runs (codec_of r false h) w Q.
Proof.
  intros Hh Hc HQ. unfold codec_of. apply runs_guarded; [rewrite Hh; set_solver|].
  run_step. eapply runs_client; [done|]. run_step. split; [done|]. destruct w; simpl in *. by subst.
Qed.

Lemma runs_renumber_packet prof rd r addr o h message c rt f rt' cd d m js' cmd w
    (Q : result DataPacket ErrorParse → World → Prop) :
  w_held w = [] → w_clients w !! r = Some c →
  ('(_, frequency) ← (o : option (SmolStr * Z)); rt ← c_runtime c !! frequency;
     Some (rt, frequency)) = Some (rt, f) →
  advance_runtime prof rt h (at_packet rd) = Done (rt', cd, d) →
  replace_sequence_n_timestamp message (server_sequence rt') (server_ts rt') = Done m →
  update_jitter_stats prof f d cd (c_jitter c) (at_check rd) (at_update rd) = Done (js', cmd) →
  Q (Ok m) (with_sent (with_clients w
      (<[r := set_jitter js' (set_runtime (<[f := rt']> (c_runtime c)) c)]> (w_clients w)))
      (w_sent w ++ command_effects addr cmd)) →
  runs (renumber_packet prof rd r addr o h message) w Q.
Proof.
  intros Hh Hc Ho Hadv Hrep Hup HQ. unfold renumber_packet.
  destruct w as [cs st g held sent]. simpl in *. subst held.
  apply runs_guarded; [set_solver|]. run_step. eapply runs_client; [done|]. rewrite Ho. run_step. run_step.
  rewrite Hadv. run_step. unfold runs at 1, lift. simpl. run_step. run_step.
  run_step. unfold runs at 1, lift. rewrite Hrep. simpl.
  run_step. apply runs_guarded; [simpl; set_solver|]. run_step.
  eapply runs_client; [simpl; by rewrite lookup_alter_eq, Hc|]. simpl. rewrite Hup.
  run_step. unfold runs at 1, lift. simpl. run_step. run_step. simpl.
  assert (∀ sent', sent' = sent ++ command_effects addr cmd →
    Q (Ok m) {| w_clients := alter (set_jitter js') r
                  (alter (set_runtime (<[f := rt']> (c_runtime c))) r cs);
                w_storage := st; w_groups := g; w_held := []; w_sent := sent' |}) as Hend.
  { intros sent' ->. rewrite (alter_is_insert _ cs r c Hc).
    erewrite alter_is_insert by apply lookup_insert_eq. by rewrite insert_insert_eq. }
  destruct cmd as [[]|]; run_step; (split; [done|]); run_step; (split; [done|]);
    unfold with_held, with_sent, with_clients; simpl; apply Hend; by rewrite ?app_nil_r.
Qed.

(** Everything before the receivers, in one step. *)
Lemma process_refines prof rd s r addr h message c c' res w :
  w_held w = [] → w_clients w !! r = Some c →
  rtp_step prof rd addr c h message = Done (c', res) →
  ∃ o, process prof rd s r addr false h message w =
  match res with
  | Err e => Done (Err e, with_clients w (<[r := c']> (w_clients w)))
  | Ok (m, cmd) =>
      forward s r addr false o h m
        (with_sent (with_clients w (<[r := c']> (w_clients w)))
           (w_sent w ++ command_effects addr cmd))
  end.
Proof.
  intros Hheld Hc Hstep.
  assert (∀ l, l ∉ (w_held w).*1) as Hfree by (rewrite Hheld; set_solver).
  eexists. unfold process. rewrite run_bind.
  erewrite (runs_eq (codec_of r false h)) by (eapply runs_codec_of; [done|done|by split]).
  unfold tryM at 1, decrypt. rewrite run_bind. unfold rtp_step in Hstep.
  destruct (c_srtp c) as [t|] eqn:Ht.
  2: { erewrite with_srtp_None by done. injection Hstep as <- <-.
       rewrite insert_id by done. by destruct w. }
  destruct (unprotect t message) as [[t' plain] ru] eqn:Hu.
  erewrite with_srtp_Done by (done || by rewrite Hu). simpl.
  set (c1 := set_srtp (Some t') c) in *. set (w1 := with_clients w (<[r:=c1]> (w_clients w))).
  destruct ru as [u|e]; [|by injection Hstep as <- <-].
  destruct (decide (payload h = 111)) as [H111|H111].
  { rewrite bool_decide_eq_true_2 by done. by injection Hstep as <- <-. }
  rewrite bool_decide_eq_false_2 by done.
  unfold tryM. rewrite run_bind.
  assert (w_clients w1 !! r = Some c1) as Hc1 by apply lookup_insert_eq.
  destruct (find_runtime c1 h) as [[rt f]|] eqn:Hfind; unfold find_runtime in Hfind;
    simpl in Hfind.
  - apply bind_Some in Hfind as (media & Hmedia & Hfind).
    apply bind_Some in Hfind as (name & Hname & Hfind).
    apply bind_Some in Hfind as (f' & Hf & Hfind).
    apply bind_Some in Hfind as (rt0 & Hrt & [= -> ->]).
    destruct (advance_runtime prof rt h (at_packet rd)) as [[[rt' cd] d]| |] eqn:Hadv;
      [|done..]. simpl in Hstep.
    destruct (replace_sequence_n_timestamp _ _ _) as [m| |] eqn:Hrep; [|done..]. simpl in Hstep.
    destruct (update_jitter_stats _ _ _ _ _ _ _) as [[js' cmd]| |] eqn:Hup; [|done..].
    injection Hstep as <- <-.
    erewrite (runs_eq (renumber_packet _ _ _ _ _ _ _)).
    2: { eapply (runs_renumber_packet _ _ _ _ _ _ _ c1 rt f); [done|done| |done..|by split].
         simpl. rewrite Hmedia. simpl. rewrite Hname. simpl. rewrite Hf. simpl. by rewrite Hrt. }
    f_equal. unfold w1. destruct w; world_eq. by rewrite insert_insert_eq.
  - injection Hstep as <- <-.
    erewrite (runs_eq (renumber_packet _ _ _ _ _ _ _) _ (Err (CodecNotSet addr)) w1);
      [reflexivity|].
    unfold renumber_packet. apply runs_guarded; [done|]. run_step.
    eapply runs_client; [done|].
    assert (('(_, frequency) ← (media ← c_media c; name ← get_name media (payload h);
              frequency ← get_frequency media (payload h); Some (name, frequency));
             rt ← c_runtime c1 !! frequency; Some (rt, frequency)) = None) as ->.
    { simpl. destruct (c_media c) as [media|]; [|done]. simpl in *.
      destruct (get_name media (payload h)); [|done]. simpl in *.
      destruct (get_frequency media (payload h)); [|done]. simpl in *. done. }
    run_step. by destruct w.
Qed.

Lemma handle_rtc_rtp prof rd s message addr r h w :
  w_held w = [] → bytes_ok message → w_storage w !! addr = Some r →
  from_buf message = Done (Ok h) → rtcp_shape message = false →
  handle_rtc prof rd s (Rtc message addr) w =
  (x ← process prof rd s r addr false h message; mret (Some x)) w.
Proof.
  intros Hw Hb Hr Hf Hs. rewrite (handle_rtc_known _ _ _ _ _ r (Ok h)) by done.
  by rewrite Hs.
Qed.

(** A rejected packet: the handler returns the error of the step, sends nothing, and
    changes nothing but the sender's own client, as specified. *)
Lemma rtp_rejected prof rd s message addr r c h c' e w :
  world_ok w → bytes_ok message → w_storage w !! addr = Some r → w_clients w !! r = Some c →
  from_buf message = Done (Ok h) → rtcp_shape message = false →
  rtp_step prof rd addr c h message = Done (c', Err e) →
  handle_rtc prof rd s (Rtc message addr) w =
  Done (Some (Err e), with_clients w (<[r := c']> (w_clients w))).
Proof.
  intros Hw Hb Hr Hc Hf Hs Hstep. rewrite (handle_rtc_rtp _ _ _ _ _ r h) by (done || apply Hw).
  destruct (process_refines prof rd s r addr h message c c' _ w (ok_held _ Hw) Hc Hstep) as [o Hp].
  by rewrite run_bind, Hp.
Qed.

(** What a step leaves alone in the client. *)
Lemma rtp_step_frame prof rd addr c h message c' res :
  rtp_step prof rd addr c h message = Done (c', res) →
  c_receivers c' = c_receivers c ∧ c_deleted c' = c_deleted c ∧
  (srtp_server <$> c_srtp c') = (srtp_server <$> c_srtp c).
Proof.
  unfold rtp_step. destruct (c_srtp c) as [t|] eqn:Ht; [|by intros [= <- <-]; rewrite Ht].
  unfold unprotect. destruct (srtp_unprotect (srtp_client t) message) as [[k plain] [e|]]; simpl;
    [by intros [= <- <-]|].
  case_decide; [by intros [= <- <-]|].
  destruct (find_runtime _ _) as [[rt f]|]; [|by intros [= <- <-]].
  destruct (advance_runtime _ _ _ _) as [[[rt' cd] d]| |]; [simpl|done..].
  destruct (replace_sequence_n_timestamp _ _ _) as [m| |]; [simpl|done..].
  destruct (update_jitter_stats _ _ _ _ _ _ _) as [[js' cmd]| |]; [simpl|done..].
  by intros [= <- <-].
Qed.

(** The step on the sender changes neither the failures nor the packets. *)
Lemma rtp_step_receivers prof rd addr r c h message c' m cmd (cs : gmap ClientRef Client) q :
  cs !! r = Some c → rtp_step prof rd addr c h message = Done (c', Ok (m, cmd)) →
  failure addr (<[r := c']> cs) m q = failure addr cs m q ∧
  is_live (<[r := c']> cs) q = is_live cs q ∧
  packet_for (<[r := c']> cs) m q.2 = packet_for cs m q.2.
Proof.
  intros Hc Hstep. destruct (rtp_step_frame _ _ _ _ _ _ _ _ Hstep) as (_ & Hdel & Hout).
  unfold failure, is_live, packet_for, outbound. destruct q as [a q]. simpl.
  destruct (decide (q = r)) as [->|]; [|by rewrite lookup_insert_ne].
  rewrite lookup_insert_eq, Hc. simpl. rewrite Hdel.
  destruct (c_srtp c) as [t|], (c_srtp c') as [t'|]; simplify_eq/=; [|done].
  unfold protect. rewrite Hout. by destruct (srtp_protect _ _) as [[? ?] []].
Qed.

(** The handler on an accepted packet, as one equation. What it takes: no lock is held,
    and the receivers are clients with one address. *)
Definition after_forward (s : Schedule) (addr : SocketAddr) (r : ClientRef) (c c' : Client)
    (m : DataPacket) (cmd : option JitterCommand) (w : World) : World :=
  let l := served_receivers s addr (w_clients w) m c in
  with_sent (with_clients w (encrypt_all m l (<[r := c']> (w_clients w))))
    (w_sent w ++ command_effects addr cmd ++ packets (w_clients w) m l).

Lemma rtp_forwards prof rd s message addr r c h c' m cmd w :
  w_held w = [] →
  (∀ a r', c_receivers c !! a = Some r' → is_Some (w_clients w !! r')) →
  (∀ a a' r', c_receivers c !! a = Some r' → c_receivers c !! a' = Some r' → a = a') →
  schedule_ok s → bytes_ok message →
  w_storage w !! addr = Some r → w_clients w !! r = Some c →
  from_buf message = Done (Ok h) → rtcp_shape message = false →
  rtp_step prof rd addr c h message = Done (c', Ok (m, cmd)) →
  handle_rtc prof rd s (Rtc message addr) w =
  Done (Some (first_failure (failure addr (w_clients w) m) (taken_receivers s c)),
        after_forward s addr r c c' m cmd w).
Proof.
  intros Hw Hlive Hinj Hs Hb Hr Hc Hf Hsh Hstep. rewrite (handle_rtc_rtp _ _ _ _ _ r h) by done.
  destruct (process_refines prof rd s r addr h message c c' _ w Hw Hc Hstep) as [o Hp].
  destruct (rtp_step_frame _ _ _ _ _ _ _ _ Hstep) as (Hrec & _).
  rewrite run_bind, Hp. clear Hp. set (w1 := with_sent _ _).
  assert (∀ q, failure addr (w_clients w1) m q = failure addr (w_clients w) m q ∧
    is_live (w_clients w1) q = is_live (w_clients w) q ∧
    packet_for (w_clients w1) m q.2 = packet_for (w_clients w) m q.2) as Hsame
    by (intros q; by eapply rtp_step_receivers).
  assert (runs (forward s r addr false o h m) w1 (λ res w',
    res = first_failure (failure addr (w_clients w) m) (taken_receivers s c) ∧
    w' = after_forward s addr r c c' m cmd w)) as ->%runs_eq; [|done].
  unfold forward. apply runs_guarded; [simpl; rewrite Hw; set_solver|].
  run_step. eapply runs_client; [simpl; apply lookup_insert_eq|]. simpl. rewrite Hrec.
  fold (taken_receivers s c). set (w2 := with_held _ _). unfold runs.
  rewrite try_for_each_spec.
  - simpl. split; [done|]. split.
    { apply first_failure_ext. intros q _. apply Hsame. }
    assert (served (λ p, sch_late s p.1) (λ p, is_Some (failure addr (<[r := c']> (w_clients w)) m p))
              (taken_receivers s c) = served_receivers s addr (w_clients w) m c) as ->.
    { apply served_ext. intros q _. destruct (Hsame q) as [Hq _]. simpl in *. by rewrite Hq. }
    rewrite (packets_ext _ (w_clients w)) by (intros q _; apply Hsame).
    rewrite <- app_assoc. unfold after_forward, w1. destruct w. simpl in *. by subst.
  - unfold taken_receivers. rewrite (Hs _).
    apply NoDup_fmap_2_strong; [|apply NoDup_map_to_list].
    intros [a1 r1] [a2 r2] H1%elem_of_map_to_list H2%elem_of_map_to_list Heq. simpl in Heq.
    subst r2. f_equal. by eapply Hinj.
  - intros p _. simpl. rewrite Hw. set_solver.
  - intros [a q]. unfold taken_receivers. rewrite (Hs _), elem_of_map_to_list. intros Hq. simpl.
    rewrite lookup_insert_is_Some'. right. by eapply Hlive.
Qed.

Lemma all_served s addr cs m c :
  schedule_ok s →
  (first_failure (failure addr cs m) (taken_receivers s c) = Ok tt ↔
   ∀ a r cr, c_receivers c !! a = Some r → cs !! r = Some cr → c_deleted cr = false →
     is_Some (packet_for cs m r)).
Proof.
  intros Hs. rewrite first_failure_Ok.
  assert (∀ a r, (a, r) ∈ taken_receivers s c ↔ c_receivers c !! a = Some r) as Hin.
  { intros a r. unfold taken_receivers. by rewrite (Hs _), elem_of_map_to_list. }
  split.
  - intros Hall a r cr Ha%Hin%Hall Hr Hd. apply (failure_packet addr cs m (a, r)); [|done].
    unfold is_live. simpl. by rewrite Hr, Hd.
  - intros Hall [a r] Ha%Hin. destruct (is_live cs (a, r)) eqn:Hl.
    + apply failure_packet; [done|]. unfold is_live in Hl. simpl in *.
      destruct (cs !! r) as [cr|] eqn:Hr; [|done]. apply negb_true_iff in Hl. by eapply Hall.
    + unfold failure, is_live in *. simpl in *. destruct (cs !! r) as [cr|]; [|done]. simpl.
      by apply negb_false_iff in Hl as ->.
Qed.

Lemma served_receivers_all s addr cs m c :
  first_failure (failure addr cs m) (taken_receivers s c) = Ok tt →
  served_receivers s addr cs m c = taken_receivers s c.
Proof.
  intros Hall. apply served_all. intros p Hp [e He]. rewrite first_failure_Ok in Hall.
  rewrite Hall in He; done.
Qed.

(** C2. Forwarding refines its specification, on every outcome: when the specification
    on the sender's client accepts the packet, the handler returns the error of the
    first receiver, in the order of the thread pool, that has no SRTP context or that
    libsrtp refuses, and [Ok] when there is none; it sends exactly the jitter command
    and the packets of the served receivers, each the renumbered message encrypted by
    that receiver's own context for that receiver's address, and changes exactly the
    sender's client, as specified, and the contexts of the served receivers. Served are
    the receivers up to the first failure and those the pool still takes after it; so
    the handler succeeds exactly when no receiver fails, and then every live receiver
    has been sent its packet. *)
Theorem rtp_forwarded prof rd s message addr r c h c' m cmd w :
  world_ok w → schedule_ok s → bytes_ok message →
  w_storage w !! addr = Some r → w_clients w !! r = Some c →
  from_buf message = Done (Ok h) → rtcp_shape message = false →
  rtp_step prof rd addr c h message = Done (c', Ok (m, cmd)) →
  ∃ res, handle_rtc prof rd s (Rtc message addr) w =
    Done (Some res, after_forward s addr r c c' m cmd w) ∧
    res = first_failure (failure addr (w_clients w) m) (taken_receivers s c) ∧
    (res = Ok tt ↔
       ∀ a r' cr, c_receivers c !! a = Some r' → w_clients w !! r' = Some cr →
         c_deleted cr = false → is_Some (packet_for (w_clients w) m r')) ∧
    (res = Ok tt → w_sent (after_forward s addr r c c' m cmd w) =
       w_sent w ++ command_effects addr cmd ++
         packets (w_clients w) m (sch_order s (map_to_list (c_receivers c)))) ∧
    c_runtime <$> w_clients (after_forward s addr r c c' m cmd w) !! r = Some (c_runtime c').
Proof.
  intros Hw Hs Hb Hr Hc Hf Hsh Hstep.
  eexists. split; [eapply rtp_forwards; try done; [apply Hw| |]|].
  { intros a r'. by eapply (ok_receivers _ Hw). }
  { intros a a' r'. by eapply (ok_receivers_inj w r c). }
  split; [done|]. split; [by apply all_served|]. split.
  - intros Hall. simpl. by rewrite served_receivers_all.
  - simpl. by rewrite encrypt_all_runtime, lookup_insert_eq.
Qed.

(** *** The errors *)

(** Why the packet of a client is rejected, and what is left of the client: it has no
    SRTP context yet; libsrtp refuses the packet; the payload type is 111; or there is
    no codec, clock rate or runtime entry for the payload type. *)
Definition rejection (addr : SocketAddr) (c : Client) (h : RtpHeader) (message : DataPacket)
    (e : ErrorParse) (c' : Client) : Prop :=
  match c_srtp c with
  | None => e = ClientNotReady addr ∧ c' = c
  | Some t =>
      c' = set_srtp (Some (unprotect t message).1.1) c ∧
      match (unprotect t message).2 with
      | Err e' => e = e'
      | Ok _ => (payload h = 111 ∧ e = UnsupportedFormat) ∨
                (payload h ≠ 111 ∧ find_runtime c h = None ∧ e = CodecNotSet addr)
      end
  end.

Lemma rtp_step_rejects prof rd addr c h message c' e :
  rtp_step prof rd addr c h message = Done (c', Err e) → rejection addr c h message e c'.
Proof.
  unfold rtp_step, rejection. destruct (c_srtp c) as [t|]; [|by intros [= <- <-]].
  destruct (unprotect t message) as [[t' plain] [u|e']]; simpl; [|by intros [= <- <-]].
  case_decide; [intros [= <- <-]; split; [done|by left]|].
  change (find_runtime (set_srtp (Some t') c) h) with (find_runtime c h).
  destruct (find_runtime c h) as [[rt f]|]; [|intros [= <- <-]; split; [done|by right]].
  destruct (advance_runtime _ _ _ _) as [[[rt' cd] d]| |]; [simpl|done..].
  destruct (replace_sequence_n_timestamp _ _ _); [simpl|done..].
  by destruct (update_jitter_stats _ _ _ _ _ _ _) as [[js' cmd]| |].
Qed.

(** In the release profile the step always has a result. *)
Lemma rtp_step_total rd addr c h message :
  client_ok c → bytes_ok message → from_buf message = Done (Ok h) →
  (∀ f rt, c_runtime c !! f = Some rt → clock_ok rt (at_packet rd)) →
  ∃ c' res, rtp_step Release rd addr c h message = Done (c', res).
Proof.
  intros Hc Hb Hf Hclock. destruct (from_buf_Ok message h Hb Hf) as (Hshape & _ & Hseq & Hts).
  apply rtp_shape_length in Hshape. unfold rtp_step.
  destruct (c_srtp c) as [t|]; [|by eexists _, _].
  unfold unprotect. destruct (srtp_unprotect (srtp_client t) message) as [[k plain] [e|]] eqn:Hu;
    simpl; [by eexists _, _|].
  apply unprotect_length in Hu; [|lia].
  case_decide; [by eexists _, _|].
  destruct (find_runtime _ h) as [[rt f]|] eqn:Hrt; [|by eexists _, _].
  assert (c_runtime c !! f = Some rt) as Hget.
  { unfold find_runtime in Hrt. simpl in Hrt.
    apply bind_Some in Hrt as (media & _ & Hrt). apply bind_Some in Hrt as (name & _ & Hrt).
    apply bind_Some in Hrt as (f' & _ & Hrt). by apply bind_Some in Hrt as (rt0 & ? & [= -> ->]). }
  destruct (advance_release rt h (at_packet rd)) as (rt' & cd & d & -> & Hrt' & _);
    [done|done|by apply (ok_runtime _ Hc f rt)|by eapply Hclock|]. simpl.
  destruct (replace_Done plain (server_sequence rt') (server_ts rt')) as [m' ->];
    [lia|apply Hrt'..|]. simpl.
  destruct (update_jitter_release f d cd (c_jitter c) (at_check rd) (at_update rd))
    as (js' & cmd & -> & _); [apply (ok_jitter _ Hc)|]. by eexists _, _.
Qed.

(** C34. Every error of forwarding an RTP packet of a known client: the packet is not
    RTP, and nothing happens; or the packet is rejected on the sender's client, for one
    of the reasons of [rejection], then nothing is sent and only the client's SRTP
    context changes; or it is accepted and the error is that of the first receiver that
    fails in the order of the thread pool, then the jitter command and the packets of
    the receivers before it have been sent, and after it those of the receivers the pool
    still serves; what changes is the sender's client, as for an accepted packet, and
    the SRTP contexts of these receivers and of the failing one. *)
Theorem rtp_errors rd s message addr r c e w w' :
  world_ok w → schedule_ok s → bytes_ok message →
  w_storage w !! addr = Some r → w_clients w !! r = Some c → rtcp_shape message = false →
  (∀ f rt, c_runtime c !! f = Some rt → clock_ok rt (at_packet rd)) →
  handle_rtc Release rd s (Rtc message addr) w = Done (Some (Err e), w') →
  (from_buf message = Done (Err e) ∧ w' = w) ∨
  (∃ h c', from_buf message = Done (Ok h) ∧ rejection addr c h message e c' ∧
     w' = with_clients w (<[r := c']> (w_clients w))) ∨
  (∃ h c' m cmd before p after, from_buf message = Done (Ok h) ∧
     rtp_step Release rd addr c h message = Done (c', Ok (m, cmd)) ∧
     sch_order s (map_to_list (c_receivers c)) = before ++ p :: after ∧
     (∀ q, q ∈ before → failure addr (w_clients w) m q = None) ∧
     failure addr (w_clients w) m p = Some e ∧
     let late := filter (λ q, sch_late s q.1 = true) after in
     w' = with_sent
            (with_clients w (encrypt_all m (before ++ p :: late) (<[r := c']> (w_clients w))))
            (w_sent w ++ command_effects addr cmd ++
               packets (w_clients w) m before ++ packets (w_clients w) m late)).
Proof.
  intros Hw Hs Hb Hr Hc Hsh Hclock Hrun.
  destruct (from_buf_total message Hb) as ([h|e'] & Hf & _).
  2: { left. rewrite (handle_rtc_known _ _ _ _ _ r (Err e')) in Hrun by (done || apply Hw).
       by injection Hrun as -> ->. }
  right. destruct (rtp_step_total rd addr c h message) as (c' & [[m cmd]|e'] & Hstep);
    [by eapply (ok_client _ Hw)|done..| |].
  2: { left. erewrite rtp_rejected in Hrun by done. injection Hrun as -> <-.
       exists h, c'. split; [done|]. split; [by eapply rtp_step_rejects|done]. }
  right. erewrite rtp_forwards in Hrun; try done; [|apply Hw|..].
  2: { intros a r'. by eapply (ok_receivers _ Hw). }
  2: { intros a a' r'. by eapply (ok_receivers_inj w r c). }
  injection Hrun as Hfail <-.
  destruct (first_failure_Err (λ p, sch_late s p.1) _ _ _ Hfail)
    as (before & p & after & Hl & Hbefore & Hp & Hserved).
  exists h, c', m, cmd, before, p, after. do 5 (split; [done|]). cbv zeta.
  unfold after_forward, served_receivers. rewrite Hserved. f_equal. f_equal. f_equal.
  rewrite packets_app. f_equal.
  by rewrite (packets_app _ _ [p] _ : packets _ _ (p :: _) = _), (failure_no_packets _ _ _ _ _ Hp).
Qed.

(** *** RTCP, and receivers that are not ready *)

(** The feedback of a client: for the client its sender address is in the table under,
    when that has an SRTP context. *)
Definition feedback_packet (w : World) (c : Client) (plain : DataPacket) :
    option (result (SocketAddr * DataPacket) ErrorParse) :=
  a ← c_sender_addr c; rs ← w_storage w !! a; k ← outbound (w_clients w) rs;
  Some match srtp_protect_rtcp k plain with
       | (_, out, None) => Ok (a, out)
       | (_, _, Some e) => Err (from e)
       end.

Lemma runs_feedback r message c w
    (Q : option (result (SocketAddr * DataPacket) ErrorParse) → World → Prop) :
  w_held w = [(LReceivers r, Read)] → w_clients w !! r = Some c →
  (∀ a rs, w_storage w !! a = Some rs → is_Some (w_clients w !! rs)) →
  (∀ w', w_held w' = w_held w → w_sent w' = w_sent w → Q (feedback_packet w c message) w') →
  runs (feedback r message) w Q.
Proof.
  intros Hh Hc Hst HQ. unfold feedback, feedback_packet in *.
  destruct w as [cls st g held sent]. simpl in *. subst held.
  apply runs_guarded; [simpl; set_solver|]. run_step. eapply runs_client; [done|].
  destruct (c_sender_addr c) as [a|]; [|run_step; split; [done|]; by apply HQ].
  run_step. apply runs_guarded; [simpl; set_solver|]. repeat run_step. simpl.
  split; [done|]. simpl in HQ.
  destruct (st !! a) as [rs|] eqn:Ha; [|run_step; split; [done|]; by apply HQ].
  simpl in HQ. destruct (Hst a rs Ha) as [cs Hcs]. unfold outbound in HQ. rewrite Hcs in HQ.
  simpl in HQ. unfold runs. destruct (c_srtp cs) as [ts|] eqn:Hts; simpl in HQ.
  - destruct (srtp_protect_rtcp (srtp_server ts) message) as [[k out] e] eqn:Hp.
    erewrite with_srtp_Done; [|simpl; set_solver|done|done|unfold protect_rtcp; by rewrite Hp].
    simpl. split; [done|]. destruct e; by apply HQ.
  - erewrite with_srtp_None; [|simpl; set_solver|done|done]. simpl. split; [done|]. by apply HQ.
Qed.

(** C17. Feedback of a viewer: an RTCP packet of a client without receivers, once
    decrypted, goes to the client's sender alone, encrypted with the sender's context.
    When the client has no sender, or that has left the table or has no context yet,
    nothing is sent and the handler succeeds; when libsrtp refuses, it returns the
    error and sends nothing. *)
Theorem rtcp_feedback prof rd s message addr r c t t' plain w :
  world_ok w → bytes_ok message → w_storage w !! addr = Some r → w_clients w !! r = Some c →
  rtcp_shape message = true → c_srtp c = Some t →
  unprotect_rtcp t message = (t', plain, Ok tt) → c_receivers c = ∅ →
  ∃ res fx w', handle_rtc prof rd s (Rtc message addr) w = Done (Some res, w') ∧
    w_sent w' = w_sent w ++ fx ∧
    match a ← c_sender_addr c; rs ← w_storage w !! a; k ← outbound (w_clients w) rs;
          Some (a, srtp_protect_rtcp k plain) with
    | None => res = Ok tt ∧ fx = []
    | Some (a, (_, out, None)) => res = Ok tt ∧ fx = [UdpSend (Rtc out a)]
    | Some (_, (_, _, Some e)) => res = Err (from e) ∧ fx = []
    end.
Proof.
  intros Hw Hb Hr Hc Hsh Ht Hu Hrec.
  destruct (from_buf_total message Hb) as (res & Hf & Hres).
  assert (rtp_shape message = true) as Hrtp by (by apply andb_prop in Hsh as [? _]).
  destruct res as [h|e].
  2: { exfalso. revert Hf. destruct (rtp_shape_prefix message Hrtp)
         as (b0&b1&b2&b3&b4&b5&b6&b7&rest&->&_). by rewrite from_buf_prefix. }
  rewrite (handle_rtc_known _ _ _ _ _ r (Ok h)) by (done || apply Hw). rewrite Hsh.
  assert (runs (process prof rd s r addr true h message) w (λ res w',
    match feedback_packet w c plain with
    | None => res = Ok tt ∧ w_sent w' = w_sent w
    | Some (Ok (a, out)) => res = Ok tt ∧ w_sent w' = w_sent w ++ [UdpSend (Rtc out a)]
    | Some (Err e) => res = Err e ∧ w_sent w' = w_sent w
    end)) as Hrun.
  2: { apply runs_Done in Hrun as (x & w' & Hrun & Hend). unfold tryM. simpl.
       rewrite run_bind, Hrun. unfold feedback_packet in Hend.
       destruct (c_sender_addr c) as [a|]; simpl in *;
         [|destruct Hend as [-> Hs]; exists (Ok tt), [], w'; by rewrite app_nil_r].
       destruct (w_storage w !! a) as [rs|]; simpl in *;
         [|destruct Hend as [-> Hs]; exists (Ok tt), [], w'; by rewrite app_nil_r].
       destruct (outbound (w_clients w) rs) as [k|]; simpl in *;
         [|destruct Hend as [-> Hs]; exists (Ok tt), [], w'; by rewrite app_nil_r].
       destruct (srtp_protect_rtcp k plain) as [[k' out] [e|]]; destruct Hend as [-> Hs];
         [exists (Err (from e)), [], w'; by rewrite app_nil_r|by eexists _, _, w']. }
  unfold process. run_step. simpl. run_step. unfold tryM at 1. run_step.
  unfold runs at 1, decrypt.
  erewrite with_srtp_Done; [|rewrite (ok_held _ Hw); set_solver|done|done|by rewrite Hu].
  simpl. unfold tryM. simpl. unfold forward.
  apply runs_guarded; [simpl; rewrite (ok_held _ Hw); set_solver|].
  run_step. eapply runs_client; [apply lookup_insert_eq|]. simpl.
  rewrite bool_decide_eq_true_2 by done. run_step. set (w1 := with_held _ _).
  assert (∀ rs, outbound (w_clients w1) rs = outbound (w_clients w) rs) as Hout.
  { intros rs. unfold outbound. simpl. destruct (decide (rs = r)) as [->|].
    - rewrite lookup_insert_eq, Hc. simpl. rewrite Ht. simpl. unfold unprotect_rtcp in Hu.
      destruct (srtp_unprotect_rtcp _ _) as [[]]. by injection Hu as <- _ _.
    - by rewrite lookup_insert_ne. }
  apply (runs_feedback _ _ (set_srtp (Some t') c)).
  - simpl. by rewrite (ok_held _ Hw).
  - apply lookup_insert_eq.
  - intros a rs Ha. simpl. rewrite lookup_insert_is_Some'. right.
    destruct (ok_storage _ Hw a rs Ha) as (cs & Hcs & _). by exists cs.
  - intros w' Hh Hsent.
    assert (feedback_packet w1 (set_srtp (Some t') c) plain = feedback_packet w c plain) as ->.
    { unfold feedback_packet. simpl. destruct (c_sender_addr c) as [a|]; [simpl|done].
      destruct (w_storage w !! a); [simpl|done]. by rewrite Hout. }
    destruct (feedback_packet w c plain) as [[[a out]|e]|]; repeat run_step; simpl;
      (split; [exact Hh|]); (split; [done|]); by rewrite Hsent.
Qed.

(** A schedule that takes one receiver first and serves nobody after an error. *)
Definition first_then_stop (p : SocketAddr * ClientRef) : Schedule := {|
  sch_order l := filter (λ q, q = p) l ++ filter (λ q, q ≠ p) l;
  sch_late _ := false;
|}.

Lemma first_then_stop_ok p : schedule_ok (first_then_stop p).
Proof. intros l. apply filter_app_complement. Qed.

Lemma first_then_stop_head p l :
  p ∈ l → ∃ k, sch_order (first_then_stop p) l = p :: k.
Proof.
  intros Hp. simpl. assert (p ∈ filter (λ q, q = p) l) as Hin by by apply list_elem_of_filter.
  destruct (filter (λ q, q = p) l) as [|q k] eqn:Hk; [by apply not_elem_of_nil in Hin|].
  assert (q ∈ filter (λ q, q = p) l) as [-> _]%list_elem_of_filter
    by (rewrite Hk; apply list_elem_of_here).
  by eexists.
Qed.

Lemma try_for_each_stopped {A} (f : A → M (result unit ErrorParse)) l e w :
  try_for_each (λ _, false) f l (Err e) w = Done (Err e, w).
Proof. by induction l. Qed.

(** C28. One viewer can starve the others: when a live receiver has no SRTP context
    yet, the thread pool may take it first and then serve nobody, so that an
    accepted packet reaches none of the sender's receivers. *)
Theorem unready_receiver_starves prof rd message addr r c h c' m cmd a0 r0 c0 w :
  world_ok w → bytes_ok message → w_storage w !! addr = Some r → w_clients w !! r = Some c →
  from_buf message = Done (Ok h) → rtcp_shape message = false →
  rtp_step prof rd addr c h message = Done (c', Ok (m, cmd)) →
  c_receivers c !! a0 = Some r0 → w_clients w !! r0 = Some c0 →
  c_deleted c0 = false → c_srtp c0 = None →
  ∃ s w', schedule_ok s ∧
    handle_rtc prof rd s (Rtc message addr) w = Done (Some (Err (ClientNotReady addr)), w') ∧
    w_sent w' = w_sent w ++ command_effects addr cmd.
Proof.
  intros Hw Hb Hr Hc Hf Hsh Hstep H0 Hc0 Hd0 Hs0. set (s := first_then_stop (a0, r0)).
  assert (r0 ≠ r) as Hne.
  { intros ->. simplify_eq. unfold rtp_step in Hstep. by rewrite Hs0 in Hstep. }
  destruct (process_refines prof rd s r addr h message c c' _ w (ok_held _ Hw) Hc Hstep) as [o Hp].
  destruct (rtp_step_frame _ _ _ _ _ _ _ _ Hstep) as (Hrec & _).
  destruct (first_then_stop_head (a0, r0) (map_to_list (c_receivers c))) as [l Hl];
    [by apply elem_of_map_to_list|].
  assert (runs (forward s r addr false o h m) (with_sent (with_clients w (<[r:=c']> (w_clients w)))
             (w_sent w ++ command_effects addr cmd))
           (λ res w', res = Err (ClientNotReady addr) ∧
              w_sent w' = w_sent w ++ command_effects addr cmd)) as Hrun.
  { unfold forward. apply runs_guarded; [simpl; rewrite (ok_held _ Hw); set_solver|].
    run_step. eapply runs_client; [apply lookup_insert_eq|].
    cbn [andb]. rewrite Hrec. fold s in Hl. rewrite Hl. cbn [try_for_each]. run_step.
    unfold serve. run_step. eapply runs_client; [simpl; by rewrite lookup_insert_ne|].
    rewrite Hd0. unfold tryM. run_step. unfold runs at 1, encrypt_for.
    erewrite with_srtp_None; [|simpl; rewrite (ok_held _ Hw); set_solver
      |simpl; by rewrite lookup_insert_ne|done].
    run_step. unfold runs. simpl. rewrite try_for_each_stopped. done. }
  apply runs_Done in Hrun as (x & w' & Hrun & -> & Hsent).
  exists s, w'. split; [apply first_then_stop_ok|]. split; [|done].
  rewrite (handle_rtc_rtp _ _ _ _ _ r h) by (done || apply Hw). by rewrite run_bind, Hp, Hrun.
Qed.
End rtc_properties.

(** ** Runs on concrete packets *)

(** An RTP packet of payload type [pt], with the trailer of the toy SRTP. *)
Definition sample_packet (pt : Z) : DataPacket :=
  [128; pt; 0; 7; 0; 0; 1; 44; 0; 0; 0; 9; 1; 2; 3; 4] ++ trailer.

Definition sample_readings : Readings := {| at_packet := 5; at_check := 5; at_update := 5 |}.

Definition in_order : Schedule := {| sch_order l := l; sch_late _ := true |}.

Lemma in_order_ok : schedule_ok in_order.
Proof. by intros l. Qed.

Definition one_viewer : gmap SocketAddr ClientRef := {[ viewer_addr := 1%nat ]}.
Definition unready_viewer : gmap SocketAddr ClientRef := {[ rival_addr := 2%nat ]}.

Lemma one_viewer_ok : world_ok (sample_world one_viewer).
Proof.
  apply sample_world_ok. unfold one_viewer, unready_viewer. intros a r Ha. apply lookup_singleton_Some in Ha as [<- <-].
  split; [lia|reflexivity].
Qed.

Lemma unready_viewer_ok : world_ok (sample_world unready_viewer).
Proof.
  apply sample_world_ok. unfold one_viewer, unready_viewer. intros a r Ha. apply lookup_singleton_Some in Ha as [<- <-].
  split; [lia|reflexivity].
Qed.

(** The step of the sample packet on the streamer, with the message it gives. *)
Definition sample_step (viewers : gmap SocketAddr ClientRef) (pt : Z) :=
  rtp_step Release sample_readings streamer_addr (sample_client viewers None)
    {| marker := false; payload := pt; sequence := 7; timestamp := 300 |} (sample_packet pt).

Definition sample_forwarded : DataPacket :=
  [128; 96; 0; 100; 0; 0; 3; 232; 0; 0; 0; 9; 1; 2; 3; 4].

Definition step_is {E} (o : outcome (Client * result (DataPacket * option JitterCommand) E))
    (m : DataPacket) : bool :=
  match o with Done (_, Ok (m', _)) => bool_decide (m' = m) | _ => false end.

Lemma step_is_Done {E} (o : outcome (Client * result (DataPacket * option JitterCommand) E)) m :
  step_is o m = true → ∃ c cmd, o = Done (c, Ok (m, cmd)).
Proof.
  destruct o as [[c [[m' cmd]|]]| |]; simpl; [|done..].
  intros ->%bool_decide_eq_true. by eexists _, _.
Qed.

Definition failed_is {A B E} (o : outcome (option (result A E) * B)) : bool :=
  match o with Done (Some (Err _), _) => true | _ => false end.

Lemma failed_is_Done {A B E} (o : outcome (option (result A E) * B)) :
  failed_is o = true → ∃ e w, o = Done (Some (Err e), w).
Proof. destruct o as [[[[]|] ?]| |]; simpl; by eauto. Qed.

Lemma sample_step_ok viewers :
  viewers = one_viewer ∨ viewers = unready_viewer →
  step_is (sample_step viewers 96) sample_forwarded = true.
Proof. intros [->| ->]; vm_compute; reflexivity. Qed.

Lemma rtc_handler_safe_witness : ∃ res w',
  handle_rtc Release sample_readings in_order (Rtc (sample_packet 96) streamer_addr)
    (sample_world one_viewer) = Done (res, w') ∧ world_ok w'.
Proof.
  destruct (rtc_handler_safe (P := sample_platform) sample_readings in_order (sample_packet 96) streamer_addr
    (sample_world one_viewer)) as (res & w' & H & Hw & _).
  - exact one_viewer_ok.
  - exact in_order_ok.
  - apply (bool_decide_unpack _). vm_compute. exact I.
  - intros r c f rt Hr Hc Hrt.
    assert (Some 0%nat = Some r) as <-%Some_inj by exact Hr.
    assert (Some (sample_client one_viewer None) = Some c) as <-%Some_inj by exact Hc.
    cbn in Hrt. apply lookup_singleton_Some in Hrt as [_ <-]. vm_compute. discriminate.
  - exists res, w'. split; [exact H|exact Hw].
Defined.

(** The unready viewer's error, after the sender's step. *)
Lemma rtp_errors_witness : ∃ e w',
  handle_rtc Release sample_readings in_order (Rtc (sample_packet 96) streamer_addr)
    (sample_world unready_viewer) = Done (Some (Err e), w').
Proof.
  assert (failed_is (handle_rtc Release sample_readings in_order
    (Rtc (sample_packet 96) streamer_addr) (sample_world unready_viewer)) = true) as Hfail
    by (vm_compute; reflexivity).
  apply failed_is_Done in Hfail as (e & w' & Hrun).
  destruct (rtp_errors (P := sample_platform) sample_readings in_order (sample_packet 96)
    streamer_addr 0%nat (sample_client unready_viewer None) e (sample_world unready_viewer) w').
  - exact unready_viewer_ok.
  - exact in_order_ok.
  - apply (bool_decide_unpack _). vm_compute. exact I.
  - reflexivity.
  - reflexivity.
  - vm_compute. reflexivity.
  - intros f rt Hrt. cbn in Hrt. apply lookup_singleton_Some in Hrt as [_ <-]. vm_compute.
    discriminate.
  - exact Hrun.
  - exists e, w'. exact Hrun.
  - exists e, w'. exact Hrun.
Defined.

Lemma rtp_forwarded_witness : ∃ res w',
  handle_rtc Release sample_readings in_order (Rtc (sample_packet 96) streamer_addr)
    (sample_world one_viewer) = Done (Some res, w').
Proof.
  destruct (step_is_Done _ _ (sample_step_ok one_viewer (or_introl eq_refl)))
    as (c' & cmd & Hstep).
  destruct (rtp_forwarded (P := sample_platform) Release sample_readings in_order (sample_packet 96) streamer_addr
    0%nat (sample_client one_viewer None)
    {| marker := false; payload := 96; sequence := 7; timestamp := 300 |}
    c' sample_forwarded cmd (sample_world one_viewer)) as (res & H & _).
  - exact one_viewer_ok.
  - exact in_order_ok.
  - apply (bool_decide_unpack _). vm_compute. exact I.
  - reflexivity.
  - reflexivity.
  - vm_compute. reflexivity.
  - vm_compute. reflexivity.
  - exact Hstep.
  - eexists res, _. exact H.
Defined.

Lemma rtcp_feedback_witness : ∃ out w',
  handle_rtc Release sample_readings in_order (Rtc (sample_packet 201) viewer_addr)
    (sample_world one_viewer) = Done (Some (Ok tt), w') ∧
  w_sent w' = w_sent (sample_world one_viewer) ++ [UdpSend (Rtc out streamer_addr)].
Proof.
  destruct (rtcp_feedback (P := sample_platform) Release sample_readings in_order (sample_packet 201) viewer_addr 1%nat
    (sample_client ∅ (Some streamer_addr)) (toy_transport 0 0)
    (toy_transport 1 0) (take 16 (sample_packet 201))
    (sample_world one_viewer)) as (res & fx & w' & H & Hs & Hres).
  - exact one_viewer_ok.
  - apply (bool_decide_unpack _). vm_compute. exact I.
  - reflexivity.
  - reflexivity.
  - vm_compute. reflexivity.
  - reflexivity.
  - vm_compute. reflexivity.
  - reflexivity.
  - destruct Hres as [-> ->]. eexists _, w'. split; [exact H|exact Hs].
Defined.

Lemma unready_receiver_starves_witness : ∃ s w',
  handle_rtc Release sample_readings s (Rtc (sample_packet 96) streamer_addr)
    (sample_world unready_viewer) = Done (Some (Err (ClientNotReady streamer_addr)), w').
Proof.
  destruct (step_is_Done _ _ (sample_step_ok unready_viewer (or_intror eq_refl)))
    as (c' & cmd & Hstep).
  destruct (unready_receiver_starves (P := sample_platform) Release sample_readings (sample_packet 96) streamer_addr
    0%nat (sample_client unready_viewer None)
    {| marker := false; payload := 96; sequence := 7; timestamp := 300 |}
    c' sample_forwarded cmd rival_addr 2%nat (client_default 0) (sample_world unready_viewer))
    as (s & w' & _ & H & _).
  - exact unready_viewer_ok.
  - apply (bool_decide_unpack _). vm_compute. exact I.
  - reflexivity.
  - reflexivity.
  - vm_compute. reflexivity.
  - vm_compute. reflexivity.
  - exact Hstep.
  - reflexivity.
  - reflexivity.
  - reflexivity.
  - reflexivity.
  - exists s, w'. exact H.
Defined.
