(* ===== verification/Udp.v ===== *)
(** * The UDP actors (src/src/server/udp.rs, src/src/client/sessions.rs)

    [UdpRecv] owns the session table that the signalling side fills, and routes
    every request the socket delivers: an authorised STUN request is answered and
    announces its sender to the client actor, DTLS goes to the client actor, RTP
    through the jitter buffer to the RTC actor. [UdpSend] turns requests into
    datagrams. A handler returns its new state and the messages it sends to other
    actors, in order. *)

From S2P Require Import Prelude Net Srtp ByteOrder RtpCore Utf8 StunParse StunWrite.
From S2P Require Import Demux Jitter Media Stream.
Local Open Scope Z_scope.

(** ** Sessions *)

Record Session := { server_user : SmolStr; client_user : SmolStr }.

#[export] Instance Session_eq_dec : EqDecision Session.
Proof. solve_decision. Defined.

#[export] Program Instance Session_countable : Countable Session :=
  inj_countable (λ s, (server_user s, client_user s))
    (λ p, Some {| server_user := p.1; client_user := p.2 |}) _.
Next Obligation. by intros []. Qed.

Definition session_new (server client : SmolStr) : Session :=
  {| server_user := server; client_user := client |}.

Definition get_client (s : Session) : SmolStr := client_user s.

Record SessionStorageItem := { group_id : Z; ttl : Instant; is_sender : bool }.

Abbreviation SessionsStorage := (gmap Session SessionStorageItem).

(** [SystemTime::elapsed]: an error when the time lies in the future. *)
Definition system_elapsed (t now : Instant) : result Duration Duration :=
  if decide (t ≤ now) then Ok (now - t) else Err (t - now).

Definition SESSION_TTL : Duration := from_secs 60.

Section udp.
Context {F : Foreign} {bo : ByteOrder} {SC : StunCrypto F} {B : BiMapOps}.

(** ** The receiving actor *)

Record UdpRecv := {
  sessions : SessionsStorage;
  media_sessions : gmap SmolStr MediaList;
}.

Definition udp_recv_new : UdpRecv := {| sessions := ∅; media_sessions := ∅ |}.

Inductive RecvEffect :=
| ToClientMedia (addr : SocketAddr) (media : MediaList)
| ToClientGroup (group_id : Z) (addr : SocketAddr) (is_sender : bool)
| ToClient (req : WebRtcRequest)
| ToUdpSend (req : WebRtcRequest)
| SpawnRtcTask (data : DataPacket) (addr : SocketAddr).

(** [Handler<WebRtcRequest> for UdpRecv] *)
Definition handle_request (st : UdpRecv) (item : WebRtcRequest) : UdpRecv * list RecvEffect :=
  match item with
  | Stun req addr =>
      let session := session_new (StunParse.server_user req) (remote_user req) in
      match sessions st !! session with
      | None => (st, [])
      | Some item =>
          (st, match media_sessions st !! remote_user req with
               | Some media => [ToClientMedia addr media]
               | None => []
               end ++ [ToUdpSend (Stun req addr);
                       ToClientGroup (group_id item) addr (is_sender item)])
      end
  | Dtls message addr => (st, [ToClient (Dtls message addr)])
  | Rtc message addr => (st, [SpawnRtcTask message addr])
  | Unknown => (st, [])
  end.

(** [StreamHandler<ClearData>] *)
Definition expired (now : Instant) (item : SessionStorageItem) : bool :=
  match system_elapsed (ttl item) now with
  | Ok d => bool_decide (SESSION_TTL < d)
  | Err _ => false
  end.

Definition clear_data (now : Instant) (st : UdpRecv) : UdpRecv :=
  let sessions_to_remove : list Session :=
    (filter (λ p : Session * SessionStorageItem, expired now p.2)
       (map_to_list (sessions st))).*1 in
  foldl (λ st s,
    {| sessions := delete s (sessions st);
       media_sessions := delete (get_client s) (media_sessions st) |}) st sessions_to_remove.

(** [Handler<SessionMessage>] and [Handler<MediaUserMessage>] *)
Definition handle_session (st : UdpRecv) (session : Session) (item : SessionStorageItem) :
    UdpRecv * bool :=
  ({| sessions := <[session := item]> (sessions st);
      media_sessions := media_sessions st |}, true).

Definition handle_media_user (st : UdpRecv) (user_name : SmolStr) (media : MediaList) :
    UdpRecv :=
  {| sessions := sessions st; media_sessions := <[user_name := media]> (media_sessions st) |}.

(** The mailbox and the timer of the actor. *)
Inductive UdpMsg :=
| MsgRequest (item : WebRtcRequest)
| MsgClear (now : Instant)
| MsgSession (session : Session) (item : SessionStorageItem)
| MsgMediaUser (user_name : SmolStr) (media : MediaList).

Definition udp_step (st : UdpRecv) (m : UdpMsg) : UdpRecv * list RecvEffect :=
  match m with
  | MsgRequest item => handle_request st item
  | MsgClear now => (clear_data now st, [])
  | MsgSession session item => ((handle_session st session item).1, [])
  | MsgMediaUser user_name media => (handle_media_user st user_name media, [])
  end.

Fixpoint udp_run (st : UdpRecv) (ms : list UdpMsg) : UdpRecv * list RecvEffect :=
  match ms with
  | [] => (st, [])
  | m :: ms =>
      let '(st', out) := udp_step st m in
      let '(st'', out') := udp_run st' ms in (st'', out ++ out')
  end.

(** The stream of received datagrams: it ends with the first socket error. *)
Fixpoint recv_stream {E} (received : list (result (list Z * SocketAddr) E)) :
    outcome (list WebRtcRequest) :=
  match received with
  | [] => Done []
  | r :: received =>
      o ← recv_step r;
      match o with
      | None => Done []
      | Some req => reqs ← recv_stream received; Done (req :: reqs)
      end
  end.

(** ** The sending actor *)

Definition SEND_BUFFER_LEN : nat := 1200.

(** [Handler<WebRtcRequest> for UdpSend]: the datagram it hands to the socket, and
    its destination. [buffer] is the uninitialised buffer of a STUN response. *)
Definition handle_send (password : SmolStr) (buffer : list Z) (msg : WebRtcRequest) :
    outcome (option (DataPacket * SocketAddr)) :=
  match msg with
  | Stun req addr =>
      '(n, message_buf) ←
        write_stun_success_response (transaction_id req) addr password buffer;
      match n with
      | Err _ => Done None
      | Ok n => Done (Some (take n message_buf, addr))
      end
  | Dtls message addr => Done (Some (message, addr))
  | Rtc message addr => Done (Some (message, addr))
  | Unknown => Done None
  end.

(** [UdpMassSender::poll]: the datagram is sent once, when the socket is ready. *)
Inductive Sending := InFlight | Sent | SendFailed.

Definition poll_sender {E} (poll_send_to : Poll (result nat E)) : Sending :=
  match poll_send_to with
  | Pending => InFlight
  | Ready (Ok _) => Sent
  | Ready (Err _) => SendFailed
  end.
End udp.

(** ** Properties *)

Section session_properties.
Context {B : BiMapOps}.

(** STUN is answered and announced to the client actor for the sessions of
    the table and for no other: the answer goes to the requesting address, the
    group message carries that address with the session's group and role, the
    session's media, when known, is announced before; the table is unchanged. *)
Lemma stun_needs_session req addr st :
  let session := session_new (StunParse.server_user req) (remote_user req) in
  handle_request st (Stun req addr) =
  (st, match sessions st !! session with
       | None => []
       | Some item =>
           (ToClientMedia addr <$> option_list (media_sessions st !! remote_user req)) ++
           [ToUdpSend (Stun req addr); ToClientGroup (group_id item) addr (is_sender item)]
       end) ∧
  (∀ a g b, ToClientGroup g a b ∈ (handle_request st (Stun req addr)).2 →
     a = addr ∧ ∃ item, sessions st !! session = Some item ∧ g = group_id item ∧
                        b = is_sender item).
Proof.
  unfold handle_request. simpl.
  destruct (sessions st !! session_new _ _) as [item|];
    [|by split; [|intros a g b ?%elem_of_nil]].
  destruct (media_sessions st !! remote_user req); simpl; (split; [done|]); intros a g b Hin;
    (assert (a = addr ∧ g = group_id item ∧ b = is_sender item) as (-> & -> & ->)
       by (rewrite !elem_of_cons, elem_of_nil in Hin; naive_solver)); eauto.
Qed.

Lemma sessions_removed l st s :
  sessions (foldl (λ st s,
    {| sessions := delete s (sessions st);
       media_sessions := delete (get_client s) (media_sessions st) |}) st l) !! s =
  if decide (s ∈ l) then None else sessions st !! s.
Proof.
  revert st. induction l as [|a l IH]; intros st; simpl; [done|]. rewrite IH. simpl.
  destruct (decide (s = a)) as [->|Hne].
  - rewrite lookup_delete_eq. repeat case_decide; set_solver.
  - rewrite lookup_delete_ne by done. repeat case_decide; set_solver.
Qed.

Lemma media_removed l st u :
  media_sessions (foldl (λ st s,
    {| sessions := delete s (sessions st);
       media_sessions := delete (get_client s) (media_sessions st) |}) st l) !! u =
  if decide (u ∈ get_client <$> l) then None else media_sessions st !! u.
Proof.
  revert st. induction l as [|a l IH]; intros st; simpl; [done|]. rewrite IH. simpl.
  destruct (decide (u = get_client a)) as [->|Hne].
  - rewrite lookup_delete_eq. repeat case_decide; set_solver.
  - rewrite lookup_delete_ne by done. repeat case_decide; set_solver.
Qed.

Lemma expired_true now item : expired now item = true ↔ ttl item + SESSION_TTL < now.
Proof.
  unfold expired, system_elapsed, SESSION_TTL, from_secs.
  case_decide; [rewrite bool_decide_eq_true; lia|split; [done|lia]].
Qed.

Lemma elem_of_expired now st s :
  s ∈ (filter (λ p : Session * SessionStorageItem, expired now p.2)
         (map_to_list (sessions st))).*1 ↔
  ∃ item, sessions st !! s = Some item ∧ ttl item + SESSION_TTL < now.
Proof.
  rewrite list_elem_of_fmap. split.
  - intros ([s' item] & -> & [He Hin]%list_elem_of_filter).
    apply elem_of_map_to_list in Hin. exists item. split; [done|].
    apply expired_true. by apply Is_true_true.
  - intros (item & Hs & He). exists (s, item). split; [done|].
    apply list_elem_of_filter. split; [|by apply elem_of_map_to_list].
    apply Is_true_true. by apply expired_true.
Qed.

Lemma clear_data_session now st s :
  sessions (clear_data now st) !! s =
  match sessions st !! s with
  | Some item => if decide (ttl item + SESSION_TTL < now) then None else Some item
  | None => None
  end.
Proof.
  unfold clear_data. rewrite sessions_removed. case_decide as Hin; rewrite elem_of_expired in Hin.
  - destruct Hin as (item & -> & He). by rewrite decide_True.
  - destruct (sessions st !! s) as [item|] eqn:Hs; [|done].
    rewrite decide_False; [done|]. intros He. apply Hin. eauto.
Qed.

(** The cleaner removes exactly the sessions registered more than sixty
    seconds before its clock reading (a session registered in the future stays),
    and exactly the media of their users. *)
Lemma clear_data_removes_expired now st s u :
  (sessions (clear_data now st) !! s =
   match sessions st !! s with
   | Some item => if decide (ttl item + SESSION_TTL < now) then None else Some item
   | None => None
   end) ∧
  (media_sessions (clear_data now st) !! u = None ↔
   media_sessions st !! u = None ∨
   ∃ server item, sessions st !! session_new server u = Some item ∧
                  ttl item + SESSION_TTL < now).
Proof.
  split; [apply clear_data_session|]. unfold clear_data. rewrite media_removed.
  assert (u ∈ get_client <$> (filter (λ p : Session * SessionStorageItem, expired now p.2)
              (map_to_list (sessions st))).*1 ↔
            ∃ server item, sessions st !! session_new server u = Some item ∧
                           ttl item + SESSION_TTL < now) as Hiff.
  { rewrite list_elem_of_fmap. split.
    - intros ([sv cl] & -> & Hs). apply elem_of_expired in Hs as (item & Hs & He).
      by exists sv, item.
    - intros (sv & item & Hs & He). exists (session_new sv u). split; [done|].
      apply elem_of_expired. eauto. }
  case_decide as Hin; rewrite Hiff in Hin; naive_solver.
Qed.

(** The messages that register nothing for [s]. *)
Definition not_registering (s : Session) (m : UdpMsg) : Prop :=
  match m with MsgSession s' _ => s' ≠ s | _ => True end.

Lemma udp_step_session s m st item :
  not_registering s m → sessions (udp_step st m).1 !! s = Some item →
  sessions st !! s = Some item.
Proof.
  intros Hm. destruct m as [[| | |]|now|s' item'|u media]; simpl in *; try done.
  - by repeat case_match.
  - rewrite clear_data_session. by repeat case_match.
  - by rewrite lookup_insert_ne.
Qed.

Lemma udp_run_session s ms st :
  Forall (not_registering s) ms → sessions st !! s = None →
  sessions (udp_run st ms).1 !! s = None.
Proof.
  revert st. induction ms as [|m ms IH]; intros st Hms Hs; [done|].
  apply Forall_cons in Hms as [Hm Hms]. simpl.
  destruct (udp_step st m) as [st' out] eqn:E. specialize (IH st' Hms).
  destruct (udp_run st' ms) as [st'' out']. simpl in *. apply IH.
  destruct (sessions st' !! s) as [item|] eqn:Hs'; [|done].
  rewrite (udp_step_session s m st item) in Hs; [done..|]. by rewrite E.
Qed.

Lemma udp_run_app st ms ms' :
  (udp_run st (ms ++ ms')).1 = (udp_run (udp_run st ms).1 ms').1.
Proof.
  revert st. induction ms as [|m ms IH]; intros st; [done|]. simpl.
  destruct (udp_step st m) as [st' out]. specialize (IH st').
  destruct (udp_run st' ms) as [st1 out1], (udp_run st' (ms ++ ms')) as [st2 out2]. done.
Qed.

Lemma udp_run_session_keeps s ms st item :
  Forall (not_registering s) ms → sessions (udp_run st ms).1 !! s = Some item →
  sessions st !! s = Some item.
Proof.
  revert st. induction ms as [|m ms IH]; intros st Hms Hs; [done|].
  apply Forall_cons in Hms as [Hm Hms]. simpl in Hs.
  destruct (udp_step st m) as [st' out] eqn:E. apply (udp_step_session s m); [done|].
  rewrite E. simpl. specialize (IH st' Hms). destruct (udp_run st' ms). by apply IH.
Qed.

(** C39. A session lives by its registration alone: whatever requests arrive in
    between, its own STUN checks included, once the cleaner runs more than sixty
    seconds after the registration the client's STUN requests are dropped, until
    it registers again. *)
Theorem session_expires_despite_traffic st item ms now ms' req addr :
  let s := session_new (StunParse.server_user req) (remote_user req) in
  sessions st !! s = Some item → ttl item + SESSION_TTL < now →
  Forall (not_registering s) (ms ++ ms') →
  let st' := (udp_run st (ms ++ MsgClear now :: ms')).1 in
  handle_request st' (Stun req addr) = (st', []).
Proof.
  intros s Hs Hexp [Hms Hms']%Forall_app st'.
  assert (sessions st' !! s = None) as Hnone.
  { subst st'. rewrite udp_run_app. set (st1 := (udp_run st ms).1).
    change (sessions (udp_run st1 ([MsgClear now] ++ ms')).1 !! s = None).
    rewrite udp_run_app. apply udp_run_session; [done|].
    change (sessions (clear_data now st1) !! s = None).
    rewrite clear_data_session.
    destruct (sessions st1 !! s) as [item'|] eqn:Hs1; [|done].
    apply udp_run_session_keeps in Hs1; [|done]. simplify_eq. by rewrite decide_True. }
  unfold handle_request. fold s. by rewrite Hnone.
Qed.

End session_properties.

Section datagram_properties.
Context {F : Foreign} {bo : ByteOrder} {BL : NetworkEndian bo} {SC : StunCrypto F}
  {SL : StunCryptoLaws F SC}.

Lemma parse_transaction_id datagram req :
  parse_stun_binding_request datagram = Done (Some req) →
  length (transaction_id req) = STUN_TRANSACTION_ID_LEN ∧
  transaction_id req = take 12 (drop 8 datagram).
Proof.
  intros (_ & _ & _ & Ht & _)%parse_header_sound.
  apply slice_inv in Ht as (Hle & Hlen & Ht). split; [|exact Ht].
  rewrite Ht, length_take, length_drop. unfold STUN_TRANSACTION_ID_LEN, STUN_HEADER_LEN in *. lia.
Qed.

(** A response OpenSSL signs is sent; when it refuses, nothing is. *)
Lemma handle_send_stun password buffer req addr :
  length (transaction_id req) = STUN_TRANSACTION_ID_LEN → addr_ok addr →
  length buffer = SEND_BUFFER_LEN →
  handle_send password buffer (Stun req addr) = Done
    match sign_response password
            (response_header (transaction_id req) (content_len_integrity addr))
            (addr_attribute_bytes (transaction_id req) addr) with
    | Ok _ => Some (stun_response (transaction_id req) addr password, addr)
    | Err _ => None
    end.
Proof.
  intros Htid Haddr Hbuf. unfold handle_send.
  destruct (sign_response _ _ _) as [hmac|e] eqn:Hsign.
  - destruct (write_response_whole _ addr password buffer hmac Htid Haddr Hsign) as (-> & Hlen & Hn).
    { rewrite Hbuf. destruct addr; vm_compute; lia. }
    cbn [mbind outcome_bind]. by rewrite <- Hlen, take_app_length.
  - destruct (write_response_refused _ addr password buffer e Htid Haddr Hsign) as [out' ->]; [|done].
    rewrite Hbuf. destruct addr; vm_compute; lia.
Qed.

(** C20. The STUN exchange: a binding request that parses is answered, to the
    address it came from, with a datagram of 64 or 76 bytes that is the response
    for the request's own transaction id, whatever the uninitialised send buffer
    held. *)
Theorem stun_exchange datagram addr req password buffer hmac :
  addr_ok addr → parse_stun_binding_request datagram = Done (Some req) →
  length buffer = SEND_BUFFER_LEN →
  sign_response password
    (response_header (transaction_id req) (content_len_integrity addr))
    (addr_attribute_bytes (transaction_id req) addr) = Ok hmac →
  handle_send password buffer (Stun req addr) =
    Done (Some (stun_response (transaction_id req) addr password, addr)) ∧
  take 12 (drop 8 (stun_response (transaction_id req) addr password)) =
    take 12 (drop 8 datagram) ∧
  length (stun_response (transaction_id req) addr password) =
    (if is_ipv4 addr then 64 else 76)%nat.
Proof.
  intros Haddr Hparse Hbuf Hsign.
  destruct (parse_transaction_id _ _ Hparse) as [Htid Hsame].
  destruct (write_response_whole _ addr password buffer hmac Htid Haddr Hsign) as (_ & Hlen & Hn).
  { rewrite Hbuf. destruct addr; vm_compute; lia. }
  split; [|split].
  - by rewrite handle_send_stun, Hsign.
  - rewrite <- Hsame. unfold stun_response, fingerprinted, response_header.
    rewrite <- !app_assoc, !(app_assoc (be16_bytes _)), (app_assoc _ STUN_COOKIE).
    rewrite drop_app_length' by reflexivity. by rewrite take_app_length'.
  - by rewrite Hlen.
Qed.

(** C40. The receiving stream delivers one request per datagram, in the order of
    arrival and without panic as long as no datagram is empty; it ends with the
    first socket error, and whatever arrives after it is never read. *)
Theorem recv_stream_ends_at_error {E} (e : E) pre post :
  Forall (λ p : list Z * SocketAddr, bytes_ok p.1 ∧ p.1 ≠ []) pre →
  ∃ reqs, recv_stream ((Ok <$> pre) ++ Err e :: post) = Done reqs ∧
    Forall2 (λ p q, webrtc_from (take RECV_BUFFER_LEN p.1) p.2 = Done q) pre reqs.
Proof.
  induction pre as [|[buf addr] pre IH]; intros Hpre; [by exists []|].
  apply Forall_cons in Hpre as [[Hb Hne] Hpre]. destruct (IH Hpre) as (reqs & Hr & Hall).
  destruct (webrtc_from_nonempty (take RECV_BUFFER_LEN buf) addr) as (stun & _ & Hw).
  { by apply Forall_take. }
  { simpl in Hne. destruct buf; [done|]. unfold RECV_BUFFER_LEN. done. }
  eexists. split; [|constructor; [exact Hw|exact Hall]].
  cbn [fmap list_fmap app recv_stream recv_step]. rewrite Hw. bind_step. by rewrite Hr.
Qed.
End datagram_properties.

(** ** Concrete requests *)

Definition sample_stun : StunBindingRequest :=
  {| transaction_id := replicate 12 7; remote_user := str "cli";
     StunParse.server_user := str "srv" |}.

Definition sample_session : Session := session_new (str "srv") (str "cli").

Definition sample_udp (t : Instant) : @UdpRecv gmap_bimap :=
  (handle_session udp_recv_new sample_session
     {| group_id := 7; ttl := t; is_sender := true |}).1.

Lemma stun_needs_session_witness :
  ToClientGroup 7 sample_addr true ∈ (handle_request (sample_udp 0) (Stun sample_stun sample_addr)).2 ∧
  ∃ item, sessions (sample_udp 0) !! sample_session = Some item ∧ true = is_sender item.
Proof.
  destruct (stun_needs_session (B := gmap_bimap) sample_stun sample_addr (sample_udp 0))
    as [Heq Hall].
  assert (ToClientGroup 7 sample_addr true ∈
            (handle_request (sample_udp 0) (Stun sample_stun sample_addr)).2) as Hin.
  { right. left. }
  split; [exact Hin|]. destruct (Hall _ _ _ Hin) as (_ & item & Hs & _ & Hb).
  exists item. split; [exact Hs|exact Hb].
Defined.

Lemma clear_data_removes_expired_witness :
  sessions (clear_data (from_secs 61) (sample_udp 0)) !! sample_session = None ∧
  sessions (clear_data (from_secs 60) (sample_udp 0)) !! sample_session =
    Some {| group_id := 7; ttl := 0; is_sender := true |}.
Proof.
  destruct (clear_data_removes_expired (B := gmap_bimap) (from_secs 61) (sample_udp 0)
    sample_session (str "cli")) as [-> _].
  destruct (clear_data_removes_expired (B := gmap_bimap) (from_secs 60) (sample_udp 0)
    sample_session (str "cli")) as [-> _].
  split; vm_compute; reflexivity.
Defined.

Lemma session_expires_despite_traffic_witness : ∃ st',
  handle_request (B := gmap_bimap) st' (Stun sample_stun sample_addr) = (st', []) ∧
  sessions (sample_udp 0) !! sample_session ≠ None.
Proof.
  eexists. split; [|discriminate].
  apply (session_expires_despite_traffic (B := gmap_bimap) (sample_udp 0)
    {| group_id := 7; ttl := 0; is_sender := true |}
    [MsgRequest (Stun sample_stun sample_addr)] (from_secs 61)
    [MsgRequest (Stun sample_stun sample_addr)]).
  - reflexivity.
  - vm_compute. reflexivity.
  - repeat constructor.
Defined.

Lemma stun_exchange_witness :
  length (stun_response (SL := toy_crypto_laws) (transaction_id sample_stun) sample_addr
            (str "secret")) = 64%nat.
Proof.
  destruct (stun_exchange (bo := be_order) (SL := toy_crypto_laws) (sample_request 24)
    sample_addr sample_stun (str "secret") (replicate 1200 9)
    (toy_hmac (str "secret")
       (response_header (transaction_id sample_stun) (content_len_integrity sample_addr) ++
        addr_attribute_bytes (transaction_id sample_stun) sample_addr)))
    as (_ & _ & Hlen).
  - by apply (bool_decide_unpack _).
  - vm_compute. reflexivity.
  - reflexivity.
  - reflexivity.
  - exact Hlen.
Defined.

Lemma recv_stream_ends_at_error_witness : ∃ reqs,
  recv_stream (bo := be_order) [Ok ([20; 1; 2], sample_addr); Err tt; Ok ([21], sample_addr)] =
  Done reqs ∧ length reqs = 1%nat.
Proof.
  destruct (recv_stream_ends_at_error (bo := be_order) tt [([20; 1; 2], sample_addr)]
    [Ok ([21], sample_addr)]) as (reqs & H & Hall).
  - constructor; [|constructor]. split; [by apply (bool_decide_unpack _)|discriminate].
  - exists reqs. split; [exact H|]. symmetry. apply (Forall2_length _ _ _ Hall).
Defined.
