(* ===== verification/Sdp.v ===== *)
(** * Signalling: the answer to an offer (src/src/sdp/mod.rs)

    [generate_streamer_response] reads a client's session description, registers a
    session per media section with the receiving actor, and edits the description
    into the server's answer. The crate [webrtc-sdp] is not part of the repository:
    its types and calls are the classes [SdpTypes] and [SdpLib], what its
    documentation says of them the class [SdpLaws]. The variants of its attribute
    enum are the ones the code names, the others are [OtherAttribute]. Random draws,
    clock readings and the answers of the mailbox are arguments. *)

From S2P Require Import Prelude Net Srtp ByteOrder Utf8 Text StunParse Meta.
From S2P Require Import Demux Jitter Media Udp.
Local Open Scope Z_scope.

(** [SocketAddr::ip] *)
Inductive IpAddr := IpV4 (octets : list Z) | IpV6 (octets : list Z).
Definition ip (a : SocketAddr) : IpAddr :=
  match a with V4 o _ => IpV4 o | V6 o _ _ _ => IpV6 o end.

(** Types of the crate the code only passes on, with the values it names;
    [other_type], [other_codec] and [other_allowed] give the type of an attribute the
    code does not name, whether [remove_codecs] removes it, and whether it may stand
    in a media section. *)
Class SdpTypes := {
  Address : Type;
  address_ip : IpAddr → Address;
  ExplicitlyTypedAddress : Type;
  typed_from : IpAddr → ExplicitlyTypedAddress;
  CandidateType : Type;
  Host : CandidateType;
  CandidateTransport : Type;
  UdpTransport : CandidateTransport;
  TcpType : Type;
  HashAlgorithm : Type;
  Sha256 : HashAlgorithm;
  GroupSemantic : Type;
  Bundle : GroupSemantic;
  SetupRole : Type;
  Passive : SetupRole;
  Contents : Type;
  OtherAttribute : Type;
  OtherType : Type;
  other_type_dec :: EqDecision OtherType;
  other_type : OtherAttribute → OtherType;
  other_codec : OtherType → bool;
  other_allowed : OtherAttribute → bool;
}.

Section attributes.
Context {T : SdpTypes}.

Record SdpAttributeCandidate := {
  foundation : SmolStr; priority : Z; address : Address; port : Z;
  c_type : CandidateType; raddr : option Address; rport : option Z;
  tcp_type : option TcpType; generation : option Z; ufrag : option SmolStr;
  networkcost : option Z; transport : CandidateTransport; component : Z;
  unknown_extensions : list (SmolStr * SmolStr);
}.
Record SdpAttributeFingerprint := { hash_algorithm : HashAlgorithm; fingerprint : list Z }.
Record SdpAttributeGroup := { semantics : GroupSemantic; tags : list SmolStr }.
Record SdpAttributeMsidSemantic := { semantic : SmolStr; msids : list SmolStr }.
Record SdpAttributeRtcp := { rtcp_port : Z; unicast_addr : option ExplicitlyTypedAddress }.
Record SdpOrigin := {
  origin_username : SmolStr; origin_session_id : Z; origin_session_version : Z;
  origin_unicast_addr : ExplicitlyTypedAddress;
}.
Record SdpConnection := {
  connection_address : ExplicitlyTypedAddress; connection_ttl : option Z;
  connection_amount : option Z;
}.

Inductive Attribute :=
| Candidate (c : SdpAttributeCandidate)
| EndOfCandidates
| Fingerprint (f : SdpAttributeFingerprint)
| Group (g : SdpAttributeGroup)
| IceLite
| IceOptions (l : list SmolStr)
| IcePwd (s : SmolStr)
| IceUfrag (s : SmolStr)
| Msid (c : Contents)
| MsidSemantic (m : SdpAttributeMsidSemantic)
| Recvonly
| Rtcp (r : SdpAttributeRtcp)
| RtcpMux
| RtpmapAttr (r : Rtpmap)
| Sendonly
| Setup (s : SetupRole)
| Ssrc (c : Contents)
| SsrcGroup (c : Contents)
| OtherAttr (o : OtherAttribute).

Inductive AttributeType :=
| TCandidate | TEndOfCandidates | TFingerprint | TGroup | TIceLite | TIceOptions | TIcePwd
| TIceUfrag | TMsid | TMsidSemantic | TRecvonly | TRtcp | TRtcpMux | TRtpmap | TSendonly
| TSetup | TSsrc | TSsrcGroup | TOther (t : OtherType).

#[export] Instance AttributeType_eq_dec : EqDecision AttributeType.
Proof. solve_decision. Defined.

Definition attr_type (a : Attribute) : AttributeType :=
  match a with
  | Candidate _ => TCandidate | EndOfCandidates => TEndOfCandidates
  | Fingerprint _ => TFingerprint | Group _ => TGroup | IceLite => TIceLite
  | IceOptions _ => TIceOptions | IcePwd _ => TIcePwd | IceUfrag _ => TIceUfrag
  | Msid _ => TMsid | MsidSemantic _ => TMsidSemantic | Recvonly => TRecvonly
  | Rtcp _ => TRtcp | RtcpMux => TRtcpMux | RtpmapAttr _ => TRtpmap | Sendonly => TSendonly
  | Setup _ => TSetup | Ssrc _ => TSsrc | SsrcGroup _ => TSsrcGroup
  | OtherAttr o => TOther (other_type o)
  end.

(** What [remove_codecs] removes, and what may stand at the two levels. *)
Definition codec_type (t : AttributeType) : bool :=
  match t with TRtpmap => true | TOther t => other_codec t | _ => false end.

Definition media_allowed (a : Attribute) : bool :=
  match a with
  | Group _ | IceLite | IceOptions _ | MsidSemantic _ => false
  | OtherAttr o => other_allowed o
  | _ => true
  end.

Definition session_allowed (a : Attribute) : bool :=
  match a with Group _ | IceLite | IceOptions _ | MsidSemantic _ => true | _ => false end.

Definition of_type (t : AttributeType) (l : list Attribute) : list Attribute :=
  filter (λ a, attr_type a = t) l.
End attributes.

(** Session descriptions and their media sections. A call that changes its object
    gives the new object; one that can fail gives a [result]. *)
Class SdpLib {T : SdpTypes} := {
  SdpParserError : Type;
  SdpParserInternalError : Type;
  MediaSection : Type;
  media_attributes : MediaSection → list Attribute;
  get_attribute : MediaSection → AttributeType → option Attribute;
  set_port : MediaSection → Z → MediaSection;
  set_connection : MediaSection → SdpConnection → MediaSection;
  remove_attribute : MediaSection → AttributeType → MediaSection;
  add_attribute : MediaSection → Attribute → result MediaSection SdpParserInternalError;
  set_attribute : MediaSection → Attribute → result MediaSection SdpParserInternalError;
  remove_codecs : MediaSection → MediaSection;
  add_codec : MediaSection → Rtpmap → result MediaSection SdpParserInternalError;
  attribute_to_string : Attribute → SmolStr;
  SdpSession : Type;
  parse_sdp : SmolStr → bool → result SdpSession SdpParserError;
  session_version : SdpSession → Z;
  session_name : SdpSession → option SmolStr;
  get_origin : SdpSession → SdpOrigin;
  session_attributes : SdpSession → list Attribute;
  session_get_attribute : SdpSession → AttributeType → option Attribute;
  session_media : SdpSession → list MediaSection;
  sdp_session_new : Z → SdpOrigin → SmolStr → SdpSession;
  session_add_attribute : SdpSession → Attribute → result SdpSession SdpParserInternalError;
  set_timing : SdpSession → Z → Z → SdpSession;
  set_media : SdpSession → list MediaSection → SdpSession;
}.

Definition attributes_of {E} {T : SdpTypes} {S : SdpLib} (r : result MediaSection E) :
    option (list Attribute) :=
  match r with Ok m => Some (media_attributes m) | Err _ => None end.

Class SdpLaws {T : SdpTypes} (S : SdpLib) : Prop := {
  law_get m t : get_attribute m t = head (of_type t (media_attributes m));
  law_port m p : media_attributes (set_port m p) = media_attributes m;
  law_connection m c : media_attributes (set_connection m c) = media_attributes m;
  law_remove m t :
    media_attributes (remove_attribute m t) =
    filter (λ a, attr_type a ≠ t) (media_attributes m);
  law_add m a :
    attributes_of (add_attribute m a) =
    if media_allowed a then Some (media_attributes m ++ [a]) else None;
  law_set m a :
    attributes_of (set_attribute m a) =
    if media_allowed a
    then Some (filter (λ b, attr_type b ≠ attr_type a) (media_attributes m) ++ [a]) else None;
  law_remove_codecs m :
    media_attributes (remove_codecs m) =
    filter (λ a, codec_type (attr_type a) = false) (media_attributes m);
  law_add_codec m r :
    attributes_of (add_codec m r) = Some (media_attributes m ++ [RtpmapAttr r]);
  law_ufrag u : attribute_to_string (IceUfrag u) = str "ice-ufrag:" ++ u;
  law_session_get s t a : session_get_attribute s t = Some a → attr_type a = t;
  law_session_new v o n : session_attributes (sdp_session_new v o n) = [];
  law_session_add s a :
    match session_add_attribute s a with
    | Ok s' => session_attributes s' = session_attributes s ++ [a]
    | Err _ => session_allowed a = false
    end;
  law_timing s a b : session_attributes (set_timing s a b) = session_attributes s;
  law_media s l :
    session_attributes (set_media s l) = session_attributes s ∧
    session_media (set_media s l) = l;
}.

(** The [?] operator in a function that returns a [Result] and awaits nothing. *)
Definition and_then {A B E} (m : result A E) (k : A → result B E) : result B E :=
  match m with Ok a => k a | Err e => Err e end.
Definition map_err {A E E'} (f : E → E') (m : result A E) : result A E' :=
  match m with Ok a => Ok a | Err e => Err (f e) end.
Notation "x '←ᵣ' m ; k" := (and_then m (λ x, k))
  (at level 20, m at level 100, k at level 200) : rust_scope.

(** ** The operations *)

Section sdp.
Context {F : Foreign} {B : BiMapOps} {T : SdpTypes} {S : SdpLib}.

(** What [MediaList] reads of a description. *)
#[export] Instance sdp_media_ops : SdpMediaOps := {|
  SdpAttribute := Attribute;
  SdpMedia := MediaSection;
  as_rtpmap a := match a with RtpmapAttr r => Some r | _ => None end;
  get_attributes := media_attributes;
|}.

Inductive SdpResponseGeneratorError :=
| SdpParserErr (e : SdpParserError)
| SdpParserInternalErr (e : SdpParserInternalError)
| MailBoxError (e : MailboxError)
| CustomError (s : SmolStr).

(** Its [From] implementations. *)
#[export] Instance sdp_error_from_parser : From SdpParserError SdpResponseGeneratorError :=
  SdpParserErr.
#[export] Instance sdp_error_from_internal :
  From SdpParserInternalError SdpResponseGeneratorError := SdpParserInternalErr.
#[export] Instance sdp_error_from_mailbox : From MailboxError SdpResponseGeneratorError :=
  MailBoxError.
#[export] Instance sdp_error_from_str : From SmolStr SdpResponseGeneratorError := CustomError.

Definition SUPPORTED : list SmolStr :=
  [str "PCMU/8000"; str "PCMA/8000"; str "G722/8000"; str "H264/90000";
   str "telephone-event/8000"; str "opus/48000"; str "VP8/90000"; str "VP9/90000"].

Definition is_supported_format (format : SmolStr) : bool := bool_decide (format ∈ SUPPORTED).

Definition remove_useless_attributes (m : MediaSection) :
    result MediaSection SdpParserInternalError :=
  let m := remove_attribute m TMsid in
  m ←ᵣ (if get_attribute m TRecvonly is Some _ then
          let m := remove_attribute m TRecvonly in set_attribute m Sendonly
        else if get_attribute m TSendonly is Some _ then
          let m := remove_attribute m TSendonly in set_attribute m Recvonly
        else Ok m);
  let m := remove_attribute m TSsrcGroup in
  Ok (remove_attribute m TSsrc).

(** The codecs [set_attributes] keeps. *)
Definition good_codecs (attributes : list Attribute) : list Rtpmap :=
  omap (λ attr,
    match attr with
    | RtpmapAttr s =>
        if is_supported_format (codec_name s ++ str "/" ++ to_string (frequency s))
        then Some s else None
    | _ => None
    end) attributes.

Fixpoint add_codecs (m : MediaSection) (l : list Rtpmap) :
    result MediaSection SdpParserInternalError :=
  match l with
  | [] => Ok m
  | attr :: l => m ←ᵣ add_codec m attr; add_codecs m l
  end.

(** The server's own candidate. *)
Definition own_candidate (addr : SocketAddr) (draw : Z) : SdpAttributeCandidate := {|
  foundation := str "0"; priority := draw; address := address_ip (ip addr);
  port := addr_port addr; c_type := Host; raddr := None; rport := None; tcp_type := None;
  generation := None; ufrag := None; networkcost := None; transport := UdpTransport;
  component := 1; unknown_extensions := [];
|}.

Definition set_attributes (m : MediaSection) (server_user server_passwd : SmolStr)
    (digest : list Z) (addr : SocketAddr) (draw : Z) :
    result MediaSection SdpParserInternalError :=
  let good := good_codecs (media_attributes m) in
  m ←ᵣ add_codecs (remove_codecs m) good;
  m ←ᵣ set_attribute m (IcePwd server_passwd);
  m ←ᵣ set_attribute m (IceUfrag server_user);
  m ←ᵣ set_attribute m (Fingerprint {| hash_algorithm := Sha256; fingerprint := digest |});
  m ←ᵣ set_attribute m (Setup Passive);
  m ←ᵣ set_attribute m (Rtcp {| rtcp_port := addr_port addr;
                                unicast_addr := Some (typed_from (ip addr)) |});
  m ←ᵣ set_attribute m RtcpMux;
  m ←ᵣ add_attribute m (Candidate (own_candidate addr draw));
  set_attribute m EndOfCandidates.

Record ServerData := { meta : ServerMeta; digest : list Z }.

(** What one run of [generate_streamer_response] takes from its surroundings: the
    answer of the receiving actor to [ServerDataRequest] and to its [k]-th message,
    the clock at the [k]-th section with a user, the draws of the generator. *)
Record Env := {
  server_data : result ServerData MailboxError;
  recv : nat → result unit MailboxError;
  now : nat → Instant;
  session_id_draw : Z;
  priority_draw : nat → Z;
}.

(** The names of the client's sections. *)
Definition client_users (media : list MediaSection) : list SmolStr :=
  (λ a, replace (str "ice-ufrag:") [] (attribute_to_string a)) <$>
    omap (λ m, get_attribute m TIceUfrag) media.

(** The messages that reach the receiving actor, and whether [expect] passes. Both
    messages of a section are sent; the stream stops at the first refusal. *)
Fixpoint register (env : Env) (server_user : SmolStr) (group_id : Z) (is_sender : bool)
    (media : MediaList) (k : nat) (users : list SmolStr) : list UdpMsg * outcome unit :=
  match users with
  | [] => ([], Done tt)
  | client_user :: users =>
      let session := session_new server_user client_user in
      let session_message := MsgSession session
        {| group_id := group_id; ttl := now env k; is_sender := is_sender |} in
      let media_message := MsgMediaUser (get_client session) media in
      match recv env (2 * k), recv env (2 * k + 1) with
      | Ok _, Ok _ =>
          let '(sent, r) := register env server_user group_id is_sender media (1 + k) users in
          (session_message :: media_message :: sent, r)
      | Ok _, Err _ => ([session_message], Panicked)
      | Err _, Ok _ => ([media_message], Panicked)
      | Err _, Err _ => ([], Panicked)
      end
  end.

Definition answer_medium (data : ServerData) (sdp_addr : SocketAddr) (draw : Z)
    (m : MediaSection) : result MediaSection SdpParserInternalError :=
  let m := set_port m (addr_port sdp_addr) in
  m ←ᵣ remove_useless_attributes m;
  m ←ᵣ set_attributes m (user (meta data)) (password (meta data)) (digest data) sdp_addr draw;
  Ok (set_connection m {| connection_address := typed_from (ip sdp_addr);
                          connection_ttl := None; connection_amount := None |}).

Fixpoint answer_media (data : ServerData) (sdp_addr : SocketAddr) (draws : nat → Z) (k : nat)
    (media : list MediaSection) : result (list MediaSection) SdpParserInternalError :=
  match media with
  | [] => Ok []
  | m :: media =>
      m ←ᵣ answer_medium data sdp_addr (draws k) m;
      media ←ᵣ answer_media data sdp_addr draws (1 + k) media;
      Ok (m :: media)
  end.

(** The group attribute of the answer: the offer's, or all its sections bundled. *)
Definition answer_group (req : SdpSession) : Attribute :=
  default (Group {| semantics := Bundle;
                    tags := imap (λ k _, to_string (Z.of_nat k)) (session_media req) |})
    (session_get_attribute req TGroup).

Definition answer_session (env : Env) (data : ServerData) (sdp_addr : SocketAddr)
    (req : SdpSession) (session : SmolStr) : result SdpSession SdpParserInternalError :=
  let version := session_version req in
  let origin := {| origin_username := str "-"; origin_session_id := session_id_draw env;
                   origin_session_version := origin_session_version (get_origin req);
                   origin_unicast_addr := typed_from (ip sdp_addr) |} in
  media ←ᵣ answer_media data sdp_addr (priority_draw env) 0 (session_media req);
  let res := sdp_session_new version origin session in
  res ←ᵣ session_add_attribute res (MsidSemantic {| semantic := str "WMS"; msids := [] |});
  res ←ᵣ session_add_attribute res (answer_group req);
  res ←ᵣ session_add_attribute res IceLite;
  res ←ᵣ session_add_attribute res (IceOptions [str "trickle"]);
  let res := set_timing res 0 0 in
  Ok (set_media res media).

(** The messages sent to the receiving actor, and the result. *)
Definition generate_streamer_response (env : Env) (sdp : SmolStr) (group_id : Z)
    (sdp_addr : SocketAddr) :
    list UdpMsg * outcome (result SdpSession SdpResponseGeneratorError) :=
  match parse_sdp sdp true with
  | Err e => ([], Done (Err (from e)))
  | Ok req =>
      match server_data env with
      | Err e => ([], Done (Err (from e)))
      | Ok data =>
          match session_name req with
          | None => ([], Done (Err (from (str "Session is empty"))))
          | Some session =>
              let '(sent, inserted) :=
                register env (user (meta data)) group_id
                  (bool_decide (is_Some (session_get_attribute req TSendonly)))
                  (media_from_vec (session_media req)) 0 (client_users (session_media req)) in
              (sent, inserted ≫= λ _,
                 Done (map_err from (answer_session env data sdp_addr req session)))
          end
      end
  end.
End sdp.

(** ** Attribute lists *)

Section attribute_facts.
Context {T : SdpTypes}.

Definition drop_type (t : AttributeType) (l : list Attribute) : list Attribute :=
  filter (λ a, attr_type a ≠ t) l.
Definition put (a : Attribute) (l : list Attribute) : list Attribute :=
  drop_type (attr_type a) l ++ [a].
Definition has (t : AttributeType) (l : list Attribute) : bool :=
  bool_decide (of_type t l ≠ []).

Lemma of_type_app t l l' : of_type t (l ++ l') = of_type t l ++ of_type t l'.
Proof. apply filter_app. Qed.

Lemma of_type_single t a : of_type t [a] = if decide (attr_type a = t) then [a] else [].
Proof. unfold of_type. rewrite filter_cons. by case_decide. Qed.

(** Removing attributes by their type. *)
Lemma of_type_filter (p : AttributeType → Prop) `{∀ t, Decision (p t)} t l :
  of_type t (filter (λ a, p (attr_type a)) l) = if decide (p t) then of_type t l else [].
Proof.
  unfold of_type. induction l as [|a l IH]; [by case_decide|]. rewrite !filter_cons.
  destruct (decide (p (attr_type a))) as [Ha|Ha], (decide (attr_type a = t)) as [<-|Ht];
    rewrite ?filter_cons, IH; repeat case_decide; simplify_eq; done.
Qed.

Lemma of_type_drop t t' l :
  of_type t (drop_type t' l) = if decide (t = t') then [] else of_type t l.
Proof.
  transitivity (if decide (t ≠ t') then of_type t l else []);
    [exact (of_type_filter (λ t, t ≠ t') t l)|by repeat case_decide].
Qed.

Lemma of_type_put t a l :
  of_type t (put a l) = if decide (t = attr_type a) then [a] else of_type t l.
Proof.
  unfold put. rewrite of_type_app, of_type_drop, of_type_single.
  repeat case_decide; simplify_eq; [done|by rewrite app_nil_r].
Qed.

Lemma of_type_codecs t l :
  of_type t (filter (λ a, codec_type (attr_type a) = false) l) =
  if codec_type t then [] else of_type t l.
Proof.
  transitivity (if decide (codec_type t = false) then of_type t l else []);
    [exact (of_type_filter (λ t, codec_type t = false) t l)|].
  case_decide as Hc; [by rewrite Hc|by destruct (codec_type t)].
Qed.

Lemma of_type_rtpmaps t rs :
  of_type t (RtpmapAttr <$> rs) = if decide (t = TRtpmap) then RtpmapAttr <$> rs else [].
Proof.
  unfold of_type. case_decide as Ht.
  - induction rs as [|r rs IH]; [done|]. rewrite fmap_cons, filter_cons. simpl.
    rewrite decide_True by done. by rewrite IH.
  - induction rs as [|r rs IH]; [done|]. rewrite fmap_cons, filter_cons. simpl.
    by rewrite decide_False.
Qed.

Lemma has_put t a l : has t (put a l) = bool_decide (t = attr_type a) || has t l.
Proof.
  unfold has. rewrite of_type_put. case_decide as Ht; [|by rewrite (bool_decide_eq_false_2 _ Ht)].
  by rewrite (bool_decide_eq_true_2 _ Ht).
Qed.

Lemma has_drop t t' l : has t (drop_type t' l) = negb (bool_decide (t = t')) && has t l.
Proof.
  unfold has. rewrite of_type_drop. case_decide as Ht; [|by rewrite (bool_decide_eq_false_2 _ Ht)].
  by rewrite (bool_decide_eq_true_2 _ Ht).
Qed.

(** The codecs of a list are those of its [Rtpmap] attributes. *)
Definition rtpmaps (l : list Attribute) : list Rtpmap :=
  omap (λ a, match a with RtpmapAttr r => Some r | _ => None end) l.

Definition format (r : Rtpmap) : SmolStr := codec_name r ++ str "/" ++ to_string (frequency r).

Lemma rtpmaps_of_type l : rtpmaps (of_type TRtpmap l) = rtpmaps l.
Proof.
  induction l as [|a l IH]; [done|]. unfold of_type. rewrite filter_cons.
  fold (of_type TRtpmap l). case_decide as Ha; destruct a; try done.
  exact (f_equal (cons _) IH).
Qed.

Lemma good_codecs_rtpmaps l :
  good_codecs l = filter (λ r, is_supported_format (format r) = true) (rtpmaps l).
Proof.
  induction l as [|a l IH]; [done|]. destruct a; try exact IH.
  change (rtpmaps (RtpmapAttr r :: l)) with (r :: rtpmaps l). rewrite filter_cons, <- IH.
  change (good_codecs (RtpmapAttr r :: l)) with
    (match (if is_supported_format (format r) then Some r else None) with
     | Some r => r :: good_codecs l
     | None => good_codecs l
     end).
  by destruct (is_supported_format (format r)).
Qed.
End attribute_facts.

(** ** The editing of a media section *)

Section media_facts.
Context {F : Foreign} {B : BiMapOps} {T : SdpTypes} {S : SdpLib} {SL : SdpLaws S}.

(** The call succeeds and gives a section with these attributes. *)
Definition gives {E} (r : result MediaSection E) (l : list Attribute) : Prop :=
  attributes_of r = Some l.

Lemma gives_ok {E} m l : media_attributes m = l → gives (E := E) (Ok m) l.
Proof. by intros <-. Qed.

Lemma gives_bind {E} (r : result MediaSection E) k l l' :
  gives r l → (∀ m, media_attributes m = l → gives (k m) l') → gives (m ←ᵣ r; k m) l'.
Proof. intros Hr Hk. destruct r as [m|e]; [|done]. apply Hk. by injection Hr. Qed.

Lemma gives_set m a l :
  media_attributes m = l → media_allowed a = true → gives (set_attribute m a) (put a l).
Proof. intros <- Ha. unfold gives. by rewrite law_set, Ha. Qed.

Lemma gives_add m a l :
  media_attributes m = l → media_allowed a = true → gives (add_attribute m a) (l ++ [a]).
Proof. intros <- Ha. unfold gives. by rewrite law_add, Ha. Qed.

Lemma get_has m t : (if get_attribute m t is Some _ then true else false) = has t (media_attributes m).
Proof. rewrite law_get. unfold has. by destruct (of_type t (media_attributes m)). Qed.

Lemma gives_codecs m l rs :
  media_attributes m = l → gives (add_codecs m rs) (l ++ (RtpmapAttr <$> rs)).
Proof.
  revert m l. induction rs as [|r rs IH]; intros m l Hm; simpl.
  { rewrite app_nil_r. by apply gives_ok. }
  eapply gives_bind; [unfold gives; rewrite law_add_codec; by rewrite Hm|].
  intros m' Hm'. rewrite cons_middle, app_assoc. by apply IH.
Qed.

(** The direction of the stream, seen from the server. *)
Definition flip (l : list Attribute) : list Attribute :=
  if has TRecvonly l then put Sendonly (drop_type TRecvonly l)
  else if has TSendonly l then put Recvonly (drop_type TSendonly l) else l.

Definition useful (l : list Attribute) : list Attribute :=
  drop_type TSsrc (drop_type TSsrcGroup (flip (drop_type TMsid l))).

Lemma gives_useful m l :
  media_attributes m = l → gives (remove_useless_attributes m) (useful l).
Proof.
  intros Hm. unfold remove_useless_attributes.
  eapply (gives_bind _ _ (flip (drop_type TMsid l))).
  - set (m1 := remove_attribute m TMsid).
    assert (media_attributes m1 = drop_type TMsid l) as Hm1 by (unfold m1; by rewrite law_remove, Hm).
    unfold flip. rewrite <- Hm1, <- !get_has.
    destruct (get_attribute m1 TRecvonly);
      [|destruct (get_attribute m1 TSendonly); [|by apply gives_ok]];
      (apply gives_set; [by rewrite law_remove|done]).
  - intros m' Hm'. apply gives_ok. by rewrite !law_remove, Hm'.
Qed.

(** The attributes [set_attributes] puts after the codecs. *)
Definition credentials (data : ServerData) (addr : SocketAddr) (draw : Z)
    (l : list Attribute) : list Attribute :=
  put EndOfCandidates
    (put RtcpMux
      (put (Rtcp {| rtcp_port := addr_port addr; unicast_addr := Some (typed_from (ip addr)) |})
        (put (Setup Passive)
          (put (Fingerprint {| hash_algorithm := Sha256; fingerprint := digest data |})
            (put (IceUfrag (user (meta data)))
              (put (IcePwd (password (meta data))) l))))) ++
     [Candidate (own_candidate addr draw)]).

Definition supported_codecs (l : list Attribute) : list Attribute :=
  filter (λ a, codec_type (attr_type a) = false) l ++ (RtpmapAttr <$> good_codecs l).

Lemma gives_attributes m l data addr draw :
  media_attributes m = l →
  gives (set_attributes m (user (meta data)) (password (meta data)) (digest data) addr draw)
    (credentials data addr draw (supported_codecs l)).
Proof.
  intros Hm. unfold set_attributes, credentials, supported_codecs. rewrite Hm.
  eapply gives_bind; [apply gives_codecs; by rewrite law_remove_codecs, Hm|]. intros m0 H0.
  do 6 (eapply gives_bind; [by apply gives_set|]; intros ? ?).
  eapply gives_bind; [by apply gives_add|]. intros m7 H7. by apply gives_set.
Qed.

Lemma gives_answer m data addr draw :
  gives (answer_medium data addr draw m)
    (credentials data addr draw (supported_codecs (useful (media_attributes m)))).
Proof.
  unfold answer_medium.
  eapply gives_bind; [apply gives_useful, law_port|]. intros m1 H1.
  eapply gives_bind; [by apply gives_attributes|]. intros m2 H2.
  apply gives_ok. by rewrite law_connection.
Qed.

(** What stands in the answer, type by type. *)
Definition answered (data : ServerData) (addr : SocketAddr) (draw : Z) (l : list Attribute)
    (t : AttributeType) : list Attribute :=
  match t with
  | TMsid | TSsrc | TSsrcGroup => []
  | TSendonly => if has TRecvonly l then [Sendonly] else []
  | TRecvonly => if negb (has TRecvonly l) && has TSendonly l then [Recvonly] else []
  | TRtpmap =>
      RtpmapAttr <$> filter (λ r, is_supported_format (format r) = true) (rtpmaps l)
  | TIcePwd => [IcePwd (password (meta data))]
  | TIceUfrag => [IceUfrag (user (meta data))]
  | TFingerprint => [Fingerprint {| hash_algorithm := Sha256; fingerprint := digest data |}]
  | TSetup => [Setup Passive]
  | TRtcp => [Rtcp {| rtcp_port := addr_port addr; unicast_addr := Some (typed_from (ip addr)) |}]
  | TRtcpMux => [RtcpMux]
  | TEndOfCandidates => [EndOfCandidates]
  | TCandidate => of_type TCandidate l ++ [Candidate (own_candidate addr draw)]
  | _ => if codec_type t then [] else of_type t l
  end.

Lemma of_type_useful t l :
  of_type t (useful l) =
  match t with
  | TMsid | TSsrc | TSsrcGroup => []
  | TSendonly => if has TRecvonly l then [Sendonly] else []
  | TRecvonly => if negb (has TRecvonly l) && has TSendonly l then [Recvonly] else []
  | _ => of_type t l
  end.
Proof.
  unfold useful, flip. rewrite !has_drop. simpl. rewrite !of_type_drop.
  destruct (has TRecvonly l) eqn:Hr; [|destruct (has TSendonly l) eqn:Hs];
    rewrite ?of_type_put, ?of_type_drop; destruct t; try done; simpl.
  - unfold has in *. rewrite bool_decide_eq_false in Hr. by apply dec_stable in Hr.
  - unfold has in *. rewrite bool_decide_eq_false in Hs. by apply dec_stable in Hs.
Qed.

Lemma rtpmaps_useful l : rtpmaps (useful l) = rtpmaps l.
Proof. by rewrite <- rtpmaps_of_type, of_type_useful, rtpmaps_of_type. Qed.

Lemma of_type_answer data addr draw l t :
  of_type t (credentials data addr draw (supported_codecs (useful l))) =
  answered data addr draw l t.
Proof.
  unfold credentials. rewrite of_type_put, of_type_app, !of_type_put, of_type_single.
  unfold supported_codecs. rewrite of_type_app, of_type_codecs, of_type_rtpmaps, of_type_useful.
  rewrite good_codecs_rtpmaps, rtpmaps_useful.
  destruct t; simpl; by rewrite ?app_nil_r.
Qed.
End media_facts.

(** ** Registration *)

Section register_facts.
Context {F : Foreign} {B : BiMapOps} {T : SdpTypes} {S : SdpLib} {SL : SdpLaws S}.

(** The two messages of every section with a user, in order. *)
Fixpoint registrations (ttls : nat → Instant) (server_user : SmolStr) (group_id : Z)
    (is_sender : bool) (media : MediaList) (k : nat) (users : list SmolStr) : list UdpMsg :=
  match users with
  | [] => []
  | u :: users =>
      MsgSession (session_new server_user u)
        {| group_id := group_id; ttl := ttls k; is_sender := is_sender |} ::
      MsgMediaUser u media ::
      registrations ttls server_user group_id is_sender media (1 + k) users
  end.

Definition refused (env : Env) (k : nat) : Prop := ∃ e, recv env k = Err e.

Lemma register_all env su gid b media k users :
  (∀ i, (i < 2 * length users)%nat → recv env (2 * k + i) = Ok tt) →
  register env su gid b media k users = (registrations (now env) su gid b media k users, Done tt).
Proof.
  revert k. induction users as [|u users IH]; intros k Hrecv; [done|].
  cbn [register registrations]. rewrite Hrecv by (simpl; lia).
  replace (2 * k)%nat with (2 * k + 0)%nat by lia. rewrite Hrecv by (simpl; lia).
  rewrite IH; [done|]. intros i Hi.
  replace (2 * (1 + k) + i)%nat with (2 * k + (2 + i))%nat by lia. apply Hrecv. simpl. lia.
Qed.

Lemma register_refused env su gid b media k i users :
  (i < 2 * length users)%nat → refused env (2 * k + i) →
  (register env su gid b media k users).2 = Panicked.
Proof.
  revert k i. induction users as [|u users IH]; intros k i Hi [e He]; [simpl in *; lia|].
  cbn [register]. destruct i as [|[|i]].
  - rewrite Nat.add_0_r in He. rewrite He. by destruct (recv env (2 * k + 1)).
  - rewrite He. by destruct (recv env (2 * k)).
  - destruct (recv env (2 * k)), (recv env (2 * k + 1)); try done.
    destruct (register env su gid b media (1 + k) users) as [sent r] eqn:Hreg. simpl.
    assert (r = Panicked) as ->; [|done]. rewrite <- (IH (1 + k)%nat i); [by rewrite Hreg|simpl in *; lia|].
    exists e. by replace (2 * (1 + k) + i)%nat with (2 * k + (2 + i))%nat by lia.
Qed.

Lemma mailbox_cases env n :
  (∃ k, (k < n)%nat ∧ refused env k) ∨ ∀ k, (k < n)%nat → recv env k = Ok tt.
Proof.
  induction n as [|n [(k & Hk & Href)|IH]]; [right; lia|left; exists k; split; [lia|done]|].
  destruct (recv env n) as [[]|e] eqn:Hn.
  - right. intros k Hk. destruct (decide (k = n)) as [->|]; [done|apply IH; lia].
  - left. exists n. split; [lia|by exists e].
Qed.

(** A name without the colon of the attribute's label is read back. *)
Lemma client_users_plain media m u :
  m ∈ media → get_attribute m TIceUfrag = Some (IceUfrag u) → 58 ∉ u → u ∈ client_users media.
Proof.
  intros Hm Hu Hcolon. unfold client_users. apply list_elem_of_fmap. exists (IceUfrag u).
  split; [|apply list_elem_of_omap; by exists m].
  rewrite law_ufrag, replace_at_prefix by done. simpl.
  rewrite (replace_absent _ _ _ 58); [done| |done].
  by apply (bool_decide_unpack _).
Qed.

(** The receiving actor knows the user for the group, with the media. *)
Definition knows (su : SmolStr) (gid : Z) (b : bool) (media : MediaList) (u : SmolStr)
    (st : UdpRecv) : Prop :=
  (∃ t, sessions st !! session_new su u = Some {| group_id := gid; ttl := t; is_sender := b |}) ∧
  media_sessions st !! u = Some media.

Lemma udp_run_known ttls su gid b media k users u st :
  u ∈ users ∨ knows su gid b media u st →
  knows su gid b media u (udp_run st (registrations ttls su gid b media k users)).1.
Proof.
  revert st k. induction users as [|u1 users IH]; intros st k Hu; simpl.
  { destruct Hu as [?%elem_of_nil|?]; done. }
  set (st1 := handle_media_user _ u1 media).
  assert (u ∈ users ∨ knows su gid b media u st1) as Hst1.
  { destruct (decide (u = u1)) as [->|Hne].
    { right. split; [exists (ttls k)|]; simpl; by simplify_map_eq. }
    destruct Hu as [[?|?]%elem_of_cons|[[t Ht] Hm]]; [done|by left|right].
    split; [exists t|]; simpl; [|by simplify_map_eq].
    rewrite lookup_insert_ne; [done|]. by intros [=]. }
  specialize (IH st1 (1 + k)%nat Hst1). simpl in IH. by destruct (udp_run st1 _).
Qed.
End register_facts.

(** ** Answers *)

Section answer_facts.
Context {F : Foreign} {B : BiMapOps} {T : SdpTypes} {S : SdpLib} {SL : SdpLaws S}.

(** The answer to a media section never fails, and is given type by type. *)
Lemma answer_medium_spec data addr draw m :
  ∃ m', answer_medium data addr draw m = Ok m' ∧
    ∀ t, of_type t (media_attributes m') = answered data addr draw (media_attributes m) t.
Proof.
  pose proof (gives_answer m data addr draw) as Hm.
  destruct (answer_medium data addr draw m) as [m'|e]; [|done].
  exists m'. split; [done|]. intros t. injection Hm as ->. apply of_type_answer.
Qed.

Lemma answer_media_spec data addr draws k media :
  ∃ media', answer_media data addr draws k media = Ok media' ∧
    length media' = length media ∧
    ∀ i m, media !! i = Some m → ∃ m', media' !! i = Some m' ∧
      ∀ t, of_type t (media_attributes m') =
           answered data addr (draws (k + i)%nat) (media_attributes m) t.
Proof.
  revert k. induction media as [|m media IH]; intros k; [by exists []|]. cbn [answer_media].
  destruct (answer_medium_spec data addr (draws k) m) as (m' & -> & Hm').
  destruct (IH (1 + k)%nat) as (media' & -> & Hlen & Hall). exists (m' :: media').
  split; [done|]. split; [simpl; by rewrite Hlen|]. intros [|i] m1; simpl.
  - intros [= <-]. exists m'. by rewrite Nat.add_0_r.
  - intros Hi. rewrite Nat.add_succ_r. by apply Hall.
Qed.

Lemma answer_group_type req : attr_type (answer_group req) = TGroup.
Proof.
  unfold answer_group. destruct (session_get_attribute req TGroup) eqn:Hg; [|done].
  by apply law_session_get in Hg.
Qed.

Lemma session_add_Ok s a :
  session_allowed a = true →
  ∃ s', session_add_attribute s a = Ok s' ∧ session_attributes s' = session_attributes s ++ [a].
Proof.
  intros Ha. pose proof (law_session_add s a) as Hs.
  destruct (session_add_attribute s a) as [s'|e]; [by exists s'|congruence].
Qed.

Lemma answer_session_spec env data addr req name :
  ∃ res, answer_session env data addr req name = Ok res ∧
    session_attributes res =
      [MsidSemantic {| semantic := str "WMS"; msids := [] |}; answer_group req; IceLite;
       IceOptions [str "trickle"]] ∧
    length (session_media res) = length (session_media req) ∧
    ∀ i m, session_media req !! i = Some m → ∃ m', session_media res !! i = Some m' ∧
      ∀ t, of_type t (media_attributes m') =
           answered data addr (priority_draw env i) (media_attributes m) t.
Proof.
  unfold answer_session.
  destruct (answer_media_spec data addr (priority_draw env) 0 (session_media req))
    as (media' & -> & Hlen & Hall). cbn [and_then].
  assert (session_allowed (answer_group req) = true) as Hgroup.
  { pose proof (answer_group_type req). by destruct (answer_group req). }
  set (s0 := sdp_session_new _ _ _).
  destruct (session_add_Ok s0 (MsidSemantic {| semantic := str "WMS"; msids := [] |}))
    as (s1 & -> & H1); [done|]. cbn [and_then].
  destruct (session_add_Ok s1 (answer_group req)) as (s2 & -> & H2); [done|]. cbn [and_then].
  destruct (session_add_Ok s2 IceLite) as (s3 & -> & H3); [done|]. cbn [and_then].
  destruct (session_add_Ok s3 (IceOptions [str "trickle"])) as (s4 & -> & H4); [done|].
  cbn [and_then]. eexists. split; [done|].
  destruct (law_media (set_timing s4 0 0) media') as [-> ->].
  split; [|by split]. unfold s0 in H1. by rewrite law_timing, H4, H3, H2, H1, law_session_new.
Qed.
End answer_facts.

(** ** Properties *)

Section sdp_properties.
Context {F : Foreign} {B : BiMapOps} {T : SdpTypes} {S : SdpLib} {SL : SdpLaws S}.

(** The header and the sections of the server's answer to an offer. *)
Record answers (env : Env) (data : ServerData) (addr : SocketAddr) (req res : SdpSession) :
    Prop := {
  answers_header :
    session_attributes res =
      [MsidSemantic {| semantic := str "WMS"; msids := [] |}; answer_group req; IceLite;
       IceOptions [str "trickle"]];
  answers_length : length (session_media res) = length (session_media req);
  answers_media i m :
    session_media req !! i = Some m → ∃ m', session_media res !! i = Some m' ∧
      ∀ t, of_type t (media_attributes m') =
           answered data addr (priority_draw env i) (media_attributes m) t;
}.

(** C22. The signalling exchange on every path. An offer that does not parse, a dead
    receiving actor and an offer without a session line are refused with their error
    and register nothing. Otherwise every section with a user registers its session
    and the offer's media with the receiving actor, in order; if the actor refuses a
    message the handler panics; if not, the answer is given, with one section per
    offered section: the supported codecs in their order and no others, the direction
    turned round, the server's own name, password, digest, role and address in place
    of the client's, its candidate after the client's candidates, which stay, no
    stream identifiers, and everything else as offered. *)
Theorem offer_answered env sdp gid addr :
  let response := generate_streamer_response env sdp gid addr in
  match parse_sdp sdp true, server_data env with
  | Err e, _ => response = ([], Done (Err (SdpParserErr e)))
  | Ok _, Err e => response = ([], Done (Err (MailBoxError e)))
  | Ok req, Ok data =>
      let users := client_users (session_media req) in
      match session_name req with
      | None => response = ([], Done (Err (CustomError (str "Session is empty"))))
      | Some _ =>
          ((∃ k, (k < 2 * length users)%nat ∧ refused env k) ∧ response.2 = Panicked) ∨
          ∃ res, answers env data addr req res ∧
            response =
            (registrations (now env) (user (meta data)) gid
               (bool_decide (is_Some (session_get_attribute req TSendonly)))
               (media_from_vec (session_media req)) 0 users, Done (Ok res))
      end
  end.
Proof.
  cbv zeta. unfold generate_streamer_response.
  destruct (parse_sdp sdp true) as [req|e]; [|done].
  destruct (server_data env) as [data|e]; [|done].
  destruct (session_name req) as [name|]; [|done].
  set (users := client_users (session_media req)).
  destruct (mailbox_cases env (2 * length users)) as [(k & Hk & Href)|Hrecv].
  - left. split; [by exists k|].
    pose proof (register_refused env (user (meta data)) gid
      (bool_decide (is_Some (session_get_attribute req TSendonly)))
      (media_from_vec (session_media req)) 0 k users Hk Href) as Hreg.
    destruct (register _ _ _ _ _ _ _) as [sent r]. simpl in *. by rewrite Hreg.
  - right. destruct (answer_session_spec env data addr req name) as (res & Hres & H1 & H2 & H3).
    exists res. split; [by split|]. rewrite register_all by done. simpl. by rewrite Hres.
Qed.

(** C23. A client that was answered is let in: after the receiving actor has handled
    the messages of the exchange, whatever it knew before, a STUN request naming the
    server and a user of the offer is answered, from whatever address, and announced
    to the client actor with the offer's media and the group of the exchange; the
    client counts as the sender of the group when the offer itself says sendonly. *)
Theorem offer_admits env sdp gid addr req data sent res m u st :
  parse_sdp sdp true = Ok req → server_data env = Ok data →
  generate_streamer_response env sdp gid addr = (sent, Done (Ok res)) →
  m ∈ session_media req → get_attribute m TIceUfrag = Some (IceUfrag u) → 58 ∉ u →
  ∀ request from,
    StunParse.server_user request = user (meta data) → remote_user request = u →
    let st' := (udp_run st sent).1 in
    handle_request st' (Stun request from) =
    (st', [ToClientMedia from (media_from_vec (session_media req));
           ToUdpSend (Stun request from);
           ToClientGroup gid from (bool_decide (is_Some (session_get_attribute req TSendonly)))]).
Proof.
  intros Hreq Hdata Hgen Hm Hu Hcolon request from Hserver Hremote st'.
  set (users := client_users (session_media req)).
  set (b := bool_decide (is_Some (session_get_attribute req TSendonly))) in *.
  assert (u ∈ users) as Hin by (by apply client_users_plain with m).
  assert (sent = registrations (now env) (user (meta data)) gid b
                   (media_from_vec (session_media req)) 0 users) as ->.
  { revert Hgen. unfold generate_streamer_response. rewrite Hreq, Hdata.
    destruct (session_name req) as [name|]; [|done]. fold users b.
    destruct (mailbox_cases env (2 * length users)) as [(k & Hk & Href)|Hrecv].
    - pose proof (register_refused env (user (meta data)) gid b
        (media_from_vec (session_media req)) 0 k users Hk Href) as Hreg.
      destruct (register _ _ _ _ _ _ _) as [sent' r]. simpl in Hreg. by rewrite Hreg.
    - rewrite register_all by done. by intros [= <- _]. }
  destruct (udp_run_known (now env) (user (meta data)) gid b
    (media_from_vec (S := sdp_media_ops) (session_media req)) 0 users u st (or_introl Hin)) as [[t Ht] Hmed].
  fold st' in Ht, Hmed. unfold handle_request. by rewrite Hserver, Hremote, Ht, Hmed.
Qed.
End sdp_properties.

(** ** The codecs of the server *)

Definition SUPPORTED_CODECS : list (SmolStr * Z) :=
  [(str "PCMU", 8000); (str "PCMA", 8000); (str "G722", 8000); (str "H264", 90000);
   (str "telephone-event", 8000); (str "opus", 48000); (str "VP8", 90000); (str "VP9", 90000)].

(** The last separator of two texts decides where they are split. *)
Lemma split_last {A} (x : A) l1 l2 r1 r2 :
  x ∉ r1 → x ∉ r2 → l1 ++ x :: r1 = l2 ++ x :: r2 → l1 = l2 ∧ r1 = r2.
Proof.
  intros H1 H2 [(k & -> & Hk)|(k & -> & Hk)]%app_eq_inv; destruct k as [|y k]; simplify_list_eq;
    try done; set_solver.
Qed.

Lemma to_string_no_slash n : 47 ∉ to_string n.
Proof.
  intros Hin. pose proof (to_string_digits n) as Hd. rewrite Forall_forall in Hd.
  specialize (Hd _ Hin). unfold is_digit in Hd. lia.
Qed.

Lemma supported_table :
  SUPPORTED = (λ p : SmolStr * Z, p.1 ++ str "/" ++ to_string p.2) <$> SUPPORTED_CODECS.
Proof. vm_compute. reflexivity. Qed.

(** The codec filter looks at name and frequency, though it compares texts: a
    codec is kept exactly if its name and its clock rate are one of the eight pairs,
    whatever characters a client puts into the name. *)
Lemma supported_formats name f :
  0 ≤ f →
  is_supported_format (name ++ str "/" ++ to_string f) = true ↔ (name, f) ∈ SUPPORTED_CODECS.
Proof.
  intros Hf. unfold is_supported_format. rewrite bool_decide_eq_true, supported_table.
  rewrite list_elem_of_fmap. split; [|intros Hin; by exists (name, f)].
  intros ([name' f'] & Heq & Hin). simpl in Heq.
  assert (0 ≤ f') as Hf'.
  { assert (Forall (λ p : SmolStr * Z, 0 ≤ p.2) SUPPORTED_CODECS) as Hall
      by (apply (bool_decide_unpack _); vm_compute; exact I).
    rewrite Forall_forall in Hall. exact (Hall _ Hin). }
  apply split_last in Heq as [-> Heq]; [|apply to_string_no_slash..].
  apply to_string_inj in Heq; [by subst|done..].
Qed.

(** ** A concrete exchange *)

Definition toy_types : SdpTypes := {|
  Address := IpAddr; address_ip a := a; ExplicitlyTypedAddress := IpAddr; typed_from a := a;
  CandidateType := unit; Host := tt; CandidateTransport := unit; UdpTransport := tt;
  TcpType := unit; HashAlgorithm := unit; Sha256 := tt; GroupSemantic := unit; Bundle := tt;
  SetupRole := bool; Passive := true; Contents := unit;
  OtherAttribute := nat; OtherType := nat; other_type o := o;
  other_codec o := bool_decide (o = 0%nat); other_allowed _ := true;
|}.

Record ToySession := {
  toy_version : Z;
  toy_name : option SmolStr;
  toy_origin : SdpOrigin (T := toy_types);
  toy_attributes : list (Attribute (T := toy_types));
  toy_media : list (list (Attribute (T := toy_types)));
}.

(** A viewer's offer of VP8, H264 with an unsupported clock, and audio. *)
Definition offered_codec (pt : Z) (name : SmolStr) (f : Z) : Attribute (T := toy_types) :=
  RtpmapAttr {| payload_type := pt; codec_name := name; frequency := f; channels := None |}.

Definition toy_offer : ToySession := {|
  toy_version := 0; toy_name := Some (str "-");
  toy_origin := @Build_SdpOrigin toy_types (str "mozilla") 1 0 (IpV4 [0; 0; 0; 0]);
  toy_attributes := [];
  toy_media := [[IceUfrag (T := toy_types) (str "cli"); Recvonly; Ssrc (T := toy_types) tt;
                 offered_codec 96 (str "VP8") 90000; offered_codec 97 (str "H264") 8000];
                [IceUfrag (T := toy_types) (str "cli"); offered_codec 0 (str "PCMU") 8000]];
|}.

Definition toy_put (m : list (Attribute (T := toy_types))) a : result (list Attribute) unit :=
  if media_allowed a then Ok (m ++ [a]) else Err tt.

Definition toy_sdp : SdpLib (T := toy_types) := {|
  SdpParserError := unit; SdpParserInternalError := unit;
  MediaSection := list Attribute;
  media_attributes m := m;
  get_attribute m t := head (of_type t m);
  set_port m _ := m;
  set_connection m _ := m;
  remove_attribute m t := filter (λ a, attr_type a ≠ t) m;
  add_attribute := toy_put;
  set_attribute m a := toy_put (filter (λ b, attr_type b ≠ attr_type a) m) a;
  remove_codecs m := filter (λ a, codec_type (attr_type a) = false) m;
  add_codec m r := Ok (m ++ [RtpmapAttr r]);
  attribute_to_string a := match a with IceUfrag u => str "ice-ufrag:" ++ u | _ => [] end;
  SdpSession := ToySession;
  parse_sdp s _ := match s with [] => Err tt | _ => Ok toy_offer end;
  session_version := toy_version; session_name := toy_name; get_origin := toy_origin;
  session_attributes := toy_attributes;
  session_get_attribute s t := head (of_type t (toy_attributes s));
  session_media := toy_media;
  sdp_session_new v o n := {| toy_version := v; toy_name := Some n; toy_origin := o;
                              toy_attributes := []; toy_media := [] |};
  session_add_attribute s a :=
    if session_allowed a then
      Ok {| toy_version := toy_version s; toy_name := toy_name s; toy_origin := toy_origin s;
            toy_attributes := toy_attributes s ++ [a]; toy_media := toy_media s |}
    else Err tt;
  set_timing s _ _ := s;
  set_media s l := {| toy_version := toy_version s; toy_name := toy_name s;
                      toy_origin := toy_origin s; toy_attributes := toy_attributes s;
                      toy_media := l |};
|}.

Lemma head_of_type {T : SdpTypes} t l a : head (of_type t l) = Some a → attr_type a = t.
Proof.
  intros Hh. assert (a ∈ of_type t l) as [Ha _]%list_elem_of_filter; [|done].
  destruct (of_type t l); [done|]. injection Hh as ->. left.
Qed.

Lemma toy_sdp_laws : SdpLaws toy_sdp.
Proof.
  split; try done; intros; simpl.
  - unfold toy_put. by destruct (media_allowed a).
  - unfold toy_put. by destruct (media_allowed a).
  - exact (head_of_type _ _ _ H).
  - by destruct (session_allowed a).
Qed.

Definition toy_env : Env (F := no_foreign) := {|
  server_data := Ok {| meta := {| user := str "srv"; password := str "secret" |};
                       digest := [1; 2; 3] |};
  recv _ := Ok tt; now _ := 0; session_id_draw := 4; priority_draw _ := 5;
|}.

Definition toy_response :=
  generate_streamer_response (B := gmap_bimap) (S := toy_sdp) toy_env (str "v=0") 7 (V4 [127; 0; 0; 1] 3336).

Lemma offer_answered_witness : ∃ res,
  answers (S := toy_sdp) toy_env {| meta := {| user := str "srv"; password := str "secret" |}; digest := [1; 2; 3] |}
    (V4 [127; 0; 0; 1] 3336) toy_offer res ∧
  toy_response.2 = Done (Ok res).
Proof.
  destruct (offer_answered (B := gmap_bimap) (SL := toy_sdp_laws) toy_env (str "v=0") 7
    (V4 [127; 0; 0; 1] 3336)) as [[(k & _ & e & He) _]|(res & Hres & H)].
  - discriminate He.
  - exists res. split; [exact Hres|]. unfold toy_response. by rewrite H.
Defined.

Definition toy_request : StunBindingRequest :=
  {| transaction_id := replicate 12 7; remote_user := str "cli"; StunParse.server_user := str "srv" |}.

Lemma offer_admits_witness :
  let st := (udp_run udp_recv_new toy_response.1).1 in
  ToClientGroup 7 (V4 [10; 0; 0; 1] 9) false ∈ (handle_request st (Stun toy_request (V4 [10; 0; 0; 1] 9))).2.
Proof.
  assert (∃ res, toy_response = (toy_response.1, Done (Ok res))) as [res Hres]
    by (eexists; reflexivity).
  cbv zeta.
  rewrite (offer_admits (B := gmap_bimap) (SL := toy_sdp_laws) toy_env (str "v=0") 7
    (V4 [127; 0; 0; 1] 3336) toy_offer
    {| meta := {| user := str "srv"; password := str "secret" |}; digest := [1; 2; 3] |}
    toy_response.1 res
    [IceUfrag (T := toy_types) (str "cli"); offered_codec 0 (str "PCMU") 8000] (str "cli")
    udp_recv_new).
  - do 2 right. left.
  - reflexivity.
  - reflexivity.
  - exact Hres.
  - right. left.
  - reflexivity.
  - apply (bool_decide_unpack _). vm_compute. exact I.
  - reflexivity.
  - reflexivity.
Defined.
