(* ===== verification/Http.v ===== *)
(** * The HTTP endpoint (src/src/main.rs:66-88, the [Display] of src/src/sdp/mod.rs)

    [POST /parse_sdp/{group_id}/] hands the body to the signalling side and turns its
    result into a response. How [webrtc-sdp] prints sessions and errors is a parameter. *)

From S2P Require Import Prelude Net Srtp ByteOrder Utf8 Text StunParse Meta.
From S2P Require Import Demux Jitter Media Udp Sdp.
Local Open Scope Z_scope.

Class SdpDisplay {T : SdpTypes} (S : SdpLib) := {
  session_to_string : SdpSession → SmolStr;
  parser_error_to_string : SdpParserError → SmolStr;
  internal_error_to_string : SdpParserInternalError → SmolStr;
}.

Inductive HttpResponse :=
| BadRequest (body : SmolStr)
| HttpOk (body : SmolStr).

Section http.
Context {F : Foreign} {B : BiMapOps} {T : SdpTypes} {S : SdpLib} {Sh : SdpDisplay S}.

(** [Display for SdpResponseGeneratorError] *)
Definition error_to_string (e : SdpResponseGeneratorError) : SmolStr :=
  match e with
  | SdpParserErr e => parser_error_to_string e
  | SdpParserInternalErr e => internal_error_to_string e
  | MailBoxError _ => str "Udp receiver is broken"
  | CustomError m => m
  end.

(** The messages to the receiving actor, and the response. *)
Definition http_parse_sdp (env : Env) (body : list Z) (group_id : Z) (sdp_addr : SocketAddr) :
    list UdpMsg * outcome HttpResponse :=
  match from_utf8 body with
  | None => ([], Done (BadRequest []))
  | Some body =>
      let '(sent, response) := generate_streamer_response env body group_id sdp_addr in
      (sent, sdp ← response;
             Done match sdp with
                  | Ok sdp => HttpOk (replace [13; 10; 13; 10] [13; 10] (session_to_string sdp))
                  | Err e => BadRequest (error_to_string e)
                  end)
  end.
End http.

Section http_properties.
Context {F : Foreign} {B : BiMapOps} {T : SdpTypes} {S : SdpLib} {SL : SdpLaws S}
  {Sh : SdpDisplay S}.

(** C24. A refused offer leaves no trace: when the endpoint responds 400, whether
    the body is not UTF-8, does not parse, lacks its session line, or the receiving
    actor is gone, nothing has been registered; and unless the actor refuses a
    registration the endpoint always responds. *)
Theorem refused_offers_register_nothing env body gid addr :
  let '(sent, response) := http_parse_sdp env body gid addr in
  (∀ e, response = Done (BadRequest e) → sent = []) ∧
  ((∀ k, recv env k = Ok tt) → ∃ r, response = Done r).
Proof.
  unfold http_parse_sdp. destruct (from_utf8 body) as [text|]; [|split; [done|by eexists]].
  unfold generate_streamer_response.
  destruct (parse_sdp text true) as [req|e]; [|split; [done|by eexists]].
  destruct (server_data env) as [data|e]; [|split; [done|by eexists]].
  destruct (session_name req) as [name|]; [|split; [done|by eexists]].
  destruct (answer_session_spec env data addr req name) as (res & Hres & _).
  destruct (register _ _ _ _ _ _ _) as [sent inserted] eqn:Hreg. rewrite Hres. split.
  - by destruct inserted.
  - intros Hrecv. rewrite register_all in Hreg by (intros; apply Hrecv).
    injection Hreg as <- <-. by eexists.
Qed.
End http_properties.

Definition toy_display : SdpDisplay toy_sdp := {|
  session_to_string _ := str "v=0";
  parser_error_to_string _ := str "no parse";
  internal_error_to_string _ := str "internal";
|}.

Lemma refused_offers_register_nothing_witness : ∃ sent,
  http_parse_sdp (B := gmap_bimap) (Sh := toy_display) toy_env [] 7 (V4 [127; 0; 0; 1] 3336) =
  (sent, Done (BadRequest (str "no parse"))) ∧ sent = [].
Proof.
  pose proof (refused_offers_register_nothing (B := gmap_bimap) (SL := toy_sdp_laws)
    (Sh := toy_display) toy_env [] 7 (V4 [127; 0; 0; 1] 3336)) as H.
  destruct (http_parse_sdp toy_env [] 7 (V4 [127; 0; 0; 1] 3336)) as [sent response] eqn:E.
  assert (response = Done (BadRequest (str "no parse"))) as Hr by (injection E as _ <-; reflexivity).
  exists sent. split; [by rewrite Hr|]. destruct H as [Hnone _]. exact (Hnone _ Hr).
Defined.
