(* ===== verification/DtlsTask.v ===== *)
(** * The DTLS session of a client
      (src/src/dtls/connector.rs, src/src/client/dtls.rs,
       the task of src/src/client/actor.rs:72-125)

    Every datagram starts a task: it pushes the datagram into the client's
    incoming channel and then, by the state of the client, performs the
    handshake, reads application data, or does nothing. The client's state is
    behind an asynchronous mutex, which a handshake holds to its end; a step of a
    task is therefore one critical section, and tasks of a client interleave
    between steps. OpenSSL, the timers and the peer are arguments of the steps. *)

From S2P Require Import Prelude Net Srtp ByteOrder RtpCore StunParse Demux Jitter.
From S2P Require Import Media Stream Group Clients Store Sample.

(** [Ssl::new] and [SslStream::new]. *)
Class DtlsLib (P : Platform) := {
  SslAcceptor : Type;
  ssl_new : SslAcceptor → result Ssl ErrorStack;
  ssl_stream_new : Ssl → result Ssl ErrorStack;
}.

Section dtls.
Context {P : Platform} {D : DtlsLib P}.

(** What [timeout(10 s, accept())] gives. *)
Inductive HandshakeResult := Elapsed | Failed (e : SslError) | Accepted (ssl : Ssl).

(** The peer's side of a handshake and of a read with a 10 ms timeout ([None]):
    the result, and what became of the channels meanwhile. *)
Record Peer := {
  peer_accept : Ssl → Channels → HandshakeResult * Channels;
  peer_read : Ssl → Channels → option (result nat ErrorKind) * Channels;
}.

Definition set_state (s : ClientState) (ch : Channels) (c : Client) : Client :=
  {| c_state := s; c_channels := ch; c_media := c_media c; c_srtp := c_srtp c;
     c_runtime := c_runtime c; c_jitter := c_jitter c; c_receivers := c_receivers c;
     c_sender_addr := c_sender_addr c; c_deleted := c_deleted c;
     c_dtls_connected := c_dtls_connected c |}.

(** [connect]. The packet stream of a state that is dropped goes with it. *)
Definition connect (acceptor : SslAcceptor) (peer : Peer) (c : Client) :
    Client * result SrtpTransport ClientError :=
  match ssl_new acceptor with
  | Err e => (c, Err (from e))
  | Ok ssl =>
      let dropped ch := set_state Shutdown (drop_packets ch) c in
      match c_state c with
      | New =>
          match ssl_stream_new ssl with
          | Err e => (dropped (c_channels c), Err (from e))
          | Ok async_stream =>
              let '(accepted, ch) := peer_accept peer async_stream (c_channels c) in
              match accepted with
              | Elapsed => (dropped ch, Err (from TimedOut))
              | Failed e => (dropped ch, Err (from e))
              | Accepted ssl_stream =>
                  match transport_new ssl_stream with
                  | Err e => (dropped ch, Err (from e))
                  | Ok srtp_transport =>
                      (set_state (Connected ssl_stream) ch c, Ok srtp_transport)
                  end
              end
          end
      | Connected _ => (dropped (c_channels c), Err AlreadyConnected)
      | Shutdown => (set_state Shutdown (c_channels c) c, Err (from WouldBlock))
      end
  end.

(** [extract_dtls] under its timeout; [None] is the timeout. *)
Definition extract_dtls (peer : Peer) (c : Client) :
    Client * option (result nat ClientError) :=
  match c_state c with
  | Connected ssl =>
      let '(r, ch) := peer_read peer ssl (c_channels c) in
      (set_state (Connected ssl) ch c,
       match r with
       | Some (Ok n) => Some (Ok n)
       | Some (Err e) => Some (Err (from e))
       | None => None
       end)
  | _ => (c, Some (Err NotConnected))
  end.

(** The rest of a task, and what it does to the outside: request the deletion of
    the client, or report it connected. *)
Inductive Phase :=
| PPush (message : DataPacket)
| PStatus
| PConnect
| PStore (srtp : SrtpTransport)
| PExtract
| PDone.

Inductive TaskEvent := RequestDelete | ReportConnected.

(** One critical section of the task, actor.rs:72-125. *)
Definition run_phase (acceptor : SslAcceptor) (peer : Peer) (ph : Phase) (c : Client) :
    Client * Phase * list TaskEvent :=
  match ph with
  | PPush message =>
      let '(r, ch) := push_dtls (c_channels c) message in
      let c := set_state (c_state c) ch c in
      match r with
      | Ready (Err _) => (c, PStatus, [RequestDelete])
      | Ready (Ok _) => (c, PStatus, [])
      | Pending => (c, PPush message, [])
      end
  | PStatus =>
      (c, match get_status (c_state c) with
          | StatusNew => PConnect
          | StatusConnected => PExtract
          | StatusShutdown => PDone
          end, [])
  | PConnect =>
      let '(c, r) := connect acceptor peer c in
      match r with
      | Err _ => (c, PDone, [RequestDelete])
      | Ok srtp_transport => (c, PStore srtp_transport, [])
      end
  | PStore srtp_transport => (set_srtp (Some srtp_transport) c, PDone, [ReportConnected])
  | PExtract =>
      let '(c, result) := extract_dtls peer c in
      (c, PDone, match result with Some (Ok O) => [RequestDelete] | _ => [] end)
  | PDone => (c, PDone, [])
  end.

(** ** The tasks of one client *)

Record Tasks := {
  t_client : Client;
  t_phases : list Phase;
  t_events : list TaskEvent;
}.

(** A datagram arrives, or some task takes its next step. *)
Inductive tasks_step (acceptor : SslAcceptor) : Tasks → Tasks → Prop :=
| step_spawn message s :
    tasks_step acceptor s
      {| t_client := t_client s; t_phases := t_phases s ++ [PPush message];
         t_events := t_events s |}
| step_run i ph peer c' ph' ev s :
    t_phases s !! i = Some ph →
    run_phase acceptor peer ph (t_client s) = (c', ph', ev) →
    tasks_step acceptor s
      {| t_client := c'; t_phases := <[i := ph']> (t_phases s);
         t_events := t_events s ++ ev |}.

Definition tasks_init (now : Instant) : Tasks :=
  {| t_client := client_default now; t_phases := []; t_events := [] |}.
End dtls.

(** ** The life of a session *)

Section dtls_facts.
Context {P : Platform} {D : DtlsLib P}.

(** New, connected, shut down. *)
Definition rank (s : ClientState) : nat :=
  match s with New => 0 | Connected _ => 1 | Shutdown => 2 end.

Definition is_store (ph : Phase) : bool := match ph with PStore _ => true | _ => false end.
Definition stores (l : list Phase) : nat := length (filter (λ ph, is_store ph) l).

#[export] Instance TaskEvent_eq_dec : EqDecision TaskEvent.
Proof. solve_decision. Defined.

Definition reports (l : list TaskEvent) : nat := length (filter (λ e, e = ReportConnected) l).

Lemma stores_app l l' : stores (l ++ l') = stores l + stores l'.
Proof. unfold stores. by rewrite filter_app, length_app. Qed.

Lemma reports_app l l' : reports (l ++ l') = reports l + reports l'.
Proof. unfold reports. by rewrite filter_app, length_app. Qed.

Lemma stores_cons ph l : stores (ph :: l) = (if is_store ph then 1 else 0) + stores l.
Proof. unfold stores. rewrite filter_cons. by destruct ph. Qed.

Lemma stores_insert l i ph x :
  l !! i = Some ph →
  stores (<[i := x]> l) + (if is_store ph then 1 else 0) =
  stores l + (if is_store x then 1 else 0).
Proof.
  intros Hi. pose proof (lookup_lt_Some _ _ _ Hi) as Hlt.
  pose proof (f_equal stores (take_drop_middle l i ph Hi)) as Hl.
  rewrite stores_app, stores_cons in Hl.
  rewrite insert_take_drop, stores_app, stores_cons by done. lia.
Qed.

(** What [connect] can do to a client. *)
Lemma connect_cases acceptor peer c c' r :
  connect acceptor peer c = (c', r) →
  c_srtp c' = c_srtp c ∧
  ((∃ t ssl, r = Ok t ∧ transport_new ssl = Ok t ∧ c_state c = New ∧ c_state c' = Connected ssl) ∨
   (∃ e, r = Err e ∧ c' = c) ∨
   (∃ e, r = Err e ∧ c_state c' = Shutdown)).
Proof.
  unfold connect. destruct (ssl_new acceptor) as [ssl|e]; [|intros [= <- <-]; eauto 6].
  destruct (c_state c) eqn:Hs; [|intros [= <- <-]; simpl; eauto 6..].
  destruct (ssl_stream_new ssl) as [st|e]; [|intros [= <- <-]; simpl; eauto 6].
  destruct (peer_accept peer st (c_channels c)) as [[|e|ssl'] ch];
    [intros [= <- <-]; simpl; eauto 6..|].
  destruct (transport_new ssl') as [t|e] eqn:Ht; intros [= <- <-]; simpl; eauto 10.
Qed.

(** What one critical section can do: the state does not go back, a connection is
    made from [New] only, and the SRTP transport is the one of a connection. *)
Lemma run_phase_cases acceptor peer ph c c' ph' ev :
  run_phase acceptor peer ph c = (c', ph', ev) →
  rank (c_state c) ≤ rank (c_state c') ∧
  ((is_store ph = false ∧ is_store ph' = true ∧ reports ev = 0 ∧ c_srtp c' = c_srtp c ∧
    c_state c = New ∧ c_state c' ≠ New) ∨
   (is_store ph = true ∧ is_store ph' = false ∧ reports ev = 1 ∧
    rank (c_state c') = rank (c_state c)) ∨
   (is_store ph = false ∧ is_store ph' = false ∧ reports ev = 0 ∧ c_srtp c' = c_srtp c)).
Proof.
  destruct ph; simpl.
  - destruct (push_dtls (c_channels c) message) as [[[u|e]|] ch]; intros [= <- <- <-];
      simpl; (split; [done|]); right; right; done.
  - intros [= <- <- <-]. split; [done|]. right; right. by destruct (c_state c).
  - destruct (connect acceptor peer c) as [c1 r] eqn:Hc.
    apply connect_cases in Hc as [Hsrtp [(t & ssl & -> & _ & Hn & Hs)|[(e & -> & ->)|(e & -> & Hs)]]];
      intros [= <- <- <-].
    + rewrite Hn, Hs. split; [simpl; lia|]. by left.
    + split; [done|]. right; right. done.
    + rewrite Hs. split; [simpl; destruct (c_state c); simpl; lia|]. right; right. done.
  - intros [= <- <- <-]. split; [done|]. by right; left.
  - unfold extract_dtls. destruct (c_state c) eqn:Hs.
    + intros [= <- <- <-]. rewrite Hs. split; [done|]. right; right. done.
    + destruct (peer_read peer ssl (c_channels c)) as [[[[|n]|e]|] ch];
        intros [= <- <- <-]; (split; [done|]); right; right; done.
    + intros [= <- <- <-]. rewrite Hs. split; [done|]. right; right. done.
  - intros [= <- <- <-]. split; [done|]. right; right. done.
Qed.

(** A transport is made by a handshake, from the session it leaves in the client. *)
Lemma run_phase_store acceptor peer ph c c' t ev :
  is_store ph = false → run_phase acceptor peer ph c = (c', PStore t, ev) →
  ∃ ssl, transport_new ssl = Ok t ∧ c_state c = New ∧ c_state c' = Connected ssl.
Proof.
  destruct ph; simpl; try done; intros _.
  - by destruct (push_dtls (c_channels c) message) as [[[u|e]|] ch].
  - by destruct (c_state c).
  - destruct (connect acceptor peer c) as [c1 r] eqn:Hc.
    apply connect_cases in Hc as [_ [(t1 & ssl & -> & Ht & Hn & Hs)|[(e & -> & _)|(e & -> & _)]]]; [|done..].
    intros [= <- <- _]. by exists ssl.
  - by destruct (extract_dtls peer c).
Qed.

(** The invariant of the tasks of one client. *)
Record lifecycle (s : Tasks) : Prop := {
  once : stores (t_phases s) + reports (t_events s) ≤ 1;
  new_none : c_state (t_client s) = New → stores (t_phases s) + reports (t_events s) = 0;
  srtp_reported : is_Some (c_srtp (t_client s)) → reports (t_events s) = 1;
}.

Lemma lifecycle_step acceptor s s' :
  tasks_step acceptor s s' → lifecycle s →
  lifecycle s' ∧ rank (c_state (t_client s)) ≤ rank (c_state (t_client s')).
Proof.
  intros [message s0|i ph peer c' ph' ev s0 Hi Hrun] [Hone Hnew Hsrtp]; simpl.
  - assert (stores (t_phases s0 ++ [PPush message]) = stores (t_phases s0)) as Hst.
    { rewrite stores_app. apply Nat.add_0_r. }
    split; [|done]. by split; simpl; rewrite ?Hst.
  - apply run_phase_cases in Hrun as [Hrank Hcase]. split; [|done].
    pose proof (stores_insert _ _ _ ph' Hi) as Hst.
    assert (rank (c_state c') = 0 → c_state (t_client s0) = New) as Hback.
    { intros H0. rewrite H0 in Hrank. by destruct (c_state (t_client s0)); simpl in Hrank; [|lia..]. }
    destruct Hcase as [(Hp & Hp' & Hev & Hsr & Hn & Hn')|[(Hp & Hp' & Hev & Hsame)|(Hp & Hp' & Hev & Hsr)]];
      rewrite Hp, Hp' in Hst; split; simpl; rewrite ?reports_app, ?Hev, ?Hsr.
    + specialize (Hnew Hn). lia.
    + done.
    + specialize (Hnew Hn). intros Hs. specialize (Hsrtp Hs). lia.
    + lia.
    + intros Hc'. rewrite Hc' in Hback. specialize (Hnew (Hback eq_refl)). lia.
    + intros _. lia.
    + lia.
    + intros Hc'. rewrite Hc' in Hback. specialize (Hnew (Hback eq_refl)). lia.
    + intros Hs. specialize (Hsrtp Hs). lia.
Qed.

Lemma lifecycle_steps acceptor s s' :
  rtc (tasks_step acceptor) s s' → lifecycle s →
  lifecycle s' ∧ rank (c_state (t_client s)) ≤ rank (c_state (t_client s')).
Proof.
  induction 1 as [s|s s1 s2 Hstep _ IH]; intros Hs; [done|].
  destruct (lifecycle_step _ _ _ Hstep Hs) as [Hs1 Hr1]. destruct (IH Hs1) as [Hs2 Hr2].
  split; [done|]. lia.
Qed.

Lemma lifecycle_init now : lifecycle (tasks_init now).
Proof. split; simpl; [unfold stores, reports; simpl; lia|done|by intros []]. Qed.

(** C29. A client connects at most once, however the tasks of its datagrams
    interleave and whatever the peer does: at most one task reports a connection,
    a client with an SRTP transport has been reported and is no longer new, and
    the state only moves from new to connected to shut down. *)
Theorem dtls_lifecycle acceptor now s s' :
  rtc (tasks_step acceptor) (tasks_init now) s → rtc (tasks_step acceptor) s s' →
  reports (t_events s) ≤ 1 ∧
  (is_Some (c_srtp (t_client s)) →
     reports (t_events s) = 1 ∧ c_state (t_client s) ≠ New) ∧
  rank (c_state (t_client s)) ≤ rank (c_state (t_client s')).
Proof.
  intros Hs Hs'. destruct (lifecycle_steps _ _ _ Hs (lifecycle_init now)) as [Hl _].
  destruct (lifecycle_steps _ _ _ Hs' Hl) as [_ Hr]. destruct Hl as [Hone Hnew Hsrtp].
  split; [lia|]. split; [|done]. intros Ht. split; [auto|].
  intros Hn. specialize (Hnew Hn). specialize (Hsrtp Ht). lia.
Qed.

(** On a connected client [connect] reports [AlreadyConnected], but has already
    replaced the session by [Shutdown] and dropped its packet stream. *)
Lemma connect_again acceptor peer c ssl ssl' :
  c_state c = Connected ssl → ssl_new acceptor = Ok ssl' →
  connect acceptor peer c =
  (set_state Shutdown (drop_packets (c_channels c)) c, Err AlreadyConnected).
Proof. intros Hs Hn. unfold connect. by rewrite Hn, Hs. Qed.

(** A step of the task number [i] of a list. *)
Lemma step_task acceptor peer i ph c ph' c' ev phs es :
  phs !! i = Some ph → run_phase acceptor peer ph c = (c', ph', ev) →
  tasks_step acceptor {| t_client := c; t_phases := phs; t_events := es |}
    {| t_client := c'; t_phases := <[i := ph']> phs; t_events := es ++ ev |}.
Proof. intros Hi Hrun. by apply (step_run _ i ph peer c' ph' ev {| t_client := c |}). Qed.
End dtls_facts.

Section dtls_properties.
Context {P : Platform} {D : DtlsLib P} {ML : MpscLaws pf_mpsc}.

(** C30. A client whose handshake fails is deleted: the task that ran the handshake
    requests it, the client is shut down without SRTP transport, and the task of
    any later datagram finds the channel closed, requests the deletion again and
    ends without touching the session. *)
Theorem failed_handshake_deletes acceptor peer c c' e message ssl :
  c_state c = New → ssl_new acceptor = Ok ssl → connect acceptor peer c = (c', Err e) →
  run_phase acceptor peer PConnect c = (c', PDone, [RequestDelete]) ∧
  c_state c' = Shutdown ∧ c_srtp c' = c_srtp c ∧
  run_phase acceptor peer (PPush message) c' = (c', PStatus, [RequestDelete]) ∧
  run_phase acceptor peer PStatus c' = (c', PDone, []).
Proof.
  intros Hs Hn Hc.
  assert (∃ ch, c' = set_state Shutdown (drop_packets ch) c) as [ch ->].
  { revert Hc. unfold connect. rewrite Hn, Hs.
    destruct (ssl_stream_new ssl) as [st|e1]; [|intros [= <- _]; by eexists].
    destruct (peer_accept peer st (c_channels c)) as [[|e1|ssl1] ch];
      [intros [= <- _]; by eexists..|].
    destruct (transport_new ssl1) as [t|e1]; [done|]. intros [= <- _]. by eexists. }
  split; [simpl; by rewrite Hc|]. do 2 (split; [done|]). split; [|done].
  destruct (push_closed ch message) as (e1 & He). simpl. by rewrite He.
Qed.

(** C31. Two handshakes can destroy a session: when the tasks of two datagrams both
    see a new client before either handshakes, the second one finds the client
    connected and shuts the session down, and the client is reported connected,
    with an SRTP transport, after its session is gone and its deletion requested. *)
Theorem interleaved_handshakes_lose_session acceptor now (m1 m2 : DataPacket) ssl st ssl1 t :
  ssl_new acceptor = Ok ssl → ssl_stream_new ssl = Ok st → transport_new ssl1 = Ok t →
  ∃ s, rtc (tasks_step acceptor) (tasks_init now) s ∧
    c_state (t_client s) = Shutdown ∧ c_srtp (t_client s) = Some t ∧
    t_phases s = [PDone; PDone] ∧ t_events s = [RequestDelete; ReportConnected].
Proof.
  intros Hn Hst Ht.
  destruct unbounded_queue as (_ & Hrx & Htx & _).
  destruct (push_open channels_new m1 Hrx Htx) as (ch1 & Hp1 & Hrx1 & Htx1).
  destruct (push_open ch1 m2 Hrx1 Htx1) as (ch2 & Hp2 & _).
  set (peer := {| peer_accept := λ _ ch, (Accepted ssl1, ch); peer_read := λ _ ch, (None, ch) |}).
  set (c1 := set_state New ch1 (client_default now)). set (c2 := set_state New ch2 c1).
  set (c3 := set_state (Connected ssl1) ch2 c2).
  set (c4 := set_state Shutdown (drop_packets ch2) c3).
  exists {| t_client := set_srtp (Some t) c4; t_phases := [PDone; PDone];
            t_events := [RequestDelete; ReportConnected] |}.
  split; [|done].
  eapply rtc_l; [apply (step_spawn _ m1)|]. eapply rtc_l; [apply (step_spawn _ m2)|]. simpl.
  eapply rtc_l; [apply (step_task _ peer 0 (PPush m1) _ PStatus c1 []); [done|]|].
  { simpl. by rewrite Hp1. }
  eapply rtc_l; [apply (step_task _ peer 1 (PPush m2) _ PStatus c2 []); [done|]|].
  { simpl. by rewrite Hp2. }
  eapply rtc_l; [by apply (step_task _ peer 0 PStatus _ PConnect c2 [])|].
  eapply rtc_l; [by apply (step_task _ peer 1 PStatus _ PConnect c2 [])|].
  eapply rtc_l; [apply (step_task _ peer 0 PConnect _ (PStore t) c3 []); [done|]|].
  { simpl. unfold connect. rewrite Hn. simpl. rewrite Hst. simpl. by rewrite Ht. }
  eapply rtc_l; [apply (step_task _ peer 1 PConnect _ PDone c4 [RequestDelete]); [done|]|].
  { simpl. by rewrite (connect_again _ _ _ ssl1 ssl). }
  eapply rtc_l; [by apply (step_task _ peer 0 (PStore t) _ PDone (set_srtp (Some t) c4)
                            [ReportConnected])|].
  done.
Qed.
End dtls_properties.

(** ** Concrete sessions *)

Definition toy_dtls : DtlsLib sample_platform := {|
  SslAcceptor := unit;
  ssl_new _ := Ok true;
  ssl_stream_new ssl := Ok ssl;
|}.

(** A peer that never answers. *)
Definition silent_peer : Peer (P := sample_platform) :=
  {| peer_accept := λ _ ch, (Elapsed, ch); peer_read := λ _ ch, (None, ch) |}.

(** A peer that completes the handshake at once. *)
Definition eager_peer : Peer (P := sample_platform) :=
  {| peer_accept := λ ssl ch, (Accepted ssl, ch); peer_read := λ _ ch, (None, ch) |}.

Definition first_datagram : Tasks (P := sample_platform) :=
  {| t_client := client_default 0; t_phases := [PPush [22%Z]]; t_events := [] |}.

Lemma dtls_lifecycle_witness : reports (t_events first_datagram) ≤ 1.
Proof.
  apply (dtls_lifecycle (D := toy_dtls) () 0 first_datagram first_datagram).
  - apply rtc_once. apply (step_spawn (D := toy_dtls) () [22%Z] (tasks_init 0)).
  - apply rtc_refl.
Defined.

Lemma failed_handshake_deletes_witness : ∃ c',
  run_phase (D := toy_dtls) () silent_peer PConnect (client_default 0) =
  (c', PDone, [RequestDelete]).
Proof.
  eexists. apply (failed_handshake_deletes (D := toy_dtls) (ML := list_mpsc_laws) ()
    silent_peer (client_default 0) (set_state Shutdown (drop_packets channels_new)
    (client_default 0)) (ReadError TimedOut) [22%Z] true); reflexivity.
Defined.

Lemma interleaved_handshakes_lose_session_witness : ∃ s,
  rtc (tasks_step (D := toy_dtls) ()) (tasks_init 0) s ∧
  t_events s = [RequestDelete; ReportConnected].
Proof.
  destruct (interleaved_handshakes_lose_session (D := toy_dtls) (ML := list_mpsc_laws) () 0
    [22%Z] [23%Z] true true true (toy_transport 0 0)) as (s & Hs & _ & _ & _ & He);
    [reflexivity..|].
  exists s. split; [exact Hs|exact He].
Defined.
