(* ===== verification/Crypto.v ===== *)
(** * TLS set-up (src/src/server/crypto.rs, src/src/server/udp.rs:313-317)

    [Crypto::init] configures the DTLS acceptor with the embedded certificate and key,
    and [create_udp] starts the server with it. OpenSSL is a parameter: the builder's
    calls, and what can be observed of a builder and of the acceptor it builds. *)

From S2P Require Import Prelude Net Srtp ByteOrder Utf8 StunParse Meta Demux.
From S2P Require Import Jitter Media Stream Group Clients Store Sample DtlsTask.
From S2P Require Import Sdp.

Inductive SslVerifyMode := VerifyNone.
Inductive SslSessionCacheMode := CacheOff.
Inductive SslMethod := MethodDtls.
Inductive MessageDigest := Sha256Digest.

(** The calls of the [openssl] crate. *)
Class OpensslLib {P : Platform} (D : DtlsLib P) := {
  X509 : Type;
  PKey : Type;
  AcceptorBuilder : Type;
  x509_from_pem : list Z → result X509 ErrorStack;
  private_key_from_pem : list Z → result PKey ErrorStack;
  x509_digest : X509 → MessageDigest → result (list Z) ErrorStack;
  mozilla_intermediate_v5 : SslMethod → result AcceptorBuilder ErrorStack;
  set_verify : AcceptorBuilder → SslVerifyMode → AcceptorBuilder;
  set_tlsext_use_srtp : AcceptorBuilder → SmolStr → result AcceptorBuilder ErrorStack;
  set_read_ahead : AcceptorBuilder → bool → AcceptorBuilder;
  set_session_cache_mode : AcceptorBuilder → SslSessionCacheMode → AcceptorBuilder;
  set_private_key : AcceptorBuilder → PKey → result AcceptorBuilder ErrorStack;
  set_certificate : AcceptorBuilder → X509 → result AcceptorBuilder ErrorStack;
  check_private_key : AcceptorBuilder → result unit ErrorStack;
  build : AcceptorBuilder → SslAcceptor;
}.

(** What is documented: the extension offers exactly the profiles named, separated by
    colons, and the profile of a session is one of them; the other settings leave it,
    the certificate and the key alone; the check passes when the key belongs to the
    certificate. *)
Class OpensslLaws {P : Platform} {D : DtlsLib P} (O : OpensslLib D) := {
  profiles : AcceptorBuilder → option SmolStr;
  certificate : AcceptorBuilder → option X509;
  private_key : AcceptorBuilder → option PKey;
  belongs : PKey → X509 → Prop;
  session_of : SslAcceptor → Ssl → Prop;
  law_verify b v : profiles (set_verify b v) = profiles b;
  law_srtp b p b' : set_tlsext_use_srtp b p = Ok b' → profiles b' = Some p;
  law_read_ahead b v : profiles (set_read_ahead b v) = profiles b;
  law_cache b v : profiles (set_session_cache_mode b v) = profiles b;
  law_key b k b' : set_private_key b k = Ok b' →
    profiles b' = profiles b ∧ private_key b' = Some k;
  law_certificate b x b' : set_certificate b x = Ok b' →
    profiles b' = profiles b ∧ private_key b' = private_key b ∧ certificate b' = Some x;
  law_check b k x : check_private_key b = Ok tt → private_key b = Some k →
    certificate b = Some x → belongs k x;
  law_selected b p ssl : profiles b = Some p → 58%Z ∉ p → session_of (build b) ssl →
    selected_srtp_profile ssl = None ∨ selected_srtp_profile ssl = Some p;
}.

Section crypto.
Context {P : Platform} {D : DtlsLib P} {O : OpensslLib D}.

Record Crypto := {
  key : PKey;
  x509 : X509;
  crypto_digest : list Z;
  ssl_acceptor : SslAcceptor;
}.

(** [Crypto::init]; the two files are embedded by [include_bytes!]. *)
Definition crypto_init (cert_pem key_pem : list Z) : result Crypto ErrorStack :=
  x509 ←ᵣ x509_from_pem cert_pem;
  key ←ᵣ private_key_from_pem key_pem;
  digest ←ᵣ x509_digest x509 Sha256Digest;
  b ←ᵣ mozilla_intermediate_v5 MethodDtls;
  let b := set_verify b VerifyNone in
  b ←ᵣ set_tlsext_use_srtp b (str "SRTP_AES128_CM_SHA1_80");
  let b := set_read_ahead b true in
  let b := set_session_cache_mode b CacheOff in
  b ←ᵣ set_private_key b key;
  b ←ᵣ set_certificate b x509;
  _checked ←ᵣ check_private_key b;
  Ok {| key := key; x509 := x509; crypto_digest := digest; ssl_acceptor := build b |}.

(** The start of [create_udp]: the data every actor gets, or a panic of [expect]. *)
Definition create_udp {E} (bound : result unit E) (draw : nat → Z) (cert_pem key_pem : list Z) :
    outcome (Crypto * ServerData) :=
  match bound with
  | Err _ => Panicked
  | Ok _ =>
      meta ← server_meta_new draw;
      match crypto_init cert_pem key_pem with
      | Err _ => Panicked
      | Ok crypto => Done (crypto, {| meta := meta; digest := crypto_digest crypto |})
      end
  end.
End crypto.

Section crypto_properties.
Context {P : Platform} {D : DtlsLib P} {O : OpensslLib D} {OL : OpensslLaws O}.

Lemma and_then_Ok {A B E} (m : result A E) (f : A → result B E) y :
  and_then m f = Ok y → ∃ x, m = Ok x ∧ f x = Ok y.
Proof. destruct m as [x|e]; [by exists x|done]. Qed.

(** C25. The server's identity is consistent: when the server starts, the digest that
    its answers announce is the SHA-256 digest of the certificate of its acceptor, the
    private key belongs to that certificate, and a session of the acceptor has the
    profile the SRTP transport expects or none, so that a transport is refused for its
    profile only when the client offered none. *)
Theorem crypto_identity {E} (bound : result unit E) draw cert_pem key_pem c d :
  create_udp bound draw cert_pem key_pem = Done (c, d) →
  x509_digest (x509 c) Sha256Digest = Ok (digest d) ∧ belongs (key c) (x509 c) ∧
  (∃ b, ssl_acceptor c = build b ∧ certificate b = Some (x509 c) ∧ private_key b = Some (key c)) ∧
  ∀ ssl name, session_of (ssl_acceptor c) ssl →
    transport_new ssl = Err (UnsupportedProfile name) → selected_srtp_profile ssl = None.
Proof.
  unfold create_udp. destruct bound as [[]|e]; [|done].
  destruct (server_meta_new draw) as [m| |]; [|done..]. simpl.
  destruct (crypto_init cert_pem key_pem) as [c'|e] eqn:Hinit; [|done]. intros [= -> <-].
  unfold crypto_init in Hinit.
  apply and_then_Ok in Hinit as (x & Hx & Hinit).
  apply and_then_Ok in Hinit as (k & Hk & Hinit).
  apply and_then_Ok in Hinit as (dg & Hdg & Hinit).
  apply and_then_Ok in Hinit as (b0 & Hb0 & Hinit).
  apply and_then_Ok in Hinit as (b1 & Hb1 & Hinit).
  apply and_then_Ok in Hinit as (b2 & Hb2 & Hinit).
  apply and_then_Ok in Hinit as (b3 & Hb3 & Hinit).
  apply and_then_Ok in Hinit as ([] & Hcheck & [= <-]). simpl.
  apply law_srtp in Hb1. apply law_key in Hb2 as [Hp2 Hk2].
  apply law_certificate in Hb3 as (Hp3 & Hk3 & Hc3).
  rewrite law_cache, law_read_ahead, Hb1 in Hp2. rewrite Hp2 in Hp3. rewrite Hk2 in Hk3.
  split; [done|]. split; [by eapply law_check|]. split; [by exists b3|].
  intros ssl name Hssl. assert (58%Z ∉ str "SRTP_AES128_CM_SHA1_80") as Hcolon.
  { apply (bool_decide_unpack _). vm_compute. exact I. }
  destruct (law_selected _ _ _ Hp3 Hcolon Hssl) as [Hs|Hs]; [done|].
  unfold transport_new. rewrite Hs, decide_True by done. intros Ht. repeat case_match; done.
Qed.
End crypto_properties.

(** ** A concrete library *)

Record ToyBuilder := {
  tb_profiles : option SmolStr;
  tb_certificate : option nat;
  tb_key : option nat;
}.

(** An acceptor is its profile. *)
#[local] Instance sealed_dtls : DtlsLib sample_platform := {|
  SslAcceptor := option SmolStr;
  ssl_new _ := Ok true;
  ssl_stream_new ssl := Ok ssl;
|}.

(** Certificates and keys are the lengths of their files; they belong together when
    the lengths are equal. *)
#[global] Instance sealed_openssl : OpensslLib sealed_dtls := {|
  X509 := nat; PKey := nat; AcceptorBuilder := ToyBuilder;
  x509_from_pem l := Ok (length l);
  private_key_from_pem l := Ok (length l);
  x509_digest x _ := Ok [Z.of_nat x];
  mozilla_intermediate_v5 _ := Ok {| tb_profiles := None; tb_certificate := None; tb_key := None |};
  set_verify b _ := b;
  set_tlsext_use_srtp b p :=
    Ok {| tb_profiles := Some p; tb_certificate := tb_certificate b; tb_key := tb_key b |};
  set_read_ahead b _ := b;
  set_session_cache_mode b _ := b;
  set_private_key b k :=
    Ok {| tb_profiles := tb_profiles b; tb_certificate := tb_certificate b; tb_key := Some k |};
  set_certificate b x :=
    Ok {| tb_profiles := tb_profiles b; tb_certificate := Some x; tb_key := tb_key b |};
  check_private_key b := if decide (tb_key b = tb_certificate b) then Ok tt else Err (tt : ErrorStack);
  build b := tb_profiles b;
|}.

#[global] Instance sealed_openssl_laws : OpensslLaws sealed_openssl.
Proof.
  refine {|
    profiles := tb_profiles : AcceptorBuilder (OpensslLib := sealed_openssl) → option SmolStr;
    certificate := tb_certificate : AcceptorBuilder (OpensslLib := sealed_openssl) → option X509;
    private_key := tb_key : AcceptorBuilder (OpensslLib := sealed_openssl) → option PKey;
    belongs k x := k = x;
    session_of a ssl := ssl = false ∨ a = Some srtp_profile_name;
  |}; simpl; try done.
  - by intros b p b' [= <-].
  - by intros b k b' [= <-].
  - by intros b x b' [= <-].
  - intros b k x. destruct (decide _) as [Heq|]; [|discriminate]. intros _ Hk Hx.
    rewrite Heq, Hx in Hk. by injection Hk.
  - intros b p ssl Hp _ [->|Ha]; [by left|]. destruct ssl; [|by left].
    right. simpl. congruence.
Defined.

Definition sample_start : outcome (Crypto * ServerData) :=
  create_udp (O := sealed_openssl) (E := unit) (Ok tt) (λ k, Z.of_nat k mod 62)%Z
    [1; 2]%Z [3; 4]%Z.

Lemma crypto_identity_witness : ∃ c d,
  sample_start = Done (c, d) ∧ x509_digest (x509 c) Sha256Digest = Ok (digest d).
Proof.
  assert (match sample_start with Done _ => true | _ => false end = true) as Hdone
    by (vm_compute; reflexivity).
  destruct sample_start as [[c d]| |] eqn:Hcd; [|discriminate Hdone..].
  exists c, d. split; [reflexivity|].
  exact (proj1 (crypto_identity (OL := sealed_openssl_laws) _ _ _ _ _ _ Hcd)).
Defined.
