(* ===== verification/Startup.v ===== *)
(** * Start-up (src/src/main.rs:27-71)

    [main]: the addresses from the environment, the UDP side, the HTTP side; and the
    index page. The environment, the sockets and OpenSSL are arguments. *)

From S2P Require Import Prelude Net Addr Srtp ByteOrder Utf8 Text StunParse.
From S2P Require Import Meta Demux Jitter Media Stream Group Clients Store.
From S2P Require Import Sample DtlsTask Udp Sdp Http Crypto.
Local Open Scope Z_scope.

Inductive VarError := NotPresent | NotUnicode.

(** [std::env::var(..).map(parse).unwrap_or_else(|_| default.parse()).expect(..)] *)
Definition addr_var (var : result SmolStr VarError) (default : SmolStr) : outcome SocketAddr :=
  match match var with
        | Ok addr => parse_socket_addr addr
        | Err _ => parse_socket_addr default
        end with
  | Some a => Done a
  | None => Panicked
  end.

Section startup.
Context {P : Platform} {D : DtlsLib P} {O : OpensslLib D} {IoError : Type}.

(** The environment: the two variables, and whether an address can be bound. *)
Record Environment := {
  TURN_ADDR : result SmolStr VarError;
  WEB_ADDR : result SmolStr VarError;
  bind_udp : SocketAddr → result unit IoError;
  bind_http : SocketAddr → result unit IoError;
}.

Record Running := {
  public_udp_addr : SocketAddr;
  session_listen_addr : SocketAddr;
  run_crypto : Crypto;
  run_data : ServerData;
}.

(** [main] up to [run]: the server that is running, or the error of [bind]. *)
Definition main (env : Environment) (draw : nat → Z) (cert_pem key_pem : list Z) :
    outcome (result Running IoError) :=
  public_udp_addr ← addr_var (TURN_ADDR env) (str "127.0.0.1:3336");
  session_listen_addr ← addr_var (WEB_ADDR env) (str "127.0.0.1:3333");
  '(crypto, data) ← create_udp (bind_udp env public_udp_addr) draw cert_pem key_pem;
  Done match bind_http env session_listen_addr with
       | Err e => Err e
       | Ok _ =>
           Ok {| public_udp_addr := public_udp_addr; session_listen_addr := session_listen_addr;
                 run_crypto := crypto; run_data := data |}
       end.

(** The page [index] responds with: a debug build opens the file, a release build
    embeds it. *)
Inductive Build := DebugBuild (opened : result SmolStr IoError) | ReleaseBuild (embedded : SmolStr).

Definition index (b : Build) : outcome SmolStr :=
  match b with
  | DebugBuild (Ok file) => Done file
  | DebugBuild (Err _) => Panicked
  | ReleaseBuild file => Done file
  end.
End startup.
Arguments Environment : clear implicits.

Section startup_properties.
Context {P : Platform} {D : DtlsLib P} {O : OpensslLib D} {IoError : Type}.

(** The address that a variable stands for: the one it prints, or the default when it
    is absent or not Unicode. *)
Definition configured (var : result SmolStr VarError) (default a : SocketAddr) : Prop :=
  match var with
  | Ok text => addr_ok a ∧ without_flowinfo a = a ∧ text = show_addr a
  | Err _ => a = default
  end.

Lemma addr_var_configured var text default a :
  parse_socket_addr text = Some default → configured var default a → addr_var var text = Done a.
Proof.
  intros Hd. unfold addr_var. destruct var as [t|e]; simpl.
  - intros (Ha & Hf & ->). by rewrite parse_show, Hf.
  - intros ->. by rewrite Hd.
Qed.

(** C26. Start-up: with addresses configured in their usual notation (an IPv6
    address uncompressed), absent or not Unicode, the draws of the generator in their range, a certificate and key that
    OpenSSL accepts and free addresses, the server runs and listens on exactly the
    addresses configured, and its generated name is read back from STUN user names that
    contain it; when the UDP address is taken it panics, and when the HTTP
    address is taken it returns that error. *)
Theorem startup (env : Environment IoError) draw cert_pem key_pem turn web crypto :
  configured (TURN_ADDR env) (V4 [127; 0; 0; 1] 3336) turn →
  configured (WEB_ADDR env) (V4 [127; 0; 0; 1] 3333) web →
  (∀ k, 0 ≤ draw k < 62) → crypto_init cert_pem key_pem = Ok crypto →
  match bind_udp env turn, bind_http env web with
  | Ok _, Ok _ => ∃ m,
      main env draw cert_pem key_pem = Done (Ok
        {| public_udp_addr := turn; session_listen_addr := web; run_crypto := crypto;
           run_data := {| meta := m; digest := crypto_digest crypto |} |}) ∧
      length (user m) = 12%nat ∧ length (password m) = 24%nat ∧
      ∀ tid ufrag, (length ufrag ≤ STUN_MAX_IDENTIFIER_LEN)%nat → utf8_valid ufrag = true →
        parse_user tid (user m ++ 58 :: ufrag) =
        Done (Some {| transaction_id := tid; remote_user := ufrag; StunParse.server_user := user m |})
  | Ok _, Err e => main env draw cert_pem key_pem = Done (Err e)
  | Err _, _ => main env draw cert_pem key_pem = Panicked
  end.
Proof.
  intros Hturn Hweb Hdraw Hcrypto. unfold main.
  rewrite (addr_var_configured _ _ _ turn parse_default Hturn). bind_step.
  rewrite (addr_var_configured _ (str "127.0.0.1:3333") (V4 [127; 0; 0; 1] 3333) web eq_refl Hweb).
  bind_step. unfold create_udp.
  destruct (bind_udp env turn) as [[]|e]; [|done].
  destruct (server_identity draw Hdraw) as (m & Hm & Hu & Hp & _ & _ & Hnames). rewrite Hm. simpl.
  rewrite Hcrypto. simpl. destruct (bind_http env web) as [[]|e]; [|done].
  by exists m.
Qed.
End startup_properties.

Definition sample_env : Environment unit := {|
  TURN_ADDR := Ok (str "192.0.2.7:3336");
  WEB_ADDR := Err NotPresent;
  bind_udp _ := Ok tt;
  bind_http _ := Ok tt;
|}.

Lemma startup_witness : ∃ crypto m,
  main (O := sealed_openssl) sample_env (λ k, Z.of_nat k mod 62) [1; 2] [3; 4] = Done (Ok
    {| public_udp_addr := V4 [192; 0; 2; 7] 3336; session_listen_addr := V4 [127; 0; 0; 1] 3333;
       run_crypto := crypto; run_data := {| meta := m; digest := crypto_digest crypto |} |}).
Proof.
  assert (match crypto_init (O := sealed_openssl) [1; 2] [3; 4] with Ok _ => true | Err _ => false end
          = true) as Hinit by (vm_compute; reflexivity).
  destruct (crypto_init (O := sealed_openssl) [1; 2] [3; 4]) as [crypto|e] eqn:Hcrypto;
    [|discriminate Hinit].
  destruct (startup (O := sealed_openssl) sample_env (λ k, Z.of_nat k mod 62) [1; 2] [3; 4]
    (V4 [192; 0; 2; 7] 3336) (V4 [127; 0; 0; 1] 3333) crypto) as (m & Hmain & _).
  - split; [|split; reflexivity]. apply (bool_decide_unpack _). vm_compute. exact I.
  - reflexivity.
  - intros k. apply Z.mod_pos_bound. lia.
  - exact Hcrypto.
  - exists crypto, m. exact Hmain.
Defined.
