(* ===== verification/Server.v ===== *)
(** * The server as a whole (src/src/server/udp.rs:313-335)

    The actors composed as [create_udp] wires them: the receiving actor's sessions
    decide what reaches the client actor, the client actor's groups decide where the
    RTC actor forwards. A state holds the receiving actor, the shared world of the
    client side, the messages on their way to the client actor, and the history of
    what the receiving actor was sent. An event is one atomic step of one actor or
    DTLS task. Messages to the client actor are handled in any order, any RTP packet
    may reach the RTC actor, and any task may take any of its steps at any time: the
    reachable states include those of every schedule, mailbox and jitter buffer. *)

From S2P Require Import Prelude Net Srtp ByteOrder RtpCore StunParse Demux Jitter.
From S2P Require Import Media Stream Group Clients Store Runtime Sample ClientActor.
From S2P Require Import RtcActor Udp DtlsTask.
Local Open Scope Z_scope.

Section server.
Context {P : Platform} {D : DtlsLib P}.

Record Server := {
  sv_udp : UdpRecv;
  sv_world : World;
  sv_mail : list ClientMsg;
  sv_log : list UdpMsg;
}.

Definition world_init : World :=
  {| w_clients := ∅; w_storage := ∅; w_groups := ∅; w_held := []; w_sent := [] |}.

(** [create_udp] *)
Definition server_init : Server :=
  {| sv_udp := udp_recv_new; sv_world := world_init; sv_mail := []; sv_log := [] |}.

(** What the receiving actor's effects become in the mailbox of the client actor;
    [draw] and [now] are the random draws and the clock of the handler there. *)
Definition route (draw : Z → Z * Z * Instant) (now : Instant) (e : RecvEffect) :
    list ClientMsg :=
  match e with
  | ToClientMedia addr media => [MsgMedia draw addr media]
  | ToClientGroup group_id addr is_sender => [MsgGroup group_id addr is_sender]
  | ToClient req => [MsgWebRtc now req]
  | ToUdpSend _ | SpawnRtcTask _ _ => []
  end.

Inductive Event :=
| EvUdp (draw : Z → Z * Z * Instant) (now : Instant) (m : UdpMsg)
| EvStream (item : DtlsMessage)
| EvClient (i : nat)
| EvTask (r : ClientRef) (addr : SocketAddr) (acceptor : SslAcceptor) (peer : Peer) (ph : Phase)
| EvRtc (rd : Readings) (s : Schedule) (message : DataPacket) (addr : SocketAddr).

(** The messages a task's events become. *)
Definition task_mail (addr : SocketAddr) (e : TaskEvent) : list ClientMsg :=
  match e with RequestDelete => [MsgDelete addr] | ReportConnected => [] end.

Definition server_step (ev : Event) (sv : Server) : outcome Server :=
  match ev with
  | EvUdp draw now m =>
      let '(st, out) := udp_step (sv_udp sv) m in
      Done {| sv_udp := st; sv_world := sv_world sv;
              sv_mail := sv_mail sv ++ (out ≫= route draw now); sv_log := sv_log sv ++ [m] |}
  | EvStream item =>
      Done {| sv_udp := sv_udp sv; sv_world := sv_world sv;
              sv_mail := sv_mail sv ++ [MsgDtls item]; sv_log := sv_log sv |}
  | EvClient i =>
      match sv_mail sv !! i with
      | None => Done sv
      | Some m =>
          '(_, w) ← client_step m (sv_world sv);
          Done {| sv_udp := sv_udp sv; sv_world := w; sv_mail := delete i (sv_mail sv);
                  sv_log := sv_log sv |}
      end
  | EvTask r addr acceptor peer ph =>
      match w_clients (sv_world sv) !! r with
      | None => Done sv
      | Some c =>
          let '(c', _, evs) := run_phase acceptor peer ph c in
          Done {| sv_udp := sv_udp sv;
                  sv_world := with_clients (sv_world sv)
                                (alter (const c') r (w_clients (sv_world sv)));
                  sv_mail := sv_mail sv ++ (evs ≫= task_mail addr); sv_log := sv_log sv |}
      end
  | EvRtc rd s message addr =>
      '(_, w) ← handle_rtc Release rd s (Rtc message addr) (sv_world sv);
      Done {| sv_udp := sv_udp sv; sv_world := w; sv_mail := sv_mail sv; sv_log := sv_log sv |}
  end.

(** What the types and the clock guarantee of an event: [u32] frequencies, the
    ranges of [ClientRtpRuntime::default], bytes, a clock that does not go back. *)
Definition frequencies_ok (media : MediaList) : Prop :=
  ∀ id f, get_frequency media id = Some f → is_u32 f.

Definition clocks_ok (rd : Readings) (addr : SocketAddr) (w : World) : Prop :=
  ∀ r c f rt, w_storage w !! addr = Some r → w_clients w !! r = Some c →
    c_runtime c !! f = Some rt → clock_ok rt (at_packet rd).

Definition event_ok (ev : Event) (sv : Server) : Prop :=
  match ev with
  | EvUdp draw _ m =>
      (∀ f, is_u32 (draw f).1.1 ∧ is_u16 (draw f).1.2) ∧
      match m with MsgMediaUser _ media => frequencies_ok media | _ => True end
  | EvRtc rd s message addr =>
      schedule_ok s ∧ bytes_ok message ∧ clocks_ok rd addr (sv_world sv)
  | _ => True
  end.

Inductive reachable : Server → Prop :=
| reach_init : reachable server_init
| reach_step ev sv sv' :
    reachable sv → event_ok ev sv → server_step ev sv = Done sv' → reachable sv'.

(** ** Who may hear whom *)

(** The session stays registered, with this item, through the message. *)
Definition leaves (s : Session) (item : SessionStorageItem) (m : UdpMsg) : Prop :=
  match m with
  | MsgSession s' _ => s' ≠ s
  | MsgClear now => now ≤ ttl item + SESSION_TTL
  | _ => True
  end.

(** The address joined the group: a STUN request from it named a session that had
    been registered for the group, and neither replaced nor expired since. *)
Definition joined (log : list UdpMsg) (g : Z) (a : SocketAddr) : Prop :=
  ∃ l1 l2 l3 req item,
    let s := session_new (StunParse.server_user req) (remote_user req) in
    log = l1 ++ MsgSession s item :: l2 ++ MsgRequest (Stun req a) :: l3 ∧
    Forall (leaves s item) l2 ∧ group_id item = g.

Definition same_group (log : list UdpMsg) (a b : SocketAddr) : Prop :=
  ∃ g, joined log g a ∧ joined log g b.

(** A DTLS datagram came from the address. *)
Definition heard (log : list UdpMsg) (a : SocketAddr) : Prop :=
  ∃ message, MsgRequest (Dtls message a) ∈ log.
End server.

(** ** The session table and its history *)

Section log.
Context {P : Platform}.

Lemma udp_run_snoc st ms m :
  (udp_run st (ms ++ [m])).1 = (udp_step (udp_run st ms).1 m).1.
Proof.
  rewrite udp_run_app. set (st' := (udp_run st ms).1). simpl.
  by destruct (udp_step st' m).
Qed.

(** A session of the table was registered with its item, which it kept. *)
Lemma session_registered log s item :
  sessions (udp_run udp_recv_new log).1 !! s = Some item →
  ∃ l1 l2, log = l1 ++ MsgSession s item :: l2 ∧ Forall (leaves s item) l2.
Proof.
  induction log as [|m log IH] using rev_ind; [done|]. rewrite udp_run_snoc.
  set (st := (udp_run udp_recv_new log).1) in *. intros Hs.
  assert (m = MsgSession s item ∨ sessions st !! s = Some item ∧ leaves s item m) as [->|[Hst Hm]].
  { destruct m as [[]|now|s' item'|]; simpl in Hs |- *; try by right.
    - right. revert Hs. by repeat case_match.
    - right. rewrite clear_data_session in Hs. repeat case_match; simplify_eq. split; [done|lia].
    - apply lookup_insert_Some in Hs as [[-> ->]|[? ?]]; [by left|by right]. }
  - exists log, []. by split.
  - destruct (IH Hst) as (l1 & l2 & -> & Hl). exists l1, (l2 ++ [m]).
    split; [by rewrite <- app_assoc|]. apply Forall_app. by split; [|constructor].
Qed.

Lemma joined_snoc log m g a : joined log g a → joined (log ++ [m]) g a.
Proof.
  intros (l1 & l2 & l3 & req & item & -> & Hl & Hg). exists l1, l2, (l3 ++ [m]), req, item.
  split; [|done]. by rewrite <- app_assoc, <- app_comm_cons, <- app_assoc.
Qed.

Lemma heard_snoc log m a : heard log a → heard (log ++ [m]) a.
Proof. intros [message Hin]. exists message. apply elem_of_app. by left. Qed.

(** Media descriptions come from the signalling side. *)
Lemma media_known m st user media :
  media_sessions (udp_step st m).1 !! user = Some media →
  media_sessions st !! user = Some media ∨ m = MsgMediaUser user media.
Proof.
  destruct m as [[]|now|s item|user' media']; simpl; try by left.
  - repeat case_match; by left.
  - unfold clear_data. rewrite media_removed. case_decide; [done|by left].
  - intros [[-> ->]|[_ ?]]%lookup_insert_Some; [by right|by left].
Qed.
End log.

(** ** Authorisation *)

Section authorisation.
Context {P : Platform} {PL : PlatformLaws P}.

(** Groups, receivers and remembered senders come from joins: [J g a] is what is
    known of the members of group [g]; a client belongs to its home address. *)
Definition authorised (J : Z → SocketAddr → Prop) (w : World) : Prop :=
  ∃ home : ClientRef → SocketAddr,
    (∀ a r, w_storage w !! a = Some r → home r = a) ∧
    (∀ g a, w_groups w !! g = Some a → J g a) ∧
    (∀ r c a r', w_clients w !! r = Some c → c_receivers c !! a = Some r' →
       ∃ g, J g a ∧ J g (home r)) ∧
    (∀ r c s, w_clients w !! r = Some c → c_sender_addr c = Some s →
       ∃ g, J g s ∧ J g (home r)).

Lemma authorised_mono (J J' : Z → SocketAddr → Prop) w :
  (∀ g a, J g a → J' g a) → authorised J w → authorised J' w.
Proof.
  intros HJ (home & Hst & Hg & Hr & Hs). exists home. split; [done|]. split; [by eauto|].
  split.
  - intros r c a r' Hc Ha. destruct (Hr _ _ _ _ Hc Ha) as (g & ? & ?). exists g. auto.
  - intros r c s Hc Ha. destruct (Hs _ _ _ Hc Ha) as (g & ? & ?). exists g. auto.
Qed.

(** A change that adds nothing to the table, the groups, the receivers and the
    senders. *)
Definition shrinks (w w' : World) : Prop :=
  (∀ a r, w_storage w' !! a = Some r → w_storage w !! a = Some r) ∧
  (∀ g a, w_groups w' !! g = Some a → w_groups w !! g = Some a) ∧
  (∀ r c', w_clients w' !! r = Some c' → ∃ c, w_clients w !! r = Some c ∧
     c_receivers c' ⊆ c_receivers c ∧ c_sender_addr c' = c_sender_addr c).

Lemma shrinks_authorised J w w' : shrinks w w' → authorised J w → authorised J w'.
Proof.
  intros (Est & Eg & Hcl) (home & Hst & Hg & Hr & Hs). exists home.
  split; [by eauto|]. split; [by eauto|]. split.
  - intros r c' a r' Hc' Ha. destruct (Hcl _ _ Hc') as (c & Hc & E & _).
    eapply Hr; [exact Hc|]. by eapply lookup_weaken.
  - intros r c' s Hc' Ha. destruct (Hcl _ _ Hc') as (c & Hc & _ & E). rewrite E in Ha.
    by eapply Hs.
Qed.

(** One client changed in place. *)
Lemma shrinks_alter w f r :
  (∀ c, w_clients w !! r = Some c →
     c_receivers (f c) ⊆ c_receivers c ∧ c_sender_addr (f c) = c_sender_addr c) →
  shrinks w (with_clients w (alter f r (w_clients w))).
Proof.
  intros Hf. split; [done|]. split; [done|]. simpl. intros r' c'.
  rewrite lookup_alter_Some. intros [(<- & c & Hc & ->)|[_ Hc]].
  - exists c. split; [done|]. by apply Hf.
  - by exists c'.
Qed.

Lemma shrinks_trans w1 w2 w3 : shrinks w1 w2 → shrinks w2 w3 → shrinks w1 w3.
Proof.
  intros (Hst & Hg & Hc) (Hst' & Hg' & Hc'). split; [by auto|]. split; [by auto|].
  intros r c3 H3. destruct (Hc' _ _ H3) as (c2 & H2 & Hr2 & Hs2).
  destruct (Hc _ _ H2) as (c1 & H1 & Hr1 & Hs1). exists c1. split; [done|].
  split; [by etrans|congruence].
Qed.

Lemma rtc_rel_shrinks ok w w' : rtc_rel ok w w' → shrinks w w'.
Proof.
  intros Hrel. split; [by rewrite (rel_storage _ _ _ Hrel)|].
  split; [by rewrite (rel_groups _ _ _ Hrel)|].
  intros r c' Hc'. destruct (rel_lookup_inv _ _ _ _ _ Hrel Hc') as (c & Hc & Hk).
  exists c. split; [done|]. by rewrite (keeps_receivers _ _ Hk), (keeps_sender _ _ Hk).
Qed.

Lemma media_world_shrinks w draw addr media : shrinks w (media_world w draw addr media).
Proof.
  unfold media_world. destruct (w_storage w !! addr) as [r|]; [by apply shrinks_alter|].
  split; [done|]. split; [done|]. eauto.
Qed.

Lemma deleted_world_shrinks w addr r : shrinks w (deleted_world w addr r).
Proof.
  set (w1 := with_groups (with_storage w (delete addr (w_storage w)))
               (remove_sender (w_groups w) addr)).
  set (cs := alter client_delete r (w_clients w)).
  apply (shrinks_trans _ w1); [|apply (shrinks_trans _ (with_clients w1 cs))].
  - split; [|split; [|by eauto]]; simpl.
    + intros a r'. by intros [_ ?]%lookup_delete_Some.
    + intros g a. by intros [? _]%lookup_remove_sender.
  - by apply (shrinks_alter w1).
  - apply (shrinks_alter (with_clients w1 cs)
             (λ c, set_receivers (live_receivers cs (c_receivers c)) c)).
    intros c _. split; [|done]. apply map_filter_subseteq.
Qed.

(** A join is authorised by the membership of the newcomer. *)
Lemma group_world_authorised (J : Z → SocketAddr → Prop) w group_id addr is_sender :
  J group_id addr → authorised J w → authorised J (group_world w group_id addr is_sender).
Proof.
  intros HJ (home & Hst & Hg & Hr & Hs). unfold group_world.
  destruct (insert_or_get_sender (w_groups w) group_id addr is_sender) as [last g] eqn:Hins.
  assert (J group_id last ∧ ∀ g' a, g !! g' = Some a → J g' a) as [Hlast Hg'].
  { revert Hins. unfold insert_or_get_sender. destruct is_sender; [|destruct (w_groups w !! group_id) as [s|] eqn:Hgs];
      intros [= <- <-].
    - split; [destruct (w_groups w !! group_id) eqn:E; simpl; [by apply Hg|done]|].
      intros g' a [[<- <-]|[_ ?]]%lookup_insert_Some; [done|by apply Hg].
    - split; [by apply Hg|done].
    - split; [done|]. intros g' a [[<- <-]|[_ ?]]%lookup_insert_Some; [done|by apply Hg]. }
  assert (authorised J (with_groups w g)) as Hw by by exists home.
  destruct (_ && _); [done|].
  destruct (w_storage w !! addr) as [ra|] eqn:Hra; [|done].
  destruct (w_storage w !! last) as [rs|] eqn:Hrs; [|done].
  exists home. split; [done|]. split; [done|]. unfold joined_clients. simpl.
  split; intros r c.
  - intros a r' [(<- & c1 & Hc1 & ->)|[Hne Hc1]]%lookup_alter_Some Ha.
    + simpl in Ha. apply lookup_insert_Some in Ha as [[<- <-]|[_ Ha]].
      { exists group_id. by rewrite (Hst _ _ Hrs). }
      apply lookup_alter_Some in Hc1 as [(<- & c & Hc & ->)|[_ Hc]]; by eapply Hr.
    + apply lookup_alter_Some in Hc1 as [(<- & c' & Hc & ->)|[_ Hc]]; by eapply Hr.
  - assert (∀ r c s, alter (set_sender_addr (Some last)) ra (w_clients w) !! r = Some c →
              c_sender_addr c = Some s → ∃ g, J g s ∧ J g (home r)) as Hs1.
    { intros r1 c1 s1 [(<- & c' & Hc & ->)|[_ Hc]]%lookup_alter_Some; [|by eapply Hs].
      intros [= <-]. exists group_id. by rewrite (Hst _ _ Hra). }
    intros s [(<- & c1 & Hc1 & ->)|[_ Hc1]]%lookup_alter_Some Hsa; by eapply Hs1.
Qed.

Lemma dtls_world_authorised J w now r c message addr :
  world_ok w → dtls_target w now addr r c → authorised J w →
  authorised J (dtls_world w r c message addr).
Proof.
  intros Hw Ht (home & Hst & Hg & Hr & Hs).
  set (home' := λ r', if decide (r' = r) then addr else home r').
  assert (∀ r', is_Some (w_clients w !! r') → home' r' = home r') as Hsame.
  { intros r' [c' Hc']. unfold home'. case_decide as Heq; [|done]. subst r'.
    destruct Ht as [[Ha _]|(_ & Hn & _)]; [by rewrite (Hst _ _ Ha)|congruence]. }
  assert (w_clients w !! r = Some c ∨ c = client_default now) as Hcase.
  { destruct Ht as [[_ ?]|(_ & _ & ?)]; auto. }
  exists home'. split; [|split; [done|split]]; simpl.
  - intros a r' [[<- <-]|[_ Ha]]%lookup_insert_Some; [unfold home'; by rewrite decide_True|].
    destruct (ok_storage _ Hw _ _ Ha) as (c' & Hc' & _). rewrite Hsame by by eexists.
    by apply Hst.
  - intros r' c' a r'' [[<- <-]|[_ Hc']]%lookup_insert_Some Ha; [|rewrite Hsame by (by eexists); by eapply Hr].
    destruct Hcase as [Hc| ->]; [|done]. rewrite Hsame by by eexists. by eapply Hr.
  - intros r' c' s [[<- <-]|[_ Hc']]%lookup_insert_Some Ha; [|rewrite Hsame by (by eexists); by eapply Hs].
    destruct Hcase as [Hc| ->]; [|done]. rewrite Hsame by by eexists. by eapply Hs.
Qed.
End authorisation.

(** ** The invariant of the server *)

Section invariant.
Context {P : Platform} {PL : PlatformLaws P} {D : DtlsLib P}.

Definition mail_ok (log : list UdpMsg) (m : ClientMsg) : Prop :=
  msg_ok m ∧ match m with MsgGroup g a _ => joined log g a | _ => True end.

Record server_ok (sv : Server) : Prop := {
  so_udp : sv_udp sv = (udp_run udp_recv_new (sv_log sv)).1;
  so_world : world_ok (sv_world sv);
  so_auth : authorised (joined (sv_log sv)) (sv_world sv);
  so_media u media : media_sessions (sv_udp sv) !! u = Some media → frequencies_ok media;
  so_mail : Forall (mail_ok (sv_log sv)) (sv_mail sv);
}.

Lemma mail_ok_snoc log m x : mail_ok log x → mail_ok (log ++ [m]) x.
Proof. intros [Hx Hj]. split; [done|]. destruct x; try done. by apply joined_snoc. Qed.

(** A client's own task changes its session only. *)
Lemma run_phase_keeps acceptor peer ph c c' ph' ev :
  run_phase acceptor peer ph c = (c', ph', ev) →
  c_media c' = c_media c ∧ c_runtime c' = c_runtime c ∧ c_jitter c' = c_jitter c ∧
  c_receivers c' = c_receivers c ∧ c_sender_addr c' = c_sender_addr c ∧
  c_deleted c' = c_deleted c.
Proof.
  destruct ph; simpl; unfold connect, extract_dtls; intros Hrun; repeat case_match; by simplify_eq.
Qed.

Lemma task_world_ok acceptor peer ph r c c' ph' ev w :
  world_ok w → w_clients w !! r = Some c →
  run_phase acceptor peer ph c = (c', ph', ev) →
  let w' := with_clients w (alter (const c') r (w_clients w)) in
  world_ok w' ∧ shrinks w w'.
Proof.
  intros Hw Hc (Hm & Hrt & Hj & Hr & Hs & Hd)%run_phase_keeps. split.
  - apply world_ok_alter; [done|..]; intros c1; [intros Hc1|intros a r' Hc1 Ha|intros Hc1 Hok];
      simplify_eq; [done|right; by rewrite <- Hr|by eapply client_ok_ext].
  - apply shrinks_alter. intros c1 Hc1. simplify_eq. simpl. by rewrite Hr.
Qed.

Lemma client_step_authorised J m w w' :
  world_ok w → blocks w m = false →
  match m with MsgGroup g a _ => J g a | _ => True end →
  authorised J w → client_step m w = Done ((), w') → authorised J w'.
Proof.
  intros Hw Hb HJ Ha. destruct m as [now msg|item|addr|gid addr b|draw addr media];
    cbn [client_step].
  - destruct msg; cbn [handle_webrtc]; try by intros [= <-].
    pose proof (handle_dtls_runs now message addr w Hw)
      as ([] & w1 & -> & r & c & Ht & ->)%runs_Done.
    intros [= <-]. by eapply dtls_world_authorised.
  - unfold handle_dtls_message. destruct (get_type item); by intros [= <-].
  - rewrite run_bind. destruct (w_storage w !! addr) as [r|] eqn:Hr.
    + rewrite (handle_delete_present _ _ _ Hw Hr). intros [= <-].
      eapply shrinks_authorised; [apply deleted_world_shrinks|done].
    + rewrite (handle_delete_absent _ _ Hw Hr). by intros [= <-].
  - rewrite handle_group_id_joins by done. intros [= <-]. by apply group_world_authorised.
  - rewrite handle_media_addr_Done by done. intros [= <-].
    eapply shrinks_authorised; [apply media_world_shrinks|done].
Qed.

(** What the receiving actor sends the client actor is about joined addresses. *)
Lemma routed_ok log draw now m st out :
  (∀ f, is_u32 (draw f).1.1 ∧ is_u16 (draw f).1.2) →
  (∀ u media, media_sessions (udp_run udp_recv_new log).1 !! u = Some media →
     frequencies_ok media) →
  udp_step (udp_run udp_recv_new log).1 m = (st, out) →
  Forall (mail_ok (log ++ [m])) (out ≫= route draw now).
Proof.
  intros Hdraw Hmedia. destruct m as [[req addr| | |]|now'|s item|u media];
    try (intros [= _ <-]; by repeat constructor).
  simpl. destruct (sessions _ !! _) as [item|] eqn:Hs; intros [= _ <-]; [|constructor].
  apply Forall_bind, Forall_app. split.
  - destruct (media_sessions _ !! _) as [media|] eqn:Hm; [|constructor].
    apply Forall_singleton, Forall_singleton. split; [|done]. split; [done|].
    by apply (Hmedia _ _ Hm).
  - repeat constructor. apply session_registered in Hs as (l1 & l2 & -> & Hl).
    exists l1, l2, [], req, item. split; [|done]. by rewrite <- app_assoc.
Qed.

Lemma server_step_ok ev sv sv' :
  server_ok sv → event_ok ev sv → server_step ev sv = Done sv' → server_ok sv'.
Proof.
  intros [Hudp Hw Ha Hmedia Hmail] Hev. destruct ev as [draw now m|item|i|r addr acceptor peer ph|rd s message addr].
  - destruct Hev as [Hdraw Hfreq]. unfold server_step.
    destruct (udp_step (sv_udp sv) m) as [st out] eqn:Hstep. intros [= <-]. split; simpl.
    + by rewrite udp_run_snoc, <- Hudp, Hstep.
    + done.
    + eapply authorised_mono; [|exact Ha]. intros g a. apply joined_snoc.
    + intros u media Hm. pose proof (media_known m (sv_udp sv) u media) as Hk.
      rewrite Hstep in Hk. destruct (Hk Hm) as [?| ->]; [by eapply Hmedia|done].
    + apply Forall_app. split; [eapply Forall_impl; [done|]; apply mail_ok_snoc|].
      rewrite Hudp in Hstep, Hmedia. by eapply routed_ok.
  - intros [= <-]. split; try done. simpl. apply Forall_app. by repeat constructor.
  - unfold server_step. destruct (sv_mail sv !! i) as [m|] eqn:Hi; [|by intros [= <-]].
    pose proof (Forall_lookup_1 _ _ _ _ Hmail Hi) as [Hm Hj].
    destruct (blocks (sv_world sv) m) eqn:Hb; [by rewrite client_step_blocked|].
    pose proof (client_step_runs m _ Hw Hm Hb) as ([] & w' & Hstep & Hw')%runs_Done.
    rewrite Hstep. intros [= <-]. split; try done.
    + by apply (client_step_authorised _ m (sv_world sv)).
    + by apply Forall_delete.
  - unfold server_step. destruct (w_clients (sv_world sv) !! r) as [c|] eqn:Hc;
      [|by intros [= <-]].
    destruct (run_phase acceptor peer ph c) as [[c' ph'] evs] eqn:Hrun. intros [= <-].
    destruct (task_world_ok _ _ _ _ _ _ _ _ _ Hw Hc Hrun) as [Hw' Hsh]. split; simpl; try done.
    + by eapply shrinks_authorised.
    + apply Forall_app. split; [done|]. apply Forall_bind, Forall_true.
      intros []; repeat constructor.
  - destruct Hev as (Hs & Hb & Hclock).
    destruct (handle_rtc_rel rd s message addr _ Hw Hs Hb Hclock) as (res & w' & Hrun & Hrel).
    unfold server_step. rewrite Hrun. intros [= <-]. split; try done.
    + by eapply rel_world_ok.
    + eapply shrinks_authorised; [by eapply rtc_rel_shrinks|done].
Qed.

Lemma server_init_ok : server_ok server_init.
Proof.
  split; [done| | |done|constructor]; [|by exists (λ _, V4 [] 0)].
  split; try done. by exists (λ _, V4 [] 0).
Qed.

Lemma reachable_ok sv : reachable sv → server_ok sv.
Proof. induction 1; [apply server_init_ok|by eapply server_step_ok]. Qed.
End invariant.

(** ** The properties of the server *)

Section server_properties.
Context {P : Platform} {PL : PlatformLaws P} {D : DtlsLib P}.

(** Packets stay in their group: in every state the server can reach, whatever
    packet then arrives from whatever address, the RTC actor's handler returns, and
    every packet it sends goes to an address that joined a group the packet's source
    joined too, each with a STUN request that named a session registered for the
    group, not expired and not replaced. *)
Lemma forwarding_is_authorised sv rd s message addr :
  reachable sv → schedule_ok s → bytes_ok message → clocks_ok rd addr (sv_world sv) →
  ∃ res w' new,
    handle_rtc Release rd s (Rtc message addr) (sv_world sv) = Done (res, w') ∧
    w_sent w' = w_sent (sv_world sv) ++ new ∧
    ∀ m a, UdpSend (Rtc m a) ∈ new → same_group (sv_log sv) addr a.
Proof.
  intros [_ Hw (home & Hst & _ & Hr & Hs) _ _]%reachable_ok Hsch Hb Hclock.
  destruct (handle_rtc_rel rd s message addr _ Hw Hsch Hb Hclock) as (res & w' & Hrun & Hrel).
  destruct (rel_sent _ _ _ Hrel) as (new & Hnew & Hall). exists res, w', new.
  split; [done|]. split; [done|]. intros m a Hin. rewrite Forall_forall in Hall.
  destruct (Hall _ Hin) as (r & c & Ha & Hc & [(r' & _ & Hrec & _)|(_ & Hsend & _)]).
  - destruct (Hr _ _ _ _ Hc Hrec) as (g & Hg & Hg'). rewrite (Hst _ _ Ha) in Hg'. by exists g.
  - destruct (Hs _ _ _ Hc Hsend) as (g & Hg & Hg'). rewrite (Hst _ _ Ha) in Hg'. by exists g.
Qed.

(** The server keeps running: in every state it can reach no event makes an
    actor panic, and every event is handled to its end, except for the group message
    by which a connected client takes over the group of another. *)
Lemma server_runs sv ev :
  reachable sv → event_ok ev sv →
  (∃ sv', server_step ev sv = Done sv') ∨
  server_step ev sv = Stuck ∧
    ∃ i m, ev = EvClient i ∧ sv_mail sv !! i = Some m ∧ blocks (sv_world sv) m = true.
Proof.
  intros [_ Hw _ _ Hmail]%reachable_ok Hev.
  destruct ev as [draw now m|item|i|r addr acceptor peer ph|rd s message addr]; unfold server_step.
  - left. destruct (udp_step (sv_udp sv) m). by eexists.
  - left. by eexists.
  - destruct (sv_mail sv !! i) as [m|] eqn:Hi; [|left; by eexists].
    pose proof (Forall_lookup_1 _ _ _ _ Hmail Hi) as [Hm _].
    destruct (blocks (sv_world sv) m) eqn:Hb.
    + right. rewrite client_step_blocked by done. split; [done|]. by exists i, m.
    + left. pose proof (client_step_runs m _ Hw Hm Hb) as ([] & w' & -> & _)%runs_Done.
      by eexists.
  - left. destruct (w_clients (sv_world sv) !! r) as [c|]; [|by eexists].
    destruct (run_phase acceptor peer ph c) as [[c' ph'] evs]. by eexists.
  - left. destruct Hev as (Hs & Hb & Hclock).
    destruct (handle_rtc_rel rd s message addr _ Hw Hs Hb Hclock) as (res & w' & -> & _).
    by eexists.
Qed.
End server_properties.

(** ** A run of the server *)

Section run.
Context {P : Platform} {D : DtlsLib P}.

Fixpoint server_run (evs : list Event) (sv : Server) : outcome Server :=
  match evs with
  | [] => Done sv
  | ev :: evs => sv ← server_step ev sv; server_run evs sv
  end.

Lemma run_reachable evs sv sv' :
  reachable sv → Forall (λ ev, ∀ sv, event_ok ev sv) evs → server_run evs sv = Done sv' →
  reachable sv'.
Proof.
  intros Hsv Hev. revert sv Hsv. induction Hev as [|ev evs Hev _ IH]; intros sv Hsv; simpl.
  - by intros [= <-].
  - destruct (server_step ev sv) as [sv1| |] eqn:Hstep; [|done..]. simpl. apply IH.
    by eapply reach_step.
Qed.

#[export] Instance clock_ok_dec rt now : Decision (clock_ok rt now).
Proof. unfold clock_ok. apply _. Defined.

Definition clocks_check (now : Instant) (w : World) : bool :=
  bool_decide (map_Forall (λ _ c, map_Forall (λ _ rt, clock_ok rt now) (c_runtime c)) (w_clients w)).

Lemma clocks_check_ok rd addr w : clocks_check (at_packet rd) w = true → clocks_ok rd addr w.
Proof. intros H%bool_decide_eq_true r c f rt _ Hc Hrt. exact (H r c Hc f rt Hrt). Qed.
End run.

(** A streamer and a viewer register, connect and join; the streamer announces VP8. *)
Definition request_of (user : SmolStr) : StunBindingRequest :=
  {| transaction_id := replicate 12 7; remote_user := user; StunParse.server_user := str "srv" |}.

Definition sample_draw : Z → Z * Z * Instant := λ _, (1000, 100, 0).

Definition udp_event (m : UdpMsg) : Event (P := sample_platform) (D := toy_dtls) :=
  EvUdp (D := toy_dtls) sample_draw 0 m.

Lemma udp_event_ok m :
  match m with MsgMediaUser _ media => frequencies_ok media | _ => True end →
  ∀ sv, event_ok (udp_event m) sv.
Proof.
  intros Hm sv. split; [|exact Hm]. intros f. by split; apply (bool_decide_unpack _).
Qed.

Definition ready_event (r : ClientRef) (addr : SocketAddr) :
    Event (P := sample_platform) (D := toy_dtls) :=
  EvTask (D := toy_dtls) r addr () silent_peer (PStore (toy_transport 0 0)).

Definition sample_item (b : bool) : SessionStorageItem :=
  {| group_id := 7; ttl := 0; is_sender := b |}.

Definition sample_events : list (Event (P := sample_platform) (D := toy_dtls)) :=
  [ udp_event (MsgSession (session_new (str "srv") (str "streamer")) (sample_item true));
    udp_event (MsgSession (session_new (str "srv") (str "viewer")) (sample_item false));
    udp_event (MsgMediaUser (str "streamer") sample_media);
    udp_event (MsgRequest (Dtls [22] streamer_addr)); EvClient 0;
    udp_event (MsgRequest (Dtls [22] viewer_addr)); EvClient 0;
    ready_event 0 streamer_addr; ready_event 1 viewer_addr;
    udp_event (MsgRequest (Stun (request_of (str "streamer")) streamer_addr));
    EvClient 0; EvClient 0;
    udp_event (MsgRequest (Stun (request_of (str "viewer")) viewer_addr)); EvClient 0 ].

(** The packets of the streamer now reach the viewer. *)
Definition to_viewer (e : Effect) : bool :=
  match e with UdpSend (Rtc _ a) => bool_decide (a = viewer_addr) | _ => false end.

Definition reaches_viewer (sv : Server (P := sample_platform)) : bool :=
  match handle_rtc Release sample_readings in_order (Rtc (sample_packet 96) streamer_addr)
          (sv_world sv) with
  | Done (_, w') => existsb to_viewer (drop (length (w_sent (sv_world sv))) (w_sent w'))
  | _ => false
  end.

Definition sample_check : bool :=
  match server_run sample_events server_init with
  | Done sv => clocks_check (at_packet sample_readings) (sv_world sv) && reaches_viewer sv
  | _ => false
  end.

Lemma sample_reached : ∃ sv, reachable (P := sample_platform) (D := toy_dtls) sv ∧
  clocks_ok sample_readings streamer_addr (sv_world sv) ∧ reaches_viewer sv = true.
Proof.
  assert (sample_check = true) as Hcheck by (vm_compute; reflexivity). revert Hcheck.
  unfold sample_check. destruct (server_run sample_events server_init) as [sv| |] eqn:Hrun; [|done..].
  intros [Hclock Hview]%andb_prop. exists sv. split; [|split; [by apply clocks_check_ok|done]].
  apply (run_reachable (D := toy_dtls) sample_events server_init); [apply reach_init| |exact Hrun].
  unfold sample_events. rewrite !Forall_cons, Forall_nil.
  split_and!; try exact I; try (apply udp_event_ok; exact I); try (intros ?; exact I).
  apply udp_event_ok. intros id f ->%sample_frequencies. by apply (bool_decide_unpack _).
Qed.

Lemma forwarding_is_authorised_witness : ∃ sv,
  reachable (P := sample_platform) (D := toy_dtls) sv ∧
  same_group (sv_log sv) streamer_addr viewer_addr.
Proof.
  destruct sample_reached as (sv & Hsv & Hclock & Hview).
  destruct (forwarding_is_authorised (D := toy_dtls) sv sample_readings in_order
    (sample_packet 96) streamer_addr) as (res & w' & new & Hrun & Hsent & Hall).
  - exact Hsv.
  - exact in_order_ok.
  - apply (bool_decide_unpack _). vm_compute. exact I.
  - exact Hclock.
  - exists sv. split; [exact Hsv|]. unfold reaches_viewer in Hview.
    rewrite Hrun, Hsent, drop_app_length in Hview.
    apply existsb_exists in Hview as (e & Hin & He).
    destruct e as [[| |m a|]| | | |]; try discriminate.
    apply bool_decide_eq_true in He. subst a. apply (Hall m). by apply list_elem_of_In.
Defined.

Lemma server_runs_witness : ∃ sv sv',
  reachable (P := sample_platform) (D := toy_dtls) sv ∧
  server_step (EvRtc (D := toy_dtls) sample_readings in_order (sample_packet 96) streamer_addr) sv = Done sv'.
Proof.
  destruct sample_reached as (sv & Hsv & Hclock & _). exists sv.
  destruct (server_runs (D := toy_dtls) sv
    (EvRtc (D := toy_dtls) sample_readings in_order (sample_packet 96) streamer_addr))
    as [[sv' H]|(_ & i & m & H & _)].
  - exact Hsv.
  - split; [exact in_order_ok|]. split; [|exact Hclock].
    apply (bool_decide_unpack _). vm_compute. exact I.
  - exists sv'. split; [exact Hsv|exact H].
  - discriminate H.
Defined.
