(* ===== verification/Interleaved.v ===== *)
(** * The handlers among other threads

    The protocol of the shared store, and the proof that every handler of the client
    actor and of the RTC actor, and the assignment with which a DTLS task publishes its
    SRTP transport (src/src/client/actor.rs:97), follows it when its operations
    interleave with those of the other threads. *)

From S2P Require Import Prelude Net Srtp ByteOrder RtpCore StunParse Demux Jitter.
From S2P Require Import Media Stream Group Clients Store Threads Rely Runtime.
From S2P Require Import ClientActor RtcActor.
Local Open Scope Z_scope.

Section protocol.
Context {P : Platform}.

(** The address a client was created for, the members of the groups, the addresses a
    DTLS datagram came from, the transports that were published for a client, the DTLS
    records its stream has brought for an address, the time. *)
Record Facts := {
  f_home : gmap ClientRef SocketAddr;
  f_join : Z → SocketAddr → Prop;
  f_heard : SocketAddr → Prop;
  f_ready : ClientRef → SrtpTransport → Prop;
  f_record : SocketAddr → DataPacket → Prop;
  f_time : Instant;
}.

Record facts_grow (g g' : Facts) : Prop := {
  grow_home : f_home g ⊆ f_home g';
  grow_join i a : f_join g i a → f_join g' i a;
  grow_heard a : f_heard g a → f_heard g' a;
  grow_ready r t : f_ready g r t → f_ready g' r t;
  grow_record a d : f_record g a d → f_record g' a d;
  grow_time : f_time g ≤ f_time g';
}.

#[export] Instance facts_grow_preorder : PreOrder facts_grow.
Proof.
  split; [by intros g; split|]. intros g1 g2 g3 [] []. split; [by etrans|auto|auto|auto|auto|lia].
Qed.

(** The address is in a group with the client's own address. *)
Definition related (g : Facts) (r : ClientRef) (a : SocketAddr) : Prop :=
  ∃ home i, f_home g !! r = Some home ∧ f_join g i home ∧ f_join g i a.

Definition receivers_ok (g : Facts) (r : ClientRef) (rs : gmap SocketAddr ClientRef) : Prop :=
  ∀ a r', rs !! a = Some r' → f_home g !! r' = Some a ∧ related g r a.

Definition runtimes_ok (g : Facts) (m : gmap Z ClientRtpRuntime) : Prop :=
  ∀ f rt, m !! f = Some rt → is_u32 f ∧ runtime_ok rt ∧ clock_ok rt (f_time g).

(** The context of a client is one that was published for it, after some packets. *)
Definition keyed (g : Facts) (r : ClientRef) (t : SrtpTransport) : Prop :=
  ∃ t0, f_ready g r t0 ∧ descends t0 t.

Record client_inv (g : Facts) (r : ClientRef) (c : Client) : Prop := {
  ci_receivers : receivers_ok g r (c_receivers c);
  ci_sender s : c_sender_addr c = Some s → related g r s;
  ci_runtime : runtimes_ok g (c_runtime c);
  ci_jitter : is_u32 (jitter_delay (c_jitter c));
  ci_ready t : c_srtp c = Some t → keyed g r t;
}.

Definition table_inv (g : Facts) (st : gmap SocketAddr ClientRef) : Prop :=
  ∀ a r, st !! a = Some r → f_home g !! r = Some a.

Definition groups_inv (g : Facts) (gs : GroupsStorage) : Prop :=
  ∀ i a, gs !! i = Some a → f_join g i a.

Record shared_inv (g : Facts) (w : World) : Prop := {
  si_heap r : is_Some (w_clients w !! r) ↔ is_Some (f_home g !! r);
  si_client r c : w_clients w !! r = Some c → client_inv g r c;
  si_table : table_inv g (w_storage w);
  si_groups : groups_inv g (w_groups w);
}.

(** The keys of a client of the address. *)
Definition keys (g : Facts) (a : SocketAddr) (t : SrtpTransport) : Prop :=
  ∃ r, f_home g !! r = Some a ∧ f_ready g r t.

(** What happens to a packet: RTP gets new numbers. *)
Definition rewritten (rtcp : bool) (plain plain' : DataPacket) : Prop :=
  if rtcp then plain' = plain
  else ∃ seq ts, replace_sequence_n_timestamp plain seq ts = Done plain'.

(** The packet was read with the keys of the address; the datagram is a packet with the
    content of that, made with the keys of its destination. *)
Definition authentic (g : Facts) (addr : SocketAddr) (packet plain : DataPacket) : Prop :=
  ∃ t, keys g addr t ∧ opened (rtcp_shape packet) t packet plain.

Definition encrypted (g : Facts) (a : SocketAddr) (rtcp : bool) (plain d : DataPacket) : Prop :=
  ∃ t, keys g a t ∧ sealed rtcp t plain d.

Definition forwarded (g : Facts) (addr : SocketAddr) (packet : DataPacket) (a : SocketAddr)
    (d : DataPacket) : Prop :=
  ∃ plain plain', authentic g addr packet plain ∧
    rewritten (rtcp_shape packet) plain plain' ∧ encrypted g a (rtcp_shape packet) plain' d.

(** A worker sends the packet of an address, read and encrypted again, to members of its
    groups, and jitter commands for the address; the event loop sends the DTLS records
    of the streams, opens the stream of a client and starts DTLS tasks, for addresses it
    has heard from. *)
Definition effect_allowed (g : Facts) (ρ : Role) (e : Effect) : Prop :=
  match ρ, e with
  | Worker addr packet, UdpSend (Rtc d a) =>
      (∃ i, f_join g i addr ∧ f_join g i a) ∧ forwarded g addr packet a d
  | Worker addr _, JitterIncrease a | Worker addr _, JitterDecrease a => a = addr
  | Worker _ _, _ => False
  | MainThread _, UdpSend (Dtls d a) => f_record g a d
  | MainThread _, AddOutgoingStream r a | MainThread _, SpawnDtlsTask r _ a =>
      f_heard g a ∧ f_home g !! r = Some a
  | MainThread _, _ => False
  end.

#[export] Instance store_protocol : Protocol := {|
  facts := Facts;
  grow := facts_grow;
  time := f_time;
  known := (Z → SocketAddr → Prop) * (SocketAddr → Prop) *
    (ClientRef → SrtpTransport → Prop) * (SocketAddr → DataPacket → Prop);
  given g := (f_join g, f_heard g, f_ready g, f_record g);
  shared := shared_inv;
  allowed := effect_allowed;
|}.

Lemma home_grow g g' r a :
  facts_grow g g' → f_home g !! r = Some a → f_home g' !! r = Some a.
Proof. intros [Hh _ _ _ _ _] Hr. by eapply lookup_weaken. Qed.

Lemma related_grow g g' r a : facts_grow g g' → related g r a → related g' r a.
Proof.
  intros Hg (home & i & Hh & H1 & H2). exists home, i. split; [by eapply home_grow|].
  destruct Hg as [_ Hj _ _ _ _]. auto.
Qed.

Lemma receivers_grow g g' r rs : facts_grow g g' → receivers_ok g r rs → receivers_ok g' r rs.
Proof.
  intros Hg Hr a r' Ha. destruct (Hr a r' Ha). split; [by eapply home_grow|by eapply related_grow].
Qed.

Lemma ready_grow g g' r t : facts_grow g g' → f_ready g r t → f_ready g' r t.
Proof. intros [_ _ _ Hr _ _]. apply Hr. Qed.

Lemma keyed_grow g g' r t : facts_grow g g' → keyed g r t → keyed g' r t.
Proof. intros Hg (t0 & Hr & Hd). exists t0. split; [by eapply ready_grow|done]. Qed.

Lemma keyed_descends g r t t' : keyed g r t → descends t t' → keyed g r t'.
Proof. intros (t0 & Hr & Hd) Hd'. exists t0. split; [done|]. unfold descends in *. by etrans. Qed.

Lemma keys_grow g g' a t : facts_grow g g' → keys g a t → keys g' a t.
Proof.
  intros Hg (r & Hr & Hready). exists r. split; [by eapply home_grow|by eapply ready_grow].
Qed.

Lemma authentic_grow g g' addr packet plain :
  facts_grow g g' → authentic g addr packet plain → authentic g' addr packet plain.
Proof. intros Hg (t & Hk & Ho). exists t. split; [by eapply keys_grow|done]. Qed.

Lemma encrypted_grow g g' a b plain d :
  facts_grow g g' → encrypted g a b plain d → encrypted g' a b plain d.
Proof. intros Hg (t & Hk & Ho). exists t. split; [by eapply keys_grow|done]. Qed.

(** What the context of a client makes of a packet, and what it reads. *)
Lemma keyed_encrypted g r a t b plain d t' :
  f_home g !! r = Some a → keyed g r t → seal b t plain = (t', d, Ok tt) →
  encrypted g a b plain d.
Proof.
  intros Hr (t0 & Hready & Hd) Hs. exists t0. split; [by exists r|]. by exists t, t'.
Qed.

Lemma keyed_authentic g r a t packet plain t' :
  f_home g !! r = Some a → keyed g r t →
  unseal (rtcp_shape packet) t packet = (t', plain, Ok tt) → authentic g a packet plain.
Proof.
  intros Hr (t0 & Hready & Hd) Hs. exists t0. split; [by exists r|]. by exists t, t'.
Qed.

Lemma client_inv_grow g g' r c : facts_grow g g' → client_inv g r c → client_inv g' r c.
Proof.
  intros Hg [Hrec Hs Hrt Hj Hready]. split; [by eapply receivers_grow| | |done|].
  - intros s Hc. by eapply related_grow, Hs.
  - intros f rt Hf. destruct (Hrt f rt Hf) as (? & ? & Hc). split; [done|]. split; [done|].
    eapply clock_ok_mono; [exact Hc|apply Hg].
  - intros t Ht. by eapply keyed_grow, Hready.
Qed.

Lemma table_grow g g' st : facts_grow g g' → table_inv g st → table_inv g' st.
Proof. intros Hg H a r Ha. by eapply home_grow, H. Qed.

Lemma groups_grow g g' gs : facts_grow g g' → groups_inv g gs → groups_inv g' gs.
Proof. intros [_ Hj _ _ _ _] H i a Ha. by apply Hj, H. Qed.

Lemma join_grow g g' i a : facts_grow g g' → f_join g i a → f_join g' i a.
Proof. intros [_ Hj _ _ _ _]. apply Hj. Qed.

Lemma heard_grow g g' a : facts_grow g g' → f_heard g a → f_heard g' a.
Proof. intros [_ _ Hh _ _ _]. apply Hh. Qed.

Lemma record_grow g g' a d : facts_grow g g' → f_record g a d → f_record g' a d.
Proof. intros [_ _ _ _ Hr _]. apply Hr. Qed.

Lemma shared_inv_grow g g' w :
  facts_grow g g' → f_home g' = f_home g → shared_inv g w → shared_inv g' w.
Proof.
  intros Hg Hh [Hheap Hc Ht Hgr]. split.
  - by rewrite Hh.
  - intros r c Hr. by eapply client_inv_grow, Hc.
  - by eapply table_grow.
  - by eapply groups_grow.
Qed.

#[export] Instance store_protocol_laws : ProtocolLaws store_protocol.
Proof.
  split; simpl.
  - apply _.
  - intros g t Ht. exists {| f_home := f_home g; f_join := f_join g; f_heard := f_heard g;
                 f_ready := f_ready g; f_record := f_record g; f_time := t |}.
    assert (facts_grow g {| f_home := f_home g; f_join := f_join g; f_heard := f_heard g;
                 f_ready := f_ready g; f_record := f_record g; f_time := t |}) as Hg
      by by split.
    do 3 (split; [done|]). intros w. by apply shared_inv_grow.
  - intros g w w' Hc Hs Hgr [H1 H2 H3 H4]. split; rewrite ?Hc, ?Hs, ?Hgr; done.
Qed.
End protocol.

(** ** The rules of the shared state *)

Section rules.
Context {P : Platform} {PL : PlatformLaws P}.
Implicit Types (h : list (lock * mode)) (g : Facts).

Lemma wp_client ρ r a h g (Q : Client → list (lock * mode) → Facts → Prop) :
  f_home g !! r = Some a → (∀ c g', grow g g' → client_inv g' r c → Q c h g') →
  wp ρ (client r) h g Q.
Proof.
  intros Hr HQ. apply wp_frame; [done|]. intros g' w rd Hg Hw _. simpl.
  destruct (w_clients w !! r) as [c|] eqn:Hc.
  - do 3 (split; [done|]). intros g2 Hg2. apply HQ; [by etrans|].
    eapply client_inv_grow; [exact Hg2|]. by eapply (si_client _ _ Hw).
  - assert (is_Some (w_clients w !! r)) as [? ?]; [|congruence].
    apply (si_heap _ _ Hw). exists a. by eapply home_grow.
Qed.

Lemma wp_update ρ r f h g (Q : () → list (lock * mode) → Facts → Prop) :
  (∀ c, guarded_write h r c (f c)) →
  (∀ c g', grow g g' → client_inv g' r c → client_inv g' r (f c)) →
  (∀ g', grow g g' → Q () h g') → wp ρ (update r f) h g Q.
Proof.
  intros Hgw Hf HQ. apply wp_perform. intros g' w Hg Hw. split; [done|]. intros rd _. simpl.
  exists g'. split; [reflexivity|]. do 2 (split; [done|]). split; [|intros g3 Hg3; apply HQ; by etrans].
  destruct Hw as [Hheap Hc Ht Hgr]. split; simpl; [| |done|done].
  - intros r'. by rewrite lookup_alter_is_Some.
  - intros r' c' [(<- & c & Hr & ->)|[_ Hr]]%lookup_alter_Some; [apply Hf; [done|]|]; by apply Hc.
Qed.

Lemma wp_get_storage ρ h g (Q : gmap SocketAddr ClientRef → list (lock * mode) → Facts → Prop) :
  (∀ st g', grow g g' → table_inv g' st → Q st h g') → wp ρ get_storage h g Q.
Proof.
  intros HQ. apply wp_frame; [done|]. intros g' w rd Hg Hw _. simpl.
  do 3 (split; [done|]). intros g2 Hg2. apply HQ; [by etrans|].
  eapply table_grow; [exact Hg2|]. apply (si_table _ _ Hw).
Qed.

Lemma wp_put_storage ρ st h g (Q : () → list (lock * mode) → Facts → Prop) :
  (LStorage, Write) ∈ h → table_inv g st →
  (∀ g', grow g g' → Q () h g') → wp ρ (put_storage st) h g Q.
Proof.
  intros Hl Hst HQ. apply wp_perform. intros g' w Hg Hw. split; [done|]. intros rd _. simpl.
  exists g'. split; [reflexivity|]. do 2 (split; [done|]). split; [|intros g3 Hg3; apply HQ; by etrans].
  destruct Hw as [Hheap Hc Ht Hgr]. split; simpl; [done..|by eapply table_grow|done].
Qed.

Lemma wp_get_groups ρ h g (Q : GroupsStorage → list (lock * mode) → Facts → Prop) :
  (∀ gs g', grow g g' → groups_inv g' gs → Q gs h g') → wp ρ get_groups h g Q.
Proof.
  intros HQ. apply wp_frame; [done|]. intros g' w rd Hg Hw _. simpl.
  do 3 (split; [done|]). intros g2 Hg2. apply HQ; [by etrans|].
  eapply groups_grow; [exact Hg2|]. apply (si_groups _ _ Hw).
Qed.

Lemma wp_put_groups ρ gs h g (Q : () → list (lock * mode) → Facts → Prop) :
  groups_inv g gs → (∀ g', grow g g' → Q () h g') → wp ρ (put_groups gs) h g Q.
Proof.
  intros Hgs HQ. apply wp_perform. intros g' w Hg Hw. split; [done|]. intros rd _. simpl.
  exists g'. split; [reflexivity|]. do 2 (split; [done|]). split; [|intros g3 Hg3; apply HQ; by etrans].
  destruct Hw as [Hheap Hc Ht Hgr]. split; simpl; [done..|by eapply groups_grow].
Qed.

(** A new client belongs to the address it is created for. *)
Lemma wp_alloc ρ c a h g (Q : ClientRef → list (lock * mode) → Facts → Prop) :
  (∀ r g', client_inv g' r c) →
  (∀ r g', grow g g' → f_home g' !! r = Some a → Q r h g') → wp ρ (alloc c) h g Q.
Proof.
  intros Hc HQ. apply wp_perform. intros g' w Hg Hw. split; [done|]. intros rd _. simpl.
  set (r := fresh (dom (w_clients w))).
  assert (f_home g' !! r = None) as Hr.
  { apply eq_None_not_Some. rewrite <- (si_heap _ _ Hw), <- elem_of_dom. apply is_fresh. }
  set (g2 := {| f_home := <[r := a]> (f_home g'); f_join := f_join g';
             f_heard := f_heard g'; f_ready := f_ready g'; f_record := f_record g'; f_time := f_time g' |}).
  assert (grow g' g2) as Hg2 by (split; [by apply insert_subseteq|done..]).
  exists g2. do 3 (split; [done|]). split.
  - split; simpl.
    + intros r'. rewrite !lookup_insert_is_Some'. by rewrite (si_heap _ _ Hw).
    + intros r' c' [[<- <-]|[_ Hc']]%lookup_insert_Some; [apply Hc|].
      eapply client_inv_grow; [exact Hg2|]. by eapply (si_client _ _ Hw).
    + by eapply table_grow, Hw.
    + by eapply groups_grow, Hw.
  - intros g3 Hg3. apply HQ; [by do 2 (etrans; [done|])|].
    eapply home_grow; [exact Hg3|]. apply lookup_insert_eq.
Qed.
End rules.

(** Carries everything known at [g] over to the later [g']. *)
Ltac later Hg :=
  repeat match goal with
  | H : f_home _ !! _ = Some _ |- _ => apply (home_grow _ _ _ _ Hg) in H
  | H : related _ _ _ |- _ => apply (related_grow _ _ _ _ Hg) in H
  | H : receivers_ok _ _ _ |- _ => apply (receivers_grow _ _ _ _ Hg) in H
  | H : client_inv _ _ _ |- _ => apply (client_inv_grow _ _ _ _ Hg) in H
  | H : table_inv _ _ |- _ => apply (table_grow _ _ _ Hg) in H
  | H : groups_inv _ _ |- _ => apply (groups_grow _ _ _ Hg) in H
  | H : f_join _ _ _ |- _ => apply (join_grow _ _ _ _ Hg) in H
  | H : f_heard _ _ |- _ => apply (heard_grow _ _ _ Hg) in H
  | H : f_ready _ _ _ |- _ => apply (ready_grow _ _ _ _ Hg) in H
  | H : f_record _ _ _ |- _ => apply (record_grow _ _ _ _ Hg) in H
  | H : keyed _ _ _ |- _ => apply (keyed_grow _ _ _ _ Hg) in H
  | H : authentic _ _ _ _ |- _ => apply (authentic_grow _ _ _ _ _ Hg) in H
  | H : encrypted _ _ _ _ _ |- _ => apply (encrypted_grow _ _ _ _ _ _ Hg) in H
  end.

(** One step of a handler; what it gives is named by the caller. *)
Ltac wp_step :=
  lazymatch goal with
  | |- wp _ (_ ≫= _) _ _ _ => apply wp_bind
  | |- wp _ (mret _) _ _ _ => apply wp_ret
  | |- wp _ (get_storage) _ _ _ => apply wp_get_storage
  | |- wp _ (get_groups) _ _ _ => apply wp_get_groups
  end.

(** ** The client actor *)

Section client_actor.
Context {P : Platform} {PL : PlatformLaws P}.
Implicit Types (h : list (lock * mode)) (g : Facts).

Lemma client_default_inv now r g : client_inv g r (client_default now).
Proof. split; simpl; [intros ???|done|intros ???|done|by intros []]; by simplify_map_eq || done. Qed.

Lemma wp_handle_dtls now message addr g :
  f_heard g addr →
  wp (MainThread false) (handle_dtls now message addr) [] g (λ _ h _, h = []).
Proof.
  intros Hheard. set (ρ := MainThread false).
  unfold handle_dtls. wp_step. apply wp_guarded; [done|].
  unfold entry_or_default_client. wp_step. wp_step. intros st g1 Hg1 Hst. later Hg1. clear g Hg1.
  assert (∀ r g2, grow g1 g2 → f_home g2 !! r = Some addr →
    wp ρ (c ← client r;
       (if c_dtls_connected c then mret ()
        else send (AddOutgoingStream r addr);; update r make_connected);;
       send (SpawnDtlsTask r message addr)) [] g2 (λ _ h _, h = [])) as Hrest.
  { intros r g2 Hg2 Hr. later Hg2. clear Hst. wp_step. eapply wp_client; [done|].
    intros c g3 Hg3 _. later Hg3. wp_step.
    assert (∀ g4, grow g3 g4 →
      wp ρ (send (SpawnDtlsTask r message addr)) [] g4 (λ _ h _, h = [])) as Hspawn.
    { intros g4 Hg4. apply wp_send; [|done]. intros g5 Hg5. later Hg4; later Hg5. by split. }
    destruct (c_dtls_connected c); [wp_step; auto|]. wp_step. apply wp_send.
    { intros g4 Hg4. later Hg4. by split. }
    intros g4 Hg4. apply wp_update; [write_ok|by intros c' g5 _ []; split|].
    intros g5 Hg5. apply Hspawn. by etrans. }
  destruct (st !! addr) as [r|] eqn:Hr.
  - apply wp_ret. intros g2 Hg2. split; [done|]. intros g3 Hg3.
    apply Hrest; [by etrans|]. apply Hst in Hr. by later Hg2; later Hg3.
  - wp_step. apply (wp_alloc _ _ addr); [intros; apply client_default_inv|].
    intros r g2 Hg2 Hhome. later Hg2. wp_step. apply wp_put_storage; [set_solver|..].
    { intros a r' [[<- <-]|[_ Ha]]%lookup_insert_Some; [done|by apply Hst]. }
    intros g3 Hg3. apply wp_ret. intros g4 Hg4. split; [done|]. intros g5 Hg5. later Hg3; later Hg4; later Hg5.
    apply Hrest; [|done]. by do 3 (etrans; [done|]).
Qed.

Lemma wp_filter_live ρ l h g (Q : list (SocketAddr * ClientRef) → list (lock * mode) → Facts → Prop) :
  (∀ p, p ∈ l → f_home g !! p.2 = Some p.1) →
  (∀ l' g', grow g g' → l' ⊆ l → Q l' h g') → wp ρ (filter_live l) h g Q.
Proof.
  revert g Q. induction l as [|[a r] l IH]; intros g Q Hl HQ; simpl.
  { apply wp_ret. intros g' Hg. by apply HQ. }
  wp_step. eapply (wp_client _ _ a); [apply (Hl (a, r)), list_elem_of_here|].
  intros c g1 Hg1 _. wp_step. apply IH.
  { intros p Hp. eapply home_grow; [exact Hg1|]. apply Hl. by right. }
  intros l' g2 Hg2 Hsub. apply wp_ret. intros g3 Hg3.
  apply HQ; [by do 2 (etrans; [done|])|]. destruct (c_deleted c); set_solver.
Qed.

(** Some of the receivers a client has. *)
Lemma receivers_some g r rs l :
  receivers_ok g r rs → (∀ p, p ∈ l → rs !! p.1 = Some p.2) → receivers_ok g r (list_to_map l).
Proof.
  intros Hrs Hl a r' Ha%elem_of_list_to_map_2. apply Hrs. by apply (Hl (a, r')).
Qed.

Lemma set_receivers_inv g r rs c :
  receivers_ok g r rs → client_inv g r c → client_inv g r (set_receivers rs c).
Proof. intros Hrs []. by split. Qed.

Lemma set_sender_inv g r s c :
  related g r s → client_inv g r c → client_inv g r (set_sender_addr (Some s) c).
Proof. intros Hs []. split; simpl; [done|by intros ? [= <-]|done..]. Qed.

Lemma wp_handle_delete addr g :
  wp (MainThread false) (handle_delete addr) [] g (λ _ h _, h = []).
Proof.
  unfold handle_delete. wp_step. apply wp_guarded; [done|].
  wp_step. wp_step. intros st g1 _ Hst. wp_step. apply wp_put_storage; [set_solver|..].
  { intros a r [_ Ha]%lookup_delete_Some. by apply Hst. }
  intros g2 Hg2. apply wp_ret. intros g3 Hg3. split; [done|]. intros g4 Hg4.
  destruct (st !! addr) as [r|] eqn:Hr; [|by apply wp_ret]. apply Hst in Hr.
  later Hg2; later Hg3; later Hg4. clear Hst.
  wp_step. wp_step. intros gs g5 Hg5 Hgs. later Hg5. wp_step. apply wp_put_groups.
  { intros i a [Ha _]%lookup_remove_sender. by apply Hgs. }
  intros g6 Hg6. wp_step. apply wp_update; [write_ok|intros c g' _ []; by split|].
  intros g7 Hg7. later Hg6; later Hg7. wp_step. apply wp_guarded.
  { split; [set_solver|]. left. intros l Hl. set_solver. }
  wp_step. eapply wp_client; [done|]. intros c g8 Hg8 Hc. pose proof (ci_receivers _ _ _ Hc) as Hrec.
  wp_step. apply wp_filter_live.
  { intros [a r'] Hp%elem_of_map_to_list. by apply Hrec. }
  intros l g9 Hg9 Hsub. later Hg9. apply wp_update; [write_ok|..].
  - intros c' g' Hg' Hc'. later Hg'. apply set_receivers_inv; [|done].
    apply (receivers_some _ _ (c_receivers c)); [done|].
    intros [a r'] Hp%Hsub. by apply elem_of_map_to_list.
  - intros g10 Hg10. split; [done|]. intros g11 Hg11. by apply wp_ret.
Qed.

Lemma insert_or_get_sender_inv g gs i addr b last gs' :
  groups_inv g gs → f_join g i addr → insert_or_get_sender gs i addr b = (last, gs') →
  f_join g i last ∧ groups_inv g gs'.
Proof.
  intros Hgs Hj. unfold insert_or_get_sender.
  destruct b; [|destruct (gs !! i) as [s|] eqn:Hi]; intros [= <- <-].
  - split; [destruct (gs !! i) as [s|] eqn:Hi; simpl; [by apply Hgs|done]|].
    intros j a [[<- <-]|[_ ?]]%lookup_insert_Some; [done|by apply Hgs].
  - split; [by apply Hgs|done].
  - split; [done|]. intros j a [[<- <-]|[_ ?]]%lookup_insert_Some; [done|by apply Hgs].
Qed.

(** A lock of a client, under the table's. *)
Lemma under_table b l m : l ≠ LStorage → may_acquire (MainThread b) [(LStorage, Read)] l m.
Proof.
  intros Hl. destruct l; [done|..]; (split; [set_solver|]); left; intros l';
    rewrite list_elem_of_fmap; (intros (? & -> & ->%list_elem_of_singleton)); simpl; lia.
Qed.

Lemma wp_handle_group_id i addr b g :
  f_join g i addr → wp (MainThread b) (handle_group_id i addr b) [] g (λ _ h _, h = []).
Proof.
  intros Hj. unfold handle_group_id. wp_step. wp_step. intros gs g1 Hg1 Hgs. later Hg1.
  destruct (insert_or_get_sender gs i addr b) as [last gs'] eqn:Hins.
  destruct (insert_or_get_sender_inv _ _ _ _ _ _ _ Hgs Hj Hins) as [Hlast Hgs'].
  wp_step. apply wp_put_groups; [done|]. intros g2 Hg2. later Hg2.
  destruct (_ && _); [by apply wp_ret|]. apply wp_guarded; [done|].
  wp_step. wp_step. intros st g3 Hg3 Hst. later Hg3.
  destruct (st !! addr) as [ra|] eqn:Hra; [|by apply wp_ret].
  destruct (st !! last) as [rs|] eqn:Hrs; [|by apply wp_ret].
  apply Hst in Hra, Hrs. apply wp_guarded; [by apply under_table|].
  destruct (_ && b) eqn:Hb.
  - unfold redirect_receivers. wp_step. apply wp_blocked; [|set_solver].
    apply andb_prop in Hb as [_ ->]. split; [set_solver|]. right. split; [done|set_solver].
  - wp_step. apply wp_guarded.
    { split; [set_solver|]. left. intros l'. simpl. rewrite !elem_of_cons, elem_of_nil.
      intros [->|[->|[]]]; simpl; lia. }
    apply wp_update; [write_ok|..].
    { intros c g' Hg' Hc. later Hg'. apply set_sender_inv; [|done]. by exists addr, i. }
    intros g4 Hg4. split; [done|]. intros g5 Hg5. later Hg4; later Hg5.
    wp_step. eapply wp_client; [exact Hrs|]. intros c g6 Hg6 Hc. later Hg6. apply wp_update; [write_ok|..].
    + intros c' g' Hg' Hc'. later Hg'. apply set_receivers_inv; [|done].
      intros a r' [[<- <-]|[_ Ha]]%lookup_insert_Some; [|by apply (ci_receivers _ _ _ Hc)].
      split; [done|]. by exists last, i.
    + intros g7 Hg7. split; [done|]. by intros g8 Hg8.
Qed.

Lemma wp_handle_media_addr draw addr media g :
  msg_ok (MsgMedia draw addr media) →
  wp (MainThread false) (handle_media_addr draw addr media) [] g (λ _ h _, h = []).
Proof.
  intros [Hdraw Hfreq]. unfold handle_media_addr. apply wp_guarded; [done|].
  wp_step. wp_step. intros st g1 Hg1 Hst. destruct (st !! addr) as [r|] eqn:Hr; [|by apply wp_ret].
  apply Hst in Hr. apply wp_guarded; [by apply under_table|].
  wp_step. eapply wp_client; [done|]. intros c g2 Hg2 Hc. wp_step. apply wp_update; [write_ok|..].
  - intros c' g' Hg' [Hrec Hs Hrt Hjit Hready]. later Hg'. split; simpl; [done..| |done|done].
    intros f rt. rewrite lookup_add_runtimes. destruct (c_runtime c !! f) as [rt0|] eqn:Hf.
    + intros [= <-]. by apply (ci_runtime _ _ _ Hc).
    + case_decide as Hin; [|done]. intros [= <-].
      apply elem_of_get_frequencies in Hin as [id Hid]. split; [by eapply Hfreq|].
      destruct (Hdraw f). split; [auto with rstreamer|].
      unfold clock_ok, elapsed, saturating_sub. simpl. lia.
  - intros g3 Hg3. apply wp_guarded.
    { split; [set_solver|]. left. intros l'. simpl. rewrite !elem_of_cons, elem_of_nil.
      intros [->|[->|[]]]; simpl; lia. }
    apply wp_update; [write_ok|intros c' g' _ []; by split|]. intros g4 Hg4. split; [done|].
    intros g5 Hg5. split; [done|]. intros g6 Hg6. by split.
Qed.

(** A new sender announces itself. *)
Definition takes (m : ClientMsg) : bool :=
  match m with MsgGroup _ _ is_sender => is_sender | _ => false end.

(** What the facts must say of the sender of a message. *)
Definition sender_known (g : Facts) (m : ClientMsg) : Prop :=
  match m with
  | MsgGroup i a _ => f_join g i a
  | MsgDtls item => f_record g (dtls_addr item) (dtls_packet item)
  | MsgWebRtc _ (Dtls _ a) => f_heard g a
  | _ => True
  end.

Lemma wp_client_step m g :
  msg_ok m → sender_known g m →
  wp (MainThread (takes m)) (client_step m) [] g (λ _ h _, h = []).
Proof.
  intros Hm Hj. destruct m as [now msg|item|addr|i addr b|draw addr media]; cbn [client_step].
  - destruct msg; cbn [handle_webrtc]; [by apply wp_ret|by apply wp_handle_dtls|by apply wp_ret..].
  - unfold handle_dtls_message. destruct (get_type item); [by apply wp_ret|].
    apply wp_send; [|done]. intros g' Hg. simpl in *. by later Hg.
  - wp_step. eapply wp_mono; [apply wp_handle_delete|]. intros b h g' _ ->. by apply wp_ret.
  - by apply wp_handle_group_id.
  - by apply wp_handle_media_addr.
Qed.
End client_actor.

(** ** The RTC actor *)

Section rtc_actor.
Context {P : Platform} {PL : PlatformLaws P}.
Implicit Types (h : list (lock * mode)) (g : Facts).

(** A worker takes a lock of a client above those it holds. *)
Lemma worker_above addr packet h l m :
  l ≠ LStorage → Forall (λ q, (0 < lock_rank q.1 < lock_rank l)%nat) h →
  may_acquire (Worker addr packet) h l m.
Proof.
  intros Hl Hh.
  assert (∀ l', l' ∈ h.*1 → (0 < lock_rank l' < lock_rank l)%nat) as Hall.
  { intros l' (q & -> & Hq)%list_elem_of_fmap. by apply (proj1 (Forall_forall _ _) Hh q). }
  destruct l; [done|..]; (split; [intros Hin; apply Hall in Hin; simpl in Hin; lia|]);
    intros l' Hl'; by apply Hall in Hl' as [].
Qed.

(** The table is read when it is not held. *)
Lemma worker_table addr packet h :
  LStorage ∉ h.*1 → may_acquire (Worker addr packet) h LStorage Read.
Proof. done. Qed.

Lemma wp_find ρ a h g (Q : option ClientRef → list (lock * mode) → Facts → Prop) :
  may_acquire ρ h LStorage Read →
  (∀ o g', grow g g' → (∀ r, o = Some r → f_home g' !! r = Some a) → Q o h g') →
  wp ρ (guarded LStorage Read (st ← get_storage; mret (st !! a))) h g Q.
Proof.
  intros Hmay HQ. apply wp_guarded; [done|]. wp_step. wp_step. intros st g1 Hg1 Hst.
  apply wp_ret. intros g2 Hg2. split; [done|]. intros g3 Hg3. later Hg2; later Hg3.
  apply HQ; [by do 2 (etrans; [done|])|]. intros r Hr. by apply Hst.
Qed.

Lemma wp_with_srtp {A} ρ r a (none : A) k h g (Q : A → list (lock * mode) → Facts → Prop) :
  f_home g !! r = Some a → may_acquire ρ h (LSrtp r) Write → (∀ t, descends t (k t).1) →
  (∀ g', grow g g' → Q none h g') → (∀ t g', grow g g' → keyed g' r t → Q (k t).2 h g') →
  wp ρ (with_srtp r none k) h g Q.
Proof.
  intros Hr Hmay Hk Hnone HQ. apply wp_guarded; [done|]. wp_step. eapply wp_client; [done|].
  intros c g1 Hg1 Hc. pose proof (ci_ready _ _ _ Hc) as Hready. clear Hc.
  destruct (c_srtp c) as [t|].
  - specialize (HQ t). specialize (Hready t eq_refl). specialize (Hk t).
    destruct (k t) as [t' x]. wp_step. apply wp_update; [write_ok|..].
    { intros c' g' Hg' []. later Hg'. split; simpl; [done..|].
      intros t1 [= <-]. by eapply keyed_descends. }
    intros g2 Hg2. apply wp_ret. intros g3 Hg3. split; [done|]. intros g4 Hg4.
    later Hg2; later Hg3; later Hg4. apply HQ; [by do 3 (etrans; [done|])|done].
  - apply wp_ret. intros g2 Hg2. split; [done|]. intros g3 Hg3. apply Hnone.
    by do 2 (etrans; [done|]).
Qed.

Lemma wp_codec_of addr packet r a b hd g (Q : option (SmolStr * Z) → list (lock * mode) → Facts → Prop) :
  f_home g !! r = Some a →
  (∀ o g', grow g g' → (b = true → o = None) → Q o [] g') →
  wp (Worker addr packet) (codec_of r b hd) [] g Q.
Proof.
  intros Hr HQ. unfold codec_of. destruct b; [apply wp_ret; intros; by apply HQ|].
  apply wp_guarded; [by apply worker_above|]. wp_step. eapply wp_client; [done|].
  intros c g1 Hg1 _. apply wp_ret. intros g2 Hg2. split; [done|]. intros g3 Hg3.
  apply HQ; [by do 2 (etrans; [done|])|done].
Qed.

Lemma wp_decrypt addr r hd packet g
    (Q : result DataPacket ErrorParse → list (lock * mode) → Facts → Prop) :
  f_home g !! r = Some addr → (12 ≤ length packet)%nat →
  (∀ res g', grow g g' →
     (∀ m, res = Ok m → authentic g' addr packet m ∧
        (rtcp_shape packet = false → (12 ≤ length m)%nat)) → Q res [] g') →
  wp (Worker addr packet) (decrypt r addr (rtcp_shape packet) hd packet) [] g Q.
Proof.
  intros Hr Hlen HQ. set (b := rtcp_shape packet) in *.
  eapply wp_with_srtp; [done|by apply worker_above| |intros; by apply HQ|].
  { intros t. change (if b then _ else _) with (unseal b t packet).
    destruct (unseal b t packet) as [[]] eqn:Hu. by eapply unseal_descends. }
  intros t g' Hg' Hkey. later Hg'. change (if b then _ else _) with (unseal b t packet).
  destruct (unseal b t packet) as [[t' m] res] eqn:Hu. simpl.
  destruct res as [[]|e]; [|by apply HQ]. destruct (negb b && _); [by apply HQ|].
  apply HQ; [done|]. intros m' [= <-]. split; [by eapply keyed_authentic|].
  intros Hb. fold b in Hb. unfold unseal in Hu. rewrite Hb in Hu. unfold unprotect in Hu.
  destruct (srtp_unprotect (srtp_client t) packet) as [[c' m1] e] eqn:Hun.
  destruct e; simpl in Hu; [done|]. injection Hu as _ <-. by eapply unprotect_length.
Qed.

Lemma wp_adapt_payload addr packet r b o hd message h g
    (Q : DataPacket → list (lock * mode) → Facts → Prop) :
  (b = true → o = None) → (∀ g', grow g g' → Q message h g') →
  wp (Worker addr packet) (adapt_payload r b o hd message) h g Q.
Proof.
  intros Ho HQ. unfold adapt_payload. destruct b; [rewrite Ho by done|]; apply wp_ret; auto.
Qed.

Lemma wp_serve addr packet o hd plain message p h g :
  (rtcp_shape packet = true → o = None) → f_home g !! p.2 = Some p.1 →
  Forall (λ q, (0 < lock_rank q.1 < 3)%nat) h →
  (∃ i, f_join g i addr ∧ f_join g i p.1) →
  authentic g addr packet plain → rewritten (rtcp_shape packet) plain message →
  wp (Worker addr packet) (serve addr (rtcp_shape packet) o hd message p) h g (λ _ h' _, h' = h).
Proof.
  intros Ho Hp Hh (i & Hi1 & Hi2) Hauth Hrew. unfold serve. wp_step. eapply wp_client; [done|].
  intros c g1 Hg1 _. later Hg1. destruct (c_deleted c); [by apply wp_ret|].
  unfold tryM. wp_step. assert (may_acquire (Worker addr packet) h (LSrtp p.2) Write) as Hmay.
  { by apply worker_above. }
  set (b := rtcp_shape packet) in *.
  eapply wp_with_srtp; [done|done| |intros; by apply wp_ret|].
  { intros t. change (if b then _ else _) with (seal b t message).
    destruct (seal b t message) as [[]] eqn:Hu. by eapply seal_descends. }
  intros t g2 Hg2 Hkey. later Hg2. change (if b then _ else _) with (seal b t message).
  destruct (seal b t message) as [[t' m'] r] eqn:Hsealed. simpl.
  destruct r as [[]|e]; [|by apply wp_ret]. wp_step. apply wp_adapt_payload; [done|].
  assert (encrypted g2 p.1 b message m') as Henc by by eapply keyed_encrypted.
  intros g3 Hg3. later Hg3. wp_step. apply wp_send; [|intros; by apply wp_ret].
  intros g4 Hg4. later Hg4. split; [by exists i|by exists plain, message].
Qed.

Lemma wp_try_for_each {A} ρ late (f : A → M (result unit ErrorParse)) l res h g :
  (∀ a g', a ∈ l → grow g g' → wp ρ (f a) h g' (λ _ h' _, h' = h)) →
  wp ρ (try_for_each late f l res) h g (λ _ h' _, h' = h).
Proof.
  revert res g. induction l as [|a l IH]; intros res g Hf; cbn [try_for_each]; [by apply wp_ret|].
  assert (∀ res g', grow g g' → wp ρ (try_for_each late f l res) h g' (λ _ h' _, h' = h)) as Hl.
  { intros res' g' Hg. apply IH. intros b g2 Hb Hg2. apply Hf; [by right|by etrans]. }
  assert (wp ρ (f a) h g (λ _ h' _, h' = h)) as Ha by by apply Hf; [apply list_elem_of_here|].
  destruct res as [u|e]; [|destruct (late a); [|by apply Hl]];
    (apply wp_bind; eapply wp_mono; [exact Ha|]); intros r h' g' Hg ->; by apply Hl.
Qed.

Lemma wp_feedback addr packet r message g
    (Q : option (result (SocketAddr * DataPacket) ErrorParse) → list (lock * mode) → Facts → Prop) :
  f_home g !! r = Some addr →
  (∀ res g', grow g g' →
     (∀ a m, res = Some (Ok (a, m)) → related g' r a ∧ encrypted g' a true message m) →
     Q res [(LReceivers r, Read)] g') →
  wp (Worker addr packet) (feedback r message) [(LReceivers r, Read)] g Q.
Proof.
  intros Hr HQ. unfold feedback. apply wp_guarded.
  { apply worker_above; [done|]. apply Forall_singleton. simpl. lia. }
  wp_step. eapply wp_client; [done|]. intros c g1 Hg1 Hc. later Hg1.
  destruct (c_sender_addr c) as [s|] eqn:Hs.
  2: { apply wp_ret. intros g2 Hg2. split; [done|]. intros g3 Hg3.
       apply HQ; [by do 2 (etrans; [done|])|done]. }
  pose proof (ci_sender _ _ _ Hc _ Hs) as Hrel. clear Hc.
  wp_step. apply wp_find; [apply worker_table; set_solver|]. intros o g2 Hg2 Ho. later Hg2.
  assert (grow g g2) as Hg by by etrans.
  destruct o as [rs|].
  2: { apply wp_ret. intros g3 Hg3. split; [done|]. intros g4 Hg4.
       apply HQ; [by do 2 (etrans; [done|])|done]. }
  eapply wp_with_srtp; [by apply Ho|..].
  - apply worker_above; [done|]. repeat constructor; simpl; lia.
  - intros t. destruct (protect_rtcp t message) as [[]] eqn:Hu. by apply (seal_descends true) in Hu.
  - intros g3 Hg3. split; [done|]. intros g4 Hg4. apply HQ; [by do 2 (etrans; [done|])|done].
  - intros t g3 Hg3 Hkey. destruct (protect_rtcp t message) as [[t' m'] res] eqn:Hu. simpl.
    split; [done|]. intros g4 Hg4. apply HQ; [by do 2 (etrans; [done|])|].
    intros a m. destruct res as [[]|e]; [|done]. intros [= <- <-]. specialize (Ho rs eq_refl).
    later Hg3; later Hg4. split; [done|]. by eapply (keyed_encrypted _ _ _ _ true).
Qed.

Lemma set_runtime_inv g r c f rt m :
  runtimes_ok g m → is_u32 f → runtime_ok rt → clock_ok rt (f_time g) → client_inv g r c →
  client_inv g r (set_runtime (<[f := rt]> m) c).
Proof.
  intros Hm Hf Hrt Hclock []. split; simpl; [done..| |done|done].
  intros f' rt' [[<- <-]|[_ H]]%lookup_insert_Some; [done|by apply Hm].
Qed.

Lemma runtimes_grow g g' m : facts_grow g g' → runtimes_ok g m → runtimes_ok g' m.
Proof.
  intros Hg Hm f rt Hf. destruct (Hm f rt Hf) as (? & ? & ?). split; [done|]. split; [done|].
  eapply clock_ok_mono; [done|apply Hg].
Qed.

Lemma wp_renumber_packet rd r addr packet o hd message g :
  f_home g !! r = Some addr → is_u16 (sequence hd) → is_u32 (timestamp hd) →
  (12 ≤ length message)%nat →
  wp (Worker addr packet) (renumber_packet Release rd r addr o hd message) [] g
    (λ res h _, h = [] ∧ ∀ m, res = Ok m → rewritten false message m).
Proof.
  intros Hr Hseq Hts Hlen. unfold renumber_packet. apply wp_guarded; [by apply worker_above|].
  wp_step. eapply wp_client; [done|]. intros c g1 Hg1 Hc. later Hg1.
  destruct o as [[name f]|]; simpl; [|by apply wp_ret].
  destruct (c_runtime c !! f) as [rt|] eqn:Hrt; simpl; [|by apply wp_ret].
  pose proof (ci_runtime _ _ _ Hc) as Hrts. destruct (Hrts f rt Hrt) as (Hf & Hrtok & Hclk).
  wp_step. apply wp_clock. intros g2 g3 rd' Hg2 Hrd Hg3.
  destruct (advance_release rt hd (at_packet rd')) as
    (rt' & cd & d & Hadv & Hrtok' & _ & _ & _ & _ & _ & Hstart & Hprev);
    [done..| |].
  { eapply clock_ok_mono; [exact Hclk|]. rewrite Hrd. apply Hg2. }
  assert (clock_ok rt' (f_time g3)) as Hclk'.
  { eapply (clock_ok_mono _ (at_packet rd')); [unfold clock_ok; rewrite Hstart, Hprev; lia|].
    rewrite Hrd. apply Hg3. }
  later Hg2; later Hg3. apply (runtimes_grow g1 g2), (runtimes_grow g2 g3) in Hrts; [|done..].
  wp_step. eapply wp_lift; [exact Hadv|]. intros g4 Hg4. cbv iota beta. wp_step. apply wp_update; [write_ok|..].
  { intros c' g5 Hg5 Hc'. assert (grow g3 g5) as Hg35 by by etrans.
    apply set_runtime_inv; [by eapply runtimes_grow|done|done| |done].
    eapply clock_ok_mono; [done|apply Hg35]. }
  intros g5 Hg5. later Hg4; later Hg5.
  destruct (replace_Done message (server_sequence rt') (server_ts rt')) as [m' Hm'];
    [lia|apply Hrtok'|apply Hrtok'|].
  wp_step. eapply wp_lift; [exact Hm'|]. intros g6 Hg6. later Hg6. wp_step. apply wp_guarded.
  { apply worker_above; [done|]. apply Forall_singleton. simpl. lia. }
  wp_step. eapply wp_client; [done|]. intros c2 g7 Hg7 Hc2. later Hg7.
  destruct (update_jitter_release f d cd (c_jitter c2) (at_check rd') (at_update rd'))
    as (js' & cmd & Hjs & Hjok); [apply Hc2|].
  wp_step. eapply wp_lift; [exact Hjs|]. intros g8 Hg8. cbv iota beta. wp_step. apply wp_update; [write_ok|..].
  { intros c' g' _ []. by split. }
  intros g9 Hg9.
  assert (∀ g', wp (Worker addr packet) (match cmd with
     | Some CommandIncrease => send (JitterIncrease addr)
     | Some CommandDecrease => send (JitterDecrease addr)
     | None => mret () end) [(LJitterStats r, Write); (LRuntime r, Write)] g'
     (λ _ h _, h = [(LJitterStats r, Write); (LRuntime r, Write)])) as Hsend.
  { intros g'. by destruct cmd as [[]|]; [apply wp_send..|apply wp_ret]. }
  eapply wp_mono; [apply Hsend|]. intros [] h' g10 Hg10 ->. split; [done|]. intros g11 Hg11.
  apply wp_ret. intros g12 Hg12. split; [done|]. intros g13 Hg13. split; [done|].
  intros m [= <-]. by exists (server_sequence rt'), (server_ts rt').
Qed.

Lemma wp_forward s r addr packet o hd plain message g :
  schedule_ok s → f_home g !! r = Some addr → (rtcp_shape packet = true → o = None) →
  authentic g addr packet plain → rewritten (rtcp_shape packet) plain message →
  wp (Worker addr packet) (forward s r addr (rtcp_shape packet) o hd message) [] g
    (λ _ h _, h = []).
Proof.
  intros Hs Hr Ho Hauth Hrew. unfold forward. apply wp_guarded; [by apply worker_above|].
  wp_step. eapply wp_client; [done|]. intros c g1 Hg1 Hc. later Hg1.
  destruct (rtcp_shape packet && _) eqn:Hb.
  - apply andb_prop in Hb as [Hb _].
    wp_step. apply wp_feedback; [done|]. intros res g2 Hg2 Hres. later Hg2.
    destruct res as [[[a m]|e]|]; [|by apply wp_ret..].
    destruct (Hres a m eq_refl) as [Hrel Henc]. clear Hres.
    wp_step. apply wp_send; [|intros; by apply wp_ret]. intros g3 Hg3. later Hg3.
    destruct Hrel as (home & i & Hh & H1 & H2). assert (home = addr) as -> by congruence.
    split; [by exists i|]. exists plain, message. rewrite Hb in *. done.
  - eapply wp_mono; [apply wp_try_for_each|].
    + intros [a r'] g2 Hin Hg2. later Hg2. rewrite (Hs _), elem_of_map_to_list in Hin.
      destruct (ci_receivers _ _ _ Hc _ _ Hin) as [Hr' (home & i & Hh & H1 & H2)].
      assert (home = addr) as -> by congruence.
      eapply wp_serve; [done|done| |by exists i|done|done]. apply Forall_singleton. simpl. lia.
    + intros x h' g2 Hg2 ->. split; [done|]. by intros g3 Hg3.
Qed.

Lemma wp_process rd s r addr packet hd g :
  schedule_ok s → f_home g !! r = Some addr → is_u16 (sequence hd) → is_u32 (timestamp hd) →
  (12 ≤ length packet)%nat →
  wp (Worker addr packet) (process Release rd s r addr (rtcp_shape packet) hd packet) [] g
    (λ _ h _, h = []).
Proof.
  intros Hs Hr Hseq Hts Hlen. unfold process. wp_step. eapply wp_codec_of; [done|].
  intros o g1 Hg1 Ho. later Hg1. unfold tryM at 1. wp_step. eapply wp_decrypt; [done|done|].
  intros res g2 Hg2 Hres. later Hg2. destruct res as [plain|e]; [|by apply wp_ret].
  destruct (Hres plain eq_refl) as [Hauth Hplain]. clear Hres.
  unfold tryM. wp_step.
  eapply (wp_mono _ _ _ _ (λ x h _, h = [] ∧ ∀ m, x = Ok m → rewritten (rtcp_shape packet) plain m)).
  - destruct (rtcp_shape packet); [|apply wp_renumber_packet; auto].
    apply wp_ret. intros g3 Hg3. split; [done|]. by intros m [= ->].
  - intros x h' g3 Hg3 [-> Hx]. later Hg3. destruct x as [m'|e]; [|by apply wp_ret].
    eapply wp_forward; eauto.
Qed.

(** What a worker runs for a packet. *)
Definition rtc_program (rd : Readings) (s : Schedule) (message : DataPacket)
    (addr : SocketAddr) : M () :=
  handle_rtc Release rd s (Rtc message addr);; mret ().

Lemma wp_rtc_program rd s message addr g :
  schedule_ok s → bytes_ok message →
  wp (Worker addr message) (rtc_program rd s message addr) [] g (λ _ h _, h = []).
Proof.
  intros Hs Hb. unfold rtc_program, handle_rtc. wp_step. wp_step. apply wp_find.
  { apply worker_table. set_solver. }
  intros o g1 Hg1 Ho. destruct o as [r|]; [|by apply wp_ret; intros; apply wp_ret].
  specialize (Ho r eq_refl). wp_step. eapply wp_lift; [by apply is_rtcp_shape|].
  intros g2 Hg2. later Hg2.
  destruct (from_buf_total message Hb) as (res & Hf & _).
  wp_step. eapply wp_lift; [exact Hf|]. intros g3 Hg3. later Hg3. wp_step.
  eapply (wp_mono _ _ _ _ (λ _ h _, h = [])).
  - unfold tryM. wp_step. apply wp_ret. intros g4 Hg4. later Hg4.
    destruct res as [hd|e]; [|by apply wp_ret].
    destruct (from_buf_Ok message hd Hb Hf) as (Hshape & _ & Hseq & Hts).
    apply rtp_shape_length in Hshape. apply wp_process; eauto with lia.
  - intros x h' g4 Hg4 ->. apply wp_ret. intros g5 Hg5. by apply wp_ret.
Qed.

(** [*client_ref.get_srtp().lock() = Some(srtp_transport)], on the event loop. *)
Definition store_srtp (r : ClientRef) (t : SrtpTransport) : M () :=
  guarded (LSrtp r) Write (update r (set_srtp (Some t))).

Lemma wp_store_srtp r t g :
  f_ready g r t → wp (MainThread false) (store_srtp r t) [] g (λ _ h _, h = []).
Proof.
  intros Hr. apply wp_guarded; [split; [set_solver|]; left; set_solver|].
  apply wp_update; [write_ok| |].
  { intros c g' Hg []. later Hg. split; simpl; [done..|]. intros t1 [= <-]. exists t. split; [done|apply rtc_refl]. }
  intros g1 _. split; [done|]. by intros g2 _.
Qed.
End rtc_actor.

(** ** The clock in the handlers *)

Section timed.
Context {P : Platform}.

Lemma timed_perform {B} rd (op : Op B) : clock_op rd op = op → timed rd (perform op).
Proof. Transparent perform. by split. Qed.
#[local] Opaque perform.

Lemma timed_lift {A} rd (o : outcome A) : timed rd (lift o).
Proof. destruct o; [done|by split; [|intros []]..]. Qed.

Lemma timed_guarded {A} rd l m (body : M A) : timed rd body → timed rd (guarded l m body).
Proof.
  intros Hb. apply timed_bind; [by apply timed_perform|]. intros [].
  apply timed_bind; [done|]. intros a. apply timed_bind; [by apply timed_perform|done].
Qed.

Lemma timed_for_each {A} rd (l : list A) f :
  (∀ a, timed rd (f a)) → timed rd (for_each l f).
Proof. intros Hf. induction l as [|a l IH]; simpl; [done|]. by apply timed_bind. Qed.

Lemma timed_filter_live rd l : timed rd (filter_live l).
Proof.
  induction l as [|[a r] l IH]; cbn [filter_live]; [done|].
  apply timed_bind; [by apply timed_perform|]. intros c. by apply timed_bind.
Qed.

Lemma timed_try_for_each {A} rd late (f : A → M (result unit ErrorParse)) l res :
  (∀ a, timed rd (f a)) → timed rd (try_for_each late f l res).
Proof.
  intros Hf. revert res. induction l as [|a l IH]; intros res; cbn [try_for_each]; [done|].
  destruct res; [by apply timed_bind|]. destruct (late a); [by apply timed_bind|done].
Qed.

(** Takes a program apart. *)
Local Ltac timed_step :=
  lazymatch goal with
  | |- timed _ (_ ≫= _) => apply timed_bind; [|intros]
  | |- timed _ (guarded _ _ _) => apply timed_guarded
  | |- timed _ (lift _) => apply timed_lift
  | |- timed _ (mret _) => exact I
  | |- timed _ (filter_live _) => apply timed_filter_live
  | |- timed _ (try_for_each _ _ _ _) => apply timed_try_for_each; intros
  | |- timed _ (for_each _ _) => apply timed_for_each; intros
  | |- timed _ (match ?x with _ => _ end) => destruct x
  | |- _ => by apply timed_perform
  end.

Lemma client_step_timed rd m : timed rd (client_step m).
Proof.
  unfold client_step, handle_webrtc, handle_dtls, entry_or_default_client, handle_dtls_message,
    handle_delete, handle_group_id, redirect_receivers, handle_media_addr.
  repeat timed_step.
Qed.

Lemma rtc_program_timed rd s message addr : timed rd (rtc_program rd s message addr).
Proof.
  unfold rtc_program, handle_rtc, process, codec_of, decrypt, renumber_packet, forward, feedback,
    serve, encrypt_for, adapt_payload, with_srtp, tryM.
  repeat timed_step.
Qed.
End timed.
