(* ===== verification/Concurrent.v ===== *)
(** * The server with its threads

    The composition of [Server] with the threads the program has. The event loop runs
    the receiving actor, the client actor and the DTLS tasks, one at a time; the RTC
    actor runs on [cpus] workers (src/src/client/rtc_actor.rs:24-35). A handler of the
    client actor, the publication of an SRTP transport and the handling of a packet are
    threads of a pool, whose operations interleave; the event loop takes its next event
    when its thread is finished. The DTLS tasks and the streams of outgoing records are
    those the client actor has started. The other steps of the event loop touch state that
    only the event loop uses, and are atomic. *)

From S2P Require Import Prelude Net Srtp ByteOrder RtpCore StunParse Demux Jitter.
From S2P Require Import Media Stream Group Clients Store Threads Rely Runtime.
From S2P Require Import Sample ClientActor RtcActor Udp DtlsTask Server Interleaved.
Local Open Scope Z_scope.

Section concurrent.
Context {P : Platform} {D : DtlsLib P}.

(** A DTLS task: the client and the address it was started for, what is left of it, and
    the transport it has published. *)
Record Progress := {
  pg_client : ClientRef;
  pg_addr : SocketAddr;
  pg_phase : Phase;
  pg_srtp : option SrtpTransport;
}.

(** [ts_tasks] has the tasks that have taken a step; [ts_records] is the history of the
    DTLS records that were taken out of the outgoing stream of a client, with the
    address the stream was opened for. *)
Record TServer := {
  ts_udp : UdpRecv;
  ts_pool : Pool;
  ts_mail : list ClientMsg;
  ts_log : list UdpMsg;
  ts_tasks : gmap nat Progress;
  ts_records : list (ClientRef * DtlsMessage);
}.

(** [create_udp] *)
Definition tserver_init : TServer :=
  {| ts_udp := udp_recv_new;
     ts_pool := {| p_world := world_init; p_clock := 0; p_threads := [] |};
     ts_mail := []; ts_log := []; ts_tasks := ∅; ts_records := [] |}.

Definition with_pool (ts : TServer) (p : Pool) : TServer :=
  {| ts_udp := ts_udp ts; ts_pool := p; ts_mail := ts_mail ts; ts_log := ts_log ts;
     ts_tasks := ts_tasks ts; ts_records := ts_records ts |}.

Definition spawn (ρ : Role) (m : M ()) (p : Pool) : Pool :=
  {| p_world := p_world p; p_clock := p_clock p;
     p_threads := p_threads p ++ [{| th_role := ρ; th_held := []; th_prog := m |}] |}.

(** No handler of the event loop is running. *)
Definition idle (ts : list Thread) : bool :=
  forallb (λ th, negb (is_main th) || finished (th_prog th)) ts.

(** The workers that are handling a packet. *)
Definition busy (ts : list Thread) : nat :=
  length (filter (λ th, negb (is_main th) && negb (finished (th_prog th)) = true) ts).

(** What the event loop takes up: a message of the receiving actor, the stream of
    outgoing DTLS records of a client, a message in the mailbox of the client actor,
    the next step of a task. *)
Inductive LoopEvent :=
| LUdp (draw : Z → Z * Z * Instant) (now : Instant) (m : UdpMsg)
| LStream (r : ClientRef) (addr : SocketAddr)
| LClient (i : nat)
| LTask (i : nat) (acceptor : SslAcceptor) (peer : Peer).

(** The client actor has added the stream of the client (src/src/client/actor.rs:67). *)
Definition streaming (r : ClientRef) (addr : SocketAddr) (w : World) : bool :=
  existsb (λ e, match e with
                | AddOutgoingStream r' a => bool_decide (r' = r) && bool_decide (a = addr)
                | _ => false
                end) (w_sent w).

Definition stream_mail (next : Poll (option DtlsMessage)) : list ClientMsg :=
  match next with Ready (Some item) => [MsgDtls item] | _ => [] end.

Definition stream_records (r : ClientRef) (next : Poll (option DtlsMessage)) :
    list (ClientRef * DtlsMessage) :=
  match next with Ready (Some item) => [(r, item)] | _ => [] end.

(** A change of the session of one client. *)
Definition put_client (r : ClientRef) (c : Client) (p : Pool) : Pool :=
  {| p_world := with_clients (p_world p) (alter (const c) r (w_clients (p_world p)));
     p_clock := p_clock p; p_threads := p_threads p |}.

(** The tasks that were started, in order, and how far each has come. *)
Definition spawned (w : World) : list (ClientRef * DataPacket * SocketAddr) :=
  omap (λ e, match e with SpawnDtlsTask r m a => Some (r, m, a) | _ => None end) (w_sent w).

Definition progress (ts : TServer) (i : nat) : option Progress :=
  match ts_tasks ts !! i with
  | Some pg => Some pg
  | None =>
      '(r, m, a) ← spawned (p_world (ts_pool ts)) !! i;
      Some {| pg_client := r; pg_addr := a; pg_phase := PPush m; pg_srtp := None |}
  end.

Definition went_on (pg : Progress) (ph : Phase) : Progress :=
  {| pg_client := pg_client pg; pg_addr := pg_addr pg; pg_phase := ph; pg_srtp := pg_srtp pg |}.

Definition published (pg : Progress) (t : SrtpTransport) : Progress :=
  {| pg_client := pg_client pg; pg_addr := pg_addr pg; pg_phase := PDone; pg_srtp := Some t |}.

Definition loop_step (e : LoopEvent) (ts : TServer) : TServer :=
  match e with
  | LUdp draw now m =>
      let '(st, out) := udp_step (ts_udp ts) m in
      {| ts_udp := st; ts_pool := ts_pool ts;
         ts_mail := ts_mail ts ++ (out ≫= route draw now); ts_log := ts_log ts ++ [m];
         ts_tasks := ts_tasks ts; ts_records := ts_records ts |}
  | LStream r addr =>
      let p := ts_pool ts in
      match w_clients (p_world p) !! r with
      | None => ts
      | Some c =>
          if streaming r addr (p_world p) then
            let '(next, ch) := outgoing_next (c_channels c) addr in
            {| ts_udp := ts_udp ts; ts_pool := put_client r (set_state (c_state c) ch c) p;
               ts_mail := ts_mail ts ++ stream_mail next; ts_log := ts_log ts;
               ts_tasks := ts_tasks ts; ts_records := ts_records ts ++ stream_records r next |}
          else ts
      end
  | LClient i =>
      match ts_mail ts !! i with
      | None => ts
      | Some m =>
          {| ts_udp := ts_udp ts;
             ts_pool := spawn (MainThread (takes m)) (client_step m) (ts_pool ts);
             ts_mail := delete i (ts_mail ts); ts_log := ts_log ts; ts_tasks := ts_tasks ts;
             ts_records := ts_records ts |}
      end
  | LTask i acceptor peer =>
      let p := ts_pool ts in
      match progress ts i with
      | None => ts
      | Some pg =>
          match pg_phase pg with
          | PStore t =>
              {| ts_udp := ts_udp ts;
                 ts_pool := spawn (MainThread false) (store_srtp (pg_client pg) t) p;
                 ts_mail := ts_mail ts; ts_log := ts_log ts;
                 ts_tasks := <[i := published pg t]> (ts_tasks ts);
                 ts_records := ts_records ts |}
          | ph =>
              match w_clients (p_world p) !! pg_client pg with
              | None => ts
              | Some c =>
                  let '(c', ph', evs) := run_phase acceptor peer ph c in
                  {| ts_udp := ts_udp ts; ts_pool := put_client (pg_client pg) c' p;
                     ts_mail := ts_mail ts ++ (evs ≫= task_mail (pg_addr pg));
                     ts_log := ts_log ts;
                     ts_tasks := <[i := went_on pg ph']> (ts_tasks ts);
                     ts_records := ts_records ts |}
              end
          end
      end
  end.

Inductive TEvent :=
| TLoop (e : LoopEvent)
| TRtc (rd : Readings) (s : Schedule) (message : DataPacket) (addr : SocketAddr)
| TStep (i : nat) (rd : Readings).

(** An event that is not possible now is [Stuck]: the event loop is in a handler, all
    workers are busy, a lock is taken. *)
Definition tserver_step (cpus : nat) (ev : TEvent) (ts : TServer) :
    outcome TServer :=
  match ev with
  | TLoop e => if idle (p_threads (ts_pool ts)) then Done (loop_step e ts) else Stuck
  | TRtc rd s message addr =>
      if decide (busy (p_threads (ts_pool ts)) < cpus)%nat then
        Done (with_pool ts 
          (spawn (Worker addr message) (rtc_program rd s message addr) (ts_pool ts)))
      else Stuck
  | TStep i rd => p ← pool_step i rd (ts_pool ts); Done (with_pool ts p)
  end.

(** What the types guarantee of an event. *)
Definition tevent_ok (ev : TEvent) : Prop :=
  match ev with
  | TLoop (LUdp draw _ m) =>
      (∀ f, is_u32 (draw f).1.1 ∧ is_u16 (draw f).1.2) ∧
      match m with MsgMediaUser _ media => frequencies_ok media | _ => True end
  | TRtc rd s message addr => schedule_ok s ∧ bytes_ok message
  | _ => True
  end.

Definition tserver_next (cpus : nat) (ts ts' : TServer) : Prop :=
  ∃ ev, tevent_ok ev ∧ tserver_step cpus ev ts = Done ts'.

Definition treachable (cpus : nat) (ts : TServer) : Prop :=
  rtc (tserver_next cpus) tserver_init ts.
End concurrent.

(** ** The invariant *)

Section invariant.
Context {P : Platform} {PL : PlatformLaws P} {D : DtlsLib P}.

(** The stream of a client has brought the record for the address. *)
Definition recorded (records : list (ClientRef * DtlsMessage)) (a : SocketAddr)
    (d : DataPacket) : Prop :=
  ∃ r item, (r, item) ∈ records ∧ dtls_addr item = a ∧ dtls_packet item = d.

(** A record on its way to [UdpSend] comes from a stream; the address of a datagram on
    its way to a client sent a DTLS datagram. *)
Definition mail_heard (log : list UdpMsg) (records : list (ClientRef * DtlsMessage))
    (m : ClientMsg) : Prop :=
  match m with
  | MsgDtls item => recorded records (dtls_addr item) (dtls_packet item)
  | MsgWebRtc _ (Dtls _ a) => heard log a
  | _ => True
  end.

Definition stream_heard (log : list UdpMsg) (e : Effect) : Prop :=
  match e with
  | AddOutgoingStream _ a | SpawnDtlsTask _ _ a => heard log a
  | _ => True
  end.

(** The streams and the tasks of a client are those of its address. *)
Definition effect_home (g : Facts) (e : Effect) : Prop :=
  match e with
  | AddOutgoingStream r a | SpawnDtlsTask r _ a => f_home g !! r = Some a
  | _ => True
  end.

(** A task of the client has published the transport. *)
Definition publishes (tasks : gmap nat Progress) (r : ClientRef) (t : SrtpTransport) : Prop :=
  ∃ i pg, tasks !! i = Some pg ∧ pg_client pg = r ∧ pg_srtp pg = Some t.

Definition server_facts (log : list UdpMsg) (tasks : gmap nat Progress)
    (records : list (ClientRef * DtlsMessage)) :
    (Z → SocketAddr → Prop) * (SocketAddr → Prop) * (ClientRef → SrtpTransport → Prop) *
      (SocketAddr → DataPacket → Prop) :=
  (joined log, heard log, publishes tasks, recorded records).

(** The transport the task has made. *)
Definition made (pg : Progress) (t : SrtpTransport) : Prop :=
  pg_phase pg = PStore t ∨ pg_srtp pg = Some t.

(** A task was started by the client actor; a transport is made with the keys of a
    finished handshake, of a client that was new, and by one task of the client only. *)
Record tasks_ok (tasks : gmap nat Progress) (w : World) : Prop := {
  tk_spawned i pg : tasks !! i = Some pg →
    ∃ m, spawned w !! i = Some (pg_client pg, m, pg_addr pg);
  tk_keys i pg t : tasks !! i = Some pg → made pg t → ∃ ssl, transport_new ssl = Ok t;
  tk_done i pg t : tasks !! i = Some pg → pg_srtp pg = Some t → pg_phase pg = PDone;
  tk_connected i pg t : tasks !! i = Some pg → made pg t →
    ∃ c, w_clients w !! pg_client pg = Some c ∧ c_state c ≠ New;
  tk_once i j pg pg' t t' : tasks !! i = Some pg → tasks !! j = Some pg' →
    pg_client pg = pg_client pg' → made pg t → made pg' t' → i = j;
}.

Record tserver_ok (ts : TServer) : Prop := {
  to_udp : ts_udp ts = (udp_run udp_recv_new (ts_log ts)).1;
  to_pool : ∃ g, given g = server_facts (ts_log ts) (ts_tasks ts) (ts_records ts) ∧
    pool_ok g (ts_pool ts) ∧ Forall (effect_home g) (w_sent (p_world (ts_pool ts)));
  to_main : one_main (p_threads (ts_pool ts));
  to_exclusive : exclusive (p_threads (ts_pool ts));
  to_media u media : media_sessions (ts_udp ts) !! u = Some media → frequencies_ok media;
  to_mail : Forall (mail_ok (ts_log ts)) (ts_mail ts);
  to_heard : Forall (mail_heard (ts_log ts) (ts_records ts)) (ts_mail ts);
  to_streams : Forall (stream_heard (ts_log ts)) (w_sent (p_world (ts_pool ts)));
  to_tasks : tasks_ok (ts_tasks ts) (p_world (ts_pool ts));
  to_records r item : (r, item) ∈ ts_records ts →
    AddOutgoingStream r (dtls_addr item) ∈ w_sent (p_world (ts_pool ts));
}.

Lemma spawn_pool_ok g ρ m p :
  wp ρ m [] g (λ _ h _, h = []) → pool_ok g p → pool_ok g (spawn ρ m p).
Proof. intros Hm []. split; simpl; [done..|]. apply Forall_app. by repeat constructor. Qed.

Lemma spawn_exclusive ρ m p : exclusive (p_threads p) → exclusive (p_threads (spawn ρ m p)).
Proof.
  intros Hex i j th th' l Hne. simpl. rewrite !lookup_app_Some.
  intros [Hi|[_ Hi]] [Hj|[_ Hj]]; [by eapply (Hex i j)|..];
    rewrite list_lookup_singleton_Some in *; naive_solver set_solver.
Qed.

Lemma idle_main ts i th :
  idle ts = true → ts !! i = Some th → is_main th = true → finished (th_prog th) = true.
Proof.
  unfold idle. rewrite forallb_forall. intros Hidle Hi Hm.
  specialize (Hidle th (proj1 (list_elem_of_In _ _) (list_elem_of_lookup_2 _ _ _ Hi))).
  by rewrite Hm in Hidle.
Qed.

(** A new thread keeps the event loop single when it is a worker, or the loop is idle. *)
Lemma spawn_one_main ρ m p :
  one_main (p_threads p) →
  (match ρ with MainThread _ => idle (p_threads p) = true | Worker _ _ => True end) →
  one_main (p_threads (spawn ρ m p)).
Proof.
  intros Hmain Hidle i j th th'. simpl. rewrite !lookup_app_Some, !list_lookup_singleton_Some.
  intros [Hi|(Hi & Hi0 & <-)] [Hj|(Hj & Hj0 & <-)] Hm Hm' Hf Hf';
    [by apply (Hmain i j th th')| | |lia]; destruct ρ; try done; exfalso.
  - by rewrite (idle_main _ i th Hidle Hi Hm) in Hf.
  - by rewrite (idle_main _ j th' Hidle Hj Hm') in Hf'.
Qed.

Lemma step_one_main i rd p p' :
  pool_step i rd p = Done p' → one_main (p_threads p) → one_main (p_threads p').
Proof.
  intros (th & th1 & w1 & Hi & _ & _ & Hs & ->)%pool_step_inv Hmain j k tj tk. simpl.
  destruct (thread_step_rest _ _ _ _ _ Hs) as [Hrest Hrole].
  assert (is_main th1 = is_main th) as Hm by (unfold is_main; by rewrite Hrole).
  assert (finished (th_prog th) = false) as Hf by by destruct (th_prog th).
  rewrite !list_lookup_insert_Some.
  intros [(-> & <- & _)|[? Hj]] [(-> & <- & _)|[? Hk]] Hmj Hmk Hfj Hfk; [done|..].
  - apply (Hmain _ _ th tk); congruence.
  - apply (Hmain _ _ tj th); congruence.
  - by apply (Hmain _ _ tj tk).
Qed.

Lemma effect_home_grow g g' e : facts_grow g g' → effect_home g e → effect_home g' e.
Proof. intros Hg. destruct e; simpl; try done; by apply home_grow. Qed.

(** More messages, more reports: more is known. *)
Lemma pool_ok_more g log tasks records log' tasks' records' p :
  given g = server_facts log tasks records → pool_ok g p →
  Forall (effect_home g) (w_sent (p_world p)) →
  (∀ i a, joined log i a → joined log' i a) → (∀ a, heard log a → heard log' a) →
  (∀ r t, publishes tasks r t → publishes tasks' r t) →
  (∀ a d, recorded records a d → recorded records' a d) →
  ∃ g', given g' = server_facts log' tasks' records' ∧ pool_ok g' p ∧
    Forall (effect_home g') (w_sent (p_world p)).
Proof.
  intros [= Hj Hh Hr Hd] [Hclock Hw Hths] Hhome Hj' Hh' Hr' Hd'.
  set (g' := {| f_home := f_home g; f_join := joined log'; f_heard := heard log';
                f_ready := publishes tasks'; f_record := recorded records'; f_time := f_time g |}).
  assert (facts_grow g g') as Hg by (split; simpl; rewrite ?Hj, ?Hh, ?Hr, ?Hd; auto; done).
  exists g'. split; [done|]. split; [split|].
  - done.
  - by eapply shared_inv_grow.
  - eapply Forall_impl; [exact Hths|]. intros th. by apply thread_ok_le.
  - eapply Forall_impl; [exact Hhome|]. intros e. by apply effect_home_grow.
Qed.

Lemma recorded_app records more a d : recorded records a d → recorded (records ++ more) a d.
Proof.
  intros (r & item & Hin & Ha & Hd). exists r, item. split; [|done]. apply elem_of_app. by left.
Qed.

Lemma pool_ok_log g log tasks records m p :
  given g = server_facts log tasks records → pool_ok g p →
  Forall (effect_home g) (w_sent (p_world p)) →
  ∃ g', given g' = server_facts (log ++ [m]) tasks records ∧ pool_ok g' p ∧
    Forall (effect_home g') (w_sent (p_world p)).
Proof.
  intros Hg Hp Hh. eapply pool_ok_more; [done..| | |done|done];
    [intros i a; apply joined_snoc|intros a; apply heard_snoc].
Qed.

Lemma mail_heard_snoc log records m x :
  mail_heard log records x → mail_heard (log ++ [m]) records x.
Proof. destruct x as [now [] |item| | |]; simpl; try done; apply heard_snoc. Qed.

Lemma mail_heard_records log records more x :
  mail_heard log records x → mail_heard log (records ++ more) x.
Proof. destruct x as [now [] |item| | |]; simpl; try done; apply recorded_app. Qed.

Lemma stream_heard_snoc log m e : stream_heard log e → stream_heard (log ++ [m]) e.
Proof. destruct e; simpl; try done; apply heard_snoc. Qed.

(** What the receiving actor passes on comes from the message it took. *)
Lemma routed_heard log records draw now m st :
  Forall (mail_heard (log ++ [m]) records) ((udp_step st m).2 ≫= route draw now).
Proof.
  destruct m as [[req addr|message addr| |]|now'|s item|u media]; simpl; try by repeat constructor.
  - destruct (sessions st !! _) as [item|]; [|constructor]. simpl.
    destruct (media_sessions st !! _); simpl; by repeat constructor.
  - apply Forall_singleton. exists message. apply elem_of_app. right. apply list_elem_of_here.
Qed.

(** A change of a client's session keeps what the others rely on. *)
Definition same_store (c c' : Client) : Prop :=
  c_media c' = c_media c ∧ c_runtime c' = c_runtime c ∧ c_jitter c' = c_jitter c ∧
  c_receivers c' = c_receivers c ∧ c_sender_addr c' = c_sender_addr c ∧
  c_deleted c' = c_deleted c.

Lemma put_client_pool_ok g r c c' p :
  pool_ok g p → w_clients (p_world p) !! r = Some c → same_store c c' → c_srtp c' = c_srtp c →
  pool_ok g (put_client r c' p).
Proof.
  intros [Hclock [Hheap Hci Ht Hgr] Hths] Hc (Hm & Hrt & Hj & Hr & Hs & Hd) Hsrtp.
  split; simpl; [done| |done]. split; simpl; [| |done|done].
  - intros r'. rewrite lookup_alter_is_Some. apply Hheap.
  - intros r' c1 [(<- & c2 & Hc2 & ->)|[_ Hc1]]%lookup_alter_Some; [|by apply Hci].
    simplify_eq. destruct (Hci _ _ Hc). by split; simpl; rewrite ?Hr, ?Hs, ?Hrt, ?Hj, ?Hsrtp.
Qed.

(** What a thread records in a step. *)
Lemma thread_step_sent rd th w th' w' :
  thread_step rd th w = Done (th', w') →
  w_sent w' = w_sent w ∨
  ∃ e k, th_prog th = Perform (OSend e) k ∧ w_sent w' = w_sent w ++ [e].
Proof.
  unfold thread_step. destruct (th_prog th) as [a|B op k]; [done|]. intros Hs.
  destruct op; cbn -[can_read can_write] in Hs; repeat case_match; simplify_eq/=; try by left.
  right. by eexists _, _.
Qed.

Lemma step_sent_allowed g i rd p p' :
  pool_ok g p → pool_step i rd p = Done p' →
  w_sent (p_world p') = w_sent (p_world p) ∨
  ∃ ρ e, allowed g ρ e ∧ w_sent (p_world p') = w_sent (p_world p) ++ [e].
Proof.
  intros [_ Hw Hths] (th & th' & w' & Hi & _ & _ & Hs & ->)%pool_step_inv. simpl.
  destruct (thread_step_sent _ _ _ _ _ Hs) as [->|(e & k & Hp & ->)]; [by left|right].
  exists (th_role th), e. split; [|done].
  exact (thread_ok_sends g _ th e k Hw (Forall_lookup_1 _ _ _ _ Hths Hi) Hp).
Qed.

Lemma step_streams g log tasks records i rd p p' :
  given g = server_facts log tasks records → pool_ok g p → pool_step i rd p = Done p' →
  Forall (stream_heard log) (w_sent (p_world p)) → Forall (stream_heard log) (w_sent (p_world p')).
Proof.
  intros [= _ Hh _ _] Hp Hs Hsent.
  destruct (step_sent_allowed _ _ _ _ _ Hp Hs) as [->|(ρ & e & He & ->)]; [done|].
  apply Forall_app. split; [done|]. apply Forall_singleton.
  destruct ρ, e; try done; simpl; rewrite <- Hh; apply He.
Qed.

Lemma step_home g i rd p p' :
  pool_ok g p → pool_step i rd p = Done p' →
  Forall (effect_home g) (w_sent (p_world p)) → Forall (effect_home g) (w_sent (p_world p')).
Proof.
  intros Hp Hs Hsent.
  destruct (step_sent_allowed _ _ _ _ _ Hp Hs) as [->|(ρ & e & He & ->)]; [done|].
  apply Forall_app. split; [done|]. apply Forall_singleton. destruct ρ, e; try done; apply He.
Qed.

(** Tasks are only added, and sessions only advance. *)
Definition ahead (w w' : World) : Prop :=
  w_sent w `prefix_of` w_sent w' ∧
  ∀ r c, w_clients w !! r = Some c →
    ∃ c', w_clients w' !! r = Some c' ∧ (rank (c_state c) ≤ rank (c_state c'))%nat.

Lemma step_ahead g i rd p p' :
  pool_ok g p → pool_step i rd p = Done p' → ahead (p_world p) (p_world p').
Proof.
  intros Hp Hs. split.
  - destruct (step_sent_allowed _ _ _ _ _ Hp Hs) as [->|(ρ & e & _ & ->)]; [done|].
    by apply prefix_app_r.
  - destruct Hp as [_ Hw Hths]. apply pool_step_inv in Hs as (th & th' & w' & Hi & _ & _ & Hs & ->).
    intros r c Hc. destruct (thread_step_session g rd th _ th' w' r
      (Forall_lookup_1 _ _ _ _ Hths Hi) Hw Hs c Hc) as (c' & Hc' & He).
    exists c'. split; [done|]. by rewrite He.
Qed.

Lemma put_client_ahead r c c' p :
  w_clients (p_world p) !! r = Some c → (rank (c_state c) ≤ rank (c_state c'))%nat →
  ahead (p_world p) (p_world (put_client r c' p)).
Proof.
  intros Hc Hr. split; [done|]. intros r' c1 Hc1. simpl. destruct (decide (r = r')) as [<-|].
  - rewrite lookup_alter_eq, Hc1. exists c'. by simplify_eq.
  - rewrite lookup_alter_ne by done. by exists c1.
Qed.

Lemma spawned_ahead w w' i x : ahead w w' → spawned w !! i = Some x → spawned w' !! i = Some x.
Proof.
  intros [[l Hl] _] Hx. unfold spawned. rewrite Hl, omap_app. by apply lookup_app_l_Some.
Qed.

Lemma not_new c c' : c_state c ≠ New → (rank (c_state c) ≤ rank (c_state c'))%nat → c_state c' ≠ New.
Proof. intros Hn Hr He. rewrite He in Hr. destruct (c_state c); simpl in Hr; [done|lia..]. Qed.

Lemma tasks_ok_ahead tasks w w' : tasks_ok tasks w → ahead w w' → tasks_ok tasks w'.
Proof.
  intros [Hsp Hk Hd Hc Hone] Ha. split; [|done|done| |done].
  - intros i pg [m Hm]%Hsp. exists m. by eapply spawned_ahead.
  - intros i pg t Hi (c & Hr & Hn)%(Hc i pg t); [|done]. destruct Ha as [_ Ha].
    destruct (Ha _ _ Hr) as (c' & Hc' & Hrank). exists c'. split; [done|]. by eapply not_new.
Qed.

(** A step of a task makes the transport of a new client, or the task made it before. *)
Lemma tasks_ok_step tasks w w' i pg :
  tasks_ok tasks w → ahead w w' →
  (∃ m, spawned w !! i = Some (pg_client pg, m, pg_addr pg)) →
  (∀ t, pg_srtp pg = Some t → pg_phase pg = PDone) →
  (∀ t, made pg t →
     (∃ pg0, tasks !! i = Some pg0 ∧ pg_client pg0 = pg_client pg ∧ made pg0 t) ∨
     (∃ c c' ssl, transport_new ssl = Ok t ∧
        w_clients w !! pg_client pg = Some c ∧ c_state c = New ∧
        w_clients w' !! pg_client pg = Some c' ∧ c_state c' ≠ New)) →
  tasks_ok (<[i := pg]> tasks) w'.
Proof.
  intros Hok Ha [m Hm] Hdone Hmade. pose proof (tasks_ok_ahead _ _ _ Hok Ha) as [Hsp Hk Hd Hc _].
  destruct Hok as [_ _ _ Hc0 Hone].
  assert (∀ j pg' t t', i ≠ j → tasks !! j = Some pg' → pg_client pg' = pg_client pg →
            made pg t → made pg' t' → False) as Hother.
  { intros j pg' t t' Hij Hj Hcl Hpg Hpg'.
    destruct (Hmade t Hpg) as [(pg0 & Hi & Hcl0 & Hpg0)|(c & c' & ssl & _ & Hr & Hn & _)].
    - apply Hij, (Hone i j pg0 pg' t t'); congruence.
    - destruct (Hc0 j pg' t' Hj Hpg') as (c1 & Hc1 & Hn1). congruence. }
  split.
  - intros j pg' [(<- & <-)|[_ Hj]]%lookup_insert_Some; [|by apply Hsp].
    exists m. by eapply spawned_ahead.
  - intros j pg' t [(<- & <-)|[_ Hj]]%lookup_insert_Some Hpg'; [|by eapply Hk].
    destruct (Hmade t Hpg') as [(pg0 & Hi & _ & Hpg0)|(c & c' & ssl & Hssl & _)];
      [by eapply Hk|by exists ssl].
  - intros j pg' t [(<- & <-)|[_ Hj]]%lookup_insert_Some; [apply Hdone|by eapply Hd].
  - intros j pg' t [(<- & <-)|[_ Hj]]%lookup_insert_Some Hpg'; [|by eapply Hc].
    destruct (Hmade t Hpg') as [(pg0 & Hi & <- & Hpg0)|(c & c' & ssl & _ & _ & _ & Hr & Hn)];
      [by eapply Hc|by exists c'].
  - intros j k pj pk t t' [(<- & <-)|[Hne Hj]]%lookup_insert_Some
      [(<- & <-)|[Hnk Hk']]%lookup_insert_Some Hcl Hpj Hpk.
    + done.
    + by destruct (Hother k pk t t').
    + by destruct (Hother j pj t' t).
    + by apply (Hone j k pj pk t t').
Qed.

Lemma progress_ok ts i pg :
  tasks_ok (ts_tasks ts) (p_world (ts_pool ts)) → progress ts i = Some pg →
  (∃ m, spawned (p_world (ts_pool ts)) !! i = Some (pg_client pg, m, pg_addr pg)) ∧
  (∀ t, made pg t → ts_tasks ts !! i = Some pg).
Proof.
  intros Hok. unfold progress. destruct (ts_tasks ts !! i) as [pg0|] eqn:Hi.
  - intros [= ->]. split; [by eapply tk_spawned|done].
  - destruct (spawned _ !! i) as [[[r m] a]|]; [|done]. intros [= <-]. simpl.
    split; [by exists m|]. by intros t [?|?].
Qed.

(** A task keeps what it has published. *)
Lemma publishes_step ts i pg pg' r t :
  progress ts i = Some pg → pg_client pg' = pg_client pg → pg_srtp pg = None ∨ pg_srtp pg' = pg_srtp pg →
  publishes (ts_tasks ts) r t → publishes (<[i := pg']> (ts_tasks ts)) r t.
Proof.
  intros Hi Hcl Hs (j & pg0 & Hj & <- & Ht). destruct (decide (j = i)) as [->|].
  - unfold progress in Hi. rewrite Hj in Hi. injection Hi as ->. exists i, pg'.
    rewrite lookup_insert_eq. destruct Hs as [?| ->]; [congruence|done].
  - exists j, pg0. by rewrite lookup_insert_ne.
Qed.

Lemma streaming_sent r addr w : streaming r addr w = true → AddOutgoingStream r addr ∈ w_sent w.
Proof.
  intros (e & Hin%list_elem_of_In & He)%existsb_exists. destruct e; try done.
  by apply andb_prop in He as [->%bool_decide_eq_true ->%bool_decide_eq_true].
Qed.

Lemma outgoing_next_addr c addr item ch :
  outgoing_next c addr = (Ready (Some item), ch) → dtls_addr item = addr.
Proof. unfold outgoing_next. repeat case_match; intros [= <- _]; done. Qed.

(** A task or a stream changes the session of one client and adds mail. *)
Lemma session_step_ok ts r c c' mail tasks more :
  tserver_ok ts → w_clients (p_world (ts_pool ts)) !! r = Some c → same_store c c' →
  c_srtp c' = c_srtp c →
  Forall (mail_ok (ts_log ts)) mail →
  Forall (mail_heard (ts_log ts) (ts_records ts ++ more)) mail →
  (∀ r' t, publishes (ts_tasks ts) r' t → publishes tasks r' t) →
  tasks_ok tasks (p_world (put_client r c' (ts_pool ts))) →
  (∀ r' item, (r', item) ∈ more →
     AddOutgoingStream r' (dtls_addr item) ∈ w_sent (p_world (ts_pool ts))) →
  tserver_ok {| ts_udp := ts_udp ts; ts_pool := put_client r c' (ts_pool ts);
                ts_mail := ts_mail ts ++ mail; ts_log := ts_log ts; ts_tasks := tasks;
                ts_records := ts_records ts ++ more |}.
Proof.
  intros [Hudp (g & Hg & Hp & Hhome) Hmain Hex Hmedia Hmail Hheard Hstr _ Hrec]
    Hc Hsame Hsrtp Hm Hh Hpub Ht Hmore.
  split; simpl; try done.
  - destruct (pool_ok_more g _ _ _ (ts_log ts) tasks (ts_records ts ++ more) _ Hg Hp Hhome)
      as (g' & Hg' & Hp' & Hhome'); [done..|by intros a d; apply recorded_app|].
    exists g'. split; [done|]. split; [by eapply put_client_pool_ok|done].
  - by apply Forall_app.
  - apply Forall_app. split; [|done]. eapply Forall_impl; [exact Hheard|].
    intros x. apply mail_heard_records.
  - intros r' item [Hin|Hin]%elem_of_app; [by apply Hrec|by apply Hmore].
Qed.

(** A step of a task. *)
Lemma dtls_step_ok ts i pg acceptor peer c c' ph evs :
  tserver_ok ts → progress ts i = Some pg → is_store (pg_phase pg) = false →
  w_clients (p_world (ts_pool ts)) !! pg_client pg = Some c →
  run_phase acceptor peer (pg_phase pg) c = (c', ph, evs) →
  tserver_ok {| ts_udp := ts_udp ts; ts_pool := put_client (pg_client pg) c' (ts_pool ts);
    ts_mail := ts_mail ts ++ (evs ≫= task_mail (pg_addr pg)); ts_log := ts_log ts;
    ts_tasks := <[i := went_on pg ph]> (ts_tasks ts); ts_records := ts_records ts |}.
Proof.
  intros Hts Hi Hst Hc Hrun. pose proof (to_tasks _ Hts) as Htk.
  destruct (progress_ok _ _ _ Htk Hi) as (Hsp & Hmade).
  destruct (run_phase_cases _ _ _ _ _ _ _ Hrun) as [Hrank Hcases].
  rewrite <- (app_nil_r (ts_records ts)). apply (session_step_ok ts _ c); try done.
  - by eapply run_phase_keeps.
  - destruct Hcases as [(_ & _ & _ & ? & _)|[(? & _)|(_ & _ & _ & ?)]]; congruence.
  - apply Forall_bind, Forall_true. intros []; repeat constructor.
  - apply Forall_bind, Forall_true. intros []; repeat constructor.
  - intros r t. apply (publishes_step ts i pg); [done|done|by right].
  - eapply tasks_ok_step; [done|by eapply put_client_ahead|done|..]; simpl.
    { intros t Ht. assert (made pg t) as Hpg by by right.
      rewrite (tk_done _ _ Htk i pg t) in Hrun by eauto. by injection Hrun as _ <- _. }
    intros t [Hph|Hpub].
    + right. simpl in Hph. subst ph. destruct (run_phase_store _ _ _ _ _ _ _ Hst Hrun) as (ssl & Hssl & Hn & Hn').
      exists c, c', ssl. do 3 (split; [done|]). split; [by rewrite lookup_alter_eq, Hc|congruence].
    + left. assert (made pg t) as Hpg by by right. exists pg. eauto.
  - by intros r' item Hin%not_elem_of_nil.
Qed.

(** The publication of the transport of a task. *)
Lemma store_step_ok ts i pg t :
  tserver_ok ts → idle (p_threads (ts_pool ts)) = true → progress ts i = Some pg →
  pg_phase pg = PStore t →
  tserver_ok {| ts_udp := ts_udp ts;
    ts_pool := spawn (MainThread false) (store_srtp (pg_client pg) t) (ts_pool ts);
    ts_mail := ts_mail ts; ts_log := ts_log ts;
    ts_tasks := <[i := published pg t]> (ts_tasks ts); ts_records := ts_records ts |}.
Proof.
  intros [Hudp (g & Hg & Hp & Hhome) Hmain Hex Hmedia Hmail Hheard Hstr Htk Hrec] Hidle Hi Hph.
  destruct (progress_ok _ _ _ Htk Hi) as (Hsp & Hmade).
  assert (made pg t) as Hpg by by left. pose proof (Hmade t Hpg) as Hpgi.
  split; simpl; try done.
  - destruct (pool_ok_more g _ _ _ (ts_log ts) (<[i := published pg t]> (ts_tasks ts))
      (ts_records ts) _ Hg Hp Hhome) as (g' & Hg' & Hp' & Hhome'); [done|done| |done|].
    { intros r t1. apply (publishes_step ts i pg); [done|done|left].
      destruct (pg_srtp pg) as [t2|] eqn:Ht2; [|done].
      by rewrite (tk_done _ _ Htk i pg t2 Hpgi Ht2) in Hph. }
    exists g'. split; [done|]. split; [|done]. apply spawn_pool_ok; [|done]. apply wp_store_srtp.
    injection Hg' as _ _ -> _. exists i, (published pg t). by rewrite lookup_insert_eq.
  - by apply spawn_one_main.
  - by apply spawn_exclusive.
  - eapply tasks_ok_step; [done|split; [done|intros r c Hc; by exists c]|done|done|].
    intros t1 [?|[= <-]]; [done|]. left. exists pg. auto.
Qed.

Lemma loop_step_ok e ts :
  tserver_ok ts → idle (p_threads (ts_pool ts)) = true → tevent_ok (TLoop e) →
  tserver_ok (loop_step e ts).
Proof.
  intros Hts Hidle He.
  pose proof Hts as [Hudp (g & Hg & Hp & Hhome) Hmain Hex Hmedia Hmail Hheard Hstr Htk Hrec].
  destruct e as [draw now m|r addr|i|i acceptor peer].
  - destruct He as [Hdraw Hfreq]. unfold loop_step.
    destruct (udp_step (ts_udp ts) m) as [st out] eqn:Hstep. split; simpl; try done.
    + by rewrite udp_run_snoc, <- Hudp, Hstep.
    + by eapply pool_ok_log.
    + intros u media Hm. pose proof (media_known m (ts_udp ts) u media) as Hk.
      rewrite Hstep in Hk. destruct (Hk Hm) as [?| ->]; [by eapply Hmedia|done].
    + apply Forall_app. split; [eapply Forall_impl; [exact Hmail|]; apply mail_ok_snoc|].
      rewrite Hudp in Hstep, Hmedia. by eapply routed_ok.
    + apply Forall_app. split; [eapply Forall_impl; [exact Hheard|]; apply mail_heard_snoc|].
      pose proof (routed_heard (ts_log ts) (ts_records ts) draw now m (ts_udp ts)) as Hr. by rewrite Hstep in Hr.
    + eapply Forall_impl; [exact Hstr|]. apply stream_heard_snoc.
  - unfold loop_step. destruct (w_clients (p_world (ts_pool ts)) !! r) as [c|] eqn:Hc; [|done].
    destruct (streaming r addr (p_world (ts_pool ts))) eqn:Hs; [|done].
    destruct (outgoing_next (c_channels c) addr) as [next ch] eqn:Hn.
    apply (session_step_ok ts r c); try done.
    + destruct next as [[item|]|]; repeat constructor.
    + destruct next as [[item|]|]; [apply Forall_singleton|constructor..].
      exists r, item. split; [|done]. apply elem_of_app. right. apply list_elem_of_here.
    + eapply tasks_ok_ahead; [done|]. by eapply put_client_ahead.
    + intros r' item Hin. destruct next as [[item'|]|]; try by apply not_elem_of_nil in Hin.
      apply list_elem_of_singleton in Hin as [= -> ->].
      rewrite (outgoing_next_addr _ _ _ _ Hn). by apply streaming_sent.
  - unfold loop_step. destruct (ts_mail ts !! i) as [m|] eqn:Hi; [|done].
    pose proof (Forall_lookup_1 _ _ _ _ Hmail Hi) as [Hm Hjm].
    pose proof (Forall_lookup_1 _ _ _ _ Hheard Hi) as Hhm. split; simpl; try done.
    + exists g. split; [done|]. split; [|done]. apply spawn_pool_ok; [|done]. apply wp_client_step; [done|].
      injection Hg as Hj Hh _ Hd. by destruct m as [? []| | | |]; simpl; rewrite ?Hj, ?Hh, ?Hd.
    + by apply spawn_one_main.
    + by apply spawn_exclusive.
    + by apply Forall_delete.
    + by apply Forall_delete.
  - unfold loop_step. destruct (progress ts i) as [pg|] eqn:Hi; [|done].
    destruct (pg_phase pg) as [m1| | |t| |] eqn:Hph;
      try (destruct (w_clients (p_world (ts_pool ts)) !! pg_client pg) as [c|] eqn:Hc; [|done];
           destruct (run_phase acceptor peer _ c) as [[c' ph'] evs] eqn:Hrun;
           rewrite <- Hph in Hrun; eapply dtls_step_ok; [done|done|by rewrite Hph|done|exact Hrun]).
    by eapply store_step_ok.
Qed.

Lemma tserver_step_ok cpus ev ts ts' :
  tserver_ok ts → tevent_ok ev → tserver_step cpus ev ts = Done ts' → tserver_ok ts'.
Proof.
  intros Hts Hev. destruct ev as [e|rd s message addr|i rd]; unfold tserver_step.
  - destruct (idle (p_threads (ts_pool ts))) eqn:Hidle; [|done]. intros [= <-].
    by apply loop_step_ok.
  - case_decide; [|done]. intros [= <-]. destruct Hev as [Hs Hb].
    destruct Hts as [Hudp (g & Hg & Hp & Hhome) Hmain Hex Hmedia Hmail Hheard Hstr Htk Hrec].
    split; simpl; try done.
    + exists g. split; [done|]. split; [|done]. apply spawn_pool_ok; [by apply wp_rtc_program|done].
    + by apply spawn_one_main.
    + by apply spawn_exclusive.
  - destruct (pool_step i rd (ts_pool ts)) as [p'| |] eqn:Hs; [|done..]. intros [= <-].
    destruct Hts as [Hudp (g & Hg & Hp & Hhome) Hmain Hex Hmedia Hmail Hheard Hstr Htk Hrec].
    split; simpl; try done.
    + pose proof (pool_ok_step g i rd _ Hp) as Hok. rewrite Hs in Hok.
      destruct Hok as (g' & Hg' & Hn & Hp'). exists g'. split; [by rewrite <- Hg|]. split; [done|].
      apply (Forall_impl (effect_home g)); [by eapply step_home|].
      intros e. by apply effect_home_grow.
    + by eapply step_one_main.
    + by eapply exclusive_step.
    + by eapply step_streams.
    + eapply tasks_ok_ahead; [done|]. by eapply step_ahead.
    + intros r item Hin%Hrec. destruct (step_ahead _ _ _ _ _ Hp Hs) as [[new ->] _].
      apply elem_of_app. by left.
Qed.

Lemma tserver_init_ok : tserver_ok tserver_init.
Proof.
  split; simpl; try done.
  exists {| f_home := ∅; f_join := joined []; f_heard := heard []; f_ready := publishes ∅;
            f_record := recorded []; f_time := 0 |}. split; [done|].
  split; [|done]. split; simpl; [done| |done]. split; simpl; try done.
  - intros r. by rewrite !lookup_empty.
  - by intros r item Hin%not_elem_of_nil.
Qed.

Lemma treachable_ok cpus ts : treachable cpus ts → tserver_ok ts.
Proof.
  intros Hts. pose proof tserver_init_ok as Hok. unfold treachable in Hts.
  induction Hts as [|ts ts' ts'' (ev & Hev & Hs) _ IH]; [done|].
  apply IH. by eapply tserver_step_ok.
Qed.
End invariant.

(** ** The properties *)

Section properties.
Context {P : Platform} {PL : PlatformLaws P} {D : DtlsLib P}.

(** The keys of a handshake with the address. *)
Definition keys_of (ts : TServer) (a : SocketAddr) (t : SrtpTransport) : Prop :=
  ∃ i pg ssl, ts_tasks ts !! i = Some pg ∧ pg_addr pg = a ∧ pg_srtp pg = Some t ∧
    transport_new ssl = Ok t.

(** The datagram for [a] is the packet from [addr], read with the keys of [addr] and
    encrypted with the keys of [a]; RTP gets new numbers. *)
Definition relayed (ts : TServer) (addr : SocketAddr) (packet : DataPacket) (a : SocketAddr)
    (d : DataPacket) : Prop :=
  ∃ t t' plain plain', keys_of ts addr t ∧ opened (rtcp_shape packet) t packet plain ∧
    rewritten (rtcp_shape packet) plain plain' ∧
    keys_of ts a t' ∧ sealed (rtcp_shape packet) t' plain' d.

(** A task keeps its address and what it has published. *)
Lemma task_kept cpus ev ts ts' j pg t :
  tserver_ok ts → tserver_step cpus ev ts = Done ts' →
  ts_tasks ts !! j = Some pg → pg_srtp pg = Some t →
  ∃ pg', ts_tasks ts' !! j = Some pg' ∧ pg_addr pg' = pg_addr pg ∧ pg_srtp pg' = Some t.
Proof.
  intros Hts Hs Hj Ht. pose proof (tk_done _ _ (to_tasks _ Hts) j pg t Hj Ht) as Hdone.
  assert (∃ pg', ts_tasks ts !! j = Some pg' ∧ pg_addr pg' = pg_addr pg ∧ pg_srtp pg' = Some t)
    as Hsame by by exists pg.
  destruct ev as [e|rd s message addr|i rd]; unfold tserver_step in Hs.
  - destruct (idle _); [|done]. injection Hs as <-.
    assert (∀ i pg0 pg1, progress ts i = Some pg0 → (i = j → pg1 = went_on pg PDone) → ∃ pg',
      <[i := pg1]> (ts_tasks ts) !! j = Some pg' ∧ pg_addr pg' = pg_addr pg ∧ pg_srtp pg' = Some t)
      as Hwent.
    { intros i pg0 pg1 Hi Heq. destruct (decide (i = j)) as [->|Hne].
      - rewrite lookup_insert_eq. exists pg1. by rewrite (Heq eq_refl).
      - exists pg. by rewrite lookup_insert_ne. }
    assert (∀ i pg0, progress ts i = Some pg0 → i = j → pg0 = pg) as Hpg.
    { intros i pg0 Hi ->. unfold progress in Hi. rewrite Hj in Hi. by injection Hi. }
    destruct e as [draw now m|r addr|i|i acceptor peer]; unfold loop_step.
    + by destruct (udp_step (ts_udp ts) m).
    + repeat case_match; exact Hsame.
    + by destruct (ts_mail ts !! i).
    + destruct (progress ts i) as [pg0|] eqn:Hi; [|done].
      destruct (pg_phase pg0) as [m1| | |t1| |] eqn:Hph;
        try (destruct (w_clients (p_world (ts_pool ts)) !! pg_client pg0) as [c|] eqn:Hc; [|done];
             destruct (run_phase acceptor peer _ c) as [[c' ph'] evs] eqn:Hrun);
        eapply (Hwent i pg0); try done; intros Hij; pose proof (Hpg i pg0 Hi Hij) as ->;
        rewrite Hdone in Hph; try discriminate Hph.
      by injection Hrun as _ <- _.
  - case_decide; [|done]. by injection Hs as <-.
  - destruct (pool_step i rd (ts_pool ts)); [|done..]. by injection Hs as <-.
Qed.

Lemma relayed_step cpus ev ts ts' addr packet a d :
  tserver_ok ts → tserver_step cpus ev ts = Done ts' →
  relayed ts addr packet a d → relayed ts' addr packet a d.
Proof.
  intros Hts Hs. assert (∀ b t, keys_of ts b t → keys_of ts' b t) as Hkeys.
  { intros b t (j & pg & ssl & Hj & <- & Ht & Hssl).
    destruct (task_kept _ _ _ _ _ _ _ Hts Hs Hj Ht) as (pg' & Hj' & Ha & Ht'). by exists j, pg', ssl. }
  intros (t & t' & plain & plain' & Hk & Ho & Hrew & Hk' & Hd). exists t, t', plain, plain'.
  split; [by apply Hkeys|]. split_and!; [done..|by apply Hkeys|done].
Qed.

(** A task was started by the handler of a datagram of its address. *)
Lemma task_started ts i pg :
  tserver_ok ts → ts_tasks ts !! i = Some pg →
  ∃ m, SpawnDtlsTask (pg_client pg) m (pg_addr pg) ∈ w_sent (p_world (ts_pool ts)).
Proof.
  intros Hts Hi. destruct (tk_spawned _ _ (to_tasks _ Hts) i pg Hi) as [m Hm]. exists m.
  apply list_elem_of_lookup_2, list_elem_of_omap in Hm as (e & He & Hm).
  destruct e; try done. by injection Hm as -> -> ->.
Qed.

Lemma task_home ts g i pg :
  tserver_ok ts → Forall (effect_home g) (w_sent (p_world (ts_pool ts))) →
  ts_tasks ts !! i = Some pg → f_home g !! pg_client pg = Some (pg_addr pg).
Proof.
  intros Hts Hhome Hi. destruct (task_started _ _ _ Hts Hi) as [m Hm].
  rewrite Forall_forall in Hhome. exact (Hhome _ Hm).
Qed.

(** The facts about keys are about published transports. *)
Lemma keys_published ts g a t :
  tserver_ok ts → given g = server_facts (ts_log ts) (ts_tasks ts) (ts_records ts) →
  Forall (effect_home g) (w_sent (p_world (ts_pool ts))) → keys g a t → keys_of ts a t.
Proof.
  intros Hts [= _ _ Hr _] Hhome (r & Ha & Hready). rewrite Hr in Hready.
  destruct Hready as (n & pg & Hn & <- & Ht).
  destruct (tk_keys _ _ (to_tasks _ Hts) n pg t Hn) as [ssl Hssl]; [by right|].
  exists n, pg, ssl. split; [done|]. split; [|done].
  pose proof (task_home _ _ _ _ Hts Hhome Hn). congruence.
Qed.

(** In every state the server can reach, a thread that is about to send a datagram of
    RTP is a worker handling a packet from some address; the datagram is that packet,
    relayed, and goes to an address that joined a group with that address. *)
Lemma threads_in_group cpus ts i th d a k :
  treachable cpus ts → p_threads (ts_pool ts) !! i = Some th →
  th_prog th = Perform (OSend (UdpSend (Rtc d a))) k →
  ∃ addr packet, th_role th = Worker addr packet ∧ same_group (ts_log ts) addr a ∧
    relayed ts addr packet a d.
Proof.
  intros Hts%treachable_ok Hi Hp. destruct (to_pool _ Hts) as (g & Hg & [_ Hw Hths] & Hhome).
  pose proof (Forall_lookup_1 _ _ _ _ Hths Hi) as Hth.
  pose proof (thread_ok_sends g _ th _ k Hw Hth Hp) as He. simpl in He.
  destruct (th_role th) as [|addr packet]; [done|]. exists addr, packet. split; [done|].
  pose proof (keys_published ts g) as Hkeys. pose proof Hg as [= Hj _ _ _].
  destruct He as [(j & H1 & H2) (plain & plain' & (t & Hk & Ho) & Hrew & (t' & Hk' & Hd))].
  split; [exists j; by rewrite <- Hj|]. exists t, t', plain, plain'.
  split_and!; [by apply Hkeys|done|done|by apply Hkeys|done].
Qed.

(** A DTLS record for the address: the outgoing stream of a client brought it; the
    stream was opened for the address when a DTLS datagram had come from there, and the
    client is in the table under no other address. *)
Definition streamed (ts : TServer) (a : SocketAddr) (d : DataPacket) : Prop :=
  ∃ r item, (r, item) ∈ ts_records ts ∧ into_webrtc item = Dtls d a ∧
    AddOutgoingStream r a ∈ w_sent (p_world (ts_pool ts)) ∧ heard (ts_log ts) a ∧
    ∀ a', w_storage (p_world (ts_pool ts)) !! a' = Some r → a' = a.

Lemma recorded_streamed ts a d : tserver_ok ts → recorded (ts_records ts) a d → streamed ts a d.
Proof.
  intros Hts (r & item & Hin & <- & <-). pose proof (to_records _ Hts r item Hin) as Hsent.
  destruct (to_pool _ Hts) as (g & _ & [_ [_ _ Htab _] _] & Hhome).
  pose proof (to_streams _ Hts) as Hstr. rewrite Forall_forall in Hhome, Hstr.
  exists r, item. do 3 (split; [done|]). split; [exact (Hstr _ Hsent)|].
  intros a' Ha'%Htab. pose proof (Hhome _ Hsent) as Hr. simpl in Hr. congruence.
Qed.

Lemma streamed_recorded ts a d : streamed ts a d → recorded (ts_records ts) a d.
Proof. intros (r & item & Hin & [= <- <-] & _). by exists r, item. Qed.

Lemma records_grow cpus ev ts ts' :
  tserver_step cpus ev ts = Done ts' → ts_records ts `prefix_of` ts_records ts'.
Proof.
  destruct ev as [e|rd s message addr|i rd]; unfold tserver_step.
  - destruct (idle _); [|done]. intros [= <-].
    destruct e as [draw now m|r addr|i|i acceptor peer]; simpl.
    + by destruct (udp_step (ts_udp ts) m).
    + repeat case_match; try done. by apply prefix_app_r.
    + by destruct (ts_mail ts !! i).
    + repeat case_match; done.
  - case_decide; [|done]. by intros [= <-].
  - destruct (pool_step i rd (ts_pool ts)); [|done..]. by intros [= <-].
Qed.

Lemma streamed_step cpus ev ts ts' a d :
  tserver_ok ts' → tserver_step cpus ev ts = Done ts' → streamed ts a d → streamed ts' a d.
Proof.
  intros Hts' Hs Hd%streamed_recorded. apply recorded_streamed; [done|].
  destruct (records_grow _ _ _ _ Hs) as [more ->]. by apply recorded_app.
Qed.

(** The only other requests threads send are the DTLS records of the streams. *)
Lemma threads_request cpus ts i th q k :
  treachable cpus ts → p_threads (ts_pool ts) !! i = Some th →
  th_prog th = Perform (OSend (UdpSend q)) k →
  match q with
  | Rtc _ _ => True
  | Dtls d a => streamed ts a d
  | _ => False
  end.
Proof.
  intros Hts%treachable_ok Hi Hp.
  destruct (to_pool _ Hts) as (g & [= _ _ _ Hd] & [_ Hw Hths] & _).
  pose proof (thread_ok_sends g _ th _ k Hw (Forall_lookup_1 _ _ _ _ Hths Hi) Hp) as He.
  destruct q as [req a|d a|d a|]; destruct (th_role th); try done.
  apply recorded_streamed; [done|]. by rewrite <- Hd.
Qed.

(** C9. A client that has an SRTP transport connected once: its session has left the
    initial state, exactly one task has made a transport for it, from the session of its
    handshake, and the client's outgoing context is that transport's, after the packets
    it protected since; and that task was started for the address the client has in the
    client table, by a datagram from there. *)
Theorem sessions_connect_once cpus ts r c t :
  treachable cpus ts → w_clients (p_world (ts_pool ts)) !! r = Some c → c_srtp c = Some t →
  c_state c ≠ New ∧
  ∃ i pg t0 ssl m, ts_tasks ts !! i = Some pg ∧ pg_client pg = r ∧ pg_srtp pg = Some t0 ∧
    transport_new ssl = Ok t0 ∧ descends t0 t ∧
    SpawnDtlsTask r m (pg_addr pg) ∈ w_sent (p_world (ts_pool ts)) ∧
    heard (ts_log ts) (pg_addr pg) ∧
    (∀ a, w_storage (p_world (ts_pool ts)) !! a = Some r → a = pg_addr pg) ∧
    ∀ j pg' t', ts_tasks ts !! j = Some pg' → pg_client pg' = r → made pg' t' → j = i.
Proof.
  intros Hts%treachable_ok Hc Hsrtp. pose proof (to_tasks _ Hts) as Htk.
  destruct (to_pool _ Hts) as (g & [= _ _ Hr _] & [_ [_ Hci Htab _] _] & Hhome).
  destruct (ci_ready _ _ _ (Hci r c Hc) t Hsrtp) as (t0 & Hready & Hd). rewrite Hr in Hready.
  destruct Hready as (i & pg & Hi & <- & Ht). assert (made pg t0) as Hpg by by right.
  split.
  { destruct (tk_connected _ _ Htk i pg t0 Hi Hpg) as (c1 & Hc1 & Hn). congruence. }
  destruct (task_started _ _ _ Hts Hi) as [m Hm]. destruct (tk_keys _ _ Htk i pg t0 Hi Hpg) as [ssl Hssl].
  exists i, pg, t0, ssl, m. do 6 (split; [done|]). split; [|split].
  - pose proof (to_streams _ Hts) as Hstr. rewrite Forall_forall in Hstr. exact (Hstr _ Hm).
  - intros a Ha%Htab. pose proof (task_home _ _ _ _ Hts Hhome Hi). congruence.
  - intros j pg' t' Hj Hcl Hpg'. by apply (tk_once _ _ Htk j i pg' pg t' t0).
Qed.

Lemma pool_steps_reachable cpus ts p :
  treachable cpus ts → rtc (pool_next) (ts_pool ts) p →
  treachable cpus (with_pool ts p).
Proof.
  intros Hts Hp. remember (ts_pool ts) as p0 eqn:Hp0. revert ts Hts Hp0.
  induction Hp as [p|p p1 p2 (i & rd & Hs) _ IH]; intros ts Hts ->.
  - by destruct ts.
  - apply (IH (with_pool ts p1)); [|done]. eapply rtc_r; [exact Hts|].
    exists (TStep i rd). split; [done|]. simpl. by rewrite Hs.
Qed.

(** C4. Handlers finish, in a release build: in every state the server can reach no
    operation of a handler panics, the running handlers cannot take steps forever, and
    when none of them can go on, whatever policy the locks follow, they are all finished,
    or the event loop waits for a lock it holds itself while it handles the message of a
    new sender. *)
Theorem handlers_finish cpus ts :
  treachable cpus ts →
  (∀ i rd, pool_step i rd (ts_pool ts) ≠ Panicked) ∧
  Acc (flip (pool_next)) (ts_pool ts) ∧
  ∀ p, rtc (pool_next) (ts_pool ts) p → (∀ p', ¬ pool_next p p') →
    Forall (λ th, finished (th_prog th) = true) (p_threads p) ∨
    Exists self_waiting (p_threads p).
Proof.
  intros Hts. split; [|split; [apply pool_terminates|]].
  - intros i rd Hs. destruct (to_pool _ (treachable_ok _ _ Hts)) as (g & _ & Hp & _).
    pose proof (pool_ok_step g i rd _ Hp) as Hok. by rewrite Hs in Hok.
  - intros p Hp Hstop. pose proof (pool_steps_reachable _ _ _ Hts Hp) as Hr.
    destruct (treachable_ok _ _ Hr) as [_ (g & _ & Hok & _) Hmain _ _ _ _ _ _]. simpl in *.
    destruct (pool_progress (R := store_protocol) g p Hok Hmain) as [[p' Hp']|?]; [by apply Hstop in Hp'|done].
Qed.

(** C6. Locks protect their data: while a thread holds the client table, or the
    receivers, the sender, the media, the SRTP contexts, the numbering or the jitter
    statistics of a client, for reading or for writing, nothing that happens in the
    server but the steps of that thread changes that data. *)
Theorem locks_protect cpus ts ev ts' j th l :
  treachable cpus ts → tserver_step cpus ev ts = Done ts' →
  p_threads (ts_pool ts) !! j = Some th → l ∈ (th_held th).*1 → (∀ rd, ev ≠ TStep j rd) →
  same_data l (p_world (ts_pool ts)) (p_world (ts_pool ts')).
Proof.
  intros [_ (g & _ & Hp & _) _ Hex _ _ _ _ _]%treachable_ok Hs Hj Hl Hev.
  destruct ev as [e|rd s message addr|i rd]; unfold tserver_step in Hs.
  - destruct (idle _); [|done]. injection Hs as <-.
    assert (∀ r c c', w_clients (p_world (ts_pool ts)) !! r = Some c → same_store c c' →
      c_srtp c' = c_srtp c →
      same_data l (p_world (ts_pool ts)) (p_world (put_client r c' (ts_pool ts)))) as Hput.
    { intros r c c' Hc (Hm & Hrt & Hjit & Hr & Hsend & _) Hsrtp.
      destruct l; [done|..]; (eapply same_field_alter; [reflexivity|]); simpl;
        intros c1 Hc1 _; simplify_eq; done. }
    destruct e as [draw now m|r addr|i|i acceptor peer]; unfold loop_step.
    + destruct (udp_step (ts_udp ts) m). by apply same_data_eq.
    + destruct (w_clients _ !! r) as [c|] eqn:Hc; [|by apply same_data_eq].
      destruct (streaming _ _ _); [|by apply same_data_eq].
      destruct (outgoing_next _ _) as [next ch]. by apply (Hput r c).
    + destruct (ts_mail ts !! i); by apply same_data_eq.
    + destruct (progress ts i) as [pg|]; [|by apply same_data_eq].
      assert (∀ ph c c' ph' evs, is_store ph = false →
        w_clients (p_world (ts_pool ts)) !! pg_client pg = Some c →
        run_phase acceptor peer ph c = (c', ph', evs) →
        same_data l (p_world (ts_pool ts)) (p_world (put_client (pg_client pg) c' (ts_pool ts))))
        as Htask.
      { intros ph c c' ph' evs Hst Hc Hrun.
        apply (Hput _ c); [done|by eapply run_phase_keeps|].
        destruct (run_phase_cases _ _ _ _ _ _ _ Hrun) as
            [_ [(_ & _ & _ & ? & _)|[(? & _)|(_ & _ & _ & ?)]]]; congruence. }
      destruct (pg_phase pg) as [m1| | |t| |]; try (by apply same_data_eq);
        (destruct (w_clients _ !! pg_client pg) as [c|] eqn:Hc; [|by apply same_data_eq]);
        destruct (run_phase acceptor peer _ c) as [[c' ph'] evs] eqn:Hrun; by refine (Htask _ _ _ _ _ _ eq_refl Hrun).
  - case_decide; [|done]. injection Hs as <-. by apply same_data_eq.
  - destruct (pool_step i rd (ts_pool ts)) as [p'| |] eqn:Hstep; [|done..].
    injection Hs as <-. eapply guard_protects; [done..| |done|done].
    intros ->. by apply (Hev rd).
Qed.

(** The references and the numbers of a client. *)
Lemma store_well_typed_client cpus ts r c :
  treachable cpus ts → w_clients (p_world (ts_pool ts)) !! r = Some c →
  (∀ a r', c_receivers c !! a = Some r' → is_Some (w_clients (p_world (ts_pool ts)) !! r')) ∧
  is_u32 (jitter_delay (c_jitter c)) ∧
  ∀ f rt, c_runtime c !! f = Some rt →
    is_u32 f ∧ runtime_ok rt ∧ clock_ok rt (p_clock (ts_pool ts)).
Proof.
  intros (g & _ & [Hclock [Hheap Hc _ _] _] & _)%treachable_ok%to_pool Hr.
  destruct (Hc _ _ Hr) as [Hrec _ Hrt Hj _]. split; [|split; [done|]].
  - intros a r' [Hh _]%Hrec. apply Hheap. by eexists.
  - intros f rt Hf. rewrite <- Hclock. by apply Hrt.
Qed.

(** C16. The store is well typed while handlers interleave: in every state the server can
    reach the references in the client table and in the receivers of a client point to
    clients, a client has at most one address, the numbers of a client are in the range
    of their types, and no time it keeps is in the future of the clock. *)
Theorem store_well_typed cpus ts :
  treachable cpus ts →
  let w := p_world (ts_pool ts) in
  (∀ a r, w_storage w !! a = Some r → is_Some (w_clients w !! r)) ∧
  (∀ a a' r, w_storage w !! a = Some r → w_storage w !! a' = Some r → a = a') ∧
  (∀ r c, w_clients w !! r = Some c →
     (∀ a r', c_receivers c !! a = Some r' → is_Some (w_clients w !! r')) ∧
     is_u32 (jitter_delay (c_jitter c)) ∧
     ∀ f rt, c_runtime c !! f = Some rt →
       is_u32 f ∧ runtime_ok rt ∧ clock_ok rt (p_clock (ts_pool ts))).
Proof.
  intros Hts w. split; [|split; [|intros r c; by apply store_well_typed_client with cpus]];
    destruct (to_pool _ (treachable_ok _ _ Hts)) as (g & _ & [_ [Hheap _ Ht _] _] & _).
  - intros a r Hr%Ht. apply Hheap. by eexists.
  - intros a a' r Hr%Ht Hr'%Ht. congruence.
Qed.

(** Between the steps of threads no lock is recorded in the world. *)
Lemma treachable_held cpus ts : treachable cpus ts → w_held (p_world (ts_pool ts)) = [].
Proof.
  unfold treachable. intros Hts. assert (w_held (p_world (ts_pool tserver_init)) = []) as Hh by done.
  induction Hts as [|ts ts1 ts2 (ev & _ & Hs) _ IH]; [done|]. apply IH.
  destruct ev as [e|rd s message addr|i rd]; unfold tserver_step in Hs.
  - destruct (idle _); [|done]. injection Hs as <-.
    destruct e as [draw now m|r a|i|i acceptor peer]; simpl.
    + by destruct (udp_step (ts_udp ts) m).
    + repeat case_match; done.
    + by destruct (ts_mail ts !! i).
    + repeat case_match; done.
  - case_decide; [|done]. by injection Hs as <-.
  - destruct (pool_step i rd (ts_pool ts)) as [p'| |] eqn:Hp; [|done..]. injection Hs as <-.
    apply pool_step_inv in Hp as (th & th' & w' & _ & _ & _ & Hs & ->). by eapply thread_step_clears.
Qed.

(** A finished handler holds no lock. *)
Lemma finished_quiet cpus ts :
  treachable cpus ts → Forall (λ th, finished (th_prog th) = true) (p_threads (ts_pool ts)) →
  quiet (p_threads (ts_pool ts)).
Proof.
  intros (g & _ & [_ _ Hths] & _)%treachable_ok%to_pool Hf. unfold quiet.
  apply Forall_forall. intros th Hth. rewrite !Forall_forall in Hf, Hths.
  split; [by apply Hf|]. pose proof (Hths th Hth) as Hok. pose proof (Hf th Hth) as Hfin.
  unfold thread_ok in Hok. destruct (th_prog th); [|done]. by apply (Hok g).
Qed.

Lemma finished_not_busy ths : Forall (λ th, finished (th_prog th) = true) ths → busy ths = 0%nat.
Proof.
  intros Hf. unfold busy. induction Hf as [|th ths Hth _ IH]; [done|].
  rewrite filter_cons_False; [done|]. by rewrite Hth, andb_false_r.
Qed.

(** C5. A packet is delivered, on every outcome: when a worker takes up an RTP packet
    while no other handler runs, and the specification on the sender's client accepts
    the packet, then however the threads are scheduled with the clock at its reading,
    the worker finishes, and it has sent exactly the jitter command and the packet of
    each served receiver, encrypted with that receiver's context: the live receivers up
    to the first that cannot encrypt, in the order of the thread pool, and those the
    pool still serves after it; when every live receiver can encrypt, all of them. The
    table, the groups and the other clients are as before, but for the contexts of the
    served receivers. *)
Theorem packet_delivered cpus ts rd s message addr r c h c' m cmd :
  treachable cpus ts → Forall (λ th, finished (th_prog th) = true) (p_threads (ts_pool ts)) →
  (0 < cpus)%nat → p_clock (ts_pool ts) ≤ at_packet rd → schedule_ok s → bytes_ok message →
  w_storage (p_world (ts_pool ts)) !! addr = Some r →
  w_clients (p_world (ts_pool ts)) !! r = Some c →
  from_buf message = Done (Ok h) → rtcp_shape message = false →
  rtp_step Release rd addr c h message = Done (c', Ok (m, cmd)) →
  ∃ p0, tserver_step cpus (TRtc rd s message addr) ts = Done (with_pool ts p0) ∧
    (∃ p, rtc (pool_next_at rd) p0 p ∧ ∀ p', ¬ pool_next_at rd p p') ∧
    ∀ p, rtc (pool_next_at rd) p0 p → (∀ p', ¬ pool_next_at rd p p') →
      Forall (λ th, finished (th_prog th) = true) (p_threads p) ∧
      p_world p = after_forward s addr r c c' m cmd (p_world (ts_pool ts)) ∧
      ((∀ a r' cr, c_receivers c !! a = Some r' →
          w_clients (p_world (ts_pool ts)) !! r' = Some cr → c_deleted cr = false →
          is_Some (packet_for (w_clients (p_world (ts_pool ts))) m r')) →
       w_sent (p_world p) = w_sent (p_world (ts_pool ts)) ++ command_effects addr cmd ++
         packets (w_clients (p_world (ts_pool ts))) m (sch_order s (map_to_list (c_receivers c)))).
Proof.
  intros Hts Hfin Hcpus Hclock Hs Hb Hr Hc Hf Hsh Hstep.
  pose proof (finished_quiet _ _ Hts Hfin) as Hq. pose proof (treachable_held _ _ Hts) as Hh.
  set (w := p_world (ts_pool ts)) in *. set (ths := p_threads (ts_pool ts)) in *.
  set (v := after_forward s addr r c c' m cmd w).
  exists (beside ths (lone (Worker addr message) [] (rtc_program rd s message addr) w (p_clock (ts_pool ts)))).
  assert (run (rtc_program rd s message addr) w = Done ((), v)) as Hv.
  { pose proof (to_pool _ (treachable_ok _ _ Hts)) as (g & _ & [_ [_ Hci _ _] _] & _).
    destruct (Hci _ _ Hc) as [Hrec _ _ _ _]. unfold rtc_program. rewrite run_bind.
    erewrite (rtp_forwards Release rd s message addr r c h c' m cmd w Hh); try done.
    - intros a r' Ha. by apply (proj1 (store_well_typed_client cpus ts r c Hts Hc) a r' Ha).
    - intros a a' r' [Ha _]%Hrec [Ha' _]%Hrec. congruence. }
  split; [|split].
  - unfold tserver_step. fold ths. rewrite finished_not_busy, decide_True by done. done.
  - pose proof (rtc_program_timed rd s message addr) as Ht.
    destruct (alone_iff (Worker addr message) rd _ [] w (p_clock (ts_pool ts)) v Hh Ht Hclock) as [_ Hex].
    assert (with_held w [] = w) as E by (rewrite <- Hh; apply with_held_id). rewrite E in Hex.
    destruct (Hex Hv) as [n Hn]. eexists. split; [by eapply quiet_lift|]. intros p' [i Hi].
    apply quiet_step in Hi as (q & Hq' & _); [|done].
    by apply lone_return in Hq'.
  - intros p Hp Hend.
    destruct (quiet_run ths (Worker addr message) rd _ w (p_clock (ts_pool ts)) v p Hq Hh
      (rtc_program_timed rd s message addr) Hclock Hv Hp Hend) as [n ->].
    split; [simpl; apply Forall_app; split; [exact Hfin|by constructor]|].
    split; [simpl; unfold v; rewrite <- Hh; by apply (with_held_id (after_forward _ _ _ _ _ _ _ w))|].
    intros Hall. simpl.
    by rewrite (served_receivers_all _ _ _ _ _ (proj2 (all_served s addr (w_clients w) m c Hs) Hall)).
Qed.

(** A thread that waits for a lock which the event loop holds for writing. *)
Definition waits_for (main th : Thread) : Prop :=
  match request (th_prog th) with Some (l, _) => (l, Write) ∈ th_held main | None => False end.

Lemma waiting_stays i k rd p p' main th :
  p_threads p !! k = Some main → p_threads p !! i = Some th → waits_for main th →
  pool_step i rd p = Done p' → False.
Proof.
  intros Hk Hi Hw (th0 & th1 & w1 & Hi0 & _ & Hgo & Hs & _)%pool_step_inv.
  assert (th0 = th) as -> by congruence. unfold waits_for in Hw.
  destruct (request (th_prog th)) as [[l m]|] eqn:Hr; [|done].
  destruct (decide (i = k)) as [->|Hne].
  - assert (th = main) as -> by congruence. unfold thread_step in Hs. destruct (th_prog main) as [|B op kk]; [done|].
    destruct op; simplify_eq/=.
    assert ((match m with Read => can_read (th_held main) l
             | Write => can_write (th_held main) l end) = false) as Hno.
    { destruct m; [by apply read_blocked|apply write_blocked].
      by apply (list_elem_of_fmap_2 fst) in Hw. }
    by rewrite Hno in Hs.
  - by destruct (granted_exclusive _ _ _ _ main Hr Hgo) as [Hn _]; [eapply other_elem|].
Qed.

Lemma unfinished_not_idle ts k main :
  ts !! k = Some main → self_waiting main → idle ts = false.
Proof.
  intros Hk [Hrole Hw]. apply not_true_is_false. intros Hidle.
  assert (is_main main = true) as Hm by (unfold is_main; by rewrite Hrole).
  pose proof (idle_main _ _ _ Hidle Hk Hm) as Hf. by destruct (th_prog main).
Qed.

(** C13. A takeover freezes the server: once the event loop waits for a lock it holds
    itself, no event of the receiving actor, of the client actor or of a DTLS task
    happens again, whatever the workers do; and every worker that has come to wait for
    a lock of the event loop waits forever. *)
Theorem takeover_freezes_server cpus ts ts' k main :
  p_threads (ts_pool ts) !! k = Some main → self_waiting main →
  rtc (tserver_next cpus) ts ts' →
  ts_udp ts' = ts_udp ts ∧ ts_mail ts' = ts_mail ts ∧ ts_log ts' = ts_log ts ∧
  ∀ i th, p_threads (ts_pool ts) !! i = Some th → waits_for main th →
    p_threads (ts_pool ts') !! i = Some th.
Proof.
  intros Hk Hself Hsteps. induction Hsteps as [ts|ts ts1 ts' (ev & Hev & Hs) _ IH]; [done|].
  assert (waits_for main main) as Hmm by apply Hself.
  assert (ts_udp ts1 = ts_udp ts ∧ ts_mail ts1 = ts_mail ts ∧ ts_log ts1 = ts_log ts ∧
    ∀ i th, p_threads (ts_pool ts) !! i = Some th → waits_for main th →
      p_threads (ts_pool ts1) !! i = Some th) as (Hu & Hm & Hl & Hw).
  { destruct ev as [e|rd s message addr|i rd]; unfold tserver_step in Hs.
    - by rewrite (unfinished_not_idle _ _ _ Hk Hself) in Hs.
    - case_decide; [|done]. injection Hs as <-. do 3 (split; [done|]). intros i th Hi _. simpl.
      by apply lookup_app_l_Some.
    - destruct (pool_step i rd (ts_pool ts)) as [p'| |] eqn:Hstep; [|done..].
      injection Hs as <-. do 3 (split; [done|]). intros j th Hj Hwt. simpl.
      destruct (decide (j = i)) as [->|Hne]; [by destruct (waiting_stays _ _ _ _ _ _ _ Hk Hj Hwt Hstep)|].
      apply pool_step_inv in Hstep as (th0 & th1 & w1 & _ & _ & _ & _ & ->). simpl.
      by rewrite list_lookup_insert_ne. }
  destruct IH as (Hu' & Hm' & Hl' & Hw'); [by apply Hw|].
  split; [congruence|]. split; [congruence|]. split; [congruence|]. auto.
Qed.

(** A handler that no other thread disturbs does what its run computes: the steps
    of a single thread lead to a finished thread in some state if and only if the run
    of the program returns with that state, for the handlers of the client actor and
    for the forwarding of a packet. *)
Lemma handlers_alone rd w w' now :
  w_held w = [] → w_held w' = [] → now ≤ at_packet rd →
  (∀ m ρ,
    (∃ now', rtc (alone_next rd) (lone ρ [] (client_step m) w now)
               (lone ρ [] (Return ()) w' now')) ↔
    client_step m w = Done ((), w')) ∧
  (∀ s message addr ρ,
    (∃ now', rtc (alone_next rd) (lone ρ [] (rtc_program rd s message addr) w now)
               (lone ρ [] (Return ()) w' now')) ↔
    ∃ res, handle_rtc Release rd s (Rtc message addr) w = Done (res, w')).
Proof.
  intros Hw Hw' Hnow.
  assert (∀ ρ m, timed rd m →
    (∃ now', rtc (alone_next rd) (lone ρ [] m w now) (lone ρ [] (Return ()) w' now')) ↔
    run m w = Done ((), w')) as Halone.
  { intros ρ m Hm. pose proof (alone_iff ρ rd m [] w now w' Hw Hm Hnow) as H.
    assert (with_held w [] = w) as E by (rewrite <- Hw; apply with_held_id).
    assert (with_held w' [] = w') as E' by (rewrite <- Hw'; apply with_held_id).
    by rewrite Hw', E, E' in H. }
  split; [intros m ρ; apply Halone, client_step_timed|]. intros s message addr ρ.
  rewrite (Halone ρ _ (rtc_program_timed rd s message addr)). unfold rtc_program.
  rewrite run_bind. split.
  - destruct (handle_rtc _ _ _ _ w) as [[res v]| |]; [|done..]. intros [= <-]. by exists res.
  - by intros [res ->].
Qed.
End properties.

(** ** Runs of the server *)

Section runs.
Context {P : Platform} {D : DtlsLib P}.

(** An event, or the steps of one thread until it stops or [stop] holds of it. *)
Inductive Action := Do (ev : TEvent) | Drive (i : nat) (stop : Thread → bool).

Fixpoint drive (fuel : nat) (rd : Readings) (i : nat) (stop : Thread → bool) (p : Pool) : Pool :=
  match fuel, p_threads p !! i with
  | S fuel, Some th =>
      if stop th then p
      else match pool_step i rd p with Done p => drive fuel rd i stop p | _ => p end
  | _, _ => p
  end.

Fixpoint act (cpus : nat) (rd : Readings) (l : list Action) (ts : TServer) : outcome TServer :=
  match l with
  | [] => Done ts
  | Do ev :: l => ts ← tserver_step cpus ev ts; act cpus rd l ts
  | Drive i stop :: l => act cpus rd l (with_pool ts (drive 100 rd i stop (ts_pool ts)))
  end.

Lemma drive_steps cpus fuel rd i stop ts :
  rtc (tserver_next cpus) ts (with_pool ts (drive fuel rd i stop (ts_pool ts))).
Proof.
  revert ts. induction fuel as [|fuel IH]; intros ts; simpl.
  { destruct (p_threads (ts_pool ts) !! i); by destruct ts. }
  destruct (p_threads (ts_pool ts) !! i) as [th|]; [|by destruct ts].
  destruct (stop th); [by destruct ts|].
  destruct (pool_step i rd (ts_pool ts)) as [p| |] eqn:Hs; [|by destruct ts..].
  eapply rtc_l; [|apply (IH (with_pool ts p))]. exists (TStep i rd). split; [done|].
  simpl. by rewrite Hs.
Qed.

Lemma act_steps cpus rd l ts ts' :
  Forall (λ a, match a with Do ev => tevent_ok ev | Drive _ _ => True end) l →
  act cpus rd l ts = Done ts' → rtc (tserver_next cpus) ts ts'.
Proof.
  intros Hl. revert ts. induction Hl as [|a l Ha _ IH]; intros ts; cbn [act].
  - by intros [= <-].
  - destruct a as [ev|i stop].
    + destruct (tserver_step cpus ev ts) as [ts1| |] eqn:Hs; [|done..].
      intros Hrun. apply (rtc_l _ _ ts1); [by exists ev|by apply IH].
    + intros Hrun. etrans; [by apply (drive_steps cpus 100 rd i stop)|by apply IH].
Qed.

(** The packet a thread is about to send. *)
Definition sending (th : Thread) : option (DataPacket * SocketAddr) :=
  match th_prog th with
  | Perform (OSend (UdpSend (Rtc m a))) _ => Some (m, a)
  | _ => None
  end.

Lemma sending_Some th m a :
  sending th = Some (m, a) → ∃ k, th_prog th = Perform (OSend (UdpSend (Rtc m a))) k.
Proof.
  unfold sending. destruct (th_prog th) as [|B op k]; [done|].
  destruct op as [| | | | | | |[[]| | | |]| | | | |]; try done. intros [= -> ->]. by exists k.
Qed.

Definition never (th : Thread) : bool := false.
Definition at_send (th : Thread) : bool := bool_decide (is_Some (sending th)).
End runs.

(** A streamer and a viewer register, connect and join; a worker takes a packet of the
    streamer, up to the moment it sends it. *)
Definition loop (m : UdpMsg) : Action (P := sample_platform) (D := toy_dtls) :=
  Do (TLoop (LUdp (D := toy_dtls) sample_draw 0 m)).
Definition mail (i : nat) : list (Action (P := sample_platform) (D := toy_dtls)) :=
  [Do (TLoop (LClient (D := toy_dtls) 0)); Drive i never].
(** The task [t] pushes its datagram, looks at the status, connects, and publishes the
    transport in the thread [i]. *)
Definition publish (t i : nat) : list (Action (P := sample_platform) (D := toy_dtls)) :=
  repeat (Do (TLoop (LTask (D := toy_dtls) t () eager_peer))) 4 ++ [Drive i never].

Definition streamer_joins : list (Action (P := sample_platform) (D := toy_dtls)) :=
  [ loop (MsgSession (session_new (str "srv") (str "streamer")) (sample_item true));
    loop (MsgMediaUser (str "streamer") sample_media);
    loop (MsgRequest (Dtls [22] streamer_addr)) ] ++ mail 0 ++ publish 0 1 ++
  [ loop (MsgRequest (Stun (request_of (str "streamer")) streamer_addr)) ] ++ mail 2 ++ mail 3.

Definition viewer_comes : list (Action (P := sample_platform) (D := toy_dtls)) :=
  [ loop (MsgSession (session_new (str "srv") (str "viewer")) (sample_item false));
    loop (MsgRequest (Dtls [22] viewer_addr)) ] ++ mail 4 ++ publish 1 5 ++
  [ loop (MsgRequest (Stun (request_of (str "viewer")) viewer_addr)) ] ++ mail 6.

Definition viewer_watches : list (Action (P := sample_platform) (D := toy_dtls)) :=
  viewer_comes ++
  [ Do (TRtc (D := toy_dtls) sample_readings in_order (sample_packet 96) streamer_addr);
    Drive 7 at_send ].

Definition sample_header : RtpHeader :=
  {| marker := false; payload := 96; sequence := 7; timestamp := 300 |}.

(** A rival registers and connects, and announces itself as the sender. *)
Definition rival_takes : list (Action (P := sample_platform) (D := toy_dtls)) :=
  [ loop (MsgSession (session_new (str "srv") (str "rival")) (sample_item true));
    loop (MsgRequest (Dtls [22] rival_addr)) ] ++ mail 4 ++
  [ loop (MsgRequest (Stun (request_of (str "rival")) rival_addr)) ] ++ mail 5.

Definition after (l : list (Action (P := sample_platform) (D := toy_dtls)))
    (test : TServer (P := sample_platform) → bool) : bool :=
  match act 2 sample_readings l tserver_init with Done ts => test ts | _ => false end.

Definition thread_is (i : nat) (test : Thread (P := sample_platform) → bool)
    (ts : TServer (P := sample_platform)) : bool :=
  match p_threads (ts_pool ts) !! i with Some th => test th | None => false end.

Definition actions_ok (l : list (Action (P := sample_platform) (D := toy_dtls))) : Prop :=
  Forall (λ a, match a with Do ev => tevent_ok ev | Drive _ _ => True end) l.

Lemma loop_ok m :
  match m with MsgMediaUser _ media => frequencies_ok media | _ => True end →
  match loop m with Do ev => tevent_ok ev | Drive _ _ => True end.
Proof. intros Hm. split; [|exact Hm]. intros f. by split; apply (bool_decide_unpack _). Qed.

Lemma runs_ok : actions_ok streamer_joins ∧ actions_ok viewer_watches ∧ actions_ok rival_takes.
Proof.
  assert (frequencies_ok sample_media) as Hm.
  { intros id f ->%sample_frequencies. by apply (bool_decide_unpack _). }
  unfold actions_ok, streamer_joins, viewer_watches, viewer_comes, rival_takes, mail, publish. simpl repeat.
  rewrite !Forall_app, !Forall_cons, !Forall_nil.
  split_and!; try exact I; try (apply loop_ok; exact I); try (apply loop_ok; exact Hm).
  split; [exact in_order_ok|]. apply (bool_decide_unpack _). vm_compute. exact I.
Qed.

(** The state after some actions, which passes a test. *)
Lemma after_reached l test :
  actions_ok l → after l test = true →
  ∃ ts, treachable (P := sample_platform) (D := toy_dtls) 2 ts ∧ test ts = true.
Proof.
  unfold after. intros Hl. destruct (act 2 sample_readings l tserver_init) as [ts| |] eqn:Hrun; [|done..].
  intros Ht. exists ts. split; [|done]. by eapply act_steps.
Qed.

Lemma thread_is_Some i test ts :
  thread_is i test ts = true → ∃ th, p_threads (ts_pool ts) !! i = Some th ∧ test th = true.
Proof. unfold thread_is. destruct (p_threads (ts_pool ts) !! i) as [th|]; [by exists th|done]. Qed.

Definition serving (th : Thread (P := sample_platform)) : bool :=
  bool_decide (snd <$> sending th = Some viewer_addr) &&
  bool_decide (LReceivers 0 ∈ (th_held th).*1).

Lemma serving_reached : ∃ ts th m,
  treachable (P := sample_platform) (D := toy_dtls) 2 ts ∧ idle (p_threads (ts_pool ts)) = true ∧
  p_threads (ts_pool ts) !! 7%nat = Some th ∧ sending th = Some (m, viewer_addr) ∧
  LReceivers 0 ∈ (th_held th).*1.
Proof.
  destruct (after_reached (streamer_joins ++ viewer_watches)
    (λ ts, idle (p_threads (ts_pool ts)) && thread_is 7 serving ts)) as (ts & Hts & Htest).
  - unfold actions_ok. apply Forall_app. split; apply runs_ok.
  - vm_compute. reflexivity.
  - apply andb_prop in Htest as [Hidle (th & Hth & Hs)%thread_is_Some].
    apply andb_prop in Hs as [Hs%bool_decide_eq_true Hl%bool_decide_eq_true].
    destruct (sending th) as [[m a]|] eqn:Hm; [|done]. injection Hs as ->.
    by exists ts, th, m.
Qed.

Lemma handlers_finish_witness : ∃ ts th,
  treachable (P := sample_platform) (D := toy_dtls) 2 ts ∧
  p_threads (ts_pool ts) !! 7%nat = Some th ∧ finished (th_prog th) = false ∧
  Acc (flip (pool_next)) (ts_pool ts).
Proof.
  destruct serving_reached as (ts & th & m & Hts & _ & Hth & (k & Hk)%sending_Some & _).
  exists ts, th. split; [exact Hts|]. split; [exact Hth|]. split; [by rewrite Hk|].
  apply (handlers_finish (D := toy_dtls) 2 ts Hts).
Defined.

(** The viewer has come, and everything is at rest. *)
Definition ready_check (ts : TServer (P := sample_platform)) : bool :=
  let w := p_world (ts_pool ts) in
  forallb (λ th, finished (th_prog th)) (p_threads (ts_pool ts)) &&
  bool_decide (p_clock (ts_pool ts) ≤ 5) &&
  bool_decide (w_storage w !! streamer_addr = Some 0%nat) &&
  match w_clients w !! 0%nat with
  | None => false
  | Some c =>
      bool_decide (c_receivers c !! viewer_addr = Some 1%nat) &&
      match rtp_step Release sample_readings streamer_addr c sample_header (sample_packet 96) with
      | Done (_, Ok (m, _)) => forallb (λ p, bool_decide (is_Some (packet_for (w_clients w) m p.2)))
                                (map_to_list (c_receivers c))
      | _ => false
      end
  end.

Lemma packet_delivered_witness : ∃ ts p0,
  treachable (P := sample_platform) (D := toy_dtls) 2 ts ∧
  tserver_step (D := toy_dtls) 2
    (TRtc sample_readings in_order (sample_packet 96) streamer_addr) ts = Done (with_pool ts p0) ∧
  ∃ p, rtc (pool_next_at sample_readings) p0 p ∧ ∀ p', ¬ pool_next_at sample_readings p p'.
Proof.
  destruct (after_reached (streamer_joins ++ viewer_comes) ready_check) as (ts & Hts & Htest).
  - destruct runs_ok as (H1 & H2 & _). unfold actions_ok in *. apply Forall_app. split; [exact H1|].
    unfold viewer_watches in H2. apply Forall_app in H2. apply H2.
  - vm_compute. reflexivity.
  - unfold ready_check in Htest. cbv zeta in Htest.
    apply andb_prop in Htest as [Htest Hc].
    apply andb_prop in Htest as [Htest Hr%bool_decide_eq_true].
    apply andb_prop in Htest as [Hfin Hclock%bool_decide_eq_true].
    destruct (w_clients (p_world (ts_pool ts)) !! 0%nat) as [c|] eqn:Hcl; [|discriminate Hc].
    apply andb_prop in Hc as [_ Hc].
    destruct (rtp_step Release sample_readings streamer_addr c sample_header (sample_packet 96))
      as [[c' [[m cmd]|e]]| |] eqn:Hstep; [|discriminate Hc..].
    rewrite forallb_forall in Hc.
    destruct (packet_delivered (D := toy_dtls) 2 ts sample_readings in_order (sample_packet 96)
      streamer_addr 0%nat c sample_header c' m cmd) as (p0 & Hp0 & Hrun & _).
    + exact Hts.
    + apply Forall_forall. intros th Hth. rewrite forallb_forall in Hfin. apply Hfin.
      by apply list_elem_of_In.
    + lia.
    + exact Hclock.
    + exact in_order_ok.
    + apply (bool_decide_unpack _). vm_compute. exact I.
    + exact Hr.
    + exact Hcl.
    + reflexivity.
    + reflexivity.
    + exact Hstep.
    + exists ts, p0. split; [exact Hts|]. split; [exact Hp0|exact Hrun].
Defined.

(** The streamer's client has its transport, and the address is in the table. *)
Definition connected_check (ts : TServer (P := sample_platform)) : bool :=
  bool_decide (w_storage (p_world (ts_pool ts)) !! streamer_addr = Some 0%nat) &&
  match w_clients (p_world (ts_pool ts)) !! 0%nat with
  | None => false
  | Some c => match c_srtp c with Some _ => true | None => false end
  end.

Lemma sessions_connect_once_witness : ∃ ts c pg t t0,
  treachable (P := sample_platform) (D := toy_dtls) 2 ts ∧
  w_clients (p_world (ts_pool ts)) !! 0%nat = Some c ∧ c_srtp c = Some t ∧
  pg_srtp pg = Some t0 ∧ descends t0 t ∧ pg_addr pg = streamer_addr.
Proof.
  destruct (after_reached streamer_joins connected_check) as (ts & Hts & Htest).
  - apply runs_ok.
  - vm_compute. reflexivity.
  - unfold connected_check in Htest. apply andb_prop in Htest as [Hst%bool_decide_eq_true Hc].
    destruct (w_clients (p_world (ts_pool ts)) !! 0%nat) as [c|] eqn:Hcl; [|discriminate Hc].
    destruct (c_srtp c) as [t|] eqn:Ht; [|discriminate Hc].
    destruct (sessions_connect_once (D := toy_dtls) 2 ts 0%nat c t Hts Hcl Ht)
      as (_ & i & pg & t0 & ssl & m & _ & _ & Ht0 & _ & Hd & _ & _ & Ha & _).
    exists ts, c, pg, t, t0. split; [exact Hts|]. split; [exact Hcl|]. split; [exact Ht|].
    split; [exact Ht0|]. split; [exact Hd|]. symmetry. exact (Ha streamer_addr Hst).
Defined.

Lemma locks_protect_witness : ∃ ts ts',
  treachable (P := sample_platform) (D := toy_dtls) 2 ts ∧
  tserver_step 2
    (TLoop (LStream (D := toy_dtls) 0 streamer_addr)) ts = Done ts' ∧
  same_data (LReceivers 0) (p_world (ts_pool ts)) (p_world (ts_pool ts')).
Proof.
  destruct serving_reached as (ts & th & m & Hts & Hidle & Hth & _ & Hl).
  exists ts. eexists.
  assert (tserver_step 2
    (TLoop (LStream (D := toy_dtls) 0 streamer_addr)) ts =
    Done (loop_step (LStream (D := toy_dtls) 0 streamer_addr) ts)) as Hs.
  { unfold tserver_step. by rewrite Hidle. }
  split; [exact Hts|]. split; [exact Hs|].
  apply (locks_protect (D := toy_dtls) 2 ts _ _ 7 th (LReceivers 0) Hts Hs Hth Hl).
  discriminate.
Defined.

Lemma store_well_typed_witness : ∃ ts r,
  treachable (P := sample_platform) (D := toy_dtls) 2 ts ∧
  w_storage (p_world (ts_pool ts)) !! viewer_addr = Some r ∧
  is_Some (w_clients (p_world (ts_pool ts)) !! r).
Proof.
  destruct (after_reached (streamer_joins ++ viewer_watches)
    (λ ts, bool_decide (w_storage (p_world (ts_pool ts)) !! viewer_addr = Some 1%nat)))
    as (ts & Hts & Htest%bool_decide_eq_true).
  - unfold actions_ok. apply Forall_app. split; apply runs_ok.
  - vm_compute. reflexivity.
  - exists ts, 1%nat. split; [exact Hts|]. split; [exact Htest|].
    exact (proj1 (store_well_typed (D := toy_dtls) 2 ts Hts) _ _ Htest).
Defined.

Lemma takeover_freezes_server_witness : ∃ ts main,
  treachable (P := sample_platform) (D := toy_dtls) 2 ts ∧
  p_threads (ts_pool ts) !! 5%nat = Some main ∧ self_waiting main ∧
  ∀ ts', rtc (tserver_next (D := toy_dtls) 2) ts ts' → ts_log ts' = ts_log ts.
Proof.
  destruct (after_reached (streamer_joins ++ rival_takes)
    (thread_is 5 (λ th, bool_decide (self_waiting th)))) as (ts & Hts & Htest).
  - unfold actions_ok. apply Forall_app. split; apply runs_ok.
  - vm_compute. reflexivity.
  - apply thread_is_Some in Htest as (main & Hm & Hs%bool_decide_eq_true).
    exists ts, main. split; [exact Hts|]. split; [exact Hm|]. split; [exact Hs|].
    intros ts' Hsteps. apply (takeover_freezes_server (D := toy_dtls) 2 ts ts' 5 main Hm Hs Hsteps).
Defined.

Lemma handlers_alone_witness : ∃ now',
  rtc (alone_next (P := sample_platform) sample_readings)
    (lone (MainThread false) [] (client_step (MsgDelete viewer_addr)) world_init 0)
    (lone (MainThread false) [] (Return ()) world_init now').
Proof.
  apply (handlers_alone (P := sample_platform) sample_readings world_init world_init 0).
  - reflexivity.
  - reflexivity.
  - by apply (bool_decide_unpack _).
  - unfold client_step. rewrite run_bind, handle_delete_absent; [reflexivity| |reflexivity].
    exact (so_world _ server_init_ok).
Defined.
