(* ===== verification/System.v ===== *)
(** * The whole system

    Every component, wired as [main] and [create_udp] do (src/src/main.rs:29-54,
    src/src/server/udp.rs:313-335): the endpoint registers sessions with the receiving
    actor, the socket's datagrams are classified and handled by it, RTP packets go
    through the jitter actor to the workers of the RTC actor, and everything else to
    the client actor. The receiving actor, the client actor and the jitter actor share
    the event loop, which takes no event while a handler of the client actor runs. The
    registrations of a request, the tasks of RTP packets and the workers' mailbox are
    taken in any order. *)

From S2P Require Import Prelude Net Srtp ByteOrder RtpCore Utf8 Text StunParse.
From S2P Require Import Meta Demux Jitter Media Stream Group Clients Store.
From S2P Require Import Threads Rely Runtime Sample ClientActor RtcActor Udp Sdp.
From S2P Require Import Http DtlsTask Server Interleaved Concurrent.
Local Open Scope Z_scope.

Section system.
Context {P : Platform} {D : DtlsLib P} {T : SdpTypes} {S : SdpLib} {Sh : SdpDisplay S}.

(** The task of an RTP packet (src/src/server/udp.rs:150-181) asks the jitter actor, and
    sends the packets it gets to the RTC actor one by one: the next when the reply to
    the last has arrived, that is, when its worker has finished. *)
Inductive Wait := Ready | Queued | Running (worker : nat).

Record Batch := {
  b_addr : SocketAddr;
  b_rest : list DataPacket;
  b_wait : Wait;
  b_all : list DataPacket; (* the whole batch *)
}.

(** A packet in the mailbox of the RTC actor, with the batch whose task waits for it. *)
Definition Mail : Type := option nat * (DataPacket * SocketAddr).

Record System := {
  sy_server : TServer;
  sy_receiving : bool;
  sy_http : list (list UdpMsg);
  sy_jitter : JitterBufferStorage;
  sy_tasks : list (DataPacket * SocketAddr);
  sy_batches : list Batch;
  sy_rtc : list Mail;
  (* what happened so far: the offers, the requests received, the packets the jitter
     actor was asked for, those taken up with their workers, those refused *)
  sy_offers : list (Env * list Z * Z);
  sy_arrived : list WebRtcRequest;
  sy_asked : list (DataPacket * SocketAddr);
  sy_handled : list (nat * Mail);
  sy_lost : list (DataPacket * SocketAddr);
}.

Definition system_init : System :=
  {| sy_server := tserver_init; sy_receiving := true; sy_http := []; sy_jitter := ∅;
     sy_tasks := []; sy_batches := []; sy_rtc := []; sy_offers := []; sy_arrived := [];
     sy_asked := []; sy_handled := []; sy_lost := [] |}.

Inductive SysEvent :=
| SyPost (env : Env) (body : list Z) (group_id : Z)
| SyDeliver (i : nat) (draw : Z → Z * Z * Instant) (now : Instant)
| SyRecv (draw : Z → Z * Z * Instant) (now : Instant) (received : result (list Z * SocketAddr) unit)
| SyClear (now : Instant)
| SyTask (i : nat) (t_new t_elapsed t_now : Instant) (accepted : bool)
| SyTaskFails (i : nat)
| SySend (j : nat) (accepted : bool)
| SyCommand (m : JitterMsg)
| SyRtc (i : nat) (rd : Readings) (s : Schedule)
| SyLoop (e : LoopEvent)
| SyStep (i : nat) (rd : Readings).

(** The tasks a message starts in the receiving actor. *)
Definition rtc_tasks (out : list RecvEffect) : list (DataPacket * SocketAddr) :=
  omap (λ e, match e with SpawnRtcTask m a => Some (m, a) | _ => None end) out.

(** The packets of an answer of the jitter actor: a batch to be sent one by one, or a
    packet that is sent at once. *)
Definition new_batches (addr : SocketAddr) (r : GetOrStoreJitterBufferResponse) : list Batch :=
  match r with
  | Buffer (Some b) => [{| b_addr := addr; b_rest := b; b_wait := Ready; b_all := b |}]
  | _ => []
  end.

Definition at_once (addr : SocketAddr) (r : GetOrStoreJitterBufferResponse) :
    list (DataPacket * SocketAddr) :=
  match r with Packet m => [(m, addr)] | _ => [] end.

(** The reply the task waits for has arrived. *)
Definition answered (ts : list Thread) (b : Batch) : bool :=
  match b_wait b with
  | Ready => true
  | Queued => false
  | Running k => match ts !! k with Some th => finished (th_prog th) | None => false end
  end.

(** The receiving actor takes a message. *)
Definition take_udp (cpus : nat) (draw : Z → Z * Z * Instant) (now : Instant) (m : UdpMsg)
    (http : list (list UdpMsg)) (arrived : list WebRtcRequest) (sy : System) : outcome System :=
  ts ← tserver_step cpus (TLoop (LUdp draw now m)) (sy_server sy);
  Done {| sy_server := ts; sy_receiving := sy_receiving sy; sy_http := http;
          sy_jitter := sy_jitter sy;
          sy_tasks := sy_tasks sy ++ rtc_tasks (udp_step (ts_udp (sy_server sy)) m).2;
          sy_batches := sy_batches sy; sy_rtc := sy_rtc sy; sy_offers := sy_offers sy;
          sy_arrived := arrived; sy_asked := sy_asked sy; sy_handled := sy_handled sy;
          sy_lost := sy_lost sy |}.

Definition with_server (sy : System) (ts : TServer) : System :=
  {| sy_server := ts; sy_receiving := sy_receiving sy; sy_http := sy_http sy;
     sy_jitter := sy_jitter sy; sy_tasks := sy_tasks sy; sy_batches := sy_batches sy;
     sy_rtc := sy_rtc sy; sy_offers := sy_offers sy; sy_arrived := sy_arrived sy;
     sy_asked := sy_asked sy; sy_handled := sy_handled sy; sy_lost := sy_lost sy |}.

(** A change of what is under way between the jitter actor and the workers. *)
Definition with_pipeline (sy : System) (jitter : JitterBufferStorage)
    (tasks : list (DataPacket * SocketAddr)) (batches : list Batch) (mails : list Mail)
    (asked : list (DataPacket * SocketAddr)) (handled : list (nat * Mail))
    (lost : list (DataPacket * SocketAddr)) : System :=
  {| sy_server := sy_server sy; sy_receiving := sy_receiving sy; sy_http := sy_http sy;
     sy_jitter := jitter; sy_tasks := tasks; sy_batches := batches; sy_rtc := mails;
     sy_offers := sy_offers sy; sy_arrived := sy_arrived sy; sy_asked := asked;
     sy_handled := handled; sy_lost := lost |}.

(** The [Rtc] task: it gets the answer of the jitter actor. [do_send] drops the packet
    when the mailbox refuses it. *)
Definition task_step (sy : System) (i : nat) (t0 t1 t2 : Instant) (accepted : bool) :
    outcome System :=
  match sy_tasks sy !! i with
  | None => Stuck
  | Some (message, addr) =>
      '(r, st) ← handle_get_or_store (sy_jitter sy) addr message t0 t1 t2;
      let direct := at_once addr r in
      Done (with_pipeline sy st (delete i (sy_tasks sy))
              (sy_batches sy ++ new_batches addr r)
              (sy_rtc sy ++ (if accepted then (λ q, (None, q)) <$> direct else []))
              (sy_asked sy ++ [(message, addr)]) (sy_handled sy)
              (sy_lost sy ++ (if accepted then [] else direct)))
  end.

(** The jitter actor cannot be asked: the task ends. *)
Definition task_fails (sy : System) (i : nat) : outcome System :=
  match sy_tasks sy !! i with
  | None => Stuck
  | Some p => Done (with_pipeline sy (sy_jitter sy) (delete i (sy_tasks sy)) (sy_batches sy)
                      (sy_rtc sy) (sy_asked sy) (sy_handled sy) (sy_lost sy ++ [p]))
  end.

(** The next packet of a batch: sent, and then the task waits; or refused, and
    [try_collect] ends. *)
Definition send_next (sy : System) (j : nat) (accepted : bool) : outcome System :=
  match sy_batches sy !! j with
  | None => Stuck
  | Some b =>
      match b_rest b with
      | [] => Stuck
      | m :: rest =>
          if negb (answered (p_threads (ts_pool (sy_server sy))) b) then Stuck
          else if accepted then
            Done (with_pipeline sy (sy_jitter sy) (sy_tasks sy)
                    (<[j := {| b_addr := b_addr b; b_rest := rest; b_wait := Queued;
                               b_all := b_all b |}]> (sy_batches sy))
                    (sy_rtc sy ++ [(Some j, (m, b_addr b))])
                    (sy_asked sy) (sy_handled sy) (sy_lost sy))
          else
            Done (with_pipeline sy (sy_jitter sy) (sy_tasks sy)
                    (<[j := {| b_addr := b_addr b; b_rest := []; b_wait := Ready;
                               b_all := b_all b |}]> (sy_batches sy))
                    (sy_rtc sy) (sy_asked sy) (sy_handled sy)
                    (sy_lost sy ++ ((λ m, (m, b_addr b)) <$> m :: rest)))
      end
  end.

(** A worker takes a packet of the mailbox. *)
Definition running (k : nat) (b : Batch) : Batch :=
  {| b_addr := b_addr b; b_rest := b_rest b; b_wait := Running k; b_all := b_all b |}.

Definition worker_takes (cpus : nat) (i : nat) (rd : Readings) (s : Schedule) (sy : System) :
    outcome System :=
  match sy_rtc sy !! i with
  | None => Stuck
  | Some (ticket, (message, addr)) =>
      let k := length (p_threads (ts_pool (sy_server sy))) in
      ts ← tserver_step cpus (TRtc rd s message addr) (sy_server sy);
      Done (with_server
        (with_pipeline sy (sy_jitter sy) (sy_tasks sy)
           (match ticket with
            | Some j => alter (running k) j (sy_batches sy)
            | None => sy_batches sy
            end)
           (delete i (sy_rtc sy)) (sy_asked sy)
           (sy_handled sy ++ [(k, (ticket, (message, addr)))]) (sy_lost sy)) ts)
  end.

(** An event that is not possible now is [Stuck]. *)
Definition system_step (cpus : nat) (sdp_addr : SocketAddr) (ev : SysEvent) (sy : System) :
    outcome System :=
  let idle_loop := idle (p_threads (ts_pool (sy_server sy))) in
  match ev with
  | SyPost env body group_id =>
      Done {| sy_server := sy_server sy; sy_receiving := sy_receiving sy;
              sy_http := sy_http sy ++ [(http_parse_sdp env body group_id sdp_addr).1];
              sy_jitter := sy_jitter sy; sy_tasks := sy_tasks sy; sy_batches := sy_batches sy;
              sy_rtc := sy_rtc sy; sy_offers := sy_offers sy ++ [(env, body, group_id)];
              sy_arrived := sy_arrived sy; sy_asked := sy_asked sy;
              sy_handled := sy_handled sy; sy_lost := sy_lost sy |}
  | SyDeliver i draw now =>
      match sy_http sy !! i with
      | Some (m :: ms) =>
          take_udp cpus draw now m (<[i := ms]> (sy_http sy)) (sy_arrived sy) sy
      | _ => Stuck
      end
  | SyRecv draw now received =>
      if negb (sy_receiving sy && idle_loop) then Stuck else
      o ← recv_step received;
      match o with
      | Some req =>
          take_udp cpus draw now (MsgRequest req) (sy_http sy) (sy_arrived sy ++ [req]) sy
      | None =>
          Done {| sy_server := sy_server sy; sy_receiving := false; sy_http := sy_http sy;
                  sy_jitter := sy_jitter sy; sy_tasks := sy_tasks sy;
                  sy_batches := sy_batches sy; sy_rtc := sy_rtc sy;
                  sy_offers := sy_offers sy; sy_arrived := sy_arrived sy;
                  sy_asked := sy_asked sy; sy_handled := sy_handled sy;
                  sy_lost := sy_lost sy |}
      end
  | SyClear now =>
      take_udp cpus (λ _, (0, 0, 0)) now (MsgClear now) (sy_http sy) (sy_arrived sy) sy
  | SyTask i t0 t1 t2 accepted =>
      if negb idle_loop then Stuck else task_step sy i t0 t1 t2 accepted
  | SyTaskFails i => if negb idle_loop then Stuck else task_fails sy i
  | SySend j accepted => if negb idle_loop then Stuck else send_next sy j accepted
  | SyCommand m =>
      if negb idle_loop then Stuck else
      '(_, st) ← jitter_step (sy_jitter sy) m;
      Done (with_pipeline sy st (sy_tasks sy) (sy_batches sy) (sy_rtc sy) (sy_asked sy)
              (sy_handled sy) (sy_lost sy))
  | SyRtc i rd s => worker_takes cpus i rd s sy
  | SyLoop e => ts ← tserver_step cpus (TLoop e) (sy_server sy); Done (with_server sy ts)
  | SyStep i rd => ts ← tserver_step cpus (TStep i rd) (sy_server sy); Done (with_server sy ts)
  end.

(** What the types guarantee of an event: bytes, [u32] frequencies, the ranges of the
    draws; the thread pool serves every receiver; the server has one identity; the
    jitter actor gets commands beside the packets. *)
Definition draws_ok (draw : Z → Z * Z * Instant) : Prop :=
  ∀ f, is_u32 (draw f).1.1 ∧ is_u16 (draw f).1.2.

Definition sys_event_ok (data : ServerData) (sdp_addr : SocketAddr) (ev : SysEvent) : Prop :=
  match ev with
  | SyPost env body group_id =>
      (∀ d, server_data env = Ok d → d = data) ∧
      (∀ u media, MsgMediaUser u media ∈ (http_parse_sdp env body group_id sdp_addr).1 →
         frequencies_ok media)
  | SyDeliver _ draw _ => draws_ok draw
  | SyRecv draw _ received =>
      draws_ok draw ∧ match received with Ok (d, _) => bytes_ok d | Err _ => True end
  | SyCommand m => match m with GetOrStoreJitterBuffer _ _ _ _ _ => False | _ => True end
  | SyRtc _ _ s => schedule_ok s
  | SyLoop e => match e with LUdp _ _ _ => False | _ => True end
  | _ => True
  end.

Definition system_next (cpus : nat) (data : ServerData) (sdp_addr : SocketAddr)
    (sy sy' : System) : Prop :=
  ∃ ev, sys_event_ok data sdp_addr ev ∧ system_step cpus sdp_addr ev sy = Done sy'.

Definition system_reachable (cpus : nat) (data : ServerData) (sdp_addr : SocketAddr)
    (sy : System) : Prop :=
  rtc (system_next cpus data sdp_addr) system_init sy.
End system.

(** ** Packets in the pipeline *)

Section pipeline.

(** The packets waiting in the jitter buffers. *)
Definition buffered (st : JitterBufferStorage) : list (DataPacket * SocketAddr) :=
  map_to_list st ≫= λ p, (λ m, (m, p.1)) <$> jb_buffer p.2.

Lemma buffered_insert st a j :
  buffered (<[a := j]> st) ≡ₚ ((λ m, (m, a)) <$> jb_buffer j) ++ buffered (delete a st).
Proof.
  unfold buffered. rewrite <- insert_delete_eq.
  rewrite map_to_list_insert by apply lookup_delete_eq. done.
Qed.

Lemma buffered_split st a :
  buffered st ≡ₚ ((λ m, (m, a)) <$> pending a st) ++ buffered (delete a st).
Proof.
  unfold pending. destruct (st !! a) as [j|] eqn:Hj; simpl.
  - rewrite <- (insert_id st a j Hj) at 1. apply buffered_insert.
  - by rewrite delete_id.
Qed.

Lemma take_out {A} (l rest : list A) i x :
  l !! i = Some x → l ++ rest ≡ₚ x :: delete i l ++ rest.
Proof. intros Hi. by rewrite (delete_Permutation l i x Hi) at 1. Qed.

(** The packets of batches that have not been sent. *)
Definition unsent (bs : list Batch) : list (DataPacket * SocketAddr) :=
  bs ≫= λ b, (λ m, (m, b_addr b)) <$> b_rest b.

Lemma unsent_app bs bs' : unsent (bs ++ bs') = unsent bs ++ unsent bs'.
Proof. apply bind_app. Qed.

Lemma unsent_insert bs j b b' :
  bs !! j = Some b →
  ((λ m, (m, b_addr b)) <$> b_rest b) ++ unsent (<[j := b']> bs) ≡ₚ
  ((λ m, (m, b_addr b')) <$> b_rest b') ++ unsent bs.
Proof.
  intros Hj. rewrite (insert_take_drop bs j b' (lookup_lt_Some _ _ _ Hj)).
  rewrite <- (take_drop_middle bs j b Hj) at 3. rewrite !unsent_app. simpl. solve_Permutation.
Qed.

Lemma unsent_alter bs j k : unsent (alter (running k) j bs) = unsent bs.
Proof.
  revert j. induction bs as [|b bs IH]; intros [|j]; [done..|].
  change (((λ m, (m, b_addr b)) <$> b_rest b) ++ unsent (alter (running k) j bs) =
          ((λ m, (m, b_addr b)) <$> b_rest b) ++ unsent bs). by rewrite IH.
Qed.

(** The jitter actor keeps every packet, or hands it over. *)
Lemma get_or_store_keeps `{ByteOrder} `{!NetworkEndian H} st addr message t0 t1 t2 r st' :
  bytes_ok message → handle_get_or_store st addr message t0 t1 t2 = Done (r, st') →
  (message, addr) :: buffered st ≡ₚ
    unsent (new_batches addr r) ++ at_once addr r ++ buffered st'.
Proof.
  intros Hb. unfold handle_get_or_store. rewrite is_rtcp_shape by done. simpl.
  destruct (rtcp_shape message); [by intros [= <- <-]|]. rewrite !entry_pending.
  case_decide; intros [= <- <-]; unfold unsent; simpl;
    rewrite buffered_insert, (buffered_split st addr); simpl;
    rewrite ?fmap_app; simpl; solve_Permutation.
Qed.

Lemma command_keeps `{ByteOrder} st m r st' :
  match m with GetOrStoreJitterBuffer _ _ _ _ _ => False | _ => True end →
  jitter_step st m = Done (r, st') → buffered st' ≡ₚ buffered st.
Proof.
  intros Hm Hs. destruct m as [addr now|addr|]; [| |done]; simpl in Hs.
  - unfold handle_increase in Hs. outcome_inv.
    by rewrite buffered_insert, (buffered_split st addr); simpl; rewrite entry_pending.
  - unfold handle_decrease in Hs. destruct (st !! addr) as [j|] eqn:Hj; [|by outcome_inv].
    case_decide; outcome_inv; [done|].
    rewrite buffered_insert, (buffered_split st addr). simpl. unfold pending. by rewrite Hj.
Qed.
End pipeline.

(** ** The invariant *)

(** The RTP packets among the requests. *)
Definition rtp_of (l : list WebRtcRequest) : list (DataPacket * SocketAddr) :=
  omap (λ q, match q with Rtc m a => Some (m, a) | _ => None end) l.

Section invariant.
Context {P : Platform} {PL : PlatformLaws P} {D : DtlsLib P}.
Context {T : SdpTypes} {S : SdpLib} {Sh : SdpDisplay S}.

(** A message of the receiving actor and where it comes from. *)
Definition origin (sdp_addr : SocketAddr) (offers : list (Env * list Z * Z))
    (arrived : list WebRtcRequest) (m : UdpMsg) : Prop :=
  match m with
  | MsgRequest req => req ∈ arrived
  | MsgClear _ => True
  | _ => ∃ env body gid, (env, body, gid) ∈ offers ∧ m ∈ (http_parse_sdp env body gid sdp_addr).1
  end.

Definition http_ok (sdp_addr : SocketAddr) (offers : list (Env * list Z * Z))
    (arrived : list WebRtcRequest) (m : UdpMsg) : Prop :=
  origin sdp_addr offers arrived m ∧
  match m with
  | MsgMediaUser _ media => frequencies_ok media
  | MsgSession _ _ => True
  | _ => False
  end.

Record system_ok (cpus : nat) (data : ServerData) (sdp_addr : SocketAddr) (sy : System) : Prop := {
  sk_server : treachable cpus (sy_server sy);
  sk_packets : rtp_of (sy_arrived sy) ≡ₚ
    sy_tasks sy ++ buffered (sy_jitter sy) ++ unsent (sy_batches sy) ++ (sy_rtc sy).*2 ++
    (sy_handled sy).*2.*2 ++ sy_lost sy;
  sk_bytes : Forall (λ p, bytes_ok p.1) (rtp_of (sy_arrived sy));
  sk_log : Forall (origin sdp_addr (sy_offers sy) (sy_arrived sy)) (ts_log (sy_server sy));
  sk_http : Forall (Forall (http_ok sdp_addr (sy_offers sy) (sy_arrived sy))) (sy_http sy);
  sk_offers env body gid d : (env, body, gid) ∈ sy_offers sy → server_data env = Ok d → d = data;
  sk_workers addr packet : Worker addr packet ∈ (th_role <$> p_threads (ts_pool (sy_server sy))) →
    (packet, addr) ∈ (sy_handled sy).*2.*2;
}.

(** A worker is started for a packet only. *)
Lemma step_workers cpus ev ts ts' addr packet :
  tserver_step cpus ev ts = Done ts' →
  Worker addr packet ∈ (th_role <$> p_threads (ts_pool ts')) →
  Worker addr packet ∈ (th_role <$> p_threads (ts_pool ts)) ∨ ∃ rd s, ev = TRtc rd s packet addr.
Proof.
  destruct ev as [e|rd s message a|i rd]; unfold tserver_step.
  - destruct (idle _); [|done]. intros [= <-].
    destruct e as [draw now m|r a|i|i acceptor peer]; unfold loop_step.
    + destruct (udp_step (ts_udp ts) m). by left.
    + repeat case_match; by left.
    + destruct (ts_mail ts !! i); [|by left]. simpl. rewrite fmap_app, elem_of_app.
      intros [?|Hin]; [by left|]. by apply list_elem_of_singleton in Hin.
    + destruct (progress ts i) as [pg|]; [|by left].
      destruct (pg_phase pg); try (destruct (w_clients _ !! pg_client pg) as [c|]; [|by left];
        destruct (run_phase _ _ _ c) as [[c' ph'] evs]; by left).
      simpl. rewrite fmap_app, elem_of_app. intros [?|Hin]; [by left|].
      by apply list_elem_of_singleton in Hin.
  - case_decide; [|done]. intros [= <-]. simpl. rewrite fmap_app, elem_of_app.
    intros [?|Hin]; [by left|]. right. apply list_elem_of_singleton in Hin as [= -> ->]. by eexists _, _.
  - destruct (pool_step i rd (ts_pool ts)) as [p'| |] eqn:Hs; [|done..]. intros [= <-].
    apply pool_step_inv in Hs as (th & th' & w' & Hi & _ & _ & Hs & ->). simpl.
    rewrite list_fmap_insert. apply thread_step_rest in Hs as [_ ->].
    rewrite list_insert_id; [by left|]. by rewrite list_lookup_fmap, Hi.
Qed.

(** The messages an offer registers. *)
Lemma register_messages env su gid b media k users m :
  m ∈ (register env su gid b media k users).1 →
  match m with
  | MsgSession s item => group_id item = gid ∧ ∃ u, u ∈ users ∧ s = session_new su u
  | MsgMediaUser u media' => u ∈ users ∧ media' = media
  | _ => False
  end.
Proof.
  revert k m. induction users as [|u users IH]; intros k m; cbn [register].
  { by intros ?%elem_of_nil. }
  assert (∀ x, x ∈ (register env su gid b media (1 + k) users).1 →
    match x with
    | MsgSession s item => group_id item = gid ∧ ∃ v, v ∈ u :: users ∧ s = session_new su v
    | MsgMediaUser v media' => v ∈ u :: users ∧ media' = media
    | _ => False
    end) as Hrest.
  { intros x Hx%IH. destruct x; try done.
    - destruct Hx as (? & v & ? & ?). split; [done|]. exists v. split; [by right|done].
    - destruct Hx. split; [by right|done]. }
  clear IH.
  assert (u ∈ u :: users) as Hu by apply list_elem_of_here.
  destruct (recv env (2 * k)) as [r1|e1], (recv env (2 * k + 1)) as [r2|e2].
  - destruct (register env su gid b media (1 + k) users) as [sent r]. simpl in *.
    rewrite !elem_of_cons. intros [->|[->|Hin]]; [|by split|by apply Hrest].
    split; [done|]. by exists u.
  - simpl. intros ->%list_elem_of_singleton. split; [done|]. by exists u.
  - simpl. intros ->%list_elem_of_singleton. by split.
  - by intros ?%elem_of_nil.
Qed.

(** A request's messages are those of a parsed offer. *)
Lemma http_messages env body gid addr m :
  m ∈ (http_parse_sdp env body gid addr).1 →
  ∃ text req d, from_utf8 body = Some text ∧ parse_sdp text true = Ok req ∧
    server_data env = Ok d ∧
    match m with
    | MsgSession s item => group_id item = gid ∧
        ∃ u, u ∈ client_users (session_media req) ∧ s = session_new (user (meta d)) u
    | MsgMediaUser _ _ => True
    | _ => False
    end.
Proof.
  unfold http_parse_sdp. destruct (from_utf8 body) as [text|]; [|by intros ?%elem_of_nil].
  unfold generate_streamer_response.
  destruct (parse_sdp text true) as [req|e] eqn:Hparse; [|by intros ?%elem_of_nil].
  destruct (server_data env) as [d|e] eqn:Hd; [|by intros ?%elem_of_nil].
  destruct (session_name req) as [name|]; [|by intros ?%elem_of_nil].
  set (b := bool_decide _). set (media := media_from_vec _).
  pose proof (register_messages env (user (meta d)) gid b media 0 (client_users (session_media req)) m)
    as Hreg. fold b media in Hreg |- *.
  destruct (register _ _ _ _ _ _ _) as [sent r]. simpl in *. intros Hin.
  exists text, req, d. do 3 (split; [done|]). specialize (Hreg Hin). by destruct m.
Qed.

Lemma origin_mono sdp_addr offers offers' arrived arrived' m :
  offers ⊆ offers' → arrived ⊆ arrived' →
  origin sdp_addr offers arrived m → origin sdp_addr offers' arrived' m.
Proof.
  intros Ho Ha. destruct m as [req| | |]; simpl; [apply Ha|done|..];
    intros (env & body & gid & Hin & Hm); exists env, body, gid; split; try done; by apply Ho.
Qed.

Lemma udp_tasks st m :
  rtc_tasks (udp_step st m).2 = match m with MsgRequest req => rtp_of [req] | _ => [] end.
Proof.
  destruct m as [[req a| | |]| | |]; try done. simpl.
  destruct (sessions st !! _); [|done]. simpl. by destruct (media_sessions st !! _).
Qed.

Lemma loop_log e ts :
  match e with LUdp _ _ _ => False | _ => True end → ts_log (loop_step e ts) = ts_log ts.
Proof.
  intros He. destruct e as [|r a|i|i acceptor peer]; [done|..]; simpl.
  - repeat case_match; done.
  - by destruct (ts_mail ts !! i).
  - repeat case_match; done.
Qed.

Lemma take_udp_ok cpus data sdp_addr draw now m http arrived sy sy' :
  system_ok cpus data sdp_addr sy → draws_ok draw →
  match m with MsgMediaUser _ media => frequencies_ok media | _ => True end →
  rtp_of arrived = rtp_of (sy_arrived sy) ++
    match m with MsgRequest req => rtp_of [req] | _ => [] end →
  sy_arrived sy ⊆ arrived → Forall (λ p, bytes_ok p.1) (rtp_of arrived) →
  origin sdp_addr (sy_offers sy) arrived m →
  Forall (Forall (http_ok sdp_addr (sy_offers sy) arrived)) http →
  take_udp cpus draw now m http arrived sy = Done sy' → system_ok cpus data sdp_addr sy'.
Proof.
  intros [Hsv Hpk Hby Hlog Hhttp Hoff Hwk] Hdraw Hfreq Harr Hsub Hby' Horig Hhttp'.
  unfold take_udp.
  destruct (tserver_step cpus (TLoop (LUdp draw now m)) (sy_server sy)) as [ts| |] eqn:Hs; [|done..].
  intros [= <-]. split; simpl.
  - eapply rtc_r; [exact Hsv|]. by exists (TLoop (LUdp draw now m)).
  - rewrite Harr, Hpk, udp_tasks. solve_Permutation.
  - done.
  - unfold tserver_step in Hs. destruct (idle _); [|done]. injection Hs as <-. simpl.
    destruct (udp_step (ts_udp (sy_server sy)) m). simpl. apply Forall_app. split.
    + eapply Forall_impl; [exact Hlog|]. intros x. by apply origin_mono.
    + by apply Forall_singleton.
  - done.
  - done.
  - intros addr packet Hin. destruct (step_workers _ _ _ _ _ _ Hs Hin) as [?|(? & ? & ?)]; [by apply Hwk|done].
Qed.

(** A step of the server that takes no message. *)
Lemma server_step_system_ok cpus data sdp_addr ev sy ts :
  system_ok cpus data sdp_addr sy → tevent_ok ev →
  match ev with TLoop (LUdp _ _ _) | TRtc _ _ _ _ => False | _ => True end →
  tserver_step cpus ev (sy_server sy) = Done ts → system_ok cpus data sdp_addr (with_server sy ts).
Proof.
  intros [Hsv Hpk Hby Hlog Hhttp Hoff Hwk] Hev Hno Hs. split; simpl; try done.
  - eapply rtc_r; [exact Hsv|]. by exists ev.
  - assert (ts_log ts = ts_log (sy_server sy)) as ->; [|done].
    unfold tserver_step in Hs. destruct ev as [e| |i rd]; [|done|].
    + destruct (idle _); [|done]. injection Hs as <-. apply loop_log. by destruct e.
    + destruct (pool_step i rd _); by simplify_eq/=.
  - intros addr packet Hin. destruct (step_workers _ _ _ _ _ _ Hs Hin) as [?|(? & ? & ->)]; [by apply Hwk|done].
Qed.

Lemma rtp_of_app l l' : rtp_of (l ++ l') = rtp_of l ++ rtp_of l'.
Proof. apply omap_app. Qed.

Lemma recv_bytes (received : result (list Z * SocketAddr) unit) req :
  match received with Ok (d, _) => bytes_ok d | Err _ => True end →
  recv_step received = Done (Some req) → Forall (λ p, bytes_ok p.1) (rtp_of [req]).
Proof.
  destruct received as [[d a]|e]; [|done]. intros Hd. unfold recv_step.
  destruct (webrtc_from (take RECV_BUFFER_LEN d) a) as [q| |] eqn:Hq; [|done..].
  intros [= <-]. revert Hq. unfold webrtc_from.
  destruct (is_rtp_header _) as [[]| |]; [|..|done|done]; simpl.
  - intros [= <-]. apply Forall_singleton. by apply Forall_take.
  - destruct (parse_stun_binding_request _) as [[st|]| |]; [..|done|done]; simpl;
      [by intros [= <-]|].
    destruct (is_dtls _) as [[]| |]; [..|done|done]; simpl; by intros [= <-].
Qed.

Lemma task_step_ok cpus data sdp_addr i t0 t1 t2 acc sy sy' :
  system_ok cpus data sdp_addr sy → task_step sy i t0 t1 t2 acc = Done sy' →
  system_ok cpus data sdp_addr sy'.
Proof.
  intros [Hsv Hpk Hby Hlog Hhttp Hoff Hwk]. unfold task_step.
  destruct (sy_tasks sy !! i) as [[message addr]|] eqn:Hi; [|done].
  destruct (handle_get_or_store _ _ _ _ _ _) as [[r st]| |] eqn:Hr; [|done..]. intros [= <-].
  assert (bytes_ok message) as Hb.
  { rewrite Forall_forall in Hby. apply (Hby (message, addr)). rewrite Hpk.
    apply elem_of_app. left. by eapply list_elem_of_lookup_2. }
  pose proof (get_or_store_keeps _ _ _ _ _ _ _ _ Hb Hr) as Hkeep.
  split; simpl; try done.
  rewrite Hpk, (take_out _ _ _ _ Hi), unsent_app, fmap_app.
  transitivity (delete i (sy_tasks sy) ++ ((message, addr) :: buffered (sy_jitter sy)) ++
    unsent (sy_batches sy) ++ (sy_rtc sy).*2 ++ (sy_handled sy).*2.*2 ++ sy_lost sy);
    [solve_Permutation|].
  rewrite Hkeep. destruct acc; [|solve_Permutation].
  assert (((λ q : DataPacket * SocketAddr, (@None nat, q)) <$> at_once addr r).*2 = at_once addr r)
    as -> by (destruct r; done). solve_Permutation.
Qed.

Lemma send_next_ok cpus data sdp_addr j acc sy sy' :
  system_ok cpus data sdp_addr sy → send_next sy j acc = Done sy' →
  system_ok cpus data sdp_addr sy'.
Proof.
  intros [Hsv Hpk Hby Hlog Hhttp Hoff Hwk]. unfold send_next.
  destruct (sy_batches sy !! j) as [b|] eqn:Hj; [|done].
  destruct (b_rest b) as [|m rest] eqn:Hrest; [done|]. destruct (negb _); [done|].
  destruct acc; intros [= <-]; split; simpl; try done; rewrite Hpk.
  - pose proof (unsent_insert _ _ _ {| b_addr := b_addr b; b_rest := rest; b_wait := Queued;
      b_all := b_all b |} Hj) as Hu. rewrite Hrest in Hu. simpl in Hu.
    apply (Permutation_app_inv_l ((λ m, (m, b_addr b)) <$> rest)).
    rewrite fmap_app. simpl.
    transitivity (sy_tasks sy ++ buffered (sy_jitter sy) ++
      (((λ m, (m, b_addr b)) <$> rest) ++ unsent (sy_batches sy)) ++ (sy_rtc sy).*2 ++
      (sy_handled sy).*2.*2 ++ sy_lost sy); [solve_Permutation|].
    rewrite <- Hu. solve_Permutation.
  - pose proof (unsent_insert _ _ _ {| b_addr := b_addr b; b_rest := []; b_wait := Ready;
      b_all := b_all b |} Hj) as Hu. rewrite Hrest in Hu. simpl in Hu.
    rewrite <- Hu. solve_Permutation.
Qed.

Lemma worker_takes_ok cpus data sdp_addr i rd s sy sy' :
  system_ok cpus data sdp_addr sy → schedule_ok s → worker_takes cpus i rd s sy = Done sy' →
  system_ok cpus data sdp_addr sy'.
Proof.
  intros [Hsv Hpk Hby Hlog Hhttp Hoff Hwk] Hsch. unfold worker_takes.
  destruct (sy_rtc sy !! i) as [[ticket [message addr]]|] eqn:Hi; [|done].
  destruct (tserver_step cpus (TRtc rd s message addr) (sy_server sy)) as [ts| |] eqn:Hs; [|done..].
  intros [= <-]. assert ((sy_rtc sy).*2 !! i = Some (message, addr)) as Hi2.
  { rewrite list_lookup_fmap. exact (f_equal (fmap snd) Hi). }
  assert (bytes_ok message) as Hb.
  { rewrite Forall_forall in Hby. apply (Hby (message, addr)). rewrite Hpk, !elem_of_app.
    do 3 right; left. by eapply list_elem_of_lookup_2. }
  split; simpl; try done.
  - eapply rtc_r; [exact Hsv|]. by exists (TRtc rd s message addr).
  - rewrite Hpk, (take_out _ _ _ _ Hi2), !fmap_app. simpl.
    assert (unsent (match ticket with
                    | Some j => alter (running (length (p_threads (ts_pool (sy_server sy))))) j
                                  (sy_batches sy)
                    | None => sy_batches sy
                    end) = unsent (sy_batches sy)) as ->.
    { destruct ticket; [apply unsent_alter|done]. }
    rewrite list_fmap_delete. solve_Permutation.
  - unfold tserver_step in Hs. case_decide; [|done]. by injection Hs as <-.
  - intros a packet Hin. rewrite !fmap_app, elem_of_app.
    destruct (step_workers _ _ _ _ _ _ Hs Hin) as [?|(rd' & s' & [= <- <- <- <-])];
      [left; by apply Hwk|right; set_solver].
Qed.

Lemma post_ok cpus data sdp_addr env body gid sy sy' :
  system_ok cpus data sdp_addr sy → sys_event_ok data sdp_addr (SyPost env body gid) →
  system_step cpus sdp_addr (SyPost env body gid) sy = Done sy' →
  system_ok cpus data sdp_addr sy'.
Proof.
  intros [Hsv Hpk Hby Hlog Hhttp Hoff Hwk] [Hdata Hfreq] [= <-].
  assert (∀ m, origin sdp_addr (sy_offers sy) (sy_arrived sy) m →
    origin sdp_addr (sy_offers sy ++ [(env, body, gid)]) (sy_arrived sy) m) as Hmono.
  { intros m. apply origin_mono; set_solver. }
  split; simpl; try done.
  - eapply Forall_impl; [exact Hlog|]. apply Hmono.
  - apply Forall_app. split.
    + eapply Forall_impl; [exact Hhttp|]. intros l Hl. eapply Forall_impl; [exact Hl|].
      intros m [Ho Hm]. split; [by apply Hmono|done].
    + apply Forall_singleton, Forall_forall. intros m Hm.
      pose proof (http_messages _ _ _ _ _ Hm) as (text & req & d & _ & _ & _ & Hkind).
      destruct m as [| |s item|u media]; [done|done|..]; (split; [|by eauto]);
        exists env, body, gid; set_solver.
  - intros env' body' gid' d [Hin|[= -> -> ->]%list_elem_of_singleton]%elem_of_app Hd;
      [by eapply Hoff|by apply Hdata].
Qed.

Lemma system_step_ok cpus data sdp_addr ev sy sy' :
  system_ok cpus data sdp_addr sy → sys_event_ok data sdp_addr ev →
  system_step cpus sdp_addr ev sy = Done sy' → system_ok cpus data sdp_addr sy'.
Proof.
  intros Hsy Hev. pose proof Hsy as [Hsv Hpk Hby Hlog Hhttp Hoff Hwk].
  destruct ev as [env body gid|i draw now|draw now received|now|i t0 t1 t2 acc|i|j acc|m|i rd s|e|i rd];
    unfold system_step; cbv zeta.
  - by apply (post_ok cpus data sdp_addr env body gid).
  - destruct (sy_http sy !! i) as [[|m ms]|] eqn:Hi; [done| |done].
    pose proof (Forall_lookup_1 _ _ _ _ Hhttp Hi) as [[Ho Hm] Hms]%Forall_cons.
    apply take_udp_ok; try done.
    + by destruct m.
    + destruct m; try done; by rewrite app_nil_r.
    + by apply Forall_insert.
  - destruct (negb _); [done|]. destruct Hev as [Hdraw Hbytes].
    destruct (recv_step received) as [[req|]| |] eqn:Hr; [..|done|done].
    + change (take_udp cpus draw now (MsgRequest req) (sy_http sy) (sy_arrived sy ++ [req]) sy = Done sy' →
              system_ok cpus data sdp_addr sy').
      apply take_udp_ok; try done.
      * by rewrite rtp_of_app.
      * set_solver.
      * rewrite rtp_of_app. apply Forall_app. split; [done|by eapply recv_bytes].
      * set_solver.
      * eapply Forall_impl; [exact Hhttp|]. intros l Hl. eapply Forall_impl; [exact Hl|].
        intros m [Ho Hm]. split; [|done]. eapply origin_mono; [done| |done]. set_solver.
    + intros [= <-]. by split.
  - apply take_udp_ok; try done. by rewrite app_nil_r.
  - destruct (negb _); [done|]. by apply task_step_ok.
  - destruct (negb _); [done|]. unfold task_fails.
    destruct (sy_tasks sy !! i) as [q|] eqn:Hi; [|done]. intros [= <-]. split; simpl; try done.
    rewrite Hpk, (take_out _ _ _ _ Hi). solve_Permutation.
  - destruct (negb _); [done|]. by apply send_next_ok.
  - destruct (negb _); [done|].
    destruct (jitter_step (sy_jitter sy) m) as [[r st]| |] eqn:Hr; [|done..]. intros [= <-].
    split; simpl; try done. by rewrite (command_keeps _ _ _ _ Hev Hr).
  - by apply worker_takes_ok.
  - destruct (tserver_step cpus (TLoop e) (sy_server sy)) as [ts| |] eqn:Hs; [|done..].
    intros [= <-]. eapply server_step_system_ok; [done| | |exact Hs]; by destruct e.
  - destruct (tserver_step cpus (TStep i rd) (sy_server sy)) as [ts| |] eqn:Hs; [|done..].
    intros [= <-]. by apply (server_step_system_ok _ _ _ (TStep i rd)).
Qed.

Lemma system_reachable_ok cpus data sdp_addr sy :
  system_reachable cpus data sdp_addr sy → system_ok cpus data sdp_addr sy.
Proof.
  intros Hsy. unfold system_reachable in Hsy.
  assert (system_ok cpus data sdp_addr system_init) as Hok.
  { split; simpl; try by constructor.
    - by intros env body gid d ?%elem_of_nil.
    - by intros addr packet ?%elem_of_nil. }
  induction Hsy as [|sy sy1 sy2 (ev & Hev & Hs) _ IH]; [done|].
  apply IH. by eapply system_step_ok.
Qed.
End invariant.

(** ** The properties *)

Section properties.
Context {P : Platform} {PL : PlatformLaws P} {D : DtlsLib P}.
Context {T : SdpTypes} {S : SdpLib} {Sh : SdpDisplay S}.

(** The address was let into the group: an offer posted for the group names a user,
    and a STUN request from the address named that user and the server. *)
Definition admitted (data : ServerData) (sy : System) (gid : Z) (a : SocketAddr) : Prop :=
  ∃ env body text req u stun,
    (env, body, gid) ∈ sy_offers sy ∧ from_utf8 body = Some text ∧
    parse_sdp text true = Ok req ∧ u ∈ client_users (session_media req) ∧
    Stun stun a ∈ sy_arrived sy ∧ remote_user stun = u ∧
    StunParse.server_user stun = user (meta data).

Lemma joined_admitted cpus data sdp_addr sy gid a :
  system_ok cpus data sdp_addr sy → joined (ts_log (sy_server sy)) gid a →
  admitted data sy gid a.
Proof.
  intros Hsy (l1 & l2 & l3 & req & item & Hl & _ & Hg). pose proof (sk_log _ _ _ _ Hsy) as Hlog.
  rewrite Hl, Forall_app, Forall_cons, Forall_app, Forall_cons in Hlog.
  destruct Hlog as (_ & (env & body & gid' & Hin & Hm) & _ & Harr & _). simpl in Harr.
  destruct (http_messages _ _ _ _ _ Hm) as (text & sdp & d & Htext & Hparse & Hd & Hgid & u & Hu & Hs).
  assert (gid' = gid) as -> by congruence. unfold session_new in Hs. injection Hs as Hs1 Hs2.
  pose proof (sk_offers _ _ _ _ Hsy _ _ _ _ Hin Hd) as ->.
  exists env, body, text, sdp, u, req. by subst u.
Qed.

(** Whatever the clients, the peers, the clock and the schedulers do, a datagram of RTP is
    sent only by a worker that handles an RTP packet received from some address: it is
    that packet, read with the keys of a handshake with that address and encrypted with
    the keys of one with its destination, and its destination was let into a group of
    that address: for both, an offer posted to the endpoint of that group named a user
    that a STUN request from the address then named. *)
Lemma packets_reach_admitted_clients cpus data sdp_addr sy i th d a k :
  system_reachable cpus data sdp_addr sy →
  p_threads (ts_pool (sy_server sy)) !! i = Some th →
  th_prog th = Perform (OSend (UdpSend (Rtc d a))) k →
  ∃ addr packet gid, th_role th = Worker addr packet ∧ Rtc packet addr ∈ sy_arrived sy ∧
    admitted data sy gid addr ∧ admitted data sy gid a ∧
    relayed (sy_server sy) addr packet a d.
Proof.
  intros Hsy%system_reachable_ok Hi Hp.
  destruct (threads_in_group cpus (sy_server sy) i th d a k)
    as (addr & packet & Hrole & (gid & H1 & H2) & Hrel); [apply Hsy|done|done|].
  assert ((packet, addr) ∈ (sy_handled sy).*2.*2) as Hh.
  { apply (sk_workers _ _ _ _ Hsy). rewrite <- Hrole. apply list_elem_of_fmap_2.
    by eapply list_elem_of_lookup_2. }
  assert ((packet, addr) ∈ rtp_of (sy_arrived sy)) as (q & Hq & Heq)%list_elem_of_omap.
  { rewrite (sk_packets _ _ _ _ Hsy), !elem_of_app. do 4 right. by left. }
  destruct q; simplify_eq/=. exists addr, packet, gid. split; [done|]. split; [done|].
  split_and!; [by eapply joined_admitted..|done].
Qed.

(** C8. No RTP packet is lost or duplicated on its way to the workers: in every state
    the system can reach the packets received are, each once, those of tasks waiting
    for the jitter actor, those in its buffers, those of batches not yet sent, those in
    the mailbox of the workers, those taken up by a worker, and those refused. *)
Theorem packets_accounted cpus data sdp_addr sy :
  system_reachable cpus data sdp_addr sy →
  rtp_of (sy_arrived sy) ≡ₚ
    sy_tasks sy ++ buffered (sy_jitter sy) ++ unsent (sy_batches sy) ++ (sy_rtc sy).*2 ++
    (sy_handled sy).*2.*2 ++ sy_lost sy.
Proof. intros Hsy%system_reachable_ok. apply Hsy. Qed.
End properties.

(** ** A run of the system *)

Section runs.
Context {P : Platform} {D : DtlsLib P} {T : SdpTypes} {S : SdpLib} {Sh : SdpDisplay S}.

Inductive SysAction := SDo (ev : SysEvent) | SDrive (i : nat) (stop : Thread → bool).

Fixpoint sys_act (cpus : nat) (sdp_addr : SocketAddr) (rd : Readings) (l : list SysAction)
    (sy : System) : outcome System :=
  match l with
  | [] => Done sy
  | SDo ev :: l => sy ← system_step cpus sdp_addr ev sy; sys_act cpus sdp_addr rd l sy
  | SDrive i stop :: l =>
      let ts := sy_server sy in
      sys_act cpus sdp_addr rd l (with_server sy (with_pool ts (drive 100 rd i stop (ts_pool ts))))
  end.

Lemma sys_drive_steps cpus data sdp_addr fuel rd i stop sy :
  rtc (system_next cpus data sdp_addr) sy
    (with_server sy (with_pool (sy_server sy) (drive fuel rd i stop (ts_pool (sy_server sy))))).
Proof.
  revert sy. induction fuel as [|fuel IH]; intros sy.
  { cbn [drive]. destruct (p_threads (ts_pool (sy_server sy)) !! i); by destruct sy as [[]]. }
  cbn [drive]. destruct (p_threads (ts_pool (sy_server sy)) !! i) as [th|]; [|by destruct sy as [[]]].
  destruct (stop th); [by destruct sy as [[]]|].
  destruct (pool_step i rd (ts_pool (sy_server sy))) as [p| |] eqn:Hs; [|by destruct sy as [[]]..].
  eapply rtc_l; [|apply (IH (with_server sy (with_pool (sy_server sy) p)))].
  exists (SyStep i rd). split; [done|]. unfold system_step, tserver_step. by rewrite Hs.
Qed.

Lemma sys_act_steps cpus data sdp_addr rd l sy sy' :
  Forall (λ a, match a with SDo ev => sys_event_ok data sdp_addr ev | SDrive _ _ => True end) l →
  sys_act cpus sdp_addr rd l sy = Done sy' → rtc (system_next cpus data sdp_addr) sy sy'.
Proof.
  intros Hl. revert sy. induction Hl as [|a l Ha _ IH]; intros sy; cbn [sys_act].
  - by intros [= <-].
  - destruct a as [ev|i stop].
    + destruct (system_step cpus sdp_addr ev sy) as [sy1| |] eqn:Hs; [|done..].
      intros Hrun. apply (rtc_l _ _ sy1); [by exists ev|by apply IH].
    + intros Hrun. etrans; [by apply (sys_drive_steps cpus data sdp_addr 100 rd i stop)|by apply IH].
Qed.
End runs.

(** Two clients answer offers for the same group, connect and send their STUN requests;
    a packet of the first is forwarded to the second. *)
Definition toy_data : ServerData :=
  {| meta := {| user := str "srv"; password := str "secret" |}; digest := [1; 2; 3] |}.
Definition toy_sdp_addr : SocketAddr := V4 [127; 0; 0; 1] 3336.

Abbreviation sample_action := (SysAction (P := sample_platform) (D := toy_dtls)).

Definition datagram (d : list Z) (addr : SocketAddr) : sample_action :=
  SDo (SyRecv (D := toy_dtls) sample_draw 0 (Ok (d, addr))).
Definition sys_mail (i : nat) : list sample_action :=
  [SDo (SyLoop (LClient (D := toy_dtls) 0)); SDrive i never].
Definition sys_publish (t i : nat) : list sample_action :=
  repeat (SDo (SyLoop (LTask (D := toy_dtls) t () eager_peer))) 4 ++ [SDrive i never].
Definition client_joins (t i : nat) (addr : SocketAddr) : list sample_action :=
  [datagram [22; 1] addr] ++ sys_mail i ++ sys_publish t (i + 1) ++
  [datagram (sample_request 24) addr] ++ sys_mail (i + 2) ++ sys_mail (i + 3).

Definition clients_join : list sample_action :=
  SDo (SyPost (D := toy_dtls) toy_env (str "v=0") 7) ::
  replicate 4 (SDo (SyDeliver (D := toy_dtls) 0 sample_draw 0)) ++
  client_joins 0 0 streamer_addr ++ client_joins 1 4 viewer_addr.

Definition sample_system_run : list sample_action :=
  clients_join ++
  [datagram (sample_packet 96) streamer_addr;
   SDo (SyTask (D := toy_dtls) 0 0 (from_millis 60) (from_millis 60) true); SDo (SySend (D := toy_dtls) 0 true);
   SDo (SyRtc (D := toy_dtls) 0 sample_readings in_order); SDrive 8 at_send].

Definition sample_system_check : bool :=
  match sys_act (S := toy_sdp) (Sh := toy_display) 2 toy_sdp_addr sample_readings
          sample_system_run system_init with
  | Done sy => thread_is 8 (λ th, bool_decide (snd <$> sending th = Some viewer_addr)) (sy_server sy)
  | _ => false
  end.

Definition media_check (m : UdpMsg (B := gmap_bimap)) : bool :=
  match m with
  | MsgMediaUser _ media => bool_decide (map_Forall (λ _ f, is_u32 f) (media_frequencies media))
  | _ => true
  end.

Lemma media_check_ok u media :
  media_check (MsgMediaUser u media) = true → frequencies_ok (P := sample_platform) media.
Proof. intros Hc%bool_decide_eq_true id f Hf. exact (Hc id f Hf). Qed.

Definition sys_actions_ok (l : list sample_action) : Prop :=
  Forall (λ a, match a with
               | SDo ev => sys_event_ok (S := toy_sdp) (Sh := toy_display) toy_data toy_sdp_addr ev
               | SDrive _ _ => True
               end) l.

Lemma datagram_ok d addr :
  bytes_ok d → match datagram d addr with
               | SDo ev => sys_event_ok (S := toy_sdp) (Sh := toy_display) toy_data toy_sdp_addr ev
               | SDrive _ _ => True
               end.
Proof. intros Hd. split; [|exact Hd]. intros f. by split; apply (bool_decide_unpack _). Qed.

Lemma clients_join_ok : sys_actions_ok clients_join.
Proof.
  unfold sys_actions_ok, clients_join, client_joins, sys_mail, sys_publish. simpl replicate. simpl repeat.
  rewrite !Forall_cons, !Forall_app, !Forall_cons, !Forall_nil.
  split_and!; try exact I;
    try (apply datagram_ok; apply (bool_decide_unpack _); vm_compute; exact I);
    try (intros f; by split; apply (bool_decide_unpack _)).
  split.
  - intros d [= <-]. reflexivity.
  - intros u media Hin.
    assert (forallb media_check (http_parse_sdp (S := toy_sdp) (Sh := toy_display)
      (B := gmap_bimap) toy_env (str "v=0") 7 toy_sdp_addr).1 = true) as Hcheck
      by (vm_compute; reflexivity).
    rewrite forallb_forall in Hcheck. apply list_elem_of_In, Hcheck in Hin.
    exact (media_check_ok u media Hin).
Qed.

Lemma sample_run_ok : sys_actions_ok sample_system_run.
Proof.
  unfold sample_system_run, sys_actions_ok. apply Forall_app. split; [apply clients_join_ok|].
  rewrite !Forall_cons, Forall_nil. split_and!; try exact I; try exact in_order_ok.
  apply datagram_ok. apply (bool_decide_unpack _). vm_compute. exact I.
Qed.

Lemma sample_system_reached : ∃ sy th m,
  system_reachable (P := sample_platform) (D := toy_dtls) (S := toy_sdp) (Sh := toy_display) 2
    toy_data toy_sdp_addr sy ∧
  p_threads (ts_pool (sy_server sy)) !! 8%nat = Some th ∧ sending th = Some (m, viewer_addr).
Proof.
  assert (sample_system_check = true) as Hcheck by (vm_compute; reflexivity). revert Hcheck.
  unfold sample_system_check.
  destruct (sys_act 2 toy_sdp_addr sample_readings sample_system_run system_init) as [sy| |] eqn:Hrun;
    [|discriminate 1..].
  intros (th & Hth & Hs%bool_decide_eq_true)%thread_is_Some.
  destruct (sending th) as [[m a]|] eqn:Hm; [|discriminate Hs]. injection Hs as ->.
  exists sy, th, m. split; [|split; [exact Hth|exact Hm]].
  eapply sys_act_steps; [apply sample_run_ok|exact Hrun].
Qed.

Lemma packets_accounted_witness : ∃ sy,
  rtp_of (sy_arrived sy) ≡ₚ
    sy_tasks sy ++ buffered (sy_jitter sy) ++ unsent (sy_batches sy) ++ (sy_rtc sy).*2 ++
    (sy_handled sy).*2.*2 ++ sy_lost sy ∧
  p_threads (ts_pool (sy_server sy)) ≠ [].
Proof.
  destruct sample_system_reached as (sy & th & m & Hsy & Hth & _). exists sy. split.
  - apply (packets_accounted (D := toy_dtls) (S := toy_sdp) (Sh := toy_display) 2 toy_data
      toy_sdp_addr sy Hsy).
  - intros Hnil. rewrite Hnil in Hth. discriminate Hth.
Defined.
