(* ===== verification/Ordering.v ===== *)
(** * The order of packets

    From the receiving actor to the workers, packets of an address keep their order
    within a batch of the jitter actor, and may lose it between batches. *)

From S2P Require Import Prelude Net Srtp ByteOrder RtpCore Utf8 Text StunParse.
From S2P Require Import Meta Demux Jitter Media Stream Group Clients Store.
From S2P Require Import Threads Rely Runtime Sample ClientActor RtcActor Udp Sdp.
From S2P Require Import Http DtlsTask Server Interleaved Concurrent System.
Local Open Scope Z_scope.

Section ordering.
Context {P : Platform} {PL : PlatformLaws P} {D : DtlsLib P}.
Context {T : SdpTypes} {S : SdpLib} {Sh : SdpDisplay S}.

(** The packets of a batch among the mails. *)
Definition tickets (j : nat) (l : list Mail) : list (DataPacket * SocketAddr) :=
  omap (λ p : Mail, if decide (p.1 = Some j) then Some p.2 else None) l.

#[local] Arguments tickets j l : simpl never.

Definition labelled (a : SocketAddr) (l : list DataPacket) : list (DataPacket * SocketAddr) :=
  (λ m, (m, a)) <$> l.

(** The RTP packets of an address that reached the jitter actor, and its batches. *)
Definition asked_of (a : SocketAddr) (l : list (DataPacket * SocketAddr)) : list DataPacket :=
  l ≫= λ p, packet_of a (GetOrStoreJitterBuffer p.2 p.1 0 0 0).

Definition batches_of (a : SocketAddr) (bs : list Batch) : list DataPacket :=
  bs ≫= λ b, if decide (b_addr b = a) then b_all b else [].

Definition worker_done (ts : TServer) (k : nat) : Prop :=
  ∃ th, p_threads (ts_pool ts) !! k = Some th ∧ finished (th_prog th) = true.

Record order_ok (sy : System) : Prop := {
  oo_asked a : asked_of a (sy_asked sy) = batches_of a (sy_batches sy) ++ pending a (sy_jitter sy);
  oo_batch j b : sy_batches sy !! j = Some b →
    tickets j (sy_handled sy).*2 ++ tickets j (sy_rtc sy) ++ labelled (b_addr b) (b_rest b)
      `prefix_of` labelled (b_addr b) (b_all b);
  oo_wait j b : sy_batches sy !! j = Some b →
    length (tickets j (sy_rtc sy)) = match b_wait b with Queued => 1%nat | _ => 0%nat end;
  oo_none j : sy_batches sy !! j = None →
    tickets j (sy_handled sy).*2 = [] ∧ tickets j (sy_rtc sy) = [];
  oo_running j b i k p : sy_batches sy !! j = Some b → sy_handled sy !! i = Some (k, (Some j, p)) →
    worker_done (sy_server sy) k ∨ b_wait b = Running k;
  oo_order j i i' k k' p p' : (i < i')%nat → sy_handled sy !! i = Some (k, (Some j, p)) →
    sy_handled sy !! i' = Some (k', (Some j, p')) → worker_done (sy_server sy) k;
}.

Lemma tickets_app j l l' : tickets j (l ++ l') = tickets j l ++ tickets j l'.
Proof. apply omap_app. Qed.

Lemma tickets_mine j q l : tickets j ((Some j, q) :: l) = q :: tickets j l.
Proof. unfold tickets. simpl. by rewrite decide_True. Qed.

Lemma tickets_other j t q l : t ≠ Some j → tickets j ((t, q) :: l) = tickets j l.
Proof. intros Ht. unfold tickets. simpl. by rewrite decide_False. Qed.

Lemma tickets_direct j l : tickets j ((λ q, (None, q)) <$> l) = [].
Proof. induction l as [|q l IH]; [done|]. rewrite fmap_cons, tickets_other by done. exact IH. Qed.

Lemma tickets_delete_other j i (l : list Mail) t q :
  l !! i = Some (t, q) → t ≠ Some j → tickets j (delete i l) = tickets j l.
Proof.
  intros Hi Ht. rewrite <- (take_drop_middle l i _ Hi) at 2. rewrite delete_take_drop.
  by rewrite !tickets_app, tickets_other.
Qed.

(** The only packet of the batch in the mailbox. *)
Lemma tickets_delete_mine j i (l : list Mail) q :
  l !! i = Some (Some j, q) → length (tickets j l) = 1%nat →
  tickets j l = [q] ∧ tickets j (delete i l) = [].
Proof.
  intros Hi. rewrite <- (take_drop_middle l i _ Hi) at 1 2. rewrite delete_take_drop.
  rewrite !tickets_app, tickets_mine. intros Hl.
  rewrite length_app in Hl. simpl in Hl.
  assert (tickets j (take i l) = []) as -> by (apply nil_length_inv; lia).
  assert (tickets j (drop (Datatypes.S i) l) = []) as -> by (apply nil_length_inv; lia). done.
Qed.

Lemma tickets_elem j i k p (l : list (nat * Mail)) :
  l !! i = Some (k, (Some j, p)) → tickets j l.*2 ≠ [].
Proof.
  intros Hi. rewrite <- (take_drop_middle l i _ Hi), fmap_app, tickets_app. simpl.
  unfold tickets at 2. simpl. rewrite decide_True by done. by destruct (tickets j _).
Qed.

(** ** Every step keeps the order *)

Lemma worker_done_step cpus ev ts ts' k :
  tserver_step cpus ev ts = Done ts' → worker_done ts k → worker_done ts' k.
Proof.
  intros Hs (th & Hk & Hf). destruct ev as [e|rd s message a|i rd]; unfold tserver_step in Hs.
  - destruct (idle _); [|done]. injection Hs as <-. exists th. split; [|done].
    destruct e as [draw now m|r a|i|i acceptor peer]; simpl.
    + by destruct (udp_step (ts_udp ts) m).
    + repeat case_match; done.
    + destruct (ts_mail ts !! i); [|done]. by apply lookup_app_l_Some.
    + repeat case_match; try done. by apply lookup_app_l_Some.
  - case_decide; [|done]. injection Hs as <-. exists th. split; [|done].
    by apply lookup_app_l_Some.
  - destruct (pool_step i rd (ts_pool ts)) as [p'| |] eqn:Hp; [|done..]. injection Hs as <-.
    apply pool_step_inv in Hp as (th0 & th1 & w & Hi & _ & _ & Hstep & ->). exists th.
    split; [|done]. simpl. destruct (decide (i = k)) as [->|Hne]; [|by rewrite list_lookup_insert_ne].
    assert (th0 = th) as -> by congruence. unfold thread_step in Hstep.
    by destruct (th_prog th).
Qed.

(** What is not part of the pipeline does not matter. *)
Lemma order_ok_mono sy sy' :
  order_ok sy → (∀ k, worker_done (sy_server sy) k → worker_done (sy_server sy') k) →
  (∀ a, pending a (sy_jitter sy') = pending a (sy_jitter sy)) →
  sy_batches sy' = sy_batches sy → sy_rtc sy' = sy_rtc sy → sy_asked sy' = sy_asked sy →
  sy_handled sy' = sy_handled sy → order_ok sy'.
Proof.
  intros [Hask Hb Hw Hn Hr Ho] Hd Hj Eb Er Ea Eh. split; rewrite ?Eb, ?Er, ?Ea, ?Eh; try done.
  - intros a. by rewrite Hj.
  - intros j b i k p Hjb Hi. destruct (Hr j b i k p Hjb Hi); [left; by apply Hd|by right].
  - intros j i i' k k' p p' Hlt Hi Hi'. eapply Hd, Ho; done.
Qed.

Lemma take_udp_order cpus draw now m http arrived sy sy' :
  order_ok sy → take_udp cpus draw now m http arrived sy = Done sy' → order_ok sy'.
Proof.
  intros Hsy. unfold take_udp. destruct (tserver_step _ _ _) as [ts| |] eqn:Hs; [|done..].
  intros [= <-]. apply (order_ok_mono _ _ Hsy); try done. intros k. by eapply worker_done_step.
Qed.

Lemma asked_snoc a l p :
  asked_of a (l ++ [p]) = asked_of a l ++ packet_of a (GetOrStoreJitterBuffer p.2 p.1 0 0 0).
Proof. unfold asked_of. rewrite bind_app. simpl. by rewrite app_nil_r. Qed.

Lemma released_batches a addr message t0 t1 t2 r :
  released_by a (GetOrStoreJitterBuffer addr message t0 t1 t2, Some r) =
  batches_of a (new_batches addr r).
Proof.
  destruct r as [[b|]|]; [|done..]. unfold batches_of. simpl. rewrite app_nil_r.
  by case_bool_decide; case_decide.
Qed.

Lemma task_step_order sy i t0 t1 t2 acc sy' :
  Forall (λ p, bytes_ok p.1) (sy_tasks sy) → order_ok sy →
  task_step sy i t0 t1 t2 acc = Done sy' → order_ok sy'.
Proof.
  intros Hby [Hask Hb Hw Hn Hr Ho]. unfold task_step.
  destruct (sy_tasks sy !! i) as [[message addr]|] eqn:Hi; [|done].
  pose proof (Forall_lookup_1 _ _ _ _ Hby Hi) as Hbm.
  destruct (handle_get_or_store _ _ _ _ _ _) as [[r st]| |] eqn:Hg; [|done..]. intros [= <-].
  assert (∀ j, tickets j (if acc then (λ q, (None, q)) <$> at_once addr r else []) = []) as Hdir.
  { intros j. destruct acc; [apply tickets_direct|done]. }
  assert (∀ j b, (sy_batches sy ++ new_batches addr r) !! j = Some b →
    sy_batches sy !! j = Some b ∨
    sy_batches sy !! j = None ∧ b_wait b = Ready ∧ b_rest b = b_all b) as Hbs.
  { intros j b [?|[Hlen Hin]]%lookup_app_Some; [by left|]. right.
    split; [by apply lookup_ge_None|].
    destruct r as [[l|]|]; [|done..]. by apply list_lookup_singleton_Some in Hin as [_ <-]. }
  split; simpl.
  - intros a. pose proof (jitter_step_fifo a (sy_jitter sy)
      (GetOrStoreJitterBuffer addr message t0 t1 t2) (Some r) st Hbm) as Hf.
    cbn [jitter_step] in Hf. rewrite Hg in Hf. specialize (Hf eq_refl).
    rewrite asked_snoc, Hask. unfold batches_of in *. rewrite bind_app, <- !app_assoc. f_equal.
    rewrite released_batches in Hf. exact Hf.
  - intros j b Hj. rewrite tickets_app, Hdir, app_nil_r.
    destruct (Hbs _ _ Hj) as [?|(Hnone & _ & ->)]; [by apply Hb|].
    by destruct (Hn j Hnone) as [-> ->].
  - intros j b Hj. rewrite tickets_app, Hdir, app_nil_r.
    destruct (Hbs _ _ Hj) as [?|(Hnone & -> & _)]; [by apply Hw|].
    by destruct (Hn j Hnone) as [_ ->].
  - intros j Hj. assert (sy_batches sy !! j = None) as Hnone.
    { apply lookup_ge_None. apply lookup_ge_None in Hj. rewrite length_app in Hj. lia. }
    rewrite tickets_app, Hdir, app_nil_r. by apply Hn.
  - intros j b n k p Hj Hh. destruct (Hbs _ _ Hj) as [?|(Hnone & _ & _)]; [by eapply Hr|].
    destruct (Hn j Hnone) as [Ht _]. by apply tickets_elem in Hh.
  - exact Ho.
Qed.

Lemma send_next_order sy j acc sy' :
  order_ok sy → send_next sy j acc = Done sy' → order_ok sy'.
Proof.
  intros [Hask Hb Hw Hn Hr Ho]. unfold send_next.
  destruct (sy_batches sy !! j) as [b|] eqn:Hj; [|done].
  destruct (b_rest b) as [|m rest] eqn:Hrest; [done|].
  destruct (negb (answered _ b)) eqn:Hans; [done|]. apply negb_false_iff in Hans.
  assert (∀ b', b_addr b' = b_addr b → b_all b' = b_all b →
    ∀ a, batches_of a (<[j := b']> (sy_batches sy)) = batches_of a (sy_batches sy)) as Hall.
  { intros b' Ha Hl a. unfold batches_of.
    rewrite (insert_take_drop _ _ b' (lookup_lt_Some _ _ _ Hj)).
    rewrite <- (take_drop_middle _ _ _ Hj) at 3. rewrite !bind_app. simpl. by rewrite Ha, Hl. }
  assert (tickets j (sy_rtc sy) = []) as Hnil.
  { apply nil_length_inv. rewrite (Hw _ _ Hj). unfold answered in Hans. by destruct (b_wait b). }
  assert (∀ i k p, sy_handled sy !! i = Some (k, (Some j, p)) → worker_done (sy_server sy) k) as Hdone.
  { intros i k p Hi. destruct (Hr _ _ _ _ _ Hj Hi) as [?|Hrun]; [done|].
    unfold answered in Hans. rewrite Hrun in Hans.
    destruct (p_threads _ !! k) as [th|] eqn:Hk; [|done]. by exists th. }
  pose proof (Hb _ _ Hj) as Hpre. rewrite Hnil, Hrest in Hpre.
  destruct acc; intros [= <-]; split; simpl.
  - intros a. rewrite Hall by done. apply Hask.
  - intros j' b' [(<- & <- & _)|[Hne Hj']]%list_lookup_insert_Some; simpl.
    + rewrite tickets_app, tickets_mine, Hnil. exact Hpre.
    + rewrite tickets_app, tickets_other by congruence. rewrite app_nil_r. by apply Hb.
  - intros j' b' [(<- & <- & _)|[Hne Hj']]%list_lookup_insert_Some; simpl.
    + by rewrite tickets_app, tickets_mine, Hnil.
    + rewrite tickets_app, tickets_other by congruence. rewrite app_nil_r. by apply Hw.
  - intros j' Hj'. assert (j' ≠ j) as Hne.
    { intros ->. rewrite list_lookup_insert_eq in Hj'; [done|]. by eapply lookup_lt_Some. }
    rewrite list_lookup_insert_ne in Hj' by done.
    rewrite tickets_app, tickets_other by congruence. rewrite app_nil_r. by apply Hn.
  - intros j' b' i k p [(<- & <- & _)|[Hne Hj']]%list_lookup_insert_Some Hi;
      [left; by eapply Hdone|by eapply Hr].
  - exact Ho.
  - intros a. rewrite Hall by done. apply Hask.
  - intros j' b' [(<- & <- & _)|[Hne Hj']]%list_lookup_insert_Some; simpl; [|by apply Hb].
    rewrite Hnil. simpl. rewrite app_nil_r. etrans; [|exact Hpre]. by apply prefix_app_r.
  - intros j' b' [(<- & <- & _)|[Hne Hj']]%list_lookup_insert_Some; simpl; [|by apply Hw].
    by rewrite Hnil.
  - intros j' Hj'. apply Hn. apply lookup_ge_None. apply lookup_ge_None in Hj'.
    by rewrite length_insert in Hj'.
  - intros j' b' i k p [(<- & <- & _)|[Hne Hj']]%list_lookup_insert_Some Hi;
      [left; by eapply Hdone|by eapply Hr].
  - exact Ho.
Qed.

Lemma batches_of_alter a k j bs : batches_of a (alter (running k) j bs) = batches_of a bs.
Proof.
  revert j. induction bs as [|b bs IH]; intros [|j]; [done..|].
  change ((if decide (b_addr b = a) then b_all b else []) ++ batches_of a (alter (running k) j bs) =
          (if decide (b_addr b = a) then b_all b else []) ++ batches_of a bs). by rewrite IH.
Qed.

(** The batches after a worker took a packet. *)
Definition taken (k : nat) (t : option nat) (bs : list Batch) : list Batch :=
  match t with Some j => alter (running k) j bs | None => bs end.

Lemma taken_lookup k t bs j :
  taken k t bs !! j = (if decide (t = Some j) then running k <$> bs !! j else bs !! j).
Proof.
  destruct t as [j'|]; cbn [taken]; [|by rewrite decide_False].
  case_decide as Hj; [injection Hj as ->; apply list_lookup_alter_eq|].
  apply list_lookup_alter_ne. congruence.
Qed.

(** The batch of a packet in the mailbox: its task waits, and its other packets were
    handled. *)
Lemma queued_batch sy i j q :
  order_ok sy → sy_rtc sy !! i = Some (Some j, q) →
  ∃ b, sy_batches sy !! j = Some b ∧ tickets j (sy_rtc sy) = [q] ∧
    tickets j (delete i (sy_rtc sy)) = [] ∧
    ∀ n k p, sy_handled sy !! n = Some (k, (Some j, p)) → worker_done (sy_server sy) k.
Proof.
  intros [Hask Hb Hw Hn Hr Ho] Hi.
  assert (tickets j (sy_rtc sy) ≠ []) as Hne.
  { rewrite <- (take_drop_middle (sy_rtc sy) i (Some j, q) Hi), tickets_app, tickets_mine.
    by destruct (tickets j (take i _)). }
  destruct (sy_batches sy !! j) as [b|] eqn:Hj; [|by destruct (Hn _ Hj)].
  exists b. split; [done|]. pose proof (Hw _ _ Hj) as Hlen.
  destruct (b_wait b) eqn:Hwait; [by apply nil_length_inv in Hlen| |by apply nil_length_inv in Hlen].
  destruct (tickets_delete_mine _ _ _ _ Hi Hlen) as [-> ->]. do 2 (split; [done|]).
  intros n k p Hh. destruct (Hr _ _ _ _ _ Hj Hh); [done|congruence].
Qed.

Lemma worker_takes_order cpus i rd s sy sy' :
  order_ok sy → worker_takes cpus i rd s sy = Done sy' → order_ok sy'.
Proof.
  intros Hsy. unfold worker_takes.
  destruct (sy_rtc sy !! i) as [[t q]|] eqn:Hi; [|done].
  destruct q as [message addr].
  destruct (tserver_step cpus (TRtc rd s message addr) (sy_server sy)) as [ts| |] eqn:Hs; [|done..].
  set (k0 := length _). change (match t with Some j => alter (running k0) j (sy_batches sy)
    | None => sy_batches sy end) with (taken k0 t (sy_batches sy)). intros [= <-].
  assert (∀ k, worker_done (sy_server sy) k → worker_done ts k) as Hd
    by (intros k; by eapply worker_done_step).
  pose proof (queued_batch sy i) as Hq.
  pose proof Hsy as [Hask Hb Hw Hn Hr Ho]. split; simpl.
  - intros a. rewrite Hask. f_equal. destruct t; [|done]. symmetry. apply batches_of_alter.
  - intros j b. rewrite taken_lookup, fmap_app, tickets_app. simpl. case_decide as Ht; intros Hj.
    + subst t. destruct (Hq j _ Hsy Hi) as (b0 & Hb0 & E1 & E2 & _).
      rewrite Hb0 in Hj. injection Hj as <-. rewrite tickets_mine, E2. simpl.
      pose proof (Hb _ _ Hb0) as Hpre. rewrite E1 in Hpre. by rewrite <- app_assoc.
    + rewrite tickets_other, app_nil_r, (tickets_delete_other _ _ _ _ _ Hi) by done. by apply Hb.
  - intros j b. rewrite taken_lookup. case_decide as Ht; intros Hj.
    + subst t. destruct (Hq j _ Hsy Hi) as (b0 & Hb0 & _ & -> & _).
      rewrite Hb0 in Hj. by injection Hj as <-.
    + rewrite (tickets_delete_other _ _ _ _ _ Hi) by done. by apply Hw.
  - intros j. rewrite taken_lookup, fmap_app, tickets_app. simpl. case_decide as Ht; intros Hj.
    + subst t. destruct (Hq j _ Hsy Hi) as (b0 & Hb0 & _). by rewrite Hb0 in Hj.
    + rewrite tickets_other, app_nil_r, (tickets_delete_other _ _ _ _ _ Hi) by done. by apply Hn.
  - intros j b n k p. rewrite taken_lookup, lookup_app_Some, list_lookup_singleton_Some.
    intros Hj [Hh|(_ & _ & [= <- -> <-])].
    + case_decide as Ht; [|destruct (Hr _ _ _ _ _ Hj Hh); [left; by apply Hd|by right]].
      subst t. destruct (Hq j _ Hsy Hi) as (b0 & _ & _ & _ & Hdone). left. by eapply Hd, Hdone.
    + rewrite decide_True in Hj by done. apply fmap_Some in Hj as (b0 & _ & ->). by right.
  - intros j n n' k k' p p' Hlt. rewrite !lookup_app_Some, !list_lookup_singleton_Some.
    intros [Hn1|(Hlen & Hn1 & _)] [Hn2|(Hlen' & Hn2 & Heq)]; [by eapply Hd, Ho| | |lia].
    + injection Heq as _ -> _. destruct (Hq j _ Hsy Hi) as (b0 & _ & _ & _ & Hdone).
      by eapply Hd, Hdone.
    + apply lookup_lt_Some in Hn2. lia.
Qed.

Lemma system_step_order cpus data sdp_addr ev sy sy' :
  system_ok cpus data sdp_addr sy → order_ok sy → system_step cpus sdp_addr ev sy = Done sy' →
  sys_event_ok data sdp_addr ev → order_ok sy'.
Proof.
  intros Hok Hsy Hs Hev.
  assert (Forall (λ p, bytes_ok p.1) (sy_tasks sy)) as Hby.
  { apply Forall_forall. intros p Hp. pose proof (sk_bytes _ _ _ _ Hok) as Hall.
    rewrite Forall_forall in Hall. apply Hall. rewrite (sk_packets _ _ _ _ Hok), elem_of_app.
    by left. }
  destruct ev as [env body gid|i draw now|draw now received|now|i t0 t1 t2 acc|i|j acc|m|i rd s|e|i rd];
    unfold system_step in Hs; cbv zeta in Hs.
  - injection Hs as <-. by apply (order_ok_mono _ _ Hsy).
  - destruct (sy_http sy !! i) as [[|m ms]|]; [done| |done]. by eapply take_udp_order.
  - destruct (negb _); [done|]. destruct (recv_step received) as [[req|]| |]; [..|done|done].
    + by eapply take_udp_order.
    + injection Hs as <-. by apply (order_ok_mono _ _ Hsy).
  - by eapply take_udp_order.
  - destruct (negb _); [done|]. by eapply task_step_order.
  - destruct (negb _); [done|]. unfold task_fails in Hs. destruct (sy_tasks sy !! i); [|done].
    injection Hs as <-. by apply (order_ok_mono _ _ Hsy).
  - destruct (negb _); [done|]. by eapply send_next_order.
  - destruct (negb _); [done|]. destruct (jitter_step (sy_jitter sy) m) as [[r st]| |] eqn:Hr; [|done..].
    injection Hs as <-. apply (order_ok_mono _ _ Hsy); try done. intros a. simpl.
    assert (Jitter.msg_ok m) as Hm by by destruct m.
    pose proof (jitter_step_fifo a _ _ _ _ Hm Hr) as Hf. destruct m; [..|done];
      by rewrite app_nil_r in Hf.
  - by eapply worker_takes_order.
  - destruct (tserver_step cpus (TLoop e) (sy_server sy)) as [ts| |] eqn:Ht; [|done..].
    injection Hs as <-. apply (order_ok_mono _ _ Hsy); try done. intros k.
    by eapply worker_done_step.
  - destruct (tserver_step cpus (TStep i rd) (sy_server sy)) as [ts| |] eqn:Ht; [|done..].
    injection Hs as <-. apply (order_ok_mono _ _ Hsy); try done. intros k.
    by eapply worker_done_step.
Qed.

Lemma system_reachable_order cpus data sdp_addr sy :
  system_reachable cpus data sdp_addr sy → order_ok sy.
Proof.
  intros Hr. assert (system_ok cpus data sdp_addr system_init ∧ order_ok system_init) as Hok.
  { split; [by apply system_reachable_ok, rtc_refl|]. split; try done. }
  unfold system_reachable in Hr. revert Hok.
  induction Hr as [|sy sy1 sy2 (ev & Hev & Hs) _ IH]; intros [Hok Ho]; [done|]. apply IH.
  split; [by eapply system_step_ok|by eapply system_step_order].
Qed.

(** C7. Packets of a batch are handled in order: the RTP packets of an address in the
    order the jitter actor got them are its batches, one after the other, and those
    still buffered; the packets of a batch that workers took up are a prefix of it, in
    order; and when the later of two of them was taken up, the worker of the earlier one
    had finished. *)
Theorem batches_in_order cpus data sdp_addr sy :
  system_reachable cpus data sdp_addr sy →
  (∀ a, asked_of a (sy_asked sy) = batches_of a (sy_batches sy) ++ pending a (sy_jitter sy)) ∧
  (∀ j b, sy_batches sy !! j = Some b →
     tickets j (sy_handled sy).*2 `prefix_of` labelled (b_addr b) (b_all b)) ∧
  (∀ j i i' k k' p p', (i < i')%nat → sy_handled sy !! i = Some (k, (Some j, p)) →
     sy_handled sy !! i' = Some (k', (Some j, p')) → worker_done (sy_server sy) k).
Proof.
  intros [Hask Hb _ _ _ Ho]%system_reachable_order. split; [done|]. split; [|done].
  intros j b Hj. etrans; [by apply prefix_app_r|]. by apply (Hb j).
Qed.
End ordering.

(** ** A race *)

(** The sequence number of a packet, and the packets sent to clients so far. *)
Definition number (m : DataPacket) : option Z :=
  match from_buf (F := no_foreign) m with Done (Ok h) => Some (sequence h) | _ => None end.

Definition packets_out (w : World (P := sample_platform)) : list (DataPacket * SocketAddr) :=
  omap (λ e, match e with UdpSend (Rtc m a) => Some (m, a) | _ => None end) (w_sent w).

Definition next_packet : DataPacket :=
  [128; 96; 0; 8; 0; 0; 1; 45; 0; 0; 0; 9; 5; 6; 7; 8] ++ trailer.

(** Two packets of the streamer are received in order, sixty milliseconds apart, and
    taken up by two workers in order; the second worker is faster. *)
Definition racing_run : list sample_action :=
  clients_join ++
  [datagram (sample_packet 96) streamer_addr;
   SDo (SyTask (D := toy_dtls) 0 0 (from_millis 60) (from_millis 60) true);
   SDo (SySend (D := toy_dtls) 0 true); SDo (SyRtc (D := toy_dtls) 0 sample_readings in_order);
   datagram next_packet streamer_addr;
   SDo (SyTask (D := toy_dtls) 0 0 (from_millis 120) (from_millis 120) true);
   SDo (SySend (D := toy_dtls) 1 true); SDo (SyRtc (D := toy_dtls) 0 sample_readings in_order);
   SDrive 9 never; SDrive 8 never].

Lemma racing_run_ok : sys_actions_ok racing_run.
Proof.
  unfold racing_run, sys_actions_ok. apply Forall_app. split; [apply clients_join_ok|].
  rewrite !Forall_cons, Forall_nil. split_and!; try exact I; try exact in_order_ok;
    (apply datagram_ok; apply (bool_decide_unpack _); vm_compute; exact I).
Qed.

(** What is observed of the run. *)
Definition raced (sy : System (P := sample_platform)) : Prop :=
  ∃ p p' q q',
    rtp_of (sy_arrived sy) = [(p, streamer_addr); (q, streamer_addr)] ∧
    (sy_handled sy).*2.*2 = [(p, streamer_addr); (q, streamer_addr)] ∧
    packets_out (p_world (ts_pool (sy_server sy))) = [(q', viewer_addr); (p', viewer_addr)] ∧
    number p = Some 7 ∧ number q = Some 8 ∧ number p' = Some 100 ∧ number q' = Some 100 ∧
    drop 12 p' = drop 12 p ∧ drop 12 q' = drop 12 q.

Definition race_check (sy : System (P := sample_platform)) : bool :=
  match rtp_of (sy_arrived sy), (sy_handled sy).*2.*2,
        packets_out (p_world (ts_pool (sy_server sy))) with
  | [(p, a1); (q, a2)], h, [(q', b1); (p', b2)] =>
      bool_decide (a1 = streamer_addr ∧ a2 = streamer_addr ∧ b1 = viewer_addr ∧ b2 = viewer_addr ∧
        h = [(p, streamer_addr); (q, streamer_addr)] ∧ number p = Some 7 ∧ number q = Some 8 ∧
        number p' = Some 100 ∧ number q' = Some 100 ∧
        drop 12 p' = drop 12 p ∧ drop 12 q' = drop 12 q)
  | _, _, _ => false
  end.

Lemma race_check_raced sy : race_check sy = true → raced sy.
Proof.
  unfold race_check, raced.
  destruct (rtp_of (sy_arrived sy)) as [|[p a1] [|[q a2] [|??]]]; try discriminate 1.
  destruct (packets_out (p_world (ts_pool (sy_server sy)))) as [|[q' b1] [|[p' b2] [|??]]]; try discriminate 1.
  intros (-> & -> & -> & -> & -> & H)%bool_decide_eq_true. exists p, p', q, q'. auto.
Qed.

Lemma race_reached : ∃ sy,
  system_reachable (P := sample_platform) (D := toy_dtls) (S := toy_sdp) (Sh := toy_display) 2
    toy_data toy_sdp_addr sy ∧ raced sy.
Proof.
  assert (match sys_act (S := toy_sdp) (Sh := toy_display) 2 toy_sdp_addr sample_readings
            racing_run system_init with Done sy => race_check sy | _ => false end = true) as Hcheck
    by (vm_compute; reflexivity).
  destruct (sys_act 2 toy_sdp_addr sample_readings racing_run system_init) as [sy| |] eqn:Hrun;
    [|discriminate Hcheck..].
  exists sy. split; [|by apply race_check_raced].
  eapply sys_act_steps; [apply racing_run_ok|exact Hrun].
Qed.

(** C15. Workers lose the order between batches: with two workers, two packets of a
    streamer that are received in order, handed over in order and taken up in order can
    leave in the opposite order and, the later one being numbered first, with the same
    sequence number. *)
Theorem workers_repeat_number : ∃ sy,
  system_reachable (P := sample_platform) (D := toy_dtls) (S := toy_sdp) (Sh := toy_display) 2
    toy_data toy_sdp_addr sy ∧ raced sy.
Proof. exact race_reached. Qed.

Lemma batches_in_order_witness : ∃ sy, raced sy ∧
  ∀ a, asked_of a (sy_asked sy) = batches_of a (sy_batches sy) ++ pending a (sy_jitter sy).
Proof.
  destruct race_reached as (sy & Hsy & Hraced). exists sy. split; [exact Hraced|].
  apply (batches_in_order (D := toy_dtls) (S := toy_sdp) (Sh := toy_display) 2 toy_data toy_sdp_addr sy Hsy).
Defined.
