(* ===== verification/Network.v ===== *)
(** * What leaves the server (src/src/server/udp.rs:232-311, 382-392)

    The actor [UdpSend] beside the rest of the system: its mailbox, to which the
    receiving actor, the client actor and the workers send requests, and the datagrams
    it hands to the socket. *)

From S2P Require Import Prelude Net Srtp ByteOrder RtpCore Utf8 Text StunParse.
From S2P Require Import StunWrite Meta Demux Jitter Media Stream Group Clients.
From S2P Require Import Store Threads Rely Runtime Sample ClientActor RtcActor Udp.
From S2P Require Import Sdp Http DtlsTask Server Interleaved Concurrent System.
Local Open Scope Z_scope.

Section network.
Context {P : Platform} {D : DtlsLib P} {T : SdpTypes} {S : SdpLib} {Sh : SdpDisplay S}.
Context {SC : StunCrypto pf_foreign}.

(** [nw_taken] is the history: each request [UdpSend] has taken with the datagram it
    made of it. *)
Record Network := {
  nw_system : System;
  nw_mail : list WebRtcRequest;
  nw_sending : list (DataPacket * SocketAddr);
  nw_out : list (DataPacket * SocketAddr);
  nw_failed : list (DataPacket * SocketAddr);
  nw_taken : list (WebRtcRequest * option (DataPacket * SocketAddr));
}.

Definition network_init : Network :=
  {| nw_system := system_init; nw_mail := []; nw_sending := []; nw_out := [];
     nw_failed := []; nw_taken := [] |}.

(** The requests to [UdpSend]: those of the receiving actor, and those a thread sends. *)
Definition answer (e : RecvEffect) : option WebRtcRequest :=
  match e with ToUdpSend q => Some q | _ => None end.

Definition request_of_effect (e : Effect) : option WebRtcRequest :=
  match e with UdpSend q => Some q | _ => None end.

Definition new_requests (ts ts' : TServer) : list WebRtcRequest :=
  (drop (length (ts_log ts)) (ts_log ts') ≫= λ m, omap answer (udp_step (ts_udp ts) m).2) ++
  omap request_of_effect
    (drop (length (w_sent (p_world (ts_pool ts)))) (w_sent (p_world (ts_pool ts')))).

(** The system takes a step; [UdpSend] takes a request, with its uninitialised buffer,
    and spawns the future that sends the datagram; the future is polled. *)
Inductive NetEvent :=
| NwSystem (ev : SysEvent)
| NwTake (i : nat) (buffer : list Z)
| NwPoll (j : nat) (poll_send_to : Poll (result nat unit)).

Definition network_step (cpus : nat) (data : ServerData) (sdp_addr : SocketAddr) (ev : NetEvent)
    (nw : Network) : outcome Network :=
  let sy := nw_system nw in
  match ev with
  | NwSystem ev =>
      sy' ← system_step cpus sdp_addr ev sy;
      Done {| nw_system := sy';
              nw_mail := nw_mail nw ++ new_requests (sy_server sy) (sy_server sy');
              nw_sending := nw_sending nw; nw_out := nw_out nw; nw_failed := nw_failed nw;
              nw_taken := nw_taken nw |}
  | NwTake i buffer =>
      if negb (idle (p_threads (ts_pool (sy_server sy)))) then Stuck else
      match nw_mail nw !! i with
      | None => Stuck
      | Some q =>
          o ← handle_send (password (meta data)) buffer q;
          Done {| nw_system := sy; nw_mail := delete i (nw_mail nw);
                  nw_sending := nw_sending nw ++ option_list o; nw_out := nw_out nw;
                  nw_failed := nw_failed nw; nw_taken := nw_taken nw ++ [(q, o)] |}
      end
  | NwPoll j poll =>
      if negb (idle (p_threads (ts_pool (sy_server sy)))) then Stuck else
      match nw_sending nw !! j with
      | None => Stuck
      | Some d =>
          let p := poll_sender poll in
          Done {| nw_system := sy; nw_mail := nw_mail nw;
                  nw_sending := match p with InFlight => nw_sending nw
                                | _ => delete j (nw_sending nw) end;
                  nw_out := match p with Sent => nw_out nw ++ [d] | _ => nw_out nw end;
                  nw_failed := match p with SendFailed => nw_failed nw ++ [d]
                               | _ => nw_failed nw end;
                  nw_taken := nw_taken nw |}
      end
  end.

(** Beside what holds of the events of the system: a received datagram comes from an
    address, and the buffer is the 1200 bytes [UdpSend] allocates. *)
Definition net_event_ok (data : ServerData) (sdp_addr : SocketAddr) (ev : NetEvent) : Prop :=
  match ev with
  | NwSystem ev =>
      sys_event_ok data sdp_addr ev ∧
      match ev with SyRecv _ _ (Ok (_, a)) => addr_ok a | _ => True end
  | NwTake _ buffer => length buffer = SEND_BUFFER_LEN
  | NwPoll _ _ => True
  end.

Definition network_next (cpus : nat) (data : ServerData) (sdp_addr : SocketAddr)
    (nw nw' : Network) : Prop :=
  ∃ ev, net_event_ok data sdp_addr ev ∧ network_step cpus data sdp_addr ev nw = Done nw'.

Definition network_reachable (cpus : nat) (data : ServerData) (sdp_addr : SocketAddr)
    (nw : Network) : Prop :=
  rtc (network_next cpus data sdp_addr) network_init nw.

(** All requests to [UdpSend] so far. *)
Definition requests (ts : TServer) : list WebRtcRequest :=
  omap answer (udp_run udp_recv_new (ts_log ts)).2 ++
  omap request_of_effect (w_sent (p_world (ts_pool ts))).

(** Why the server sends something: an answer to a STUN request of a client that was
    let into a group; a DTLS record of the outgoing stream of a client of the address,
    which sent DTLS; a packet of an address, relayed to a member of a group of that
    address. *)
Definition justified (data : ServerData) (sy : System) (q : WebRtcRequest) : Prop :=
  match q with
  | Stun req a => Stun req a ∈ sy_arrived sy ∧ ∃ gid, admitted data sy gid a
  | Dtls d a => streamed (sy_server sy) a d ∧ ∃ message, Dtls message a ∈ sy_arrived sy
  | Rtc d a => ∃ addr packet gid, Rtc packet addr ∈ sy_arrived sy ∧
      admitted data sy gid addr ∧ admitted data sy gid a ∧ relayed (sy_server sy) addr packet a d
  | Unknown => False
  end.

Definition request_addr (q : WebRtcRequest) : option SocketAddr :=
  match q with Stun _ a | Dtls _ a | Rtc _ a => Some a | Unknown => None end.
End network.

(** ** What a step adds *)

Section steps.
Context {P : Platform} {PL : PlatformLaws P} {D : DtlsLib P}.
Context {T : SdpTypes} {S : SdpLib} {Sh : SdpDisplay S}.

Lemma loop_step_sent e ts :
  w_sent (p_world (ts_pool (loop_step e ts))) = w_sent (p_world (ts_pool ts)).
Proof.
  destruct e as [draw now m|r a|i|i acceptor peer]; simpl.
  - by destruct (udp_step (ts_udp ts) m).
  - repeat case_match; done.
  - by destruct (ts_mail ts !! i).
  - repeat case_match; done.
Qed.

(** An effect is recorded when a thread that is about to send it takes its step. *)
Lemma tserver_step_sent cpus ev ts ts' :
  tserver_step cpus ev ts = Done ts' →
  w_sent (p_world (ts_pool ts')) = w_sent (p_world (ts_pool ts)) ∨
  ∃ i th e k, p_threads (ts_pool ts) !! i = Some th ∧ th_prog th = Perform (OSend e) k ∧
    w_sent (p_world (ts_pool ts')) = w_sent (p_world (ts_pool ts)) ++ [e].
Proof.
  destruct ev as [e|rd s message a|i rd]; unfold tserver_step.
  - destruct (idle _); [|done]. intros [= <-]. left. apply loop_step_sent.
  - case_decide; [|done]. intros [= <-]. by left.
  - destruct (pool_step i rd (ts_pool ts)) as [p'| |] eqn:Hs; [|done..]. intros [= <-].
    apply pool_step_inv in Hs as (th & th' & w' & Hi & _ & _ & Hs & ->). simpl.
    destruct (thread_step_sent _ _ _ _ _ Hs) as [->|(e & k & Hp & ->)]; [by left|].
    right. by exists i, th, e, k.
Qed.

(** A message is logged when the receiving actor takes it. *)
Lemma tserver_step_log cpus ev ts ts' :
  tserver_step cpus ev ts = Done ts' →
  ts_log ts' = ts_log ts ∨
  ∃ m, ts_log ts' = ts_log ts ++ [m] ∧
    w_sent (p_world (ts_pool ts')) = w_sent (p_world (ts_pool ts)).
Proof.
  destruct ev as [e|rd s message a|i rd]; unfold tserver_step.
  - destruct (idle _); [|done]. intros [= <-].
    destruct e as [draw now m| | |]; [right; exists m|left; by apply loop_log..].
    split; [simpl; by destruct (udp_step (ts_udp ts) m)|apply loop_step_sent].
  - case_decide; [|done]. intros [= <-]. by left.
  - destruct (pool_step i rd (ts_pool ts)); [|done..]. intros [= <-]. by left.
Qed.

Lemma take_udp_server cpus draw now m http arrived sy sy' :
  take_udp cpus draw now m http arrived sy = Done sy' →
  tserver_step cpus (TLoop (LUdp draw now m)) (sy_server sy) = Done (sy_server sy') ∧
  sy_offers sy' = sy_offers sy ∧ sy_arrived sy' = arrived.
Proof.
  unfold take_udp. destruct (tserver_step _ _ _) as [ts| |]; [|done..]. by intros [= <-].
Qed.

(** The request an event brings. *)
Definition arrival (ev : SysEvent) : list WebRtcRequest :=
  match ev with
  | SyRecv _ _ received =>
      match recv_step received with Done (Some req) => [req] | _ => [] end
  | _ => []
  end.

(** A step of the system is at most one step of the server, and forgets no offer and
    no request. *)
Lemma system_step_server cpus sdp_addr ev sy sy' :
  system_step cpus sdp_addr ev sy = Done sy' →
  (sy_server sy' = sy_server sy ∨
   ∃ tev, tserver_step cpus tev (sy_server sy) = Done (sy_server sy')) ∧
  sy_offers sy ⊆ sy_offers sy' ∧ sy_arrived sy' = sy_arrived sy ++ arrival ev.
Proof.
  destruct ev as [env body gid|i draw now|draw now received|now|i t0 t1 t2 acc|i|j acc|m|i rd s|e|i rd];
    unfold system_step, arrival; cbv zeta; rewrite ?app_nil_r.
  - intros [= <-]. simpl. split; [by left|]. split; [set_solver|done].
  - destruct (sy_http sy !! i) as [[|m ms]|]; [done| |done].
    intros (Hs & -> & ->)%take_udp_server. split; [right; by eexists|done].
  - destruct (negb _); [done|]. destruct (recv_step received) as [[req|]| |]; [..|done|done].
    + intros (Hs & -> & ->)%take_udp_server. split; [right; by eexists|done].
    + intros [= <-]. rewrite app_nil_r. by split; [left|].
  - intros (Hs & -> & ->)%take_udp_server. split; [right; by eexists|done].
  - destruct (negb _); [done|]. unfold task_step. destruct (sy_tasks sy !! i) as [[message addr]|]; [|done].
    destruct (handle_get_or_store _ _ _ _ _ _) as [[r st]| |]; [|done..]. intros [= <-]. by split; [left|].
  - destruct (negb _); [done|]. unfold task_fails. destruct (sy_tasks sy !! i); [|done].
    intros [= <-]. by split; [left|].
  - destruct (negb _); [done|]. unfold send_next. destruct (sy_batches sy !! j) as [b|]; [|done].
    destruct (b_rest b); [done|]. destruct (negb _); [done|].
    destruct acc; intros [= <-]; by split; [left|].
  - destruct (negb _); [done|]. destruct (jitter_step (sy_jitter sy) m) as [[r st]| |]; [|done..].
    intros [= <-]. by split; [left|].
  - unfold worker_takes. destruct (sy_rtc sy !! i) as [[ticket [message addr]]|]; [|done].
    destruct (tserver_step _ _ _) as [ts| |] eqn:Hs; [|done..]. intros [= <-].
    split; [right; by eexists|done].
  - destruct (tserver_step _ _ _) as [ts| |] eqn:Hs; [|done..]. intros [= <-].
    split; [right; by eexists|done].
  - destruct (tserver_step _ _ _) as [ts| |] eqn:Hs; [|done..]. intros [= <-].
    split; [right; by eexists|done].
Qed.

Lemma udp_run_snoc_out st ms m :
  (udp_run st (ms ++ [m])).2 = (udp_run st ms).2 ++ (udp_step (udp_run st ms).1 m).2.
Proof.
  revert st. induction ms as [|m' ms IH]; intros st; simpl.
  - destruct (udp_step st m) as [st' out]. simpl. by rewrite app_nil_r.
  - destruct (udp_step st m') as [st' out]. specialize (IH st').
    destruct (udp_run st' (ms ++ [m])), (udp_run st' ms). simpl in *. by rewrite IH, app_assoc.
Qed.

(** The requests a step of the server adds: none, those of the message the receiving
    actor takes, or the one a thread sends. *)
Lemma step_requests cpus ev ts ts' :
  tserver_step cpus ev ts = Done ts' →
  new_requests ts ts' = [] ∧ ts_log ts' = ts_log ts ∧
    w_sent (p_world (ts_pool ts')) = w_sent (p_world (ts_pool ts)) ∨
  (∃ m, ts_log ts' = ts_log ts ++ [m] ∧
     w_sent (p_world (ts_pool ts')) = w_sent (p_world (ts_pool ts)) ∧
     new_requests ts ts' = omap answer (udp_step (ts_udp ts) m).2) ∨
  (∃ i th e k, p_threads (ts_pool ts) !! i = Some th ∧ th_prog th = Perform (OSend e) k ∧
     ts_log ts' = ts_log ts ∧
     w_sent (p_world (ts_pool ts')) = w_sent (p_world (ts_pool ts)) ++ [e] ∧
     new_requests ts ts' = omap request_of_effect [e]).
Proof.
  intros Hs. unfold new_requests. destruct (tserver_step_log _ _ _ _ Hs) as [Hl|(m & Hl & Hw)].
  - destruct (tserver_step_sent _ _ _ _ Hs) as [Hw|(i & th & e & k & Hi & Hp & Hw)];
      rewrite Hl, Hw, drop_all.
    + left. by rewrite drop_all.
    + right; right. exists i, th, e, k. by rewrite drop_app_length.
  - right; left. exists m. rewrite Hl, Hw, drop_all, drop_app_length. do 2 (split; [done|]).
    simpl. by rewrite !app_nil_r.
Qed.

Lemma requests_step cpus ev ts ts' :
  tserver_ok ts → tserver_step cpus ev ts = Done ts' →
  requests ts' ≡ₚ requests ts ++ new_requests ts ts'.
Proof.
  intros Hts Hs. unfold requests.
  destruct (step_requests _ _ _ _ Hs)
    as [(-> & -> & ->)|[(m & -> & -> & ->)|(i & th & e & k & _ & _ & -> & -> & ->)]].
  - by rewrite app_nil_r.
  - rewrite udp_run_snoc_out, <- (to_udp _ Hts), omap_app. solve_Permutation.
  - by rewrite omap_app, app_assoc.
Qed.
End steps.

(** ** The invariant *)

Section invariant.
Context {P : Platform} {PL : PlatformLaws P} {D : DtlsLib P}.
Context {T : SdpTypes} {S : SdpLib} {Sh : SdpDisplay S}.
Context {SC : StunCrypto pf_foreign} {SL : StunCryptoLaws pf_foreign SC}.

(** What the type of a transaction id and of an address guarantee. *)
Definition request_ok (q : WebRtcRequest) : Prop :=
  match q with
  | Stun req a => length (transaction_id req) = STUN_TRANSACTION_ID_LEN ∧ addr_ok a
  | _ => True
  end.

Record network_ok (cpus : nat) (data : ServerData) (sdp_addr : SocketAddr) (nw : Network) : Prop := {
  no_system : system_reachable cpus data sdp_addr (nw_system nw);
  no_arrived : Forall request_ok (sy_arrived (nw_system nw));
  no_requests : (nw_taken nw).*1 ++ nw_mail nw ≡ₚ requests (sy_server (nw_system nw));
  no_justified : Forall (justified data (nw_system nw)) ((nw_taken nw).*1 ++ nw_mail nw);
  no_datagrams : omap snd (nw_taken nw) ≡ₚ nw_sending nw ++ nw_out nw ++ nw_failed nw;
  no_made q o : (q, o) ∈ nw_taken nw →
    ∃ buffer, length buffer = SEND_BUFFER_LEN ∧ handle_send (password (meta data)) buffer q = Done o;
}.

Lemma admitted_mono data sy sy' gid a :
  sy_offers sy ⊆ sy_offers sy' → sy_arrived sy ⊆ sy_arrived sy' →
  admitted data sy gid a → admitted data sy' gid a.
Proof.
  intros Ho Ha (env & body & text & req & u & stun & Hin & Ht & Hp & Hu & Hs & Hr).
  exists env, body, text, req, u, stun. split_and!; try done; [by apply Ho|by apply Ha|apply Hr..].
Qed.

Lemma justified_mono data sy sy' q :
  sy_offers sy ⊆ sy_offers sy' → sy_arrived sy ⊆ sy_arrived sy' →
  (∀ addr packet a d, relayed (sy_server sy) addr packet a d →
     relayed (sy_server sy') addr packet a d) →
  (∀ a d, streamed (sy_server sy) a d → streamed (sy_server sy') a d) →
  justified data sy q → justified data sy' q.
Proof.
  intros Ho Ha Hc Hd. destruct q as [req a|message a|message a|]; simpl; [..|done].
  - intros [? [gid ?]]. split; [by apply Ha|]. exists gid. by eapply admitted_mono.
  - intros [? [m ?]]. split; [by apply Hd|]. exists m. by apply Ha.
  - intros (addr & packet & gid & ? & ? & ? & ?). exists addr, packet, gid.
    split; [by apply Ha|]. split_and!; [by eapply admitted_mono..|by apply Hc].
Qed.

Lemma arrived_logged cpus data sdp_addr sy q :
  system_ok cpus data sdp_addr sy → MsgRequest q ∈ ts_log (sy_server sy) → q ∈ sy_arrived sy.
Proof. intros [_ _ _ Hlog _ _ _] Hin. rewrite Forall_forall in Hlog. exact (Hlog _ Hin). Qed.

(** The receiving actor answers a STUN request of a registered session. *)
Lemma answer_joined log m st out q :
  udp_step (udp_run udp_recv_new log).1 m = (st, out) → q ∈ omap answer out →
  ∃ req a gid, q = Stun req a ∧ m = MsgRequest q ∧ joined (log ++ [m]) gid a.
Proof.
  intros Hs (e & Hin & He)%list_elem_of_omap. destruct e as [| | |q'|]; try done.
  injection He as ->. destruct m as [[req a| | |]|now|s item|u media]; simpl in Hs;
    try (injection Hs as _ <-; set_solver).
  destruct (sessions _ !! _) as [item|] eqn:Hi; [|injection Hs as _ <-; set_solver].
  assert (q = Stun req a) as ->.
  { destruct (media_sessions _ !! _); injection Hs as _ <-; set_solver. }
  exists req, a, (group_id item). do 2 (split; [done|]).
  apply session_registered in Hi as (l1 & l2 & -> & Hl). exists l1, l2, [], req, item.
  split; [|done]. by rewrite <- app_assoc.
Qed.

Lemma new_justified cpus data sdp_addr sy sy' tev :
  system_reachable cpus data sdp_addr sy → system_reachable cpus data sdp_addr sy' →
  sy_offers sy ⊆ sy_offers sy' → sy_arrived sy ⊆ sy_arrived sy' →
  tserver_step cpus tev (sy_server sy) = Done (sy_server sy') →
  Forall (justified data sy') (new_requests (sy_server sy) (sy_server sy')).
Proof.
  intros Hsy Hsy' Ho Ha Hs.
  pose proof (system_reachable_ok _ _ _ _ Hsy) as Hok.
  pose proof (system_reachable_ok _ _ _ _ Hsy') as Hok'.
  pose proof (treachable_ok _ _ (sk_server _ _ _ _ Hok)) as Hts.
  destruct (step_requests _ _ _ _ Hs)
    as [(-> & _ & _)|[(m & Hl & _ & ->)|(i & th & e & k & Hi & Hp & Hl & _ & ->)]]; [constructor|..].
  - rewrite (to_udp _ Hts). apply Forall_forall. intros q Hq.
    destruct (udp_step (udp_run udp_recv_new (ts_log (sy_server sy))).1 m) as [st out] eqn:Hstep.
    destruct (answer_joined _ _ _ _ _ Hstep Hq) as (req & a & gid & -> & -> & Hj).
    rewrite <- Hl in Hj. split; [|exists gid; by eapply joined_admitted].
    eapply arrived_logged; [exact Hok'|]. rewrite Hl. set_solver.
  - apply Forall_forall. intros q (e' & ->%list_elem_of_singleton & He)%list_elem_of_omap.
    destruct e as [q'| | | |]; simplify_eq/=.
    pose proof (threads_request cpus _ i th q k (sk_server _ _ _ _ Hok) Hi Hp) as Hq.
    apply (justified_mono _ sy); [done..|intros b x y d; by eapply relayed_step| |].
    { intros a d. eapply streamed_step; [|exact Hs]. by eapply treachable_ok, sk_server. }
    destruct q as [req a|message a|message a|]; [done| | |done].
    + split; [done|]. destruct Hq as (r & item & _ & _ & _ & [message' Hin] & _).
      exists message'. by eapply arrived_logged.
    + destruct (packets_reach_admitted_clients _ _ _ _ _ _ _ _ _ Hsy Hi Hp)
        as (addr & packet & gid & _ & H1 & H2 & H3 & H4). by exists addr, packet, gid.
Qed.

(** A received datagram: the ranges of its transaction id and of its address. *)
Lemma arrival_ok ev :
  match ev with SyRecv _ _ (Ok (_, a)) => addr_ok a | _ => True end → Forall request_ok (arrival ev).
Proof.
  unfold arrival. destruct ev as [| |draw now received| | | | | | | |]; try constructor.
  destruct received as [[d a]|e]; [|constructor]. intros Ha. simpl.
  destruct (webrtc_from (take RECV_BUFFER_LEN d) a) as [q| |] eqn:Hq; simpl; [|constructor..].
  apply Forall_singleton. revert Hq. unfold webrtc_from.
  destruct (is_rtp_header _) as [[]| |]; [..|done|done]; simpl; [by intros [= <-]|].
  destruct (parse_stun_binding_request _) as [[st|]| |] eqn:Hp; [..|done|done]; simpl.
  - intros [= <-]. split; [by eapply parse_transaction_id|done].
  - destruct (is_dtls _) as [[]| |]; [..|done|done]; simpl; by intros [= <-].
Qed.

Lemma system_event_network_ok cpus data sdp_addr ev nw sy' :
  network_ok cpus data sdp_addr nw → net_event_ok data sdp_addr (NwSystem ev) →
  system_step cpus sdp_addr ev (nw_system nw) = Done sy' →
  network_ok cpus data sdp_addr
    {| nw_system := sy';
       nw_mail := nw_mail nw ++ new_requests (sy_server (nw_system nw)) (sy_server sy');
       nw_sending := nw_sending nw; nw_out := nw_out nw; nw_failed := nw_failed nw;
       nw_taken := nw_taken nw |}.
Proof.
  intros [Hsy Harr Hreq Hjust Hdat Hmade] [Hev Ha] Hs.
  assert (system_reachable cpus data sdp_addr sy') as Hsy'.
  { eapply rtc_r; [exact Hsy|]. by exists ev. }
  destruct (system_step_server _ _ _ _ _ Hs) as (Hts & Ho & Harr').
  assert (sy_arrived (nw_system nw) ⊆ sy_arrived sy') as Hsub by (rewrite Harr'; set_solver).
  split; simpl; [exact Hsy'|..|done|done].
  - rewrite Harr'. apply Forall_app. split; [done|by apply arrival_ok].
  - rewrite app_assoc, Hreq. destruct Hts as [->|[tev Htev]].
    + unfold new_requests. by rewrite !drop_all, app_nil_r.
    + symmetry. eapply requests_step; [|exact Htev].
      apply (treachable_ok cpus), (sk_server _ _ _ _ (system_reachable_ok _ _ _ _ Hsy)).
  - rewrite app_assoc. apply Forall_app. split.
    + eapply Forall_impl; [exact Hjust|]. intros q.
      pose proof (treachable_ok cpus _ (sk_server _ _ _ _ (system_reachable_ok _ _ _ _ Hsy))) as H1.
      pose proof (treachable_ok cpus _ (sk_server _ _ _ _ (system_reachable_ok _ _ _ _ Hsy'))) as H2.
      apply justified_mono; [done..| |]; destruct Hts as [->|[tev Htev]]; try done.
      * intros x y a d. by eapply relayed_step.
      * intros a d. by eapply streamed_step.
    + destruct Hts as [->|[tev Htev]]; [unfold new_requests; by rewrite !drop_all|].
      by apply (new_justified cpus _ sdp_addr (nw_system nw) sy' tev).
Qed.

Lemma network_step_ok cpus data sdp_addr ev nw nw' :
  network_ok cpus data sdp_addr nw → net_event_ok data sdp_addr ev →
  network_step cpus data sdp_addr ev nw = Done nw' → network_ok cpus data sdp_addr nw'.
Proof.
  intros Hnw Hev. destruct ev as [ev|i buffer|j poll]; unfold network_step; cbv zeta.
  - destruct (system_step _ _ ev _) as [sy'| |] eqn:Hs; [|done..]. intros [= <-].
    by eapply system_event_network_ok.
  - destruct Hnw as [Hsy Harr Hreq Hjust Hdat Hmade].
    destruct (negb _); [done|]. destruct (nw_mail nw !! i) as [q|] eqn:Hi; [|done].
    destruct (handle_send _ _ _) as [o| |] eqn:Hsend; [|done..]. intros [= <-].
    assert ((nw_taken nw ++ [(q, o)]).*1 ++ delete i (nw_mail nw) ≡ₚ (nw_taken nw).*1 ++ nw_mail nw)
      as Hperm.
    { rewrite fmap_app. simpl. rewrite (delete_Permutation _ _ _ Hi) at 2. solve_Permutation. }
    split; simpl; try done.
    + by rewrite Hperm.
    + by rewrite Hperm.
    + rewrite omap_app, Hdat. assert (omap snd [(q, o)] = option_list o) as -> by by destruct o.
      solve_Permutation.
    + intros q' o' [Hin|[= -> ->]%list_elem_of_singleton]%elem_of_app; [by apply Hmade|by exists buffer].
  - destruct Hnw as [Hsy Harr Hreq Hjust Hdat Hmade].
    destruct (negb _); [done|]. destruct (nw_sending nw !! j) as [d|] eqn:Hj; [|done].
    intros [= <-]. split; simpl; try done. rewrite Hdat. clear -Hj.
    destruct (poll_sender poll); [done|..];
      rewrite (delete_Permutation _ _ _ Hj) at 1; solve_Permutation.
Qed.

Lemma network_reachable_ok cpus data sdp_addr nw :
  network_reachable cpus data sdp_addr nw → network_ok cpus data sdp_addr nw.
Proof.
  intros Hnw. unfold network_reachable in Hnw.
  assert (network_ok cpus data sdp_addr network_init) as Hok.
  { split; simpl; try by constructor. by intros ?? ?%elem_of_nil. }
  induction Hnw as [|nw nw1 nw2 (ev & Hev & Hs) _ IH]; [done|]. apply IH. by eapply network_step_ok.
Qed.
End invariant.

(** ** The properties *)

Section properties.
Context {P : Platform} {PL : PlatformLaws P} {D : DtlsLib P}.
Context {T : SdpTypes} {S : SdpLib} {Sh : SdpDisplay S}.
Context {SC : StunCrypto pf_foreign} {SL : StunCryptoLaws pf_foreign SC}.

(** The datagram of a request: none for a response that OpenSSL does not sign. *)
Definition datagram_of (password : SmolStr) (q : WebRtcRequest) : option (DataPacket * SocketAddr) :=
  match q with
  | Stun req a =>
      match sign_response password
              (response_header (transaction_id req) (content_len_integrity a))
              (addr_attribute_bytes (transaction_id req) a) with
      | Ok _ => Some (stun_response (transaction_id req) a password, a)
      | Err _ => None
      end
  | Dtls m a | Rtc m a => Some (m, a)
  | Unknown => None
  end.

Lemma handle_send_datagram password buffer q :
  request_ok q → length buffer = SEND_BUFFER_LEN →
  handle_send password buffer q = Done (datagram_of password q).
Proof. destruct q as [req a|m a|m a|]; try done. intros [Ht Ha]. by apply handle_send_stun. Qed.

Lemma justified_request_ok cpus data sdp_addr nw q :
  network_ok cpus data sdp_addr nw → justified data (nw_system nw) q → request_ok q.
Proof.
  intros [_ Harr _ _ _ _]. destruct q; try done. intros [Hin _].
  rewrite Forall_forall in Harr. exact (Harr _ Hin).
Qed.

(** What a request that was taken up is, and what was made of it. *)
Lemma taken_justified cpus data sdp_addr nw q o :
  network_ok cpus data sdp_addr nw → (q, o) ∈ nw_taken nw →
  justified data (nw_system nw) q ∧ o = datagram_of (password (meta data)) q.
Proof.
  intros Hnw Hin.
  assert (justified data (nw_system nw) q) as Hq.
  { pose proof (no_justified _ _ _ _ Hnw) as Hall. rewrite Forall_app, !Forall_forall in Hall.
    destruct Hall as [Hall _]. apply Hall. by apply (list_elem_of_fmap_2 fst) in Hin. }
  split; [done|]. destruct (no_made _ _ _ _ Hnw _ _ Hin) as (buffer & Hb & Hs).
  rewrite handle_send_datagram in Hs by (done || by eapply justified_request_ok).
  by injection Hs.
Qed.

Lemma taken_datagrams cpus data sdp_addr nw :
  network_ok cpus data sdp_addr nw →
  omap (datagram_of (password (meta data))) (nw_taken nw).*1 = omap snd (nw_taken nw).
Proof.
  intros Hnw. apply list_omap_ext, Forall2_fmap_l, Forall_Forall2_diag, Forall_forall.
  intros [q o] Hin. simpl. by destruct (taken_justified _ _ _ _ _ _ Hnw Hin) as [_ ->].
Qed.

Lemma admitted_heard data sy gid a :
  admitted data sy gid a → Some a ∈ request_addr <$> sy_arrived sy.
Proof.
  intros (_ & _ & _ & _ & _ & stun & _ & _ & _ & _ & Hin & _).
  by apply (list_elem_of_fmap_2 request_addr) in Hin.
Qed.

Lemma justified_heard data sy q a :
  justified data sy q → request_addr q = Some a → Some a ∈ request_addr <$> sy_arrived sy.
Proof.
  destruct q as [req a'|d a'|d a'|]; intros Hq [= <-].
  - destruct Hq as [_ [gid Hgid]]. by eapply admitted_heard.
  - destruct Hq as [_ [m Hin]]. by apply (list_elem_of_fmap_2 request_addr) in Hin.
  - destruct Hq as (addr & packet & gid & _ & _ & Ha & _). by eapply admitted_heard.
Qed.

Lemma datagram_of_addr pass q d a : datagram_of pass q = Some (d, a) → request_addr q = Some a.
Proof.
  destruct q as [req a'|m a'|m a'|]; simpl; [|by intros [= _ ->]..|done].
  destruct (sign_response _ _ _); [|done]. by intros [= _ ->].
Qed.

(** C1. Everything that leaves the server has a reason, whatever the clients, the peers,
    the network, the clock and the schedulers do. Each request that the sending actor
    has taken up, or that waits in its mailbox, is by its kind: a response, and then a
    STUN request with its transaction id came from its destination, which was let into
    a group; a DTLS record, and then the outgoing stream of a client brought exactly
    this record, the stream was opened for its destination, which had sent a DTLS
    datagram, and the client is in the table under no other address; or a packet, and
    then a packet was received from some address, libsrtp accepted it with the keys of a
    handshake with that address and encrypted its content, RTP with new numbers, with
    the keys of a handshake with its destination into exactly this packet, and both
    addresses were let into one group. The datagrams that were sent are those made of
    the requests, each at most once, the signed STUN response or the record or packet
    itself. An address is let into a group when an offer posted to the endpoint of the
    group named a user, and a STUN request from the address then named that user. So
    nothing is sent to an address the server has received nothing from. *)
Theorem datagrams_justified cpus data sdp_addr nw :
  network_reachable cpus data sdp_addr nw →
  let sy := nw_system nw in
  (∀ q, q ∈ (nw_taken nw).*1 ++ nw_mail nw →
     match q with
     | Stun req a => Stun req a ∈ sy_arrived sy ∧ ∃ gid, admitted data sy gid a
     | Dtls d a =>
         (∃ r item, (r, item) ∈ ts_records (sy_server sy) ∧ into_webrtc item = Dtls d a ∧
            AddOutgoingStream r a ∈ w_sent (p_world (ts_pool (sy_server sy))) ∧
            ∀ a', w_storage (p_world (ts_pool (sy_server sy))) !! a' = Some r → a' = a) ∧
         ∃ message, Dtls message a ∈ sy_arrived sy
     | Rtc d a => ∃ addr packet gid, Rtc packet addr ∈ sy_arrived sy ∧
         admitted data sy gid addr ∧ admitted data sy gid a ∧
         relayed (sy_server sy) addr packet a d
     | Unknown => False
     end) ∧
  nw_out nw ⊆+ omap (datagram_of (password (meta data))) (nw_taken nw).*1 ∧
  (∀ d a, (d, a) ∈ nw_out nw → Some a ∈ request_addr <$> sy_arrived sy).
Proof.
  intros Hnw%network_reachable_ok sy. split; [|split].
  - intros q Hq. pose proof (no_justified _ _ _ _ Hnw) as Hall. rewrite Forall_forall in Hall.
    specialize (Hall q Hq). destruct q; try exact Hall.
    destruct Hall as [(r & item & ? & ? & ? & _ & ?) ?]. split; [by exists r, item|done].
  - rewrite (taken_datagrams _ _ _ _ Hnw), (no_datagrams _ _ _ _ Hnw).
    etrans; [apply submseteq_inserts_r|apply submseteq_inserts_l]; reflexivity.
  - intros d a Hout.
    assert ((d, a) ∈ omap snd (nw_taken nw)) as ([q o] & Hin & Ho)%list_elem_of_omap.
    { rewrite (no_datagrams _ _ _ _ Hnw), !elem_of_app. by right; left. }
    simpl in Ho. subst o. destruct (taken_justified _ _ _ _ _ _ Hnw Hin) as [Hq Hd].
    eapply justified_heard; [exact Hq|]. by eapply datagram_of_addr.
Qed.

(** C10. The sending actor loses nothing and sends nothing twice: in every state the
    requests sent to it are, each once, in its mailbox or taken; the datagrams of those
    it took are, each once, being sent, sent, or refused by the socket; and it can take
    any request of the mailbox without panic, whatever its send buffer held. *)
Theorem sends_accounted cpus data sdp_addr nw :
  network_reachable cpus data sdp_addr nw →
  (∃ taken, requests (sy_server (nw_system nw)) ≡ₚ taken ++ nw_mail nw ∧
     omap (datagram_of (password (meta data))) taken ≡ₚ
       nw_sending nw ++ nw_out nw ++ nw_failed nw) ∧
  ∀ q buffer, q ∈ nw_mail nw → length buffer = SEND_BUFFER_LEN →
    handle_send (password (meta data)) buffer q = Done (datagram_of (password (meta data)) q).
Proof.
  intros Hnw%network_reachable_ok. pose proof (no_justified _ _ _ _ Hnw) as Hjust.
  rewrite Forall_app, !Forall_forall in Hjust. destruct Hjust as [_ Hmail]. split.
  - exists (nw_taken nw).*1. split; [symmetry; apply Hnw|].
    by rewrite (taken_datagrams _ _ _ _ Hnw), (no_datagrams _ _ _ _ Hnw).
  - intros q buffer Hq Hb. apply handle_send_datagram; [|done].
    by eapply justified_request_ok, Hmail.
Qed.
End properties.

(** ** A run *)

Section runs.
Context {P : Platform} {D : DtlsLib P} {T : SdpTypes} {S : SdpLib} {Sh : SdpDisplay S}.
Context {SC : StunCrypto pf_foreign}.

(** An event, or the steps of one thread until it stops. *)
Inductive NetAction := NDo (ev : NetEvent) | NDrive (i : nat).

Fixpoint net_drive (cpus : nat) (data : ServerData) (sdp_addr : SocketAddr) (fuel : nat)
    (rd : Readings) (i : nat) (nw : Network) : Network :=
  match fuel with
  | O => nw
  | Datatypes.S fuel =>
      match network_step cpus data sdp_addr (NwSystem (SyStep i rd)) nw with
      | Done nw => net_drive cpus data sdp_addr fuel rd i nw
      | _ => nw
      end
  end.

Fixpoint net_act (cpus : nat) (data : ServerData) (sdp_addr : SocketAddr) (rd : Readings)
    (l : list NetAction) (nw : Network) : outcome Network :=
  match l with
  | [] => Done nw
  | NDo ev :: l =>
      nw ← network_step cpus data sdp_addr ev nw; net_act cpus data sdp_addr rd l nw
  | NDrive i :: l =>
      net_act cpus data sdp_addr rd l (net_drive cpus data sdp_addr 100 rd i nw)
  end.

Lemma net_drive_steps cpus data sdp_addr fuel rd i nw :
  rtc (network_next cpus data sdp_addr) nw (net_drive cpus data sdp_addr fuel rd i nw).
Proof.
  revert nw. induction fuel as [|fuel IH]; intros nw; cbn [net_drive]; [done|].
  destruct (network_step _ _ _ _ nw) as [nw1| |] eqn:Hs; [|done..].
  eapply rtc_l; [|apply IH]. by exists (NwSystem (SyStep i rd)).
Qed.

Lemma net_act_steps cpus data sdp_addr rd l nw nw' :
  Forall (λ a, match a with NDo ev => net_event_ok data sdp_addr ev | NDrive _ => True end) l →
  net_act cpus data sdp_addr rd l nw = Done nw' → rtc (network_next cpus data sdp_addr) nw nw'.
Proof.
  intros Hl. revert nw. induction Hl as [|a l Ha _ IH]; intros nw; cbn [net_act].
  - by intros [= <-].
  - destruct a as [ev|i].
    + destruct (network_step cpus data sdp_addr ev nw) as [nw1| |] eqn:Hs; [|done..].
      intros Hrun. apply (rtc_l _ _ nw1); [by exists ev|by apply IH].
    + intros Hrun. etrans; [by apply net_drive_steps|by apply IH].
Qed.
End runs.

Abbreviation net_action := (NetAction (P := sample_platform) (D := toy_dtls)).

Definition net_lift (a : sample_action) : net_action :=
  match a with SDo ev => NDo (NwSystem ev) | SDrive i _ => NDrive i end.

(** The streamer and the viewer join, a packet of the streamer is forwarded; the
    responses and the packet are sent. *)
Definition net_sends (i : nat) : list net_action :=
  [NDo (NwTake (D := toy_dtls) i (replicate 1200 9)); NDo (NwPoll (D := toy_dtls) 0 Pending);
   NDo (NwPoll (D := toy_dtls) 0 (Stream.Ready (Ok 64%nat)))].

Definition net_run : list net_action :=
  (net_lift <$> sample_system_run) ++ net_sends 2 ++ net_sends 0.

Definition sent_to (a : SocketAddr) (l : list (DataPacket * SocketAddr)) : bool :=
  existsb (λ p, bool_decide (p.2 = a)) l.

Definition net_check : bool :=
  match net_act (P := sample_platform) (S := toy_sdp) (Sh := toy_display) (SC := toy_crypto) 2 toy_data toy_sdp_addr
          sample_readings net_run network_init with
  | Done nw => sent_to viewer_addr (nw_out nw) && sent_to streamer_addr (nw_out nw) &&
               bool_decide (length (nw_mail nw) = 1%nat)
  | _ => false
  end.

Abbreviation net_ok := (net_event_ok (S := toy_sdp) (Sh := toy_display) toy_data toy_sdp_addr).

Lemma net_lift_ok a :
  match a with
  | SDo ev => sys_event_ok (S := toy_sdp) (Sh := toy_display) toy_data toy_sdp_addr ev ∧
      match ev with SyRecv _ _ (Ok (_, x)) => addr_ok x | _ => True end
  | SDrive _ _ => True
  end → match net_lift a with NDo ev => net_ok ev | NDrive _ => True end.
Proof. by destruct a. Qed.

Lemma net_run_ok :
  Forall (λ a, match a with NDo ev => net_ok ev | NDrive _ => True end) net_run.
Proof.
  unfold net_run. rewrite !Forall_app. split; [|by split; repeat constructor].
  apply Forall_fmap, Forall_forall. intros a Ha. apply net_lift_ok.
  pose proof sample_run_ok as Hok. unfold sys_actions_ok in Hok. rewrite Forall_forall in Hok.
  specialize (Hok a Ha).
  assert (Forall (λ a, match a with
    | SDo (SyRecv _ _ (Ok (_, x))) => addr_ok x | _ => True end) sample_system_run) as Haddr.
  { unfold sample_system_run, clients_join, client_joins, sys_mail, sys_publish. simpl replicate. simpl repeat.
    rewrite !Forall_app, !Forall_cons, !Forall_app, !Forall_cons, !Forall_nil.
    split_and!; try exact I; apply (bool_decide_unpack _); vm_compute; exact I. }
  rewrite Forall_forall in Haddr. specialize (Haddr a Ha). destruct a as [ev|i stop]; [|exact I].
  split; [exact Hok|]. destruct ev; try exact I. exact Haddr.
Qed.

Abbreviation net_reachable := (network_reachable (P := sample_platform) (D := toy_dtls)
  (S := toy_sdp) (Sh := toy_display) (SC := toy_crypto) 2 toy_data toy_sdp_addr).

Lemma net_reached : ∃ nw d,
  net_reachable nw ∧
  (d, viewer_addr) ∈ nw_out nw ∧ nw_mail nw ≠ [].
Proof.
  assert (net_check = true) as Hcheck by (vm_compute; reflexivity). revert Hcheck.
  unfold net_check.
  destruct (net_act 2 toy_data toy_sdp_addr sample_readings net_run network_init) as [nw| |] eqn:Hrun;
    [|discriminate 1..].
  intros [[Hv _]%andb_prop Hmail%bool_decide_eq_true]%andb_prop.
  apply existsb_exists in Hv as ([d a] & Hin%list_elem_of_In & Ha%bool_decide_eq_true).
  simpl in Ha. subst a. exists nw, d. split; [|split; [exact Hin|]].
  2: { intros Hnil. assert (length (nw_mail nw) = 0%nat) as H0 by exact (f_equal length Hnil).
       discriminate (eq_trans (eq_sym Hmail) H0). }
  eapply net_act_steps; [exact net_run_ok|exact Hrun].
Qed.

Lemma datagrams_justified_witness : ∃ nw d,
  net_reachable nw ∧ (d, viewer_addr) ∈ nw_out nw ∧
  nw_out nw ⊆+ omap (datagram_of (P := sample_platform) (SC := toy_crypto)
                       (SL := toy_crypto_laws) (password (meta toy_data))) (nw_taken nw).*1 ∧
  Some viewer_addr ∈ request_addr <$> sy_arrived (nw_system nw).
Proof.
  destruct net_reached as (nw & d & Hnw & Hd & _). exists nw, d.
  split; [exact Hnw|]. split; [exact Hd|].
  destruct (datagrams_justified (P := sample_platform) (D := toy_dtls) (S := toy_sdp)
    (Sh := toy_display) (SC := toy_crypto) (SL := toy_crypto_laws) 2 toy_data toy_sdp_addr nw Hnw)
    as (_ & Hout & Haddr).
  split; [exact Hout|exact (Haddr d viewer_addr Hd)].
Defined.

Lemma sends_accounted_witness : ∃ nw q,
  net_reachable nw ∧
  q ∈ nw_mail nw ∧
  handle_send (SC := toy_crypto) (str "secret") (replicate 1200 9) q =
    Done (datagram_of (P := sample_platform) (SC := toy_crypto) (SL := toy_crypto_laws) (str "secret") q).
Proof.
  destruct net_reached as (nw & d & Hnw & _ & Hmail).
  assert (∃ q, q ∈ nw_mail nw) as [q Hin].
  { destruct (nw_mail nw) as [|q l]; [by destruct Hmail|]. exists q. apply list_elem_of_here. }
  exists nw, q. split; [exact Hnw|]. split; [exact Hin|].
  exact (proj2 (sends_accounted (P := sample_platform) (D := toy_dtls) (S := toy_sdp) (Sh := toy_display) (SC := toy_crypto)
    (SL := toy_crypto_laws) 2 toy_data toy_sdp_addr nw Hnw) q (replicate 1200 9) Hin eq_refl).
Defined.
