(* ===== verification/Parallel.v ===== *)
(** * The receivers of a packet, in parallel (src/src/client/rtc_actor.rs:178-226)

    [par_iter().filter(..).try_for_each(..)]: the thread pool of rayon runs the closure
    for each receiver, on several threads at once, while the worker that forwards the
    packet waits and keeps its guard. [RtcActor.forward] takes the receivers one after
    another, in an order and with late receivers that a [Schedule] chooses. Here the
    closures run as threads whose operations interleave; every such run is shown to be
    the run of [forward] under some schedule. *)

From Stdlib Require Import Wellfounded.
From S2P Require Import Prelude Net Srtp ByteOrder RtpCore StunParse Demux Jitter.
From S2P Require Import Media Stream Group Clients Store Threads Runtime Sample.
From S2P Require Import RtcActor.
Local Open Scope Z_scope.

Section parallel.
Context {P : Platform}.

(** A closure at work on a receiver. *)
Record Child := {
  ch_item : SocketAddr * ClientRef;
  ch_held : list (lock * mode);
  ch_prog : M (result unit ErrorParse);
}.

(** The receivers not taken yet, the closures, the receivers given up. *)
Record Scope := {
  sc_world : World;
  sc_todo : list (SocketAddr * ClientRef);
  sc_children : list Child;
  sc_skipped : list (SocketAddr * ClientRef);
}.

Definition is_failure (m : M (result unit ErrorParse)) : bool :=
  match m with Return (Err _) => true | _ => false end.

Definition failed (sc : Scope) : bool :=
  existsb (λ ch, is_failure (ch_prog ch)) (sc_children sc).

(** The guards of the worker and of the other closures admit the lock. *)
Definition child_may_go (outer : list (lock * mode)) (others : list Child) (ch : Child) : bool :=
  match request (ch_prog ch) with
  | Some (l, m) =>
      admits (outer ++ (others ≫= ch_held)) (omap (λ ch, request (ch_prog ch)) others) l m
  | None => true
  end.

(** A thread takes a receiver, gives it up because a closure has failed, or performs
    the next operation of its closure. *)
Inductive ScopeEvent := ScStart (i : nat) | ScSkip (i : nat) | ScOp (j : nat).

Definition child_step (ch : Child) (w : World) : outcome (Child * World) :=
  match ch_prog ch with
  | Return _ => Stuck
  | Perform op k =>
      '(x, w) ← op_run op (with_held w (ch_held ch));
      Done ({| ch_item := ch_item ch; ch_held := w_held w; ch_prog := k x |}, with_held w [])
  end.

Definition scope_step (outer : list (lock * mode))
    (body : SocketAddr * ClientRef → M (result unit ErrorParse)) (ev : ScopeEvent) (sc : Scope) :
    outcome Scope :=
  match ev with
  | ScStart i =>
      match sc_todo sc !! i with
      | None => Stuck
      | Some p =>
          Done {| sc_world := sc_world sc; sc_todo := delete i (sc_todo sc);
                  sc_children := sc_children sc ++
                    [{| ch_item := p; ch_held := []; ch_prog := body p |}];
                  sc_skipped := sc_skipped sc |}
      end
  | ScSkip i =>
      match sc_todo sc !! i with
      | None => Stuck
      | Some p =>
          if failed sc then
            Done {| sc_world := sc_world sc; sc_todo := delete i (sc_todo sc);
                    sc_children := sc_children sc; sc_skipped := sc_skipped sc ++ [p] |}
          else Stuck
      end
  | ScOp j =>
      match sc_children sc !! j with
      | None => Stuck
      | Some ch =>
          if child_may_go outer (delete j (sc_children sc)) ch then
            '(ch, w) ← child_step ch (sc_world sc);
            Done {| sc_world := w; sc_todo := sc_todo sc;
                    sc_children := <[j := ch]> (sc_children sc); sc_skipped := sc_skipped sc |}
          else Stuck
      end
  end.

Definition scope_next outer body (sc sc' : Scope) : Prop :=
  ∃ ev, scope_step outer body ev sc = Done sc'.

Definition scope_init (w : World) (l : list (SocketAddr * ClientRef)) : Scope :=
  {| sc_world := w; sc_todo := l; sc_children := []; sc_skipped := [] |}.

(** Every receiver was served or given up, and every closure has returned. *)
Definition complete (sc : Scope) : Prop :=
  sc_todo sc = [] ∧ Forall (λ ch, finished (ch_prog ch) = true) (sc_children sc).
End parallel.

(** ** Programs on one client *)

Section local.
Context {P : Platform}.

(** Operations that touch one client and its own locks. *)
Definition op_local (r : ClientRef) {B} (op : Op B) : Prop :=
  match op with
  | OClient r' | OUpdate r' _ => r' = r
  | OAcquire l _ => l = LSrtp r
  | OSend _ | ORelease => True
  | _ => False
  end.

Fixpoint local (r : ClientRef) {A} (m : M A) : Prop :=
  match m with
  | Return _ => True
  | Perform op k => op_local r op ∧ ∀ b, local r (k b)
  end.

Lemma local_bind {A B} r (m : M A) (f : A → M B) :
  local r m → (∀ a, local r (f a)) → local r (m ≫= f).
Proof.
  intros Hm Hf. induction m as [a|C op k IH]; [apply Hf|]. destruct Hm as [Hop Hk].
  split; [done|]. intros b. apply IH, Hk.
Qed.

Lemma local_perform {B} r (op : Op B) : op_local r op → local r (perform op).
Proof. Transparent perform. by split. Qed.
#[local] Opaque perform.

Lemma local_guarded {A} r m (body : M A) : local r body → local r (guarded (LSrtp r) m body).
Proof.
  intros Hb. apply local_bind; [by apply local_perform|]. intros [].
  apply local_bind; [done|]. intros a. apply local_bind; [by apply local_perform|done].
Qed.

(** What an operation does to the client and to the guards, and what it sends. *)
Definition lop {B} (op : Op B) (c : Client) (h : list (lock * mode)) :
    outcome (B * Client * list (lock * mode) * list Effect) :=
  match op in Op B return outcome (B * Client * list (lock * mode) * list Effect) with
  | OClient _ => Done (c, c, h, [])
  | OUpdate _ f => Done ((), f c, h, [])
  | OSend e => Done ((), c, h, [e])
  | OAcquire l m =>
      if match m with Read => can_read h l | Write => can_write h l end
      then Done ((), c, (l, m) :: h, [])
      else Stuck
  | ORelease => Done ((), c, tail h, [])
  | _ => Stuck
  end.

Fixpoint lrun {A} (m : M A) (c : Client) (h : list (lock * mode)) :
    outcome (A * Client * list (lock * mode) * list Effect) :=
  match m with
  | Return a => Done (a, c, h, [])
  | Perform op k =>
      '(b, c, h, s) ← lop op c h;
      '(a, c, h, s') ← lrun (k b) c h;
      Done (a, c, h, s ++ s')
  end.

(** The world after a change of one client. *)
Definition changed (w : World) (r : ClientRef) (c : Client) (h : list (lock * mode))
    (s : list Effect) : World :=
  {| w_clients := <[r := c]> (w_clients w); w_storage := w_storage w; w_groups := w_groups w;
     w_held := h; w_sent := w_sent w ++ s |}.

Lemma lop_run {B} r (op : Op B) w c :
  op_local r op → w_clients w !! r = Some c →
  op_run op w = match lop op c (w_held w) with
                | Done (b, c', h', s) => Done (b, changed w r c' h' s)
                | Panicked => Panicked
                | Stuck => Stuck
                end.
Proof.
  intros Hop Hc. unfold changed.
  destruct op; simpl in Hop; try done; subst; simpl; rewrite ?Hc, ?app_nil_r.
  - rewrite insert_id by done. by destruct w.
  - do 2 f_equal. unfold with_clients. f_equal. apply map_eq. intros i.
    destruct (decide (i = r)) as [->|Hne].
    + by rewrite lookup_alter_eq, Hc, lookup_insert_eq.
    + by rewrite lookup_alter_ne, lookup_insert_ne.
  - by rewrite insert_id by done.
  - destruct (match m with Read => _ | Write => _ end); [|done].
    by rewrite (insert_id _ _ _ Hc), app_nil_r.
  - by rewrite (insert_id _ _ _ Hc).
Qed.

Lemma changed_twice w r c h s c' h' s' :
  changed (changed w r c h s) r c' h' s' = changed w r c' h' (s ++ s').
Proof. unfold changed. simpl. by rewrite insert_insert_eq, app_assoc. Qed.

Lemma lrun_run {A} r (m : M A) w c :
  local r m → w_clients w !! r = Some c →
  m w = match lrun m c (w_held w) with
        | Done (a, c', h', s) => Done (a, changed w r c' h' s)
        | Panicked => Panicked
        | Stuck => Stuck
        end.
Proof.
  revert w c. induction m as [a|B op k IH]; intros w c Hm Hc.
  - unfold run. simpl. unfold changed. rewrite insert_id, app_nil_r by done. by destruct w.
  - destruct Hm as [Hop Hk].
    change (run (Perform op k) w) with
      (match op_run op w with
       | Done (b, v) => run (k b) v | Panicked => Panicked | Stuck => Stuck end).
    rewrite (lop_run r op w c Hop Hc). simpl.
    destruct (lop op c (w_held w)) as [[[[b c1] h1] s1]| |]; [|done..]. simpl.
    rewrite (IH b (changed w r c1 h1 s1) c1) by (apply Hk || apply lookup_insert_eq).
    simpl. destruct (lrun (k b) c1 h1) as [[[[a c2] h2] s2]| |]; [|done..]. simpl.
    by rewrite changed_twice.
Qed.

Lemma lrun_bind {A B} (m : M A) (f : A → M B) c h :
  lrun (m ≫= f) c h =
  '(a, c, h, s) ← lrun m c h; '(b, c, h, s') ← lrun (f a) c h; Done (b, c, h, s ++ s').
Proof.
  revert c h. induction m as [a|C op k IH]; intros c h.
  - simpl. by destruct (lrun (f a) c h) as [[[[b c1] h1] s1]| |].
  - change (lrun (Perform op k ≫= f) c h) with
      ('(b, c, h, s) ← lop op c h;
       '(a, c, h, s') ← lrun (k b ≫= f) c h; Done (a, c, h, s ++ s')).
    simpl. destruct (lop op c h) as [[[[b c1] h1] s1]| |]; [|done..]. simpl. rewrite IH.
    destruct (lrun (k b) c1 h1) as [[[[a c2] h2] s2]| |]; [|done..]. simpl.
    destruct (lrun (f a) c2 h2) as [[[[b' c3] h3] s3]| |]; [|done..]. simpl.
    by rewrite app_assoc.
Qed.
End local.

(** ** One receiver *)

Section one_receiver.
Context {P : Platform} {PL : PlatformLaws P}.
Context (addr : SocketAddr) (b : bool) (o : option (SmolStr * Z)) (h : RtpHeader).
Context (message : DataPacket).
Hypothesis Ho : b = true → o = None.

Lemma serve_local p : local p.2 (serve addr b o h message p).
Proof.
  unfold serve, tryM, encrypt_for, with_srtp, adapt_payload.
  apply local_bind; [by apply local_perform|]. intros c. destruct (c_deleted c); [done|].
  apply local_bind.
  - apply local_guarded, local_bind; [by apply local_perform|]. intros c'.
    destruct (c_srtp c') as [t|]; [|done]. destruct (if b then _ else _) as [[t' m'] r].
    apply local_bind; [by apply local_perform|done].
  - intros [m|e]; [|done]. apply local_bind.
    + destruct b; [by rewrite Ho|done].
    + intros m'. apply local_bind; [by apply local_perform|done].
Qed.

Lemma with_srtp_lrun {A} r (none : A) k c :
  ∃ x c', ∀ held, LSrtp r ∉ held.*1 → lrun (with_srtp r none k) c held = Done (x, c', held, []).
Proof.
  Transparent perform.
  exists (match c_srtp c with None => none | Some t => (k t).2 end),
    (match c_srtp c with None => c | Some t => set_srtp (Some (k t).1) c end).
  intros held Hl. unfold with_srtp, guarded, acquire, release, client, update, perform. simpl.
  rewrite write_free by done. simpl. destruct (c_srtp c) as [t|]; [|done]. simpl.
  by destruct (k t) as [t' x].
Qed.
#[local] Opaque perform.

(** A closure changes its client whatever other guards its thread has, and sends at most
    one packet. *)
Lemma serve_lrun p c :
  ∃ res c' s, (length s ≤ 1)%nat ∧ ∀ held, LSrtp p.2 ∉ held.*1 →
    lrun (serve addr b o h message p) c held = Done (res, c', held, s).
Proof.
  Transparent perform.
  unfold serve, tryM. destruct (c_deleted c) eqn:Hd.
  { exists (Ok tt), c, []. split; [simpl; lia|]. intros held _. simpl. by rewrite Hd. }
  unfold encrypt_for.
  match goal with |- context [with_srtp p.2 ?none ?k] =>
    destruct (with_srtp_lrun p.2 none k c) as (x & c' & Hx) end.
  destruct x as [m|e].
  - exists (Ok tt), c', [UdpSend (Rtc m p.1)]. split; [simpl; lia|]. intros held Hl.
    cbn [lrun mbind M_bind client perform lop outcome_bind]. rewrite Hd, lrun_bind, (Hx held Hl).
    unfold adapt_payload. by destruct b; [rewrite Ho|].
  - exists (Err e), c', []. split; [simpl; lia|]. intros held Hl.
    cbn [lrun mbind M_bind client perform lop outcome_bind]. rewrite Hd, lrun_bind, (Hx held Hl).
    done.
Qed.
#[local] Opaque perform.
End one_receiver.

(** ** Every run of the closures *)

Section scope.
Context {P : Platform} {PL : PlatformLaws P}.
Context (body : SocketAddr * ClientRef → M (result unit ErrorParse)).
Hypothesis Hlocal : ∀ p, local p.2 (body p).
Hypothesis Hbody : ∀ p c, ∃ res c' s, (length s ≤ 1)%nat ∧ ∀ held, LSrtp p.2 ∉ held.*1 →
  lrun (body p) c held = Done (res, c', held, s).
Context (w0 : World) (l : list (SocketAddr * ClientRef)) (outer : list (lock * mode)).
Hypothesis Hrefs : NoDup l.*2.
Hypothesis Halloc : ∀ p, p ∈ l → is_Some (w_clients w0 !! p.2).
Hypothesis Houter : ∀ p, p ∈ l → LSrtp p.2 ∉ outer.*1.

(** What the closure of a receiver does, wherever it runs. *)
Definition result_of (p : SocketAddr * ClientRef) :
    option (result unit ErrorParse * Client * list Effect) :=
  c ← w_clients w0 !! p.2;
  match lrun (body p) c [] with
  | Done (res, c', _, s) => Some (res, c', s)
  | _ => None
  end.

Definition sends_of (p : SocketAddr * ClientRef) : list Effect :=
  match result_of p with Some (_, _, s) => s | None => [] end.

Lemma result_of_Some p :
  p ∈ l → ∃ c res c' s, w_clients w0 !! p.2 = Some c ∧ result_of p = Some (res, c', s) ∧
    (length s ≤ 1)%nat ∧ ∀ held, LSrtp p.2 ∉ held.*1 →
      lrun (body p) c held = Done (res, c', held, s).
Proof.
  intros [c Hc]%Halloc. destruct (Hbody p c) as (res & c' & s & Hs & Hl).
  exists c, res, c', s. split; [done|]. split; [|done].
  unfold result_of. rewrite Hc. simpl. by rewrite Hl by set_solver.
Qed.

(** A closure is on its way to its result; the receivers in [E] have been sent their
    packet. *)
Record child_ok (E : list (SocketAddr * ClientRef)) (w : World) (ch : Child) : Prop := {
  co_in : ch_item ch ∈ l;
  co_local : local (ch_item ch).2 (ch_prog ch);
  co_held q : q ∈ ch_held ch → q.1 = LSrtp (ch_item ch).2;
  co_run : ∃ c res c' s, w_clients w !! (ch_item ch).2 = Some c ∧
    result_of (ch_item ch) = Some (res, c', s) ∧
    lrun (ch_prog ch) c (ch_held ch) =
      Done (res, c', [], if decide (ch_item ch ∈ E) then [] else s);
}.

Record scope_ok (E : list (SocketAddr * ClientRef)) (sc : Scope) : Prop := {
  sp_items : l ≡ₚ (ch_item <$> sc_children sc) ++ sc_todo sc ++ sc_skipped sc;
  sp_children : Forall (child_ok E (sc_world sc)) (sc_children sc);
  sp_emitted : NoDup E ∧ E ⊆ ch_item <$> sc_children sc;
  sp_others r : r ∉ (ch_item <$> sc_children sc).*2 →
    w_clients (sc_world sc) !! r = w_clients w0 !! r;
  sp_world : w_storage (sc_world sc) = w_storage w0 ∧ w_groups (sc_world sc) = w_groups w0 ∧
    w_held (sc_world sc) = [];
  sp_sent : w_sent (sc_world sc) = w_sent w0 ++ (E ≫= sends_of);
  sp_skipped : sc_skipped sc ≠ [] → failed sc = true;
}.

Lemma scope_nodup E sc : scope_ok E sc → NoDup ((ch_item <$> sc_children sc) ++ sc_todo sc ++ sc_skipped sc).*2.
Proof. intros Hsc. by rewrite <- (sp_items _ _ Hsc). Qed.

Lemma child_item_inj E sc i j ch ch' :
  scope_ok E sc → sc_children sc !! i = Some ch → sc_children sc !! j = Some ch' →
  (ch_item ch).2 = (ch_item ch').2 → i = j.
Proof.
  intros Hsc Hi Hj Heq. pose proof (scope_nodup _ _ Hsc) as Hnd.
  rewrite fmap_app, NoDup_app in Hnd. destruct Hnd as [Hnd _].
  eapply (NoDup_lookup _ i j (ch_item ch).2 Hnd); rewrite !list_lookup_fmap, ?Hi, ?Hj;
    simpl; congruence.
Qed.

Lemma start_ok E sc i p :
  scope_ok E sc → sc_todo sc !! i = Some p →
  scope_ok E {| sc_world := sc_world sc; sc_todo := delete i (sc_todo sc);
                sc_children := sc_children sc ++
                  [{| ch_item := p; ch_held := []; ch_prog := body p |}];
                sc_skipped := sc_skipped sc |}.
Proof.
  intros Hsc Hi. pose proof Hsc as [Hit Hch [HE HEsub] Hoth Hw Hsent Hsk].
  pose proof (delete_Permutation _ _ _ Hi) as Hperm.
  assert (p ∈ l) as Hp.
  { rewrite Hit, !elem_of_app. right; left. by eapply list_elem_of_lookup_2. }
  assert (p.2 ∉ (ch_item <$> sc_children sc).*2) as Hnew.
  { pose proof (scope_nodup _ _ Hsc) as Hnd. rewrite fmap_app, NoDup_app in Hnd.
    destruct Hnd as (_ & Hdis & _). intros Hin. apply (Hdis _ Hin), list_elem_of_fmap_2, elem_of_app.
    left. by eapply list_elem_of_lookup_2. }
  split; simpl; try done.
  - rewrite Hit, fmap_app, Hperm at 1. simpl. solve_Permutation.
  - apply Forall_app. split; [done|]. apply Forall_singleton. split; simpl; [done|done|set_solver|].
    destruct (result_of_Some p Hp) as (c & res & c' & s & Hc & Hr & _ & Hl).
    exists c, res, c', s. rewrite Hoth by done. do 2 (split; [done|]).
    rewrite Hl by set_solver. rewrite decide_False; [done|]. intros Hin%HEsub.
    by apply Hnew, list_elem_of_fmap_2.
  - rewrite fmap_app. set_solver.
  - intros r Hr. apply Hoth. rewrite !fmap_app in Hr. set_solver.
  - intros Hne. unfold failed. simpl. by rewrite existsb_app, (Hsk Hne : existsb _ _ = true).
Qed.

Lemma skip_ok E sc i p :
  scope_ok E sc → sc_todo sc !! i = Some p → failed sc = true →
  scope_ok E {| sc_world := sc_world sc; sc_todo := delete i (sc_todo sc);
                sc_children := sc_children sc; sc_skipped := sc_skipped sc ++ [p] |}.
Proof.
  intros [Hit Hch HE Hoth Hw Hsent Hsk] Hi Hf. split; simpl; try done.
  rewrite Hit, (delete_Permutation _ _ _ Hi) at 1. solve_Permutation.
Qed.

(** The next operation of a closure. *)
Lemma child_step_run E w ch :
  w_held w = [] → child_ok E w ch → finished (ch_prog ch) = false →
  ∃ ch' c1 s1, child_step ch w = Done (ch', changed w (ch_item ch).2 c1 [] s1) ∧
    ch_item ch' = ch_item ch ∧ rest (ch_prog ch') (ch_prog ch) ∧
    child_ok (if decide (s1 = []) then E else E ++ [ch_item ch])
      (changed w (ch_item ch).2 c1 [] s1) ch' ∧
    (s1 ≠ [] → (ch_item ch ∉ E) ∧ sends_of (ch_item ch) = s1).
Proof.
  intros Hh [Hin Hloc Hheld (c & res & c' & s & Hc & Hr & Hrun)] Hf. unfold child_step.
  destruct ch as [p h m]. simpl in *. destruct m as [a|B op k]; [done|]. destruct Hloc as [Hop Hk].
  destruct (result_of_Some p Hin) as (c0 & res0 & c0' & s0 & _ & Hr' & Hlen & _).
  rewrite Hr in Hr'. injection Hr' as <- <- <-.
  simpl in Hrun. pose proof (lop_run p.2 op (with_held w h) c Hop Hc) as Hstep. simpl in Hstep.
  destruct (lop op c h) as [[[[x c1] h1] s1]| |] eqn:Hlop; simpl in Hrun; [|done..].
  destruct (lrun (k x) c1 h1) as [[[[res' c2] h2] s2]| |] eqn:Hrest; simpl in Hrun; [|done..].
  injection Hrun as -> -> -> Hs. rewrite Hstep. simpl.
  exists {| ch_item := p; ch_held := h1; ch_prog := k x |}, c1, s1. split.
  { unfold changed, with_held. simpl. done. }
  split; [done|]. split; [by exists x|].
  assert (∀ q, q ∈ h1 → q.1 = LSrtp p.2) as Hh1.
  { destruct op; simpl in *; simplify_eq/=; try done.
    - destruct (match m with Read => _ | Write => _ end); simplify_eq.
      intros q [->|Hq]%elem_of_cons; [done|by apply Hheld].
    - intros q Hq. apply Hheld. destruct h; [done|]. by right. }
  assert (w_clients (changed w p.2 c1 [] s1) !! p.2 = Some c1) as Hc1 by apply lookup_insert_eq.
  destruct (decide (s1 = [])) as [->|Hne].
  - split; [|done]. split; simpl; [done|apply Hk|done|].
    exists c1, res, c', s. do 2 (split; [done|]). by rewrite Hrest, <- Hs.
  - assert (p ∉ E) as HpE.
    { intros HE. rewrite decide_True in Hs by done. by destruct s1. }
    rewrite decide_False in Hs by done. assert (s2 = []) as ->.
    { destruct s1 as [|e s1]; [done|]. rewrite <- Hs in Hlen. simpl in Hlen.
      rewrite length_app in Hlen. apply nil_length_inv. lia. }
    rewrite app_nil_r in Hs. subst s1. split.
    + split; simpl; [done|apply Hk|done|].
      exists c1, res, c', s. do 2 (split; [done|]). rewrite Hrest, decide_True; [done|set_solver].
    + intros _. split; [done|]. unfold sends_of. by rewrite Hr.
Qed.

(** The other closures do not notice. *)
Lemma child_ok_other E E' w ch (p : SocketAddr * ClientRef) c1 s1 :
  child_ok E w ch → (ch_item ch).2 ≠ p.2 → (ch_item ch ∈ E' ↔ ch_item ch ∈ E) →
  child_ok E' (changed w p.2 c1 [] s1) ch.
Proof.
  intros [Hin Hloc Hheld (c & res & c' & s & Hc & Hr & Hrun)] Hne HE. split; try done.
  exists c, res, c', s. split; [simpl; by rewrite lookup_insert_ne|]. split; [done|].
  rewrite Hrun. repeat case_decide; tauto || done.
Qed.

Lemma op_ok_scope E sc j ch :
  scope_ok E sc → sc_children sc !! j = Some ch → finished (ch_prog ch) = false →
  ∃ E' ch' w', child_step ch (sc_world sc) = Done (ch', w') ∧ rest (ch_prog ch') (ch_prog ch) ∧
    scope_ok E' {| sc_world := w'; sc_todo := sc_todo sc;
                   sc_children := <[j := ch']> (sc_children sc); sc_skipped := sc_skipped sc |}.
Proof.
  intros Hsc Hj Hf. pose proof Hsc as [Hit Hch [HE HEsub] Hoth (Hst & Hgr & Hh) Hsent Hsk].
  pose proof (Forall_lookup_1 _ _ _ _ Hch Hj) as Hok.
  destruct (child_step_run E (sc_world sc) ch Hh Hok Hf) as
    (ch' & c1 & s1 & Hstep & Hitem & Hrest & Hok' & Hnew).
  set (E' := if decide (s1 = []) then E else E ++ [ch_item ch]) in *.
  set (w' := changed (sc_world sc) (ch_item ch).2 c1 [] s1) in *.
  exists E', ch', w'. split; [done|]. split; [done|].
  assert (ch_item <$> <[j := ch']> (sc_children sc) = ch_item <$> sc_children sc) as Hsame.
  { rewrite list_fmap_insert, Hitem. apply list_insert_id. by rewrite list_lookup_fmap, Hj. }
  assert (ch_item ch ∈ ch_item <$> sc_children sc) as Hmem
    by by eapply list_elem_of_fmap_2, list_elem_of_lookup_2.
  split; simpl; rewrite ?Hsame; try done.
  - apply Forall_lookup. intros i ch2. rewrite list_lookup_insert_Some.
    intros [(<- & <- & _)|[Hne Hi]]; [done|].
    assert ((ch_item ch2).2 ≠ (ch_item ch).2) as Hdiff.
    { intros Heq. by apply Hne, (child_item_inj E sc j i ch ch2 Hsc Hj Hi). }
    apply (child_ok_other E); [by eapply (Forall_lookup_1 _ _ _ _ Hch)|done|].
    unfold E'. case_decide; [done|]. rewrite elem_of_app, list_elem_of_singleton.
    split; [intros [?|Heq]; [done|by rewrite Heq in Hdiff]|by left].
  - unfold E'. case_decide as Hs; [done|]. destruct (Hnew Hs) as [Hn _]. split; [|set_solver].
    apply NoDup_app. split; [done|]. split; [set_solver|apply NoDup_singleton].
  - intros r Hr. rewrite lookup_insert_ne; [by apply Hoth|]. intros <-.
    by apply Hr, list_elem_of_fmap_2.
  - rewrite Hsent, <- app_assoc. f_equal. unfold E'. case_decide as Hs.
    + by rewrite Hs, app_nil_r.
    + destruct (Hnew Hs) as [_ Hn]. rewrite bind_app. simpl. by rewrite Hn, app_nil_r.
  - intros Hne. specialize (Hsk Hne). unfold failed in *. simpl.
    apply existsb_exists in Hsk as (ch2 & [i Hi]%list_elem_of_In%list_elem_of_lookup & Hfail).
    apply existsb_exists. exists ch2. split; [|done]. apply list_elem_of_In, list_elem_of_lookup.
    exists i. rewrite list_lookup_insert_ne; [done|]. intros ->. simplify_eq.
    by destruct (ch_prog ch).
Qed.

Lemma scope_step_ok E ev sc :
  scope_ok E sc →
  match scope_step outer body ev sc with
  | Done sc' => ∃ E', scope_ok E' sc'
  | Panicked => False
  | Stuck => True
  end.
Proof.
  intros Hsc. destruct ev as [i|i|j]; simpl.
  - destruct (sc_todo sc !! i) as [p|] eqn:Hi; [|done]. exists E. by apply start_ok.
  - destruct (sc_todo sc !! i) as [p|] eqn:Hi; [|done].
    destruct (failed sc) eqn:Hf; [|done]. exists E. by apply skip_ok.
  - destruct (sc_children sc !! j) as [ch|] eqn:Hj; [|done].
    destruct (child_may_go _ _ _); [|done]. destruct (finished (ch_prog ch)) eqn:Hf.
    { unfold child_step. by destruct (ch_prog ch). }
    destruct (op_ok_scope E sc j ch Hsc Hj Hf) as (E' & ch' & w' & -> & _ & Hok).
    by exists E'.
Qed.

Lemma scope_init_ok : w_held w0 = [] → scope_ok [] (scope_init w0 l).
Proof.
  intros Hh. split; simpl; try done.
  - by rewrite app_nil_r.
  - split; [constructor|done].
  - by rewrite app_nil_r.
Qed.

Lemma scope_reachable_ok sc :
  w_held w0 = [] → rtc (scope_next outer body) (scope_init w0 l) sc → ∃ E, scope_ok E sc.
Proof.
  intros Hh Hsc. assert (∃ E, scope_ok E (scope_init w0 l)) as Hok by (eexists; by apply scope_init_ok).
  induction Hsc as [|sc1 sc2 sc3 (ev & Hs) _ IH]; [done|]. apply IH. destruct Hok as [E Hok].
  pose proof (scope_step_ok E ev _ Hok) as H. by rewrite Hs in H.
Qed.

(** A closure is admitted: only its own receiver's context is locked. *)
Lemma child_admitted E sc j ch :
  scope_ok E sc → sc_children sc !! j = Some ch →
  child_may_go outer (delete j (sc_children sc)) ch = true.
Proof.
  intros Hsc Hj. pose proof (Forall_lookup_1 _ _ _ _ (sp_children _ _ Hsc) Hj) as Hok.
  unfold child_may_go. destruct (request (ch_prog ch)) as [[k m]|] eqn:Hr; [|done].
  assert (∀ ch2, ch2 ∈ delete j (sc_children sc) →
    child_ok E (sc_world sc) ch2 ∧ (ch_item ch2).2 ≠ (ch_item ch).2) as Hother.
  { intros ch2 (i & Hne & Hi)%elem_of_other.
    split; [by eapply (Forall_lookup_1 _ _ _ _ (sp_children _ _ Hsc))|].
    intros Heq. by apply Hne, (child_item_inj E sc i j ch2 ch Hsc Hi Hj). }
  assert (∀ ch2 q, child_ok E (sc_world sc) ch2 → request (ch_prog ch2) = Some q →
    q.1 = LSrtp (ch_item ch2).2) as Hreq.
  { intros ch2 q [_ Hloc _ _] Hq. destruct (ch_prog ch2) as [|B op kk]; [done|].
    destruct Hloc as [Hop _]. by destruct op; simplify_eq/=. }
  assert (k = LSrtp (ch_item ch).2) as -> by exact (Hreq ch (k, m) Hok Hr).
  assert (LSrtp (ch_item ch).2 ∉ (outer ++ (delete j (sc_children sc) ≫= ch_held)).*1) as Hfree.
  { rewrite fmap_app, elem_of_app. intros [Hin|Hin]; [by eapply Houter, Hin; apply Hok|].
    apply list_elem_of_fmap in Hin as (q & Heq & (ch2 & Hq & Hin)%list_elem_of_bind).
    destruct (Hother ch2 Hin) as [[_ _ Hheld _] Hne]. rewrite (Hheld q Hq) in Heq. congruence. }
  destruct m; [apply admits_read|apply admits_write]; [|..|done].
  - intros Hin. by apply (list_elem_of_fmap_2 fst), Hfree in Hin.
  - intros (ch2 & Hin & Hq)%list_elem_of_omap. destruct (Hother ch2 Hin) as [Hok2 Hne].
    pose proof (Hreq ch2 _ Hok2 Hq) as Heq. simpl in Heq. congruence.
Qed.

Lemma scope_progress E sc :
  scope_ok E sc → complete sc ∨ ∃ sc', scope_next outer body sc sc'.
Proof.
  intros Hsc. destruct (sc_todo sc) as [|p todo] eqn:Htodo.
  2: { right. eexists. exists (ScStart 0). simpl. by rewrite Htodo. }
  destruct (decide (Forall (λ ch, finished (ch_prog ch) = true) (sc_children sc))) as [|Hn];
    [by left|].
  apply not_Forall_Exists, Exists_exists in Hn as (ch & [j Hj]%list_elem_of_lookup & Hf); [|apply _].
  apply not_true_is_false in Hf. right.
  destruct (op_ok_scope E sc j ch Hsc Hj Hf) as (E' & ch' & w' & Hs & _ & _).
  eexists. exists (ScOp j). simpl. by rewrite Hj, (child_admitted E sc j ch Hsc Hj), Hs.
Qed.

(** *** The serial run *)

Fixpoint apply_all (w : World) (σ : list (SocketAddr * ClientRef)) : World :=
  match σ with
  | [] => w
  | p :: σ =>
      match result_of p with
      | Some (_, c', s) => apply_all (changed w p.2 c' (w_held w) s) σ
      | None => apply_all w σ
      end
  end.

Lemma apply_all_frame w σ :
  w_storage (apply_all w σ) = w_storage w ∧ w_groups (apply_all w σ) = w_groups w ∧
  w_held (apply_all w σ) = w_held w ∧ w_sent (apply_all w σ) = w_sent w ++ (σ ≫= sends_of) ∧
  ∀ r, r ∉ σ.*2 → w_clients (apply_all w σ) !! r = w_clients w !! r.
Proof.
  revert w. induction σ as [|p σ IH]; intros w; simpl; [by rewrite app_nil_r|].
  unfold sends_of at 1. destruct (result_of p) as [[[res c'] s]|].
  - destruct (IH (changed w p.2 c' (w_held w) s)) as (-> & -> & -> & -> & Hc). simpl.
    do 3 (split; [done|]). split; [by rewrite app_assoc|]. intros r Hr.
    rewrite Hc by set_solver. apply lookup_insert_ne. set_solver.
  - destruct (IH w) as (-> & -> & -> & -> & Hc). do 4 (split; [done|]). intros r Hr.
    apply Hc. set_solver.
Qed.

Lemma apply_all_client w σ p res c' s :
  NoDup σ.*2 → p ∈ σ → result_of p = Some (res, c', s) →
  w_clients (apply_all w σ) !! p.2 = Some c'.
Proof.
  revert w. induction σ as [|q σ IH]; intros w Hnd; [by intros ?%elem_of_nil|].
  apply NoDup_cons in Hnd as [Hq Hnd]. intros [->|Hp]%elem_of_cons Hr; simpl.
  - rewrite Hr. destruct (apply_all_frame (changed w q.2 c' (w_held w) s) σ) as (_ & _ & _ & _ & Hc).
    rewrite Hc by done. apply lookup_insert_eq.
  - destruct (result_of q) as [[[res2 c2] s2]|]; by apply IH.
Qed.

(** The receivers taken one after another, all of them served. *)
Lemma serial_served late σ w r :
  NoDup σ.*2 → (∀ p, p ∈ σ → p ∈ l ∧ late p = true ∧ (LSrtp p.2 ∉ (w_held w).*1) ∧
    w_clients w !! p.2 = w_clients w0 !! p.2) →
  ∃ res, try_for_each late body σ r w = Done (res, apply_all w σ) ∧
    (res = Ok tt ↔ r = Ok tt ∧ ∀ p, p ∈ σ → ∃ c' s, result_of p = Some (Ok tt, c', s)).
Proof.
  revert w r. induction σ as [|p σ IH]; intros w r Hnd Hσ.
  { exists r. split; [done|]. split; [|by intros []]. intros ->. split; [done|].
    by intros p ?%elem_of_nil. }
  apply NoDup_cons in Hnd as [Hp Hnd].
  destruct (Hσ p) as (Hl & Hlate & Hfree & Hsame); [apply list_elem_of_here|].
  destruct (result_of_Some p Hl) as (c & res & c' & s & Hc & Hr & _ & Hrun).
  assert (body p w = Done (res, changed w p.2 c' (w_held w) s)) as Hone.
  { rewrite (lrun_run p.2 _ w c) by (done || congruence). by rewrite Hrun. }
  set (w1 := changed w p.2 c' (w_held w) s) in *.
  assert (∀ q, q ∈ σ → q ∈ l ∧ late q = true ∧ (LSrtp q.2 ∉ (w_held w1).*1) ∧
    w_clients w1 !! q.2 = w_clients w0 !! q.2) as Hσ1.
  { intros q Hq. destruct (Hσ q) as (? & ? & ? & <-); [by right|]. do 3 (split; [done|]).
    apply lookup_insert_ne. intros Heq. apply Hp. rewrite Heq. by apply list_elem_of_fmap_2. }
  cbn [apply_all]. rewrite Hr. fold w1. destruct r as [[]|e]; cbn [try_for_each].
  - destruct (IH w1 res Hnd Hσ1) as (res' & Hrest & Hiff). exists res'.
    split; [by rewrite run_bind, Hone|]. rewrite Hiff. split.
    + intros [-> Hall]. split; [done|]. intros q [->|Hq]%elem_of_cons; [by eauto|by apply Hall].
    + intros [_ Hall]. split.
      * destruct (Hall p) as (c2 & s2 & Hr2); [apply list_elem_of_here|]. congruence.
      * intros q Hq. apply Hall. by right.
  - rewrite Hlate. destruct (IH w1 (Err e) Hnd Hσ1) as (res' & Hrest & Hiff). exists res'.
    split; [by rewrite run_bind, Hone|]. rewrite Hiff. naive_solver.
Qed.

Lemma serial_skipped late σ e w :
  (∀ p, p ∈ σ → late p = false) → try_for_each late body σ (Err e) w = Done (Err e, w).
Proof.
  induction σ as [|p σ IH]; intros Hl; [done|]. cbn [try_for_each].
  rewrite (Hl p) by apply list_elem_of_here. apply IH. intros q Hq. apply Hl. by right.
Qed.

Lemma try_for_each_app late σ σ' r w :
  try_for_each late body (σ ++ σ') r w =
  match try_for_each late body σ r w with
  | Done (r, w) => try_for_each late body σ' r w
  | Panicked => Panicked
  | Stuck => Stuck
  end.
Proof.
  revert r w. induction σ as [|p σ IH]; intros r w; [done|]. cbn [app try_for_each].
  destruct r as [u|e].
  - rewrite !run_bind. by destruct (body p w) as [[r w1]| |].
  - destruct (late p); [|done]. rewrite !run_bind. by destruct (body p w) as [[r w1]| |].
Qed.

(** A closure that has returned has done what it does alone. *)
Lemma child_finished E w ch :
  child_ok E w ch → finished (ch_prog ch) = true →
  ∃ res c', ch_prog ch = Return res ∧ w_clients w !! (ch_item ch).2 = Some c' ∧
    result_of (ch_item ch) = Some (res, c', sends_of (ch_item ch)) ∧
    (ch_item ch ∉ E → sends_of (ch_item ch) = []).
Proof.
  intros [_ _ _ (c & res & c' & s & Hc & Hr & Hrun)] Hf. unfold sends_of. rewrite Hr.
  destruct (ch_prog ch) as [a|]; [|done]. simpl in Hrun. injection Hrun as -> -> _ Hs.
  exists res, c'. do 3 (split; [done|]). intros Hn. by rewrite decide_False in Hs.
Qed.

(** ** A completed run *)

Section completed.
Context (E : list (SocketAddr * ClientRef)) (sc : Scope).
Hypothesis Hsc : scope_ok E sc.
Hypothesis Hcomplete : complete sc.

Let served := ch_item <$> sc_children sc.

Lemma served_items : l ≡ₚ served ++ sc_skipped sc.
Proof. rewrite (sp_items _ _ Hsc). by destruct Hcomplete as [-> _]. Qed.

Lemma served_nodup : NoDup served.*2.
Proof. pose proof (scope_nodup _ _ Hsc) as Hnd. rewrite fmap_app, NoDup_app in Hnd. apply Hnd. Qed.

Lemma served_child p :
  p ∈ served → ∃ ch res c', ch ∈ sc_children sc ∧ ch_item ch = p ∧ ch_prog ch = Return res ∧
    w_clients (sc_world sc) !! p.2 = Some c' ∧ result_of p = Some (res, c', sends_of p) ∧
    (p ∉ E → sends_of p = []).
Proof.
  intros (ch & -> & Hin)%list_elem_of_fmap. destruct Hcomplete as [_ Hfin].
  pose proof (sp_children _ _ Hsc) as Hch. rewrite Forall_forall in Hch, Hfin.
  destruct (child_finished _ _ _ (Hch _ Hin) (Hfin _ Hin)) as (res & c' & ?).
  by exists ch, res, c'.
Qed.

(** The order in which the packets left, then the closures that sent nothing. *)
Lemma serial_order : ∃ σ, σ ≡ₚ served ∧ σ ≫= sends_of = E ≫= sends_of.
Proof.
  destruct (sp_emitted _ _ Hsc) as [HE HEsub]. fold served in HEsub.
  set (others := filter (λ p, p ∉ E) served). exists (E ++ others). split.
  - apply NoDup_Permutation; [|apply (NoDup_fmap_1 snd), served_nodup|].
    + apply NoDup_app. split; [done|]. split; [by intros p Hp [Hn _]%list_elem_of_filter|].
      apply NoDup_filter, (NoDup_fmap_1 snd), served_nodup.
    + intros p. unfold others. rewrite elem_of_app, list_elem_of_filter.
      destruct (decide (p ∈ E)) as [Hp|Hp]; [|naive_solver]. split; [by auto|by left].
  - rewrite bind_app. assert (others ≫= sends_of = []) as ->; [|by rewrite app_nil_r].
    assert (Forall (λ p, sends_of p = []) others) as Hall.
    { apply Forall_forall. intros p [Hn Hp]%list_elem_of_filter.
      destruct (served_child p Hp) as (ch & res & c' & _ & _ & _ & _ & _ & Hs). by apply Hs. }
    clear -Hall. induction Hall as [|p k Hp _ IH]; [done|]. simpl. by rewrite Hp.
Qed.

Lemma complete_world σ held :
  σ ≡ₚ served → σ ≫= sends_of = E ≫= sends_of →
  apply_all (with_held w0 held) σ = with_held (sc_world sc) held.
Proof.
  intros Hσ Hsends. destruct (sp_world _ _ Hsc) as (Hst & Hgr & _).
  destruct (apply_all_frame (with_held w0 held) σ) as (H1 & H2 & H3 & H4 & H5).
  assert (w_clients (apply_all (with_held w0 held) σ) = w_clients (sc_world sc)) as H6.
  { apply map_eq. intros r. destruct (decide (r ∈ σ.*2)) as [(p & -> & Hp)%list_elem_of_fmap|Hr].
    - pose proof Hp as Hp'. rewrite Hσ in Hp'.
      destruct (served_child p Hp') as (ch & res & c' & _ & _ & _ & -> & Hr & _).
      eapply apply_all_client; [|done..]. rewrite Hσ. apply served_nodup.
    - rewrite H5 by done. symmetry. apply (sp_others _ _ Hsc). fold served. by rewrite <- Hσ. }
  pose proof (sp_sent _ _ Hsc) as Hsent.
  destruct (apply_all _ σ). simpl in *. unfold with_held. f_equal; congruence.
Qed.

Lemma complete_result :
  (∀ p, p ∈ served → ∃ c' s, result_of p = Some (Ok tt, c', s)) ↔ failed sc = false.
Proof.
  rewrite <- not_true_iff_false. unfold failed. rewrite existsb_exists. split.
  - intros Hall (ch & Hin%list_elem_of_In & Hf).
    assert (ch_item ch ∈ served) as Hp by by apply list_elem_of_fmap_2.
    destruct (Hall _ Hp) as (c' & s & Hr). destruct Hcomplete as [_ Hfin].
    pose proof (sp_children _ _ Hsc) as Hch. rewrite Forall_forall in Hch, Hfin.
    destruct (child_finished _ _ _ (Hch _ Hin) (Hfin _ Hin)) as (res & c2 & Hprog & _ & Hr' & _).
    rewrite Hprog in Hf. destruct res; [done|congruence].
  - intros Hf p Hp. destruct (served_child p Hp) as (ch & res & c' & Hin & _ & Hprog & _ & Hr & _).
    destruct res as [[]|e]; [by eauto|]. destruct Hf. exists ch.
    split; [by apply list_elem_of_In|by rewrite Hprog].
Qed.

(** The serial run with the receivers in that order, those given up at the end. *)
Lemma complete_serial held :
  NoDup l.*1 → (∀ p, p ∈ l → LSrtp p.2 ∉ held.*1) →
  ∃ σ late res, σ ≡ₚ l ∧
    try_for_each (λ p, late p.1) body σ (Ok tt) (with_held w0 held) =
      Done (res, with_held (sc_world sc) held) ∧
    (res = Ok tt ↔ failed sc = false).
Proof.
  intros Hnd Hheld. destruct serial_order as (σ & Hσ & Hsends). pose proof served_items as Hit.
  set (late a := bool_decide (a ∈ served.*1)).
  destruct (serial_served (λ p, late p.1) σ (with_held w0 held) (Ok tt)) as (res & Hrun & Hiff).
  { rewrite Hσ. apply served_nodup. }
  { intros p Hp. rewrite Hσ in Hp. assert (p ∈ l) as Hl by (rewrite Hit, elem_of_app; by left).
    split; [done|]. split; [|split; [by apply Hheld|done]].
    apply bool_decide_eq_true. by apply list_elem_of_fmap_2. }
  assert (res = Ok tt ↔ failed sc = false) as Hres.
  { rewrite Hiff, <- complete_result. split; [intros [_ Hall]|intros Hall; split; [done|]];
      intros p Hp; apply Hall; by rewrite Hσ || rewrite <- Hσ. }
  exists (σ ++ sc_skipped sc), late, res. split; [by rewrite Hσ, Hit|]. split; [|done].
  rewrite try_for_each_app, Hrun, (complete_world σ held Hσ Hsends).
  destruct (sc_skipped sc) as [|p k] eqn:Hskip; [done|]. rewrite <- Hskip.
  destruct res as [[]|e].
  { assert (failed sc = true) as Hf by (apply (sp_skipped _ _ Hsc); by rewrite Hskip).
    rewrite (proj1 Hres eq_refl) in Hf. done. }
  apply serial_skipped. intros q Hq. apply bool_decide_eq_false. intros Hq'.
  rewrite Hit, fmap_app, NoDup_app, ?Hskip in Hnd. destruct Hnd as (_ & Hdis & _).
  rewrite Hskip in Hq. apply (Hdis q.1 Hq'). by apply list_elem_of_fmap_2.
Qed.
End completed.

(** ** A run for every schedule *)

(** The steps of one closure, while the others wait. *)
Lemma child_alone E sc j ch c res c' s :
  scope_ok E sc → sc_children sc !! j = Some ch →
  w_clients (sc_world sc) !! (ch_item ch).2 = Some c →
  lrun (ch_prog ch) c (ch_held ch) = Done (res, c', [], s) →
  ∃ E' sc', rtc (scope_next outer body) sc sc' ∧ scope_ok E' sc' ∧
    sc' = {| sc_world := changed (sc_world sc) (ch_item ch).2 c' [] s; sc_todo := sc_todo sc;
             sc_children := <[j := {| ch_item := ch_item ch; ch_held := [];
                                      ch_prog := Return res |}]> (sc_children sc);
             sc_skipped := sc_skipped sc |}.
Proof.
  destruct ch as [p h m]. simpl. revert E sc c h s.
  induction m as [a|B op k IH]; intros E sc c h s Hsc Hj Hc Hrun; simpl in Hrun.
  - injection Hrun as -> -> -> <-. exists E, sc. split; [done|]. split; [done|].
    destruct (sp_world _ _ Hsc) as (_ & _ & Hh). unfold changed.
    rewrite insert_id, app_nil_r, list_insert_id by done. destruct sc as [[]]. simpl in *. by subst.
  - destruct (lop op c h) as [[[[x c1] h1] s1]| |] eqn:Hlop; simpl in Hrun; [|done..].
    destruct (lrun (k x) c1 h1) as [[[[res' c2] h2] s2]| |] eqn:Hrest; simpl in Hrun; [|done..].
    injection Hrun as -> -> -> <-.
    pose proof (Forall_lookup_1 _ _ _ _ (sp_children _ _ Hsc) Hj) as [_ [Hop _] _ _].
    pose proof (lop_run p.2 op (with_held (sc_world sc) h) c Hop Hc) as Hstep. simpl in Hstep.
    rewrite Hlop in Hstep.
    destruct (op_ok_scope E sc j _ Hsc Hj eq_refl) as (E1 & ch1 & w1 & Hs & _ & Hsc1).
    pose proof Hs as Hdone. unfold child_step in Hs. simpl in Hs. rewrite Hstep in Hs. simpl in Hs.
    injection Hs as <- <-.
    destruct (IH x E1 _ c1 h1 s2 Hsc1) as (E2 & sc2 & Hsteps & Hsc2 & ->); simpl.
    + apply list_lookup_insert_eq. by eapply lookup_lt_Some.
    + apply lookup_insert_eq.
    + exact Hrest.
    + exists E2. eexists. split; [|split; [exact Hsc2|]].
      * eapply rtc_l; [|exact Hsteps]. exists (ScOp j). simpl.
        by rewrite Hj, (child_admitted E sc j _ Hsc Hj), Hdone.
      * simpl. unfold changed. simpl. by rewrite insert_insert_eq, app_assoc, list_insert_insert_eq.
Qed.

(** A receiver is taken and served. *)
Lemma serve_alone E sc i p :
  scope_ok E sc → sc_todo sc !! i = Some p →
  ∃ E' sc' res, rtc (scope_next outer body) sc sc' ∧ scope_ok E' sc' ∧
    sc_todo sc' = delete i (sc_todo sc) ∧
    sc_children sc' = sc_children sc ++ [{| ch_item := p; ch_held := []; ch_prog := Return res |}] ∧
    body p (with_held (sc_world sc) outer) = Done (res, with_held (sc_world sc') outer).
Proof.
  intros Hsc Hi. pose proof (start_ok E sc i p Hsc Hi) as Hsc1.
  assert (p ∈ l) as Hp.
  { rewrite (sp_items _ _ Hsc), !elem_of_app. right; left. by eapply list_elem_of_lookup_2. }
  assert (p.2 ∉ (ch_item <$> sc_children sc).*2) as Hnew.
  { pose proof (scope_nodup _ _ Hsc) as Hnd. rewrite fmap_app, NoDup_app in Hnd.
    destruct Hnd as (_ & Hdis & _). intros Hin. apply (Hdis _ Hin), list_elem_of_fmap_2, elem_of_app.
    left. by eapply list_elem_of_lookup_2. }
  destruct (result_of_Some p Hp) as (c & res & c' & s & Hc & _ & _ & Hrun).
  rewrite <- (sp_others _ _ Hsc) in Hc by done.
  destruct (child_alone E _ (length (sc_children sc)) {| ch_item := p; ch_held := []; ch_prog := body p |}
    c res c' s Hsc1) as (E2 & sc2 & Hsteps & Hsc2 & ->); simpl.
  - by apply list_lookup_middle.
  - done.
  - apply Hrun. set_solver.
  - exists E2. eexists. exists res. split; [|split; [exact Hsc2|split; [done|split]]]; simpl.
    + eapply rtc_l; [|exact Hsteps]. exists (ScStart i). simpl. by rewrite Hi.
    + by rewrite insert_app_r_alt, Nat.sub_diag by lia.
    + rewrite (lrun_run p.2 _ _ c) by done. simpl. by rewrite Hrun by (by apply Houter).
Qed.

(** The receivers taken in the order of a schedule, those that are not late given up
    after a failure. *)
Lemma serial_scope late σ E sc res :
  scope_ok E sc → sc_todo sc ≡ₚ σ → Forall (λ ch, finished (ch_prog ch) = true) (sc_children sc) →
  (res = Ok tt ↔ failed sc = false) →
  ∃ sc' res', rtc (scope_next outer body) sc sc' ∧ complete sc' ∧
    try_for_each late body σ res (with_held (sc_world sc) outer) =
      Done (res', with_held (sc_world sc') outer) ∧
    (res' = Ok tt ↔ failed sc' = false).
Proof.
  revert E sc res. induction σ as [|p σ IH]; intros E sc res Hsc Hσ Hfin Hres.
  { apply Permutation_nil_r in Hσ. by exists sc, res. }
  assert (p ∈ sc_todo sc) as [i Hi]%list_elem_of_lookup by (rewrite Hσ; apply list_elem_of_here).
  assert (delete i (sc_todo sc) ≡ₚ σ) as Hσ'.
  { apply (Permutation_cons_inv (a := p)). rewrite <- Hσ. symmetry. by apply delete_Permutation. }
  cbn [try_for_each].
  assert ((∃ e, res = Err e ∧ late p = false) ∨ res = Ok tt ∨ late p = true) as [(e & -> & Hl)|Hserve].
  { destruct res as [[]|e]; [by right; left|]. destruct (late p); [by right; right|]. left. by exists e. }
  - assert (failed sc = true) as Hf.
    { apply not_false_is_true. intros Hf. by discriminate (proj2 Hres Hf). }
    destruct (IH E _ (Err e) (skip_ok E sc i p Hsc Hi Hf) Hσ' Hfin Hres) as (sc' & res' & Hsteps & Hrest).
    exists sc', res'. rewrite Hl. split; [|done].
    eapply rtc_l; [|exact Hsteps]. exists (ScSkip i). simpl. by rewrite Hi, Hf.
  - destruct (serve_alone E sc i p Hsc Hi) as (E1 & sc1 & r & Hsteps1 & Hsc1 & Htodo & Hch & Hone).
    set (res1 := match res with Ok _ => r | Err e => Err e end).
    destruct (IH E1 sc1 res1) as (sc' & res' & Hsteps & Hcomplete & Hrest & Hiff); [done|by rewrite Htodo| | |].
    + rewrite Hch. apply Forall_app. split; [done|]. by apply Forall_singleton.
    + unfold failed in *. rewrite Hch, existsb_app, orb_false_iff. simpl. unfold res1.
      destruct res as [[]|e], r as [[]|e']; simpl; intuition congruence.
    + exists sc', res'. split; [by etrans|]. split; [done|]. split; [|done].
      destruct res as [[]|e]; [by rewrite run_bind, Hone|].
      destruct Hserve as [|Hlate]; [done|]. by rewrite Hlate, run_bind, Hone.
Qed.

(** Every run ends. *)
Lemma scope_terminates sc : Acc (flip (scope_next outer body)) sc.
Proof.
  remember (length (sc_todo sc)) as n eqn:Hn. revert sc Hn.
  induction (lt_wf n) as [n _ IHn].
  assert (∀ chs : list Child, Acc (at_one (λ ch' ch, rest (ch_prog ch') (ch_prog ch))) chs →
    ∀ sc, n = length (sc_todo sc) → sc_children sc = chs → Acc (flip (scope_next outer body)) sc)
    as H.
  { induction 1 as [chs _ IHc]. intros sc Hn <-. constructor. intros sc' [ev Hs].
    assert (∀ i p, sc_todo sc !! i = Some p → (length (delete i (sc_todo sc)) < n)%nat) as Hless.
    { intros i p Hi. rewrite length_delete by done. apply lookup_lt_Some in Hi. lia. }
    destruct ev as [i|i|j]; simpl in Hs.
    - destruct (sc_todo sc !! i) as [p|] eqn:Hi; simplify_eq. by eapply IHn; [by eapply Hless|].
    - destruct (sc_todo sc !! i) as [p|] eqn:Hi; [|done]. destruct (failed sc); simplify_eq.
      by eapply IHn; [by eapply Hless|].
    - destruct (sc_children sc !! j) as [ch|] eqn:Hj; [|done].
      destruct (child_may_go _ _ _); [|done].
      destruct (child_step ch (sc_world sc)) as [[ch' w']| |] eqn:Hc; simplify_eq/=.
      eapply IHc; [|done..]. exists j, ch, ch'. split; [done|]. split; [|done].
      unfold child_step in Hc. destruct (ch_prog ch) as [|B op k]; [done|].
      destruct (op_run op _) as [[x v]| |]; simplify_eq/=. by exists x. }
  intros sc Hn. eapply H; [|done..]. apply at_one_acc, Forall_true. intros ch.
  apply (Acc_inverse_image _ _ _ ch_prog), rest_wf.
Qed.
End scope.

(** ** The property *)

Section parallel_properties.
Context {P : Platform} {PL : PlatformLaws P}.

(** C3. The receivers are served in parallel as if one after another: whatever the
    threads of the pool do, the closures of a packet's receivers do not panic, do not
    wait for each other forever and come to an end; and when all receivers are served or
    given up, the clients, their SRTP contexts and the packets sent, in the order they
    were sent, are those of [forward] under some schedule, with an error exactly when a
    closure failed. And each schedule of [forward] is that of such a run. *)
Theorem parallel_forwarding r addr b o h message w c :
  (b = true → o = None) → w_held w = [] → w_clients w !! r = Some c →
  b && bool_decide (c_receivers c = ∅) = false →
  (∀ a r', c_receivers c !! a = Some r' → is_Some (w_clients w !! r')) →
  (∀ a a' r', c_receivers c !! a = Some r' → c_receivers c !! a' = Some r' → a = a') →
  let outer := [(LReceivers r, Read)] in
  let body := serve addr b o h message in
  let start := scope_init w (map_to_list (c_receivers c)) in
  Acc (flip (scope_next outer body)) start ∧
  (∀ sc, rtc (scope_next outer body) start sc →
    (∀ ev, scope_step outer body ev sc ≠ Panicked) ∧
    (complete sc ∨ ∃ sc', scope_next outer body sc sc') ∧
    (complete sc → ∃ s res, schedule_ok s ∧
       forward s r addr b o h message w = Done (res, sc_world sc) ∧
       (res = Ok tt ↔ failed sc = false))) ∧
  ∀ s, schedule_ok s → ∃ sc res, rtc (scope_next outer body) start sc ∧ complete sc ∧
    forward s r addr b o h message w = Done (res, sc_world sc) ∧
    (res = Ok tt ↔ failed sc = false).
Proof.
  intros Ho Hh Hc Hfb Halloc Hinj outer body start.
  set (l := map_to_list (c_receivers c)) in *.
  assert (∀ p, local p.2 (body p)) as Hlocal by (intros p; by apply serve_local).
  pose proof (serve_lrun addr b o h message Ho : ∀ p c, _) as Hbody. fold body in Hbody.
  assert (∀ p, p ∈ l → c_receivers c !! p.1 = Some p.2) as Hl
    by (intros [a r'] Hp; by apply elem_of_map_to_list in Hp).
  assert (NoDup l.*2) as Hrefs.
  { apply NoDup_fmap_2_strong; [|apply NoDup_map_to_list]. intros [a1 r1] [a2 r2] H1%Hl H2%Hl Heq.
    simpl in *. subst r2. by rewrite (Hinj _ _ _ H1 H2). }
  assert (∀ p, p ∈ l → is_Some (w_clients w !! p.2)) as Hin by (intros p Hp%Hl; by eapply Halloc).
  assert (∀ p : SocketAddr * ClientRef, p ∈ l → LSrtp p.2 ∉ outer.*1) as Houter by set_solver.
  pose proof (scope_init_ok body w l Hh) as Hinit.
  assert (∀ s sc res, try_for_each (λ p, sch_late s p.1) body (sch_order s l) (Ok tt)
      (with_held w outer) = Done (res, with_held (sc_world sc) outer) → w_held (sc_world sc) = [] →
    forward s r addr b o h message w = Done (res, sc_world sc)) as Hforward.
  { intros s sc res Hrun Hheld. apply runs_eq. apply runs_guarded; [rewrite Hh; set_solver|].
    apply runs_bind. eapply runs_client; [exact Hc|]. cbv zeta. rewrite Hfb. fold l.
    unfold runs. rewrite Hh. unfold body, outer in Hrun. rewrite Hrun.
    split; [done|]. split; [done|]. rewrite with_held_twice, <- Hheld. apply with_held_id. }
  split; [apply scope_terminates|]. split.
  - intros sc [E Hsc]%(scope_reachable_ok body Hlocal Hbody w l outer Hrefs Hin Houter); [|done].
    split; [|split].
    + intros ev Hs. pose proof (scope_step_ok body Hlocal Hbody w l outer Hrefs Hin Houter E ev sc Hsc) as Hok.
      by rewrite Hs in Hok.
    + by apply (scope_progress body Hlocal Hbody w l outer Hrefs Hin Houter E).
    + intros Hcomplete.
      destruct (complete_serial body Hlocal Hbody w l outer Hrefs Hin Houter E sc Hsc Hcomplete outer)
        as (σ & late & res & Hσ & Hrun & Hres); [apply NoDup_fst_map_to_list|done|].
      exists {| sch_order k := if decide (k = l) then σ else k; sch_late := late |}, res.
      split; [|split; [|done]].
      * intros k. simpl. by destruct (decide (k = l)) as [->|].
      * apply Hforward; [simpl; by rewrite decide_True|]. apply (sp_world _ _ _ _ _ Hsc).
  - intros s Hs.
    destruct (serial_scope body Hlocal Hbody w l outer Hrefs Hin Houter (λ p, sch_late s p.1)
      (sch_order s l) [] start (Ok tt) Hinit) as (sc & res & Hsteps & Hcomplete & Hrun & Hres);
      [symmetry; apply Hs|by constructor|done|].
    exists sc, res. do 2 (split; [done|]). split; [|done]. apply Hforward; [done|].
    destruct (scope_reachable_ok body Hlocal Hbody w l outer Hrefs Hin Houter sc Hh Hsteps) as [E Hsc].
    apply (sp_world _ _ _ _ _ Hsc).
Qed.
End parallel_properties.

(** ** A run *)

Section runs.
Context {P : Platform}.

Fixpoint scope_act (outer : list (lock * mode))
    (body : SocketAddr * ClientRef → M (result unit ErrorParse)) (evs : list ScopeEvent)
    (sc : Scope) : outcome Scope :=
  match evs with
  | [] => Done sc
  | ev :: evs => sc ← scope_step outer body ev sc; scope_act outer body evs sc
  end.

Lemma scope_act_steps outer body evs sc sc' :
  scope_act outer body evs sc = Done sc' → rtc (scope_next outer body) sc sc'.
Proof.
  revert sc. induction evs as [|ev evs IH]; intros sc; cbn [scope_act].
  - by intros [= <-].
  - destruct (scope_step outer body ev sc) as [sc1| |] eqn:Hs; [|done..].
    intros Hrun. eapply rtc_l; [by exists ev|by apply IH].
Qed.
End runs.

(** A viewer that can be served and one without an SRTP context, at the same time. *)
Definition two_viewers : gmap SocketAddr ClientRef :=
  {[ viewer_addr := 1%nat; rival_addr := 2%nat ]}.

Definition parallel_body : SocketAddr * ClientRef → M (P := sample_platform) (result unit ErrorParse) :=
  serve (P := sample_platform) streamer_addr false None
    {| marker := false; payload := 96; sequence := 7; timestamp := 300 |} (sample_packet 96).

Definition parallel_events : list ScopeEvent :=
  [ScStart 0; ScStart 0; ScOp 1; ScOp 0; ScOp 0; ScOp 1; ScOp 1; ScOp 0; ScOp 1; ScOp 0;
   ScOp 1; ScOp 1].

Definition parallel_check : bool :=
  match scope_act [(LReceivers 0, Read)] parallel_body parallel_events
          (scope_init (sample_world two_viewers) (map_to_list two_viewers)) with
  | Done sc => bool_decide (sc_todo sc = []) && failed sc &&
               forallb (λ ch, finished (ch_prog ch)) (sc_children sc) &&
               bool_decide (length (w_sent (sc_world sc)) = 1%nat)
  | _ => false
  end.

Lemma two_viewers_lookup a r :
  two_viewers !! a = Some r → a = viewer_addr ∧ r = 1%nat ∨ a = rival_addr ∧ r = 2%nat.
Proof.
  unfold two_viewers.
  intros [[<- <-]|[_ [<- <-]%lookup_singleton_Some]]%lookup_insert_Some; [by left|by right].
Qed.

Lemma parallel_forwarding_witness : ∃ sc s res,
  schedule_ok s ∧ failed sc = true ∧
  forward (P := sample_platform) s 0 streamer_addr false None
    {| marker := false; payload := 96; sequence := 7; timestamp := 300 |} (sample_packet 96)
    (sample_world two_viewers) = Done (res, sc_world sc) ∧ res ≠ Ok tt.
Proof.
  assert (parallel_check = true) as Hcheck by (vm_compute; reflexivity). revert Hcheck.
  unfold parallel_check.
  destruct (scope_act _ _ _ _) as [sc| |] eqn:Hrun; [|discriminate 1..].
  intros [[[Htodo%bool_decide_eq_true Hfailed]%andb_prop Hfin]%andb_prop _]%andb_prop.
  destruct (parallel_forwarding (P := sample_platform) 0 streamer_addr false None
    {| marker := false; payload := 96; sequence := 7; timestamp := 300 |} (sample_packet 96)
    (sample_world two_viewers) (sample_client two_viewers None)) as (_ & Hall & _).
  - discriminate.
  - reflexivity.
  - reflexivity.
  - reflexivity.
  - intros a r' [[_ ->]|[_ ->]]%two_viewers_lookup; by eexists.
  - intros a a' r' [[-> ->]|[-> ->]]%two_viewers_lookup [[-> Hr]|[-> Hr]]%two_viewers_lookup;
      done.
  - destruct (Hall sc) as (_ & _ & Hcomplete); [exact (scope_act_steps _ _ _ _ _ Hrun)|].
    destruct Hcomplete as (s & res & Hs & Hforward & Hres).
    { split; [exact Htodo|]. apply Forall_forall. intros ch Hch.
      rewrite forallb_forall in Hfin. apply Hfin. by apply list_elem_of_In. }
    exists sc, s, res. split; [exact Hs|]. split; [exact Hfailed|]. split; [exact Hforward|].
    intros Hok. rewrite (proj1 Hres Hok) in Hfailed. discriminate Hfailed.
Defined.
